(** * web-graph: the text parser, the persistence layer and the 2D canvas

    A shallow embedding of the parts of the repository that its
    specification makes claims about:

    - [GraphParser]    : [parseGraphData] of [src/lib/graph-parser.ts];
    - [GraphView]      : the canvas of [src/components/graph-view.tsx]
                         (colour scale, node sizing, edge trimming, wheel
                         zoom, the drag gesture);
    - [SimpleDragGraph]: the older copy [src/components/simple-drag-graph.tsx];
    - [D3Graph]        : the d3 canvas with JSON export and import;

    and of the code around them:

    - [GraphCanvas]    : the effects that place the nodes of
                         [graph-view.tsx], its zoom controls, deletion,
                         recoloring and markers;
    - [GraphVisualizer]: the component of
                         [src/components/graph-visualizer-3d.tsx] that owns
                         the document and feeds the canvas;
    - [D3Sizes]        : the node sizes of the d3 canvas;
    - [D3Drag]         : the drag handlers of the d3 canvas;
    - [PlantUML]       : [exportToPlantUML] of [src/lib/graph-parser.ts].

    Conventions.  A JavaScript string is the list of its UTF-16 code units
    ([str]); the em and en dashes of the connection grammar are single code
    units.  A JavaScript number is idealised as an exact rational ([Q]);
    [Math.sqrt] takes the edge geometry to the reals.  The infinities are
    outside the model, and so is NaN except as the result of [Number(v)]
    and of the radius computed from it, where it is [None]; the [isNaN]
    guards on positions have no counterpart.  [undefined] is [None].

    The functions of the platform that the code calls ([JSON.parse],
    [JSON.stringify], [Number], [Math.random]) are parameters of the
    definitions that use them; [RefJSON] is an instance of the first two
    for running the definitions.  A component is modelled by the state
    its handlers read and write.  The pointer handlers of
    [graph-view.tsx] are closures of a render: [GraphView.run] keeps the
    state that the attached listeners have seen apart from the current
    one, and renders are actions of their own; [GraphView.step] and
    [GraphCanvas.controls] are the runs in which the component renders
    after every event.  The drag handlers of the d3 canvas
    are those of its first render and work on refs and on the drawing. *)

From Stdlib Require Import Strings.String Strings.Ascii DecimalString.
From Stdlib Require Import List Bool Arith NArith ZArith QArith Qminmax Lia.
From Stdlib Require Import Reals Lra Qreals.
From Stdlib Require Lqa.
From Stdlib Require Import Sorting.Permutation Sorting.Sorted.
Import ListNotations.

Set Implicit Arguments.

(** ** Strings as code-unit lists *)

Definition char := N.
Definition str := list char.

(** An ASCII literal as a code-unit list. *)
Definition lit (x : String.string) : str :=
  List.map N_of_ascii (String.list_ascii_of_string x).

Arguments lit x%_string.

Definition str_eq_dec : forall a b : str, {a = b} + {a <> b} :=
  list_eq_dec N.eq_dec.

Definition str_eqb (a b : str) : bool :=
  if str_eq_dec a b then true else false.

(** ECMAScript WhiteSpace and LineTerminator: the class [\s] of a regular
    expression and the characters removed by [String.prototype.trim]. *)
Definition is_space (c : char) : bool :=
  ((9 <=? c) && (c <=? 13) || (c =? 32) || (c =? 160) || (c =? 5760)
   || (8192 <=? c) && (c <=? 8202) || (c =? 8232) || (c =? 8233)
   || (c =? 8239) || (c =? 8287) || (c =? 12288) || (c =? 65279))%N.

Fixpoint dropWhile (p : char -> bool) (s : str) : str :=
  match s with
  | [] => []
  | c :: r => if p c then dropWhile p r else s
  end.

Definition trim (s : str) : str :=
  rev (dropWhile is_space (rev (dropWhile is_space s))).

(** [s.split(/[...]/)] for a one-character class [sep]. *)
Fixpoint split (sep : char -> bool) (s : str) : list str :=
  match s with
  | [] => [[]]
  | c :: r =>
      if sep c then [] :: split sep r
      else match split sep r with
           | h :: t => (c :: h) :: t
           | [] => [[c]]
           end
  end.

Definition nonempty (s : str) : bool :=
  match s with [] => false | _ => true end.

(** ** JSON values *)

#[warnings="-register-all"]
Inductive Json : Type :=
| JNull
| JBool (b : bool)
| JNum (q : Q)
| JStr (s : str)
| JArr (l : list Json)
| JObj (kvs : list (str * Json)).

(** Association lists stand for objects and for [Map]; insertion order is
    kept and a key is looked up from the front. *)
Fixpoint lookup {A} (k : str) (m : list (str * A)) : option A :=
  match m with
  | [] => None
  | (k', v) :: r => if str_eq_dec k k' then Some v else lookup k r
  end.

Definition has {A} (k : str) (m : list (str * A)) : bool :=
  match lookup k m with Some _ => true | None => false end.

(** [Map.prototype.set]: an existing key keeps its place, a new key goes
    to the end. *)
Fixpoint map_set {A} (k : str) (v : A) (m : list (str * A)) : list (str * A) :=
  match m with
  | [] => [(k, v)]
  | (k', v') :: r =>
      if str_eq_dec k k' then (k', v) :: r else (k', v') :: map_set k v r
  end.

(** The names that every plain object inherits from [Object.prototype].
    Read at one of them, a plain object without an own property of that
    name yields the inherited member, and a primitive value written at
    [__proto__] is dropped.  Where an association list stands for a
    plain object (a [Record]), it does so at the keys that are not
    among these names; a [Map] has no such keys. *)
Definition prototypeMembers : list str :=
  [ lit "constructor"; lit "hasOwnProperty"; lit "isPrototypeOf";
    lit "propertyIsEnumerable"; lit "toLocaleString"; lit "toString";
    lit "valueOf"; lit "__proto__"; lit "__defineGetter__";
    lit "__defineSetter__"; lit "__lookupGetter__"; lit "__lookupSetter__" ].

Definition ownKey (k : str) : bool :=
  negb (existsb (str_eqb k) prototypeMembers).

(** JavaScript truthiness of a JSON value. *)
Definition truthy (v : Json) : bool :=
  match v with
  | JNull => false
  | JBool b => b
  | JNum q => negb (Qeq_bool q 0)
  | JStr s => nonempty s
  | JArr _ | JObj _ => true
  end.

(** Modelled from the spec: two values are observably equal when they
    have the same shape, the same strings and booleans, the same keys in
    the same order, and numbers of the same value. *)
Fixpoint same (v w : Json) {struct v} : Prop :=
  match v, w with
  | JNull, JNull => True
  | JBool a, JBool b => a = b
  | JNum p, JNum q => Qeq p q
  | JStr a, JStr b => a = b
  | JArr l, JArr m =>
      (fix all (l m : list Json) {struct l} : Prop :=
         match l, m with
         | [], [] => True
         | x :: l', y :: m' => same x y /\ all l' m'
         | _, _ => False
         end) l m
  | JObj kvs, JObj kws =>
      (fix all (kvs kws : list (str * Json)) {struct kvs} : Prop :=
         match kvs, kws with
         | [], [] => True
         | (k, x) :: r, (k', y) :: r' => k = k' /\ same x y /\ all r r'
         | _, _ => False
         end) kvs kws
  | _, _ => False
  end.

(** The same for two collections of values. *)
Definition sameAll (l m : list Json) : Prop := same (JArr l) (JArr m).

(** ** Backtracking regular expressions

    The matcher follows the ECMAScript semantics: alternatives are tried
    left to right, quantifiers are greedy and give characters back on
    failure, a group records the substring it last matched. *)
Module Regex.

Inductive re : Type :=
| Eps
| Chr (p : char -> bool)
| Seq (a b : re)
| Alt (a b : re)
| Star (a : re)
| Group (i : nat) (a : re).

Definition Plus (a : re) : re := Seq a (Star a).
Definition Opt (a : re) : re := Alt a Eps.

Fixpoint Lit (s : str) : re :=
  match s with
  | [] => Eps
  | c :: r => Seq (Chr (N.eqb c)) (Lit r)
  end.

Definition caps := list (nat * str).

Fixpoint capture (i : nat) (c : caps) : option str :=
  match c with
  | [] => None
  | (j, s) :: r => if Nat.eqb i j then Some s else capture i r
  end.

Section Match.
Variable A : Type.

Fixpoint run (r : re) (s : str) (c : caps)
         (k : str -> caps -> option A) {struct r} : option A :=
  match r with
  | Eps => k s c
  | Chr p =>
      match s with
      | x :: s' => if p x then k s' c else None
      | [] => None
      end
  | Seq a b => run a s c (fun s' c' => run b s' c' k)
  | Alt a b =>
      match run a s c k with
      | Some x => Some x
      | None => run b s c k
      end
  | Star a =>
      (fix loop (n : nat) (s : str) (c : caps) {struct n} : option A :=
         match n with
         | O => k s c
         | S n' =>
             match run a s c
                     (fun s' c' =>
                        if Nat.ltb (length s') (length s)
                        then loop n' s' c' else None) with
             | Some x => Some x
             | None => k s c
             end
         end) (length s) s c
  | Group i a =>
      run a s c
          (fun s' c' => k s' ((i, firstn (length s - length s') s) :: c'))
  end.
End Match.

(** [s.match(r)] without the [g] flag: the leftmost match. *)
Fixpoint search (r : re) (s : str) : option caps :=
  match run r s [] (fun _ c => Some c) with
  | Some c => Some c
  | None =>
      match s with
      | [] => None
      | _ :: s' => search r s'
      end
  end.

End Regex.

(** ** [src/lib/graph-parser.ts] *)
Module GraphParser.

Record Node : Type := mkNode {
  id : str;
  name : Json;                 (* a string until a property bag overwrites it *)
  properties : option Json;
  color : option str
}.

Record Link : Type := mkLink {
  source : str;
  target : str;
  link_color : option str
}.

Record GraphData : Type := mkGraphData {
  nodes : list Node;
  links : list Link
}.

Definition minus_ : char := 45%N.
Definition equals_ : char := 61%N.
Definition greater_ : char := 62%N.
Definition lbracket_ : char := 91%N.
Definition rbracket_ : char := 93%N.
Definition comma_ : char := 44%N.
Definition semicolon_ : char := 59%N.
Definition newline_ : char := 10%N.
Definition emdash_ : char := 8212%N.
Definition endash_ : char := 8211%N.

(** [[^-=>\s]] *)
Definition idChar (c : char) : bool :=
  negb (N.eqb c minus_ || N.eqb c equals_ || N.eqb c greater_ || is_space c).

(** [[^-=>\s[]] *)
Definition targetChar (c : char) : bool :=
  negb (N.eqb c minus_ || N.eqb c equals_ || N.eqb c greater_ || is_space c
        || N.eqb c lbracket_).

(** [[^\]]] *)
Definition colorChar (c : char) : bool := negb (N.eqb c rbracket_).

(** [->|=>|—|–|-] *)
Definition arrow : Regex.re :=
  Regex.Alt (Regex.Lit [minus_; greater_])
    (Regex.Alt (Regex.Lit [equals_; greater_])
       (Regex.Alt (Regex.Lit [emdash_])
          (Regex.Alt (Regex.Lit [endash_]) (Regex.Lit [minus_])))).

(** [/([^-=>\s]+)\s*(?:->|=>|—|–|-)\s*([^-=>\s[]+)(?:\[([^\]]+)\])?/] *)
Definition connectionRe : Regex.re :=
  Regex.Seq (Regex.Group 1 (Regex.Plus (Regex.Chr idChar)))
    (Regex.Seq (Regex.Star (Regex.Chr is_space))
       (Regex.Seq arrow
          (Regex.Seq (Regex.Star (Regex.Chr is_space))
             (Regex.Seq (Regex.Group 2 (Regex.Plus (Regex.Chr targetChar)))
                (Regex.Opt
                   (Regex.Seq (Regex.Chr (N.eqb lbracket_))
                      (Regex.Seq
                         (Regex.Group 3 (Regex.Plus (Regex.Chr colorChar)))
                         (Regex.Chr (N.eqb rbracket_))))))))).

(** The parts of the pattern: the optional color, the target with it,
    and all that follows the first group. *)
Definition colorRe : Regex.re :=
  Regex.Seq (Regex.Chr (N.eqb lbracket_))
    (Regex.Seq
       (Regex.Group 3 (Regex.Plus (Regex.Chr colorChar)))
       (Regex.Chr (N.eqb rbracket_))).

Definition targetRe : Regex.re :=
  Regex.Seq (Regex.Group 2 (Regex.Plus (Regex.Chr targetChar)))
            (Regex.Opt colorRe).

Definition afterSource : Regex.re :=
  Regex.Seq (Regex.Star (Regex.Chr is_space))
    (Regex.Seq arrow
       (Regex.Seq (Regex.Star (Regex.Chr is_space)) targetRe)).

(** [connection.match(...)] followed by
    [const [, sourceId, targetId, color] = match]. *)
Definition matchConnection (connection : str)
  : option (str * str * option str) :=
  match Regex.search connectionRe connection with
  | Some c =>
      match Regex.capture 1 c, Regex.capture 2 c with
      | Some sourceId, Some targetId =>
          Some (sourceId, targetId, Regex.capture 3 c)
      | _, _ => None
      end
  | None => None
  end.

(** [connectionsText.split(/[,;\n]/).map(trim).filter(Boolean)] *)
Definition separator (c : char) : bool :=
  N.eqb c comma_ || N.eqb c semicolon_ || N.eqb c newline_.

Definition connectionsOf (connectionsText : str) : list str :=
  filter nonempty (List.map trim (split separator connectionsText)).

(** The locals of [parseGraphData]: the [Map] of nodes, the link array,
    and what [console.warn] has received. *)
Record St : Type := mkSt {
  st_nodes : list (str * Node);
  st_links : list Link;
  st_warnings : list str
}.

Definition newNode (i : str) (p : option Json) : Node :=
  mkNode i (JStr i) p None.

Definition ensureNode (i : str) (m : list (str * Node)) : list (str * Node) :=
  if has i m then m else map_set i (newNode i None) m.

(** [color || undefined] *)
Definition orUndefined (c : option str) : option str :=
  match c with
  | Some s => if nonempty s then Some s else None
  | None => None
  end.

(** One iteration of [for (const connection of connections)]. *)
Definition connectionStep (st : St) (connection : str) : St :=
  match matchConnection connection with
  | Some (sourceId, targetId, color) =>
      mkSt (ensureNode targetId (ensureNode sourceId (st_nodes st)))
           (st_links st ++ [mkLink sourceId targetId (orUndefined color)])
           (st_warnings st)
  | None =>
      mkSt (st_nodes st) (st_links st) (st_warnings st ++ [connection])
  end.

Definition parseConnections (connectionsText : str) (st : St) : St :=
  if nonempty (trim connectionsText)
  then fold_left connectionStep (connectionsOf connectionsText) st
  else st.

Definition indexKey (n : nat) : str :=
  lit (DecimalString.NilEmpty.string_of_uint (Nat.to_uint n)).

Fixpoint indexed {A} (n : nat) (l : list A) : list (str * A) :=
  match l with
  | [] => []
  | x :: r => (indexKey n, x) :: indexed (S n) r
  end.

(** The message of the [TypeError] that [Object.entries(null)] throws. *)
Definition nullEntriesMessage : str :=
  lit "Cannot convert undefined or null to object".

(** [Object.entries(v)] for a parsed JSON value. *)
Definition Object_entries (v : Json) : list (str * Json) + str :=
  match v with
  | JObj kvs => inl kvs
  | JArr l => inl (indexed 0 l)
  | JStr s => inl (indexed 0 (List.map (fun c => JStr [c]) s))
  | JNum _ | JBool _ => inl []
  | JNull => inr nullEntriesMessage
  end.

(** [nodeProps && typeof nodeProps === "object" && "name" in nodeProps],
    giving [nodeProps.name]. *)
Definition nameOf (nodeProps : Json) : option Json :=
  match nodeProps with
  | JObj kvs => lookup (lit "name") kvs
  | _ => None
  end.

(** One iteration of [for (const [nodeId, nodeProps] of ...)].  The node
    object held by the [Map] is updated in place. *)
Definition propertyStep (m : list (str * Node)) (e : str * Json)
  : list (str * Node) :=
  let (nodeId, nodeProps) := e in
  match lookup nodeId m with
  | Some node =>
      let node' :=
        mkNode (id node)
               (match nameOf nodeProps with Some v => v | None => name node end)
               (Some nodeProps) (color node) in
      map_set nodeId node' m
  | None => map_set nodeId (newNode nodeId (Some nodeProps)) m
  end.

(** The link a connection contributes, the links of a list of
    connections, and the connections that fail the grammar. *)
Definition linkOf (connection : str) : option Link :=
  match matchConnection connection with
  | Some (sourceId, targetId, color) =>
      Some (mkLink sourceId targetId (orUndefined color))
  | None => None
  end.

Definition edgesOf (connections : list str) : list Link :=
  flat_map (fun c => match linkOf c with Some l => [l] | None => [] end)
           connections.

Definition skipped (connections : list str) : list str :=
  filter (fun c => match matchConnection c with
                   | Some _ => false
                   | None => true
                   end) connections.

(** Well-formedness of the locals: the keys of the [Map] are distinct,
    every node is stored under its own id, and both ends of every link
    are keys. *)
Definition keyed (kv : str * Node) : Prop := id (snd kv) = fst kv.

Definition closed (keys : list str) (l : Link) : Prop :=
  In (source l) keys /\ In (target l) keys.

Definition wf (m : list (str * Node)) (ls : list Link) : Prop :=
  NoDup (List.map fst m) /\ Forall keyed m
  /\ Forall (closed (List.map fst m)) ls.

Definition failurePrefix : str := lit "Failed to parse node properties: ".

Section Parse.
(** [JSON.parse]: the value, or the message of the [SyntaxError]. *)
Variable JSON_parse : str -> Json + str.

(** The [try] block; [inr] is the message of the caught error. *)
Definition parseProperties (propertiesText : str) (m : list (str * Node))
  : list (str * Node) + str :=
  match JSON_parse propertiesText with
  | inr message => inr message
  | inl properties =>
      match Object_entries properties with
      | inr message => inr message
      | inl entries => inl (fold_left propertyStep entries m)
      end
  end.

(** The outcome of the call ([inl] the returned graph, [inr] the
    message of the thrown [Error]) and the [console.warn] diagnostics. *)
Definition parseGraphData (connectionsText propertiesText : str)
  : (GraphData + str) * list str :=
  let st := parseConnections connectionsText (mkSt [] [] []) in
  if nonempty (trim propertiesText) then
    match parseProperties propertiesText (st_nodes st) with
    | inr message => (inr (failurePrefix ++ message), st_warnings st)
    | inl m => (inl (mkGraphData (List.map snd m) (st_links st)),
                st_warnings st)
    end
  else (inl (mkGraphData (List.map snd (st_nodes st)) (st_links st)),
        st_warnings st).
End Parse.

End GraphParser.

(** ** A reference [JSON.parse]

    [parseGraphData] is stated over an arbitrary [JSON.parse]; this
    reader of the JSON grammar (RFC 8259) is the instance used to run it.
    A repeated key keeps its first place and its last value, as in the
    platform; keys that are array indices are not moved to the front. *)
Module RefJSON.

Definition jsonSpace (c : char) : bool :=
  ((c =? 32) || (c =? 9) || (c =? 10) || (c =? 13))%N.

Definition skip (s : str) : str := dropWhile jsonSpace s.

Definition isDigit (c : char) : bool := ((48 <=? c) && (c <=? 57))%N.

Definition hexValue (c : char) : option N :=
  if isDigit c then Some (c - 48)%N
  else if ((97 <=? c) && (c <=? 102))%N then Some (c - 87)%N
  else if ((65 <=? c) && (c <=? 70))%N then Some (c - 55)%N
  else None.

(** The rest of [s] after the character [c], when [s] starts with it. *)
Definition after (c : char) (s : str) : option str :=
  match s with
  | x :: r => if (x =? c)%N then Some r else None
  | [] => None
  end.

(** The character that a one-letter escape stands for. *)
Definition unescape (e : char) : option char :=
  if ((e =? 34) || (e =? 92) || (e =? 47))%N then Some e
  else if (e =? 98)%N then Some 8%N
  else if (e =? 102)%N then Some 12%N
  else if (e =? 110)%N then Some 10%N
  else if (e =? 114)%N then Some 13%N
  else if (e =? 116)%N then Some 9%N
  else None.

(** The code unit written by four hexadecimal digits. *)
Definition hex4 (s : str) : option (char * str) :=
  match s with
  | a :: b :: c :: d :: r =>
      match hexValue a, hexValue b, hexValue c, hexValue d with
      | Some a, Some b, Some c, Some d =>
          Some ((a * 4096 + b * 256 + c * 16 + d)%N, r)
      | _, _, _, _ => None
      end
  | _ => None
  end.

(** The characters of a string literal after its opening quote. *)
Fixpoint stringBody (n : nat) (s acc : str) : option (str * str) :=
  match n with
  | O => None
  | S n' =>
      match s with
      | [] => None
      | c :: r =>
          if (c =? 34)%N then Some (rev acc, r)
          else if (c =? 92)%N then
            match r with
            | [] => None
            | e :: r1 =>
                if (e =? 117)%N then
                  match hex4 r1 with
                  | Some (u, r2) => stringBody n' r2 (u :: acc)
                  | None => None
                  end
                else
                  match unescape e with
                  | Some u => stringBody n' r1 (u :: acc)
                  | None => None
                  end
            end
          else if (c <? 32)%N then None
          else stringBody n' r (c :: acc)
      end
  end.

Fixpoint digits (s : str) (acc : N) (count : nat) : N * nat * str :=
  match s with
  | c :: r => if isDigit c then digits r (acc * 10 + (c - 48))%N (S count)
              else (acc, count, s)
  | [] => (acc, count, s)
  end.

Definition scale (m : Z) (e : Z) : Q :=
  match e with
  | Zneg p => Qmake m (Pos.pow 10 p)
  | _ => inject_Z (m * 10 ^ e)
  end.

(** [-?] *)
Definition sign (s : str) : bool * str :=
  match after 45%N s with
  | Some r => (true, r)
  | None => (false, s)
  end.

(** A leading zero stands alone. *)
Definition leadingZero (s : str) (count : nat) : bool :=
  match after 48%N s with
  | Some _ => Nat.ltb 1 count
  | None => false
  end.

(** [frac?] after the integer part [ip]: the digits read so far as one
    number, the number of digits of the fraction, the rest, and whether
    a fraction that is there has a digit. *)
Definition fraction (ip : N) (s : str) : N * nat * str * bool :=
  match after 46%N s with
  | Some r =>
      let '(fp, fk, s3) := digits r ip 0 in
      (fp, fk, s3, negb (Nat.eqb fk 0))
  | None => (ip, O, s, true)
  end.

(** [exp?]: the exponent, the rest, and whether an exponent that is
    there has a digit. *)
Definition exponent (s : str) : Z * str * bool :=
  match match after 101%N s with Some r => Some r | None => after 69%N s end with
  | Some r =>
      let '(sg, r1) :=
        match after 43%N r with
        | Some r1 => (1%Z, r1)
        | None =>
            match after 45%N r with
            | Some r1 => ((-1)%Z, r1)
            | None => (1%Z, r)
            end
        end in
      let '(ep, ek, s4) := digits r1 0%N 0 in
      ((sg * Z.of_N ep)%Z, s4, negb (Nat.eqb ek 0))
  | None => (0%Z, s, true)
  end.

(** [-? int frac? exp?] *)
Definition number (s : str) : option (Q * str) :=
  let (neg, s1) := sign s in
  let '(ip, count, s2) := digits s1 0%N 0 in
  if Nat.eqb count 0 || leadingZero s1 count then None
  else
    let '(fp, fk, s3, okf) := fraction ip s2 in
    let '(ex, s4, oke) := exponent s3 in
    if okf && oke
    then Some (Qred (scale (if neg then - Z.of_N fp else Z.of_N fp)%Z
                           (ex - Z.of_nat fk)%Z), s4)
    else None.

Fixpoint dropPrefix (p s : str) : option str :=
  match p, s with
  | [], _ => Some s
  | a :: p', b :: s' => if N.eqb a b then dropPrefix p' s' else None
  | _ :: _, [] => None
  end.

Fixpoint value (n : nat) (s : str) {struct n} : option (Json * str) :=
  match n with
  | O => None
  | S n' =>
      match skip s with
      | [] => None
      | c :: r =>
          if (c =? 123)%N then
            match after 125%N (skip r) with
            | Some r' => Some (JObj [], r')
            | None => members n' r []
            end
          else if (c =? 91)%N then
            match after 93%N (skip r) with
            | Some r' => Some (JArr [], r')
            | None => elements n' r []
            end
          else if (c =? 34)%N then
            match stringBody (S (length r)) r [] with
            | Some (x, r') => Some (JStr x, r')
            | None => None
            end
          else if (c =? 116)%N then
            option_map (pair (JBool true)) (dropPrefix (lit "true") (c :: r))
          else if (c =? 102)%N then
            option_map (pair (JBool false)) (dropPrefix (lit "false") (c :: r))
          else if (c =? 110)%N then
            option_map (pair JNull) (dropPrefix (lit "null") (c :: r))
          else
            match number (c :: r) with
            | Some (q, r') => Some (JNum q, r')
            | None => None
            end
      end
  end
with members (n : nat) (s : str) (acc : list (str * Json)) {struct n}
     : option (Json * str) :=
  match n with
  | O => None
  | S n' =>
      match after 34%N (skip s) with
      | Some r =>
          match stringBody (S (length r)) r [] with
          | Some (key, r1) =>
              match after 58%N (skip r1) with
              | Some r2 =>
                  match value n' r2 with
                  | Some (v, r3) =>
                      match skip r3 with
                      | [] => None
                      | c :: r4 =>
                          if (c =? 44)%N
                          then members n' r4 (map_set key v acc)
                          else if (c =? 125)%N
                               then Some (JObj (map_set key v acc), r4)
                               else None
                      end
                  | None => None
                  end
              | None => None
              end
          | None => None
          end
      | None => None
      end
  end
with elements (n : nat) (s : str) (acc : list Json) {struct n}
     : option (Json * str) :=
  match n with
  | O => None
  | S n' =>
      match value n' s with
      | Some (v, r) =>
          match skip r with
          | [] => None
          | c :: r' =>
              if (c =? 44)%N then elements n' r' (acc ++ [v])
              else if (c =? 93)%N then Some (JArr (acc ++ [v]), r')
              else None
          end
      | None => None
      end
  end.

Definition syntaxError : str := lit "Unexpected token in JSON".

Definition parse (s : str) : Json + str :=
  match value (S (length s)) s with
  | Some (v, r) => match skip r with [] => inl v | _ => inr syntaxError end
  | None => inr syntaxError
  end.

(** The printer: [JSON.stringify(v, null, 2)].  A number is printed
    exactly when it is a double, that is an integer over a power of two;
    any other rational is printed as [null].  The numeral is the exact
    decimal value [m e-k]: its digits are not those of the shortest
    numeral that the platform prints, its value is. *)
Definition hexDigit (n : N) : char :=
  if (n <? 10)%N then (48 + n)%N else (87 + n)%N.

Definition escape (c : char) : str :=
  if (c =? 34)%N then [92%N; 34%N]
  else if (c =? 92)%N then [92%N; 92%N]
  else if (c <? 32)%N
       then [92%N; 117%N; 48%N; 48%N;
             hexDigit (c / 16)%N; hexDigit (c mod 16)%N]
       else [c].

Definition printString (x : str) : str :=
  (34%N :: flat_map escape x) ++ [34%N].

(** The decimal digits of [n] in front of [tail]. *)
Fixpoint decimal (fuel : nat) (n : N) (tail : str) : str :=
  match fuel with
  | O => tail
  | S fuel' =>
      if (n <? 10)%N then (48 + n)%N :: tail
      else decimal fuel' (n / 10)%N ((48 + n mod 10)%N :: tail)
  end.

Definition printNat (n : N) : str := decimal (S (N.size_nat n)) n [].

Definition printInt (z : Z) : str :=
  match z with
  | Z0 => printNat 0
  | Zpos p => printNat (Npos p)
  | Zneg p => 45%N :: printNat (Npos p)
  end.

Definition printNumber (q : Q) : str :=
  let r := Qred q in
  let k := pred (Pos.size_nat (Qden r)) in
  if Pos.eqb (Qden r) (Pos.shiftl_nat 1 k)
  then match k with
       | O => printInt (Qnum r)
       | S _ => printInt (Qnum r * 5 ^ Z.of_nat k)
                  ++ lit "e-" ++ printNat (N.of_nat k)
       end
  else lit "null".

(** A line break and the indentation of the given depth. *)
Definition newline (depth : nat) : str :=
  10%N :: repeat 32%N (2 * depth).

Fixpoint stringifyAt (depth : nat) (v : Json) : str :=
  match v with
  | JNull => lit "null"
  | JBool true => lit "true"
  | JBool false => lit "false"
  | JNum q => printNumber q
  | JStr x => printString x
  | JArr [] => lit "[]"
  | JArr (x :: l) =>
      lit "[" ++ newline (S depth) ++ stringifyAt (S depth) x
      ++ flat_map (fun y =>
                     lit "," ++ newline (S depth) ++ stringifyAt (S depth) y)
                  l
      ++ newline depth ++ lit "]"
  | JObj [] => lit "{}"
  | JObj ((k, x) :: kvs) =>
      lit "{" ++ newline (S depth) ++ printString k ++ lit ": "
      ++ stringifyAt (S depth) x
      ++ flat_map (fun kv =>
                     lit "," ++ newline (S depth) ++ printString (fst kv)
                     ++ lit ": " ++ stringifyAt (S depth) (snd kv))
                  kvs
      ++ newline depth ++ lit "}"
  end.

Definition stringify (v : Json) : str := stringifyAt 0 v.

(** A value that the printer writes as it is: every number is a double
    and no object has a key twice. *)
Definition isDouble (q : Q) : bool :=
  Pos.eqb (Qden (Qred q))
          (Pos.shiftl_nat 1 (pred (Pos.size_nat (Qden (Qred q))))).

Fixpoint distinct (keys : list str) : bool :=
  match keys with
  | [] => true
  | k :: r => negb (existsb (str_eqb k) r) && distinct r
  end.

Fixpoint isData (v : Json) : bool :=
  match v with
  | JNum q => isDouble q
  | JArr l => forallb isData l
  | JObj kvs =>
      distinct (List.map fst kvs) && forallb (fun kv => isData (snd kv)) kvs
  | _ => true
  end.

(** The value with every number in lowest terms, which is how the
    parser returns it. *)
Fixpoint reduced (v : Json) : Json :=
  match v with
  | JNum q => JNum (Qred q)
  | JArr l => JArr (List.map reduced l)
  | JObj kvs => JObj (List.map (fun kv => (fst kv, reduced (snd kv))) kvs)
  | _ => v
  end.

(** What may follow a numeral: nothing, or a character that does not
    continue it. *)
Definition delimited (rest : str) : Prop :=
  forall c r, rest = c :: r ->
              isDigit c = false /\ c <> 46%N /\ c <> 101%N /\ c <> 69%N.

(** The fuel that reading a value takes. *)
Fixpoint need (v : Json) : nat :=
  match v with
  | JArr l => S (list_sum (List.map (fun x => S (need x)) l))
  | JObj kvs => S (list_sum (List.map (fun kv => S (need (snd kv))) kvs))
  | _ => 1
  end.

(** The parser reads the printed value back, whatever the indentation
    and whatever follows, given the fuel. *)
Definition readsBack (v : Json) : Prop :=
  isData v = true ->
  forall (depth n : nat) (rest : str),
    (need v <= n)%nat -> delimited rest ->
    value n (stringifyAt depth v ++ rest) = Some (reduced v, rest).

End RefJSON.

(** ** [src/components/graph-view.tsx] *)
Module GraphView.
Local Open Scope Q_scope.

Record Node : Type := mkNode {
  id : str;
  label : str;
  x : option Q;
  y : option Q;
  color : option str;
  properties : option (list (str * Json))
}.

Record Edge : Type := mkEdge {
  from : str;
  to : str;
  edge_color : option str
}.

Inductive SizingMode : Type :=
| Uniform | Incoming | Outgoing | Provided | Property.

(** [node.properties?.[key]] *)
Definition prop (key : str) (node : Node) : option Json :=
  match properties node with
  | Some ps => lookup key ps
  | None => None
  end.

Definition defaultGroup : str := lit "default".

(** [node.properties?.group || "default"], for a group that is a string
    or is falsy, as its type [group?: string] says: see [plainGroup]. *)
Definition groupOf (node : Node) : str :=
  match prop (lit "group") node with
  | Some (JStr g) => if nonempty g then g else defaultGroup
  | _ => defaultGroup
  end.

(** The nodes at which [groupOf] and the color records are the code's:
    the group is absent, falsy or a string, and it is not the name of a
    member of [Object.prototype]. *)
Definition plainGroup (node : Node) : bool :=
  match prop (lit "group") node with
  | Some (JStr g) => ownKey g
  | Some v => negb (truthy v)
  | None => true
  end.

(** [Set.prototype.add]: first occurrences, in insertion order. *)
Definition setAdd (acc : list str) (g : str) : list str :=
  if existsb (str_eqb g) acc then acc else acc ++ [g].

(** [Array.from(new Set(allGroups))] *)
Definition groups (nodes : list Node) : list str :=
  fold_left setAdd (List.map groupOf nodes) [].

(** The default comparison of [Array.prototype.sort]: code units,
    left to right, a proper prefix first. *)
Fixpoint str_ltb (a b : str) : bool :=
  match a, b with
  | _, [] => false
  | [], _ :: _ => true
  | c :: a', d :: b' =>
      if N.ltb c d then true
      else if N.eqb c d then str_ltb a' b' else false
  end.

Definition str_leb (a b : str) : bool := negb (str_ltb b a).

Fixpoint insert (g : str) (l : list str) : list str :=
  match l with
  | [] => [g]
  | h :: t => if str_leb g h then g :: l else h :: insert g t
  end.

(** [[...groups].sort()] *)
Definition sort (l : list str) : list str := fold_right insert [] l.

Definition defaultColors : list str :=
  [ lit "#4285F4"; lit "#EA4335"; lit "#FBBC05"; lit "#34A853";
    lit "#8E24AA"; lit "#00ACC1"; lit "#FB8C00"; lit "#607D8B";
    lit "#E91E63"; lit "#9E9E9E" ].

(** [defaultColors[index % defaultColors.length]] *)
Definition paletteAt (index : nat) : str :=
  nth (index mod List.length defaultColors) defaultColors [].

(** [a || b] on strings. *)
Definition orElse (a : option str) (b : str) : str :=
  match a with
  | Some c => if nonempty c then c else b
  | None => b
  end.

(** The body of [sortedGroups.forEach((group, index) => ...)]:
    [colorMap[group] = customGroupColors[group] || defaultColors[...]],
    both records read and written at a [group] that is an [ownKey]. *)
Definition assign (customGroupColors : list (str * str))
           (colorMap : list (str * str)) (e : nat * str) : list (str * str) :=
  let (index, group) := e in
  map_set group (orElse (lookup group customGroupColors) (paletteAt index))
          colorMap.

Definition withIndex {A} (l : list A) : list (nat * A) :=
  combine (seq 0 (List.length l)) l.

Definition colorScale (groups : list str)
           (customGroupColors : list (str * str)) : list (str * str) :=
  let sortedGroups := sort groups in
  fold_left (assign customGroupColors) (withIndex sortedGroups) [].

(** The [fill] of a node's circle:
    [node.color || (node.properties?.group ? colorScale[group]
                                           : colorScale["default"])],
    for a node with a [plainGroup]. *)
Definition fillOf (colorMap : list (str * str)) (node : Node) : option str :=
  match color node with
  | Some c => if nonempty c then Some c else lookup (groupOf node) colorMap
  | None => lookup (groupOf node) colorMap
  end.

Definition ofNat (n : nat) : Q := inject_Z (Z.of_nat n).

Definition incomingCount (edges : list Edge) (i : str) : nat :=
  List.length (filter (fun e => str_eqb (to e) i) edges).

Definition outgoingCount (edges : list Edge) (i : str) : nat :=
  List.length (filter (fun e => str_eqb (from e) i) edges).

(** [Math.max(1, ...l)] *)
Definition maxWithOne (l : list nat) : nat := fold_right Nat.max 1%nat l.

Definition maxIncoming (nodes : list Node) (edges : list Edge) : nat :=
  maxWithOne (List.map (fun n => incomingCount edges (id n)) nodes).

Definition maxOutgoing (nodes : list Node) (edges : list Edge) : nat :=
  maxWithOne (List.map (fun n => outgoingCount edges (id n)) nodes).

Section Sizing.
(** [Number(v)] for a JSON value: the number, or [None] for NaN. *)
Variable Number_ : Json -> option Q.

(** [node.properties?.[nodeSizingProperty]], guarded by
    [nodeSizingProperty &&]. *)
Definition sizingValue (nodeSizingProperty : option str) (node : Node)
  : option Json :=
  match nodeSizingProperty with
  | Some p => if nonempty p then prop p node else None
  | None => None
  end.

(** The numeric values of the chosen property across all nodes. *)
Definition propertyValues (p : option str) (nodes : list Node) : list Q :=
  flat_map (fun n => match sizingValue p n with
                     | Some v => match Number_ v with
                                 | Some q => [q]
                                 | None => []
                                 end
                     | None => []
                     end) nodes.

(** The branch of mode [property]; [None] is NaN. *)
Definition propertySize (p : option str) (nodes : list Node) (v : Json)
  : option Q :=
  match propertyValues p nodes with
  | [] => Some 8
  | q0 :: r =>
      let min := fold_left Qmin r q0 in
      let max := fold_left Qmax r q0 in
      if Qeq_bool min max then Some 8
      else match Number_ v with
           | Some value => Some (4 + ((value - min) / (max - min)) * 16)
           | None => None
           end
  end.

(** [getNodeSize(node, index)]; [index] is not used by the source.
    [None] is NaN. *)
Definition getNodeSize (nodeSizingMode : SizingMode)
           (nodeSizingProperty : option str)
           (nodes : list Node) (edges : list Edge) (node : Node)
  : option Q :=
  match nodeSizingMode, prop (lit "size") node,
        sizingValue nodeSizingProperty node with
  | Uniform, _, _ => Some 8
  | Provided, Some size, _ =>
      option_map (fun q => Qmax 4 (Qmin 20 q)) (Number_ size)
  | Property, _, Some v => propertySize nodeSizingProperty nodes v
  | Incoming, _, _ =>
      Some (5 + (ofNat (incomingCount edges (id node))
                 / ofNat (maxIncoming nodes edges)) * 15)
  | Outgoing, _, _ =>
      Some (5 + (ofNat (outgoingCount edges (id node))
                 / ofNat (maxOutgoing nodes edges)) * 15)
  | _, _, _ => Some 8
  end.
End Sizing.

(** *** Edge geometry *)

(** The trimmed segment; a coordinate is [None] when it is NaN. *)
Record Endpoints : Type := mkEndpoints {
  sourceX : option R;
  sourceY : option R;
  targetX : option R;
  targetY : option R
}.

Section Geometry.
Variable Number_ : Json -> option Q.
Variable nodeSizingMode : SizingMode.
Variable nodeSizingProperty : option str.
Variable nodes : list Node.
Variable edges : list Edge.

Definition calculateEdgeEndpoints (source target : Node)
  : option Endpoints :=
  match x source, y source, x target, y target with
  | Some sx, Some sy, Some tx, Some ty =>
      let sourceSize :=
        getNodeSize Number_ nodeSizingMode nodeSizingProperty nodes edges
                    source in
      let targetSize :=
        getNodeSize Number_ nodeSizingMode nodeSizingProperty nodes edges
                    target in
      let dx := (Q2R tx - Q2R sx)%R in
      let dy := (Q2R ty - Q2R sy)%R in
      let distance := sqrt (dx * dx + dy * dy)%R in
      if Req_EM_T distance 0%R then None
      else
        let nx := (dx / distance)%R in
        let ny := (dy / distance)%R in
        Some (mkEndpoints
                (option_map (fun r => (Q2R sx + nx * Q2R r)%R) sourceSize)
                (option_map (fun r => (Q2R sy + ny * Q2R r)%R) sourceSize)
                (option_map (fun r => (Q2R tx - nx * Q2R r)%R) targetSize)
                (option_map (fun r => (Q2R ty - ny * Q2R r)%R) targetSize))
  | _, _, _, _ => None
  end.

(** The body of [edges.map((edge, i) => ...)]: the line drawn for an
    edge, or [None] when the edge is skipped. *)
Definition edgeLine (edge : Edge) : option Endpoints :=
  match find (fun n => str_eqb (id n) (from edge)) nodes,
        find (fun n => str_eqb (id n) (to edge)) nodes with
  | Some source, Some target => calculateEdgeEndpoints source target
  | _, _ => None
  end.
End Geometry.

(** The distance between two centres, and the segment between the
    boundary circles of two nodes with the given centres and radii:
    [d = (target - source) / |target - source|], from
    [source + d * sourceRadius] to [target - d * targetRadius]. *)
Definition centreDistance (sx sy tx ty : Q) : R :=
  sqrt ((Q2R tx - Q2R sx) * (Q2R tx - Q2R sx)
        + (Q2R ty - Q2R sy) * (Q2R ty - Q2R sy))%R.

Definition trimmed (sx sy tx ty sourceRadius targetRadius : Q) : Endpoints :=
  let dX := ((Q2R tx - Q2R sx) / centreDistance sx sy tx ty)%R in
  let dY := ((Q2R ty - Q2R sy) / centreDistance sx sy tx ty)%R in
  mkEndpoints (Some (Q2R sx + dX * Q2R sourceRadius)%R)
              (Some (Q2R sy + dY * Q2R sourceRadius)%R)
              (Some (Q2R tx - dX * Q2R targetRadius)%R)
              (Some (Q2R ty - dY * Q2R targetRadius)%R).

(** *** Pointer handling *)

Record Props : Type := mkProps {
  edges : list Edge;
  onGraphUpdate : bool;            (* is the callback supplied? *)
  onZoomChange : bool;
  container : option (Q * Q)       (* [containerRef.current]: left, top *)
}.

Record View : Type := mkView {
  nodes : list Node;
  zoom : Q;
  pan : Q * Q;
  dragging : option str;
  dragOffset : Q * Q;
  isPanning : bool;
  panStart : Q * Q;
  nodePositions : list (str * (Q * Q))   (* [nodePositionsRef.current] *)
}.

Inductive Event : Type :=
| NodeMouseDown (button : nat) (clientX clientY : Q) (nodeId : str)
| SvgMouseDown (button : nat) (clientX clientY : Q)
| MouseMove (clientX clientY : Q)
| MouseUp
| Wheel (clientX clientY deltaY : Q).

Inductive Output : Type :=
| GraphUpdate (nodes : list Node) (edges : list Edge)
| ZoomChange (zoom : Q).

(** Truthiness of [dragging]: a non-empty id. *)
Definition isDragging (v : View) : bool :=
  match dragging v with
  | Some i => nonempty i
  | None => false
  end.

Definition findNode (i : str) (ns : list Node) : option Node :=
  find (fun n => str_eqb (id n) i) ns.

(** The handlers are [useCallback] closures: what they read of the state
    ([nodes], [zoom], [pan], [dragging], [dragOffset], [isPanning],
    [panStart]) is the state [seen] by the render that created them,
    which is the current state [v] only once the component has rendered
    again and its effect has attached the new listeners.  Functional
    updates ([setPan(prev => ...)], [setNodes(prev => ...)]) and the
    refs act on the current state. *)
Definition handleNodeMouseDown (p : Props) (seen v : View)
           (clientX clientY : Q) (nodeId : str) : View :=
  match container p with
  | None => v
  | Some (rleft, rtop) =>
      match findNode nodeId (nodes seen) with
      | Some node =>
          match x node, y node with
          | Some nx, Some ny =>
              let mouseX := clientX - rleft in
              let mouseY := clientY - rtop in
              let adjustedX := (mouseX - fst (pan seen)) / zoom seen in
              let adjustedY := (mouseY - snd (pan seen)) / zoom seen in
              mkView (nodes v) (zoom v) (pan v) (Some nodeId)
                     (nx - adjustedX, ny - adjustedY)
                     (isPanning v) (panStart v) (nodePositions v)
          | _, _ => v
          end
      | None => v
      end
  end.

(** [prev.map(node => node.id === dragging ? {...node, x, y} : node)] *)
Definition moveNode (i : str) (newX newY : Q) (ns : list Node) : list Node :=
  List.map (fun node =>
              if str_eqb (id node) i
              then mkNode (id node) (label node) (Some newX) (Some newY)
                          (color node) (properties node)
              else node) ns.

Definition handleMouseMove (p : Props) (seen v : View) (clientX clientY : Q)
  : View :=
  match container p with
  | None => v
  | Some (rleft, rtop) =>
      let mouseX := clientX - rleft in
      let mouseY := clientY - rtop in
      if isPanning seen then
        let dx := mouseX - fst (panStart seen) in
        let dy := mouseY - snd (panStart seen) in
        mkView (nodes v) (zoom v) (fst (pan v) + dx, snd (pan v) + dy)
               (dragging v) (dragOffset v) (isPanning v) (mouseX, mouseY)
               (nodePositions v)
      else
        match dragging seen with
        | Some i =>
            if nonempty i then
              let adjustedX := (mouseX - fst (pan seen)) / zoom seen in
              let adjustedY := (mouseY - snd (pan seen)) / zoom seen in
              let newX := adjustedX + fst (dragOffset seen) in
              let newY := adjustedY + snd (dragOffset seen) in
              mkView (moveNode i newX newY (nodes v)) (zoom v) (pan v)
                     (dragging v) (dragOffset v) (isPanning v) (panStart v)
                     (map_set i (newX, newY) (nodePositions v))
            else v
        | None => v
        end
  end.

Definition handleMouseUp (p : Props) (seen v : View) : View * list Output :=
  let out :=
    if isDragging seen && onGraphUpdate p then
      let updatedEdges :=
        List.map (fun edge => mkEdge (from edge) (to edge) (edge_color edge))
                 (edges p) in
      [GraphUpdate (nodes seen) updatedEdges]
    else [] in
  (mkView (nodes v) (zoom v) (pan v) None (dragOffset v) false (panStart v)
          (nodePositions v), out).

(** No dependency: the handler reads nothing of the state. *)
Definition handleSvgMouseDown (p : Props) (v : View)
           (button : nat) (clientX clientY : Q) : View :=
  if negb (Nat.eqb button 0) then v
  else match container p with
       | None => v
       | Some (rleft, rtop) =>
           mkView (nodes v) (zoom v) (pan v) (dragging v) (dragOffset v)
                  true (clientX - rleft, clientY - rtop) (nodePositions v)
       end.

(** The wheel handler of the render of [v]: the zoom and the pan it
    sets are computed from that render's. *)
Definition handleWheel (p : Props) (v : View) (clientX clientY deltaY : Q)
  : View * list Output :=
  match container p with
  | None => (v, [])
  | Some (rleft, rtop) =>
      let mouseX := clientX - rleft in
      let mouseY := clientY - rtop in
      let delta := - deltaY in
      let zoomFactor := if Qlt_le_dec 0 delta then 11 # 10 else 9 # 10 in
      let newZoom := Qmax (1 # 10) (Qmin 5 (zoom v * zoomFactor)) in
      let mouseGraphX := (mouseX - fst (pan v)) / zoom v in
      let mouseGraphY := (mouseY - snd (pan v)) / zoom v in
      let newPanX := mouseX - mouseGraphX * newZoom in
      let newPanY := mouseY - mouseGraphY * newZoom in
      (mkView (nodes v) newZoom (newPanX, newPanY) (dragging v)
              (dragOffset v) (isPanning v) (panStart v) (nodePositions v),
       if onZoomChange p then [ZoomChange newZoom] else [])
  end.

(** One event, handled by the listeners of the render that saw [seen]
    while the state is [v].  The circle forwards a press of the left
    button only, and stops its propagation to the canvas. *)
Definition handle (p : Props) (seen v : View) (e : Event)
  : View * list Output :=
  match e with
  | NodeMouseDown button cx cy nodeId =>
      if Nat.eqb button 0 then (handleNodeMouseDown p seen v cx cy nodeId, [])
      else (v, [])
  | SvgMouseDown button cx cy => (handleSvgMouseDown p v button cx cy, [])
  | MouseMove cx cy => (handleMouseMove p seen v cx cy, [])
  | MouseUp => handleMouseUp p seen v
  | Wheel cx cy dy =>
      match container p with
      | None => (v, [])
      | Some _ =>
          let (w, out) := handleWheel p seen cx cy dy in
          (mkView (nodes v) (zoom w) (pan w) (dragging v) (dragOffset v)
                  (isPanning v) (panStart v) (nodePositions v), out)
      end
  end.

(** One event when the component has rendered since the event before
    it: the listeners are those of the current state. *)
Definition step (p : Props) (v : View) (e : Event) : View * list Output :=
  handle p v v e.

(** The component between two events: its state, and the state seen by
    the render whose listeners are attached. *)
Record Session : Type := mkSession {
  current : View;
  rendered : View
}.

(** What happens to the component: an event reaches its listeners, or
    it renders and its effect attaches the listeners of that render. *)
Inductive Action : Type :=
| Handle (e : Event)
| Render.

Definition act (p : Props) (s : Session) (a : Action)
  : Session * list Output :=
  match a with
  | Handle e =>
      let (v, out) := handle p (rendered s) (current s) e in
      (mkSession v (rendered s), out)
  | Render => (mkSession (current s) (current s), [])
  end.

(** A sequence of actions, with everything the component emitted. *)
Fixpoint run (p : Props) (s : Session) (actions : list Action)
  : Session * list Output :=
  match actions with
  | [] => (s, [])
  | a :: r =>
      let (s1, o1) := act p s a in
      let (s2, o2) := run p s1 r in
      (s2, o1 ++ o2)
  end.

(** The camera transform [translate(pan) scale(zoom)], one coordinate
    at a time: the world coordinate shown at a screen coordinate. *)
Definition toWorld (zoom pan screen : Q) : Q := (screen - pan) / zoom.

(** Pointer moves, each rendered before the next event ([shownMoves]),
    or all handled by the listeners of one render ([lateMoves]). *)
Definition shownMoves (moves : list (Q * Q)) : list Action :=
  flat_map (fun m => [Handle (MouseMove (fst m) (snd m)); Render]) moves.

Definition lateMoves (moves : list (Q * Q)) : list Action :=
  List.map (fun m => Handle (MouseMove (fst m) (snd m))) moves.

(** A drag gesture on node [i]: the left button goes down on its circle
    at [down] and the component renders; the pointer moves through
    [shown], the component rendering after every move, and then through
    [late] before it renders again; the button is released. *)
Definition gesture (down : Q * Q) (i : str) (shown late : list (Q * Q))
  : list Action :=
  Handle (NodeMouseDown 0 (fst down) (snd down) i) :: Render
    :: shownMoves shown ++ lateMoves late ++ [Handle MouseUp].

(** The world position of the pointer at the client position [m], plus
    an offset. *)
Definition dragPosition (rect : Q * Q) (v : View) (offset m : Q * Q) : Q * Q :=
  (toWorld (zoom v) (fst (pan v)) (fst m - fst rect) + fst offset,
   toWorld (zoom v) (snd (pan v)) (snd m - snd rect) + snd offset).

(** The offset from the pointer to the centre [c] of the node it grabs. *)
Definition grabOffset (rect : Q * Q) (v : View) (c down : Q * Q) : Q * Q :=
  (fst c - toWorld (zoom v) (fst (pan v)) (fst down - fst rect),
   snd c - toWorld (zoom v) (snd (pan v)) (snd down - snd rect)).

(** Modelled from the spec: the node collection [new] is [old] with
    every node of id [i] at the position [pos] and nothing else
    changed. *)
Definition placedAt (i : str) (pos : Q * Q) (old new : list Node) : Prop :=
  Forall2 (fun n n' =>
             id n' = id n /\ label n' = label n /\ color n' = color n
             /\ properties n' = properties n
             /\ (id n = i -> x n' = Some (fst pos) /\ y n' = Some (snd pos))
             /\ (id n <> i -> x n' = x n /\ y n' = y n))
          old new.

(** Modelled from the spec: the node collection after the pointer went
    through [moves] with node [i]: as it was when there is no move, and
    else with the node at the position of the last move. *)
Definition draggedTo (i : str) (rect : Q * Q) (v : View) (offset : Q * Q)
           (moves : list (Q * Q)) (new : list Node) : Prop :=
  match rev moves with
  | [] => new = nodes v
  | m :: _ => placedAt i (dragPosition rect v offset m) (nodes v) new
  end.

(** [delta > 0 ? 1.1 : 0.9] with [delta = -e.deltaY]. *)
Definition zoomFactor (deltaY : Q) : Q :=
  if Qlt_le_dec 0 (- deltaY) then 11 # 10 else 9 # 10.

(** The largest degree in a list of degrees (0 for no node). *)
Definition maxDegree (l : list nat) : nat := fold_right Nat.max 0%nat l.

(** A computed radius [r] is the number [q]. *)
Definition radiusIs (r : option Q) (q : Q) : Prop :=
  exists q', r = Some q' /\ q' == q.

(** The radius of a node of degree [deg] in a graph whose largest
    degree is [maxDeg]. *)
Definition degreeRadius (deg maxDeg : nat) : Q :=
  5 + 15 * (ofNat deg / Qmax 1 (ofNat maxDeg)).

End GraphView.

(** ** [src/components/simple-drag-graph.tsx] *)
Module SimpleDragGraph.
Local Open Scope Q_scope.

Record Node : Type := mkNode {
  id : str;
  label : str;
  x : Q;
  y : Q;
  color : option str;
  properties : option (list (str * Json))
}.

Record Edge : Type := mkEdge {
  from : str;
  to : str
}.

Inductive SizingMode : Type := Uniform | Incoming | Outgoing | Provided.

Definition prop (key : str) (node : Node) : option Json :=
  match properties node with
  | Some ps => lookup key ps
  | None => None
  end.

Definition groupOf (node : Node) : str :=
  match prop (lit "group") node with
  | Some (JStr g) => if nonempty g then g else GraphView.defaultGroup
  | _ => GraphView.defaultGroup
  end.

Definition groups (nodes : list Node) : list str :=
  fold_left GraphView.setAdd (List.map groupOf nodes) [].

(** [groups.forEach((group, index) => ...)]: the encounter order, no
    sorting. *)
Definition colorScale (groups : list str)
           (customGroupColors : list (str * str)) : list (str * str) :=
  fold_left (GraphView.assign customGroupColors) (GraphView.withIndex groups) [].

Definition incomingCount (edges : list Edge) (i : str) : nat :=
  List.length (filter (fun e => str_eqb (to e) i) edges).

Definition outgoingCount (edges : list Edge) (i : str) : nat :=
  List.length (filter (fun e => str_eqb (from e) i) edges).

Definition maxIncoming (nodes : list Node) (edges : list Edge) : nat :=
  GraphView.maxWithOne (List.map (fun n => incomingCount edges (id n)) nodes).

Definition maxOutgoing (nodes : list Node) (edges : list Edge) : nat :=
  GraphView.maxWithOne (List.map (fun n => outgoingCount edges (id n)) nodes).

Section Sizing.
Variable Number_ : Json -> option Q.

Definition getNodeSize (nodeSizingMode : SizingMode)
           (nodes : list Node) (edges : list Edge) (node : Node)
  : option Q :=
  match nodeSizingMode, prop (lit "size") node with
  | Uniform, _ => Some 8
  | Provided, Some size =>
      option_map (fun q => Qmax 4 (Qmin 20 q)) (Number_ size)
  | Incoming, _ =>
      Some (5 + (GraphView.ofNat (incomingCount edges (id node))
                 / GraphView.ofNat (maxIncoming nodes edges)) * 15)
  | Outgoing, _ =>
      Some (5 + (GraphView.ofNat (outgoingCount edges (id node))
                 / GraphView.ofNat (maxOutgoing nodes edges)) * 15)
  | _, _ => Some 8
  end.
End Sizing.

(** [handleWheel]: the new zoom and the new pan, or [None] when the
    container is not mounted. *)
Definition handleWheel (container : option (Q * Q)) (zoom : Q) (pan : Q * Q)
           (clientX clientY deltaY : Q) : option (Q * (Q * Q)) :=
  match container with
  | None => None
  | Some (rleft, rtop) =>
      let mouseX := clientX - rleft in
      let mouseY := clientY - rtop in
      let delta := - deltaY in
      let zoomFactor := if Qlt_le_dec 0 delta then 11 # 10 else 9 # 10 in
      let newZoom := Qmax (1 # 10) (Qmin 5 (zoom * zoomFactor)) in
      let mouseGraphX := (mouseX - fst pan) / zoom in
      let mouseGraphY := (mouseY - snd pan) / zoom in
      let newPanX := mouseX - mouseGraphX * newZoom in
      let newPanY := mouseY - mouseGraphY * newZoom in
      Some (newZoom, (newPanX, newPanY))
  end.

End SimpleDragGraph.

(** ** The d3 canvas: export and import of the graph state *)
Module D3Graph.
Local Open Scope Q_scope.

Definition Obj : Type := list (str * Json).

Record Props : Type := mkProps {
  nodes : list Obj;                (* NodeData[] *)
  edges : list Obj;                (* { from, to }[] *)
  onGraphUpdate : bool             (* is the callback supplied? *)
}.

Record State : Type := mkState {
  nodeObjects : list Json;         (* [nodeObjectsRef.current] *)
  customGroupColors : Json;
  container : option (Q * Q);      (* both refs set: clientWidth, clientHeight *)
  draws : nat                      (* calls of [Math.random] so far *)
}.

Inductive Effect : Type :=
| Alert (message : str)
| GraphUpdate (nodes : list Json) (edges : list Json).

(** [v.key] for a value that is not null: an own property of an object,
    [undefined] otherwise. *)
Definition field (key : str) (v : Json) : option Json :=
  match v with
  | JObj kvs => lookup key kvs
  | _ => None
  end.

Definition isArray (v : option Json) : bool :=
  match v with
  | Some (JArr _) => true
  | _ => false
  end.

Definition truthyOpt (v : option Json) : bool :=
  match v with
  | Some w => truthy w
  | None => false
  end.

Definition elements (v : option Json) : list Json :=
  match v with
  | Some (JArr l) => l
  | _ => []
  end.

Definition version : str := lit "1.0".

(** The object literal [graphState] of [exportGraph]. *)
Definition graphState (p : Props) (st : State) : Json :=
  JObj [ (lit "nodes", JArr (nodeObjects st));
         (lit "edges", JArr (List.map JObj (edges p)));
         (lit "groupColors", customGroupColors st);
         (lit "version", JStr version) ].

Definition invalidFormat : str := lit "Invalid graph file format".
Definition importFailed : str := lit "Failed to import graph: ".

(** The message of the [TypeError] for [null.nodes]. *)
Definition nullReadMessage : str :=
  lit "Cannot read properties of null (reading 'nodes')".

Section Canvas.
(** The successive results of [Math.random()]. *)
Variable random : nat -> Q.
(** [JSON.stringify(v, null, 2)], and [JSON.parse]: the value, or the
    message of the [SyntaxError]. *)
Variable JSON_stringify : Json -> str.
Variable JSON_parse : str -> Json + str.

(** The body of [nodes.map((node, index) => ...)] in [createGraph];
    [k] is the number of random draws made before. *)
Definition place (width height : Q) (k : nat) (node : Obj) : Obj * nat :=
  match lookup (lit "x") node, lookup (lit "y") node with
  | Some nx, Some ny =>
      (map_set (lit "fy") ny (map_set (lit "fx") nx node), k)
  | _, _ =>
      let xPos := random k * width * (8 # 10) + width * (1 # 10) in
      let yPos := random (S k) * height * (8 # 10) + height * (1 # 10) in
      (map_set (lit "fy") (JNum yPos)
         (map_set (lit "fx") (JNum xPos)
            (map_set (lit "y") (JNum yPos)
               (map_set (lit "x") (JNum xPos) node))), S (S k))
  end.

Fixpoint placeAll (width height : Q) (k : nat) (ns : list Obj)
  : list Json * nat :=
  match ns with
  | [] => ([], k)
  | n :: r =>
      let (n', k1) := place width height k n in
      let (r', k2) := placeAll width height k1 r in
      (JObj n' :: r', k2)
  end.

(** What [createGraph] does to the component besides drawing. *)
Definition createGraph (p : Props) (st : State) : State :=
  match container st, nodes p with
  | None, _ => st
  | _, [] => st
  | Some (width, height), ns =>
      let (nodeObjects', k) := placeAll width height (draws st) ns in
      mkState nodeObjects' (customGroupColors st) (container st) k
  end.

(** [exportGraph]: the text downloaded as [graph-state.json], or [None]
    when nothing is downloaded. *)
Definition exportGraph (p : Props) (st : State) : option str :=
  match nodeObjects st with
  | [] => None
  | _ => Some (JSON_stringify (graphState p st))
  end.

(** The [reader.onload] handler of [importGraph]; [content] is the text
    of the chosen file. *)
Definition importGraph (p : Props) (st : State) (content : str)
  : State * list Effect :=
  match JSON_parse content with
  | inr message => (st, [Alert (importFailed ++ message)])
  | inl JNull => (st, [Alert (importFailed ++ nullReadMessage)])
  | inl graphState =>
      let ns := field (lit "nodes") graphState in
      let es := field (lit "edges") graphState in
      if negb (truthyOpt ns) || negb (isArray ns)
         || negb (truthyOpt es) || negb (isArray es)
      then (st, [Alert invalidFormat])
      else
        let gc := field (lit "groupColors") graphState in
        let st1 :=
          mkState (elements ns)
                  (if truthyOpt gc
                   then match gc with Some c => c | None => customGroupColors st end
                   else customGroupColors st)
                  (container st) (draws st) in
        (createGraph p st1,
         if onGraphUpdate p then [GraphUpdate (elements ns) (elements es)]
         else [])
  end.

(** Exporting the document of the canvas [(p, st)] and importing the
    text into the canvas [(p0, st0)] gives the document back: the export
    produces a text, and the import of that text shows no alert, takes
    nodes, edges and group colours that are observably equal to those of
    the exported document, sends the nodes and the edges to the parent
    in one update when the callback is there, and leaves the canvas as
    [createGraph] redraws it from the props it has. *)
Definition roundTrips (p : Props) (st : State) (p0 : Props) (st0 : State)
  : Prop :=
  exists text nodes' edges' colors',
    exportGraph p st = Some text
    /\ importGraph p0 st0 text
       = (createGraph p0
            (mkState nodes'
                     (if truthy colors' then colors'
                      else customGroupColors st0)
                     (container st0) (draws st0)),
          if onGraphUpdate p0 then [GraphUpdate nodes' edges'] else [])
    /\ sameAll (nodeObjects st) nodes'
    /\ sameAll (List.map JObj (edges p)) edges'
    /\ same (customGroupColors st) colors'.
End Canvas.

End D3Graph.

(** ** What a match of a regular expression is

    [Matches r s c s' c'] : [r] matches a prefix of [s], leaving [s'], and
    takes the captures from [c] to [c'].  The matcher [Regex.run] only
    reports such matches. *)
Module RegexSemantics.

Inductive Matches : Regex.re -> str -> Regex.caps -> str -> Regex.caps -> Prop :=
| MEps s c : Matches Regex.Eps s c s c
| MChr p x s c : p x = true -> Matches (Regex.Chr p) (x :: s) c s c
| MSeq a b s c s1 c1 s2 c2 :
    Matches a s c s1 c1 -> Matches b s1 c1 s2 c2 ->
    Matches (Regex.Seq a b) s c s2 c2
| MAltL a b s c s1 c1 :
    Matches a s c s1 c1 -> Matches (Regex.Alt a b) s c s1 c1
| MAltR a b s c s1 c1 :
    Matches b s c s1 c1 -> Matches (Regex.Alt a b) s c s1 c1
| MStarStop a s c : Matches (Regex.Star a) s c s c
| MStarStep a s c s1 c1 s2 c2 :
    Matches a s c s1 c1 -> (List.length s1 < List.length s)%nat ->
    Matches (Regex.Star a) s1 c1 s2 c2 ->
    Matches (Regex.Star a) s c s2 c2
| MGroup i a s c s1 c1 :
    Matches a s c s1 c1 ->
    Matches (Regex.Group i a) s c s1
            ((i, firstn (List.length s - List.length s1) s) :: c1).

End RegexSemantics.

(** ** The graph that [parseGraphData] returns, in closed form *)
Module ParsedGraph.

(** The ids at the ends of the links, in the order they are met. *)
Definition endpointIds (connections : list str) : list str :=
  flat_map (fun l => [GraphParser.source l; GraphParser.target l])
           (GraphParser.edgesOf connections).

(** The entries that the property pass iterates over: none for a blank
    text. *)
Definition propertyEntries (JSON_parse : str -> Json + str)
           (propertiesText : str) : list (str * Json) :=
  if nonempty (trim propertiesText) then
    match JSON_parse propertiesText with
    | inl properties =>
        match GraphParser.Object_entries properties with
        | inl entries => entries
        | inr _ => []
        end
    | inr _ => []
    end
  else [].

(** The distinct elements of a list, each at its first occurrence. *)
Definition firstSeen (l : list str) : list str :=
  fold_left GraphView.setAdd l [].

(** The node of id [k], given the ids that end links and the property
    entries: the name is the bag's [name] only for an id that ends a link;
    the properties are the bag. *)
Definition nodeOf (endpoints : list str) (entries : list (str * Json))
           (k : str) : GraphParser.Node :=
  GraphParser.mkNode k
    (if existsb (str_eqb k) endpoints
     then match lookup k entries with
          | Some bag => match GraphParser.nameOf bag with
                        | Some v => v
                        | None => JStr k
                        end
          | None => JStr k
          end
     else JStr k)
    (lookup k entries) None.

(** The shape of the text a link is read from:
    [source blanks arrow blanks target], then [[color]] if there is one. *)
Definition arrows : list str :=
  [ [GraphParser.minus_; GraphParser.greater_];
    [GraphParser.equals_; GraphParser.greater_];
    [GraphParser.emdash_]; [GraphParser.endash_]; [GraphParser.minus_] ].

Definition colorSuffix (color : option str) : str :=
  match color with
  | Some c => (GraphParser.lbracket_ :: c) ++ [GraphParser.rbracket_]
  | None => []
  end.

End ParsedGraph.

(** ** [src/components/graph-view.tsx]: effects, controls and drawing *)
Module GraphCanvas.
Local Open Scope Q_scope.

(** [Map.prototype.delete] *)
Definition map_delete {A} (k : str) (m : list (str * A)) : list (str * A) :=
  filter (fun kv => negb (str_eqb (fst kv) k)) m.

(** [{...node, x, y}] *)
Definition withPosition (node : GraphView.Node) (position : Q * Q)
  : GraphView.Node :=
  GraphView.mkNode (GraphView.id node) (GraphView.label node)
                   (Some (fst position)) (Some (snd position))
                   (GraphView.color node) (GraphView.properties node).

(** [{...node, color}] *)
Definition withColor (node : GraphView.Node) (color : str) : GraphView.Node :=
  GraphView.mkNode (GraphView.id node) (GraphView.label node)
                   (GraphView.x node) (GraphView.y node)
                   (Some color) (GraphView.properties node).

(** The component between two events: the state of [GraphView.View], the
    flag [isInitializedRef.current] and the number of values drawn from
    [Math.random] so far. *)
Record Canvas : Type := mkCanvas {
  view : GraphView.View;
  isInitialized : bool;
  draws : nat
}.

Definition setNodes (ns : list GraphView.Node) (v : GraphView.View)
  : GraphView.View :=
  GraphView.mkView ns (GraphView.zoom v) (GraphView.pan v)
                   (GraphView.dragging v) (GraphView.dragOffset v)
                   (GraphView.isPanning v) (GraphView.panStart v)
                   (GraphView.nodePositions v).

Definition setPositions (ps : list (str * (Q * Q))) (v : GraphView.View)
  : GraphView.View :=
  GraphView.mkView (GraphView.nodes v) (GraphView.zoom v) (GraphView.pan v)
                   (GraphView.dragging v) (GraphView.dragOffset v)
                   (GraphView.isPanning v) (GraphView.panStart v) ps.

Definition setZoom (z : Q) (v : GraphView.View) : GraphView.View :=
  GraphView.mkView (GraphView.nodes v) z (GraphView.pan v)
                   (GraphView.dragging v) (GraphView.dragOffset v)
                   (GraphView.isPanning v) (GraphView.panStart v)
                   (GraphView.nodePositions v).

Definition setPan (p : Q * Q) (v : GraphView.View) : GraphView.View :=
  GraphView.mkView (GraphView.nodes v) (GraphView.zoom v) p
                   (GraphView.dragging v) (GraphView.dragOffset v)
                   (GraphView.isPanning v) (GraphView.panStart v)
                   (GraphView.nodePositions v).

(** The view of [useState]'s initial values and an empty position map. *)
Definition initialView : GraphView.View :=
  GraphView.mkView [] 1 (0, 0) None (0, 0) false (0, 0) [].

Section Placement.
(** The successive values of [Math.random()]. *)
Variable random : nat -> Q.

(** [{x: Math.random() * (width - 100) + 50,
      y: Math.random() * (height - 100) + 50}], drawing the values
    [n] and [n + 1]. *)
Definition randomPosition (size : Q * Q) (n : nat) : Q * Q :=
  (random n * (fst size - 100) + 50, random (S n) * (snd size - 100) + 50).

(** The body of [initialNodes.forEach] in the first effect.  A
    coordinate is [None] when it is undefined. *)
Definition initNode (size : Q * Q) (st : list (str * (Q * Q)) * nat)
           (node : GraphView.Node) : list (str * (Q * Q)) * nat :=
  let (positions, n) := st in
  match GraphView.x node, GraphView.y node with
  | Some nx, Some ny => (map_set (GraphView.id node) (nx, ny) positions, n)
  | _, _ =>
      (map_set (GraphView.id node) (randomPosition size n) positions,
       S (S n))
  end.

(** The first effect; [size] is the client size of the container when it
    is mounted. *)
Definition initEffect (size : option (Q * Q))
           (initialNodes : list GraphView.Node) (c : Canvas) : Canvas :=
  match size with
  | None => c
  | Some sz =>
      if isInitialized c then c
      else
        let (positions, n) :=
          fold_left (initNode sz) initialNodes
                    (GraphView.nodePositions (view c), draws c) in
        mkCanvas (setPositions positions (view c)) true n
  end.

(** The callback of [initialNodes.map] in the second effect. *)
Definition syncNode (size : option (Q * Q)) (st : list (str * (Q * Q)) * nat)
           (node : GraphView.Node)
  : GraphView.Node * (list (str * (Q * Q)) * nat) :=
  let (positions, n) := st in
  match lookup (GraphView.id node) positions with
  | Some storedPosition => (withPosition node storedPosition, st)
  | None =>
      match GraphView.x node, GraphView.y node with
      | Some nx, Some ny =>
          (node, (map_set (GraphView.id node) (nx, ny) positions, n))
      | _, _ =>
          match size with
          | Some sz =>
              let newPos := randomPosition sz n in
              (withPosition node newPos,
               (map_set (GraphView.id node) newPos positions, S (S n)))
          | None => (node, st)
          end
      end
  end.

(** [initialNodes.map(...)], the callback run on the nodes in order. *)
Fixpoint syncNodes (size : option (Q * Q)) (ns : list GraphView.Node)
         (st : list (str * (Q * Q)) * nat)
  : list GraphView.Node * (list (str * (Q * Q)) * nat) :=
  match ns with
  | [] => ([], st)
  | node :: r =>
      let (node', st1) := syncNode size st node in
      let (r', st2) := syncNodes size r st1 in
      (node' :: r', st2)
  end.

(** The second effect, run whenever [initialNodes] changes. *)
Definition syncEffect (size : option (Q * Q))
           (initialNodes : list GraphView.Node) (c : Canvas) : Canvas :=
  if isInitialized c then
    let (nodesWithPositions, st) :=
      syncNodes size initialNodes
                (GraphView.nodePositions (view c), draws c) in
    mkCanvas (setNodes nodesWithPositions (setPositions (fst st) (view c)))
             true (snd st)
  else c.

(** The first render: both effects, in the order they are declared. *)
Definition mount (size : option (Q * Q)) (initialNodes : list GraphView.Node)
  : Canvas :=
  syncEffect size initialNodes
             (initEffect size initialNodes (mkCanvas initialView false 0)).
End Placement.

(** *** The zoom controls, deletion and recoloring *)

Record Callbacks : Type := mkCallbacks {
  props : GraphView.Props;
  onDeleteNode : bool              (* is the callback supplied? *)
}.

Inductive Notice : Type :=
| Emitted (o : GraphView.Output)
| NodeDeleted (nodeId : str).

Definition zoomChange (p : GraphView.Props) (newZoom : Q) : list Notice :=
  if GraphView.onZoomChange p then [Emitted (GraphView.ZoomChange newZoom)]
  else [].

Definition graphUpdate (p : GraphView.Props) (ns : list GraphView.Node)
           (es : list GraphView.Edge) : list Notice :=
  if GraphView.onGraphUpdate p then [Emitted (GraphView.GraphUpdate ns es)]
  else [].

Definition handleZoomIn (p : GraphView.Props) (v : GraphView.View)
  : GraphView.View * list Notice :=
  let newZoom := Qmin (GraphView.zoom v * (12 # 10)) 5 in
  (setZoom newZoom v, zoomChange p newZoom).

Definition handleZoomOut (p : GraphView.Props) (v : GraphView.View)
  : GraphView.View * list Notice :=
  let newZoom := Qmax (GraphView.zoom v / (12 # 10)) (1 # 10) in
  (setZoom newZoom v, zoomChange p newZoom).

Definition handleResetZoom (p : GraphView.Props) (v : GraphView.View)
  : GraphView.View * list Notice :=
  (setPan (0, 0) (setZoom 1 v), zoomChange p 1).

Definition keepsNode (nodeId : str) (node : GraphView.Node) : bool :=
  negb (str_eqb (GraphView.id node) nodeId).

Definition keepsEdge (nodeId : str) (edge : GraphView.Edge) : bool :=
  negb (str_eqb (GraphView.from edge) nodeId)
  && negb (str_eqb (GraphView.to edge) nodeId).

Definition handleDeleteNode (cb : Callbacks) (v : GraphView.View)
           (nodeId : str) : GraphView.View * list Notice :=
  let positions := map_delete nodeId (GraphView.nodePositions v) in
  let updatedNodes := filter (keepsNode nodeId) (GraphView.nodes v) in
  let updatedEdges :=
    filter (keepsEdge nodeId) (GraphView.edges (props cb)) in
  (setNodes updatedNodes (setPositions positions v),
   graphUpdate (props cb) updatedNodes updatedEdges
   ++ (if onDeleteNode cb then [NodeDeleted nodeId] else [])).

(** [prev.map(node => node.id === selectedNode.id
                      ? {...node, color: nodeColor} : node)] *)
Definition recolor (selected nodeColor : str) (ns : list GraphView.Node)
  : list GraphView.Node :=
  List.map (fun node => if str_eqb (GraphView.id node) selected
                        then withColor node nodeColor else node) ns.

(** [handleApplyNodeColor], for the node and the color chosen in the
    dialog; [None] when no node is selected. *)
Definition handleApplyNodeColor (cb : Callbacks) (v : GraphView.View)
           (selectedNode : option str) (nodeColor : str)
  : GraphView.View * list Notice :=
  match selectedNode with
  | None => (v, [])
  | Some selected =>
      let updatedNodes := recolor selected nodeColor (GraphView.nodes v) in
      (setNodes updatedNodes v,
       graphUpdate (props cb) updatedNodes (GraphView.edges (props cb)))
  end.

(** What the user can do to a mounted view. *)
Inductive Control : Type :=
| Pointer (e : GraphView.Event)
| ZoomIn
| ZoomOut
| ResetZoom
| DeleteNode (nodeId : str)
| ApplyNodeColor (selectedNode : option str) (nodeColor : str).

Definition control (cb : Callbacks) (v : GraphView.View) (c : Control)
  : GraphView.View * list Notice :=
  match c with
  | Pointer e =>
      let (v', out) := GraphView.step (props cb) v e in
      (v', List.map Emitted out)
  | ZoomIn => handleZoomIn (props cb) v
  | ZoomOut => handleZoomOut (props cb) v
  | ResetZoom => handleResetZoom (props cb) v
  | DeleteNode nodeId => handleDeleteNode cb v nodeId
  | ApplyNodeColor selectedNode nodeColor =>
      handleApplyNodeColor cb v selectedNode nodeColor
  end.

Fixpoint controls (cb : Callbacks) (v : GraphView.View) (cs : list Control)
  : GraphView.View * list Notice :=
  match cs with
  | [] => (v, [])
  | c :: r =>
      let (v1, o1) := control cb v c in
      let (v2, o2) := controls cb v1 r in
      (v2, o1 ++ o2)
  end.

(** *** Drawing *)

(** [fixedNode && edge.from === fixedNode.id] *)
Definition isOutgoingFromFixedNode (fixedNode : option GraphView.Node)
           (edge : GraphView.Edge) : bool :=
  match fixedNode with
  | Some f => str_eqb (GraphView.from edge) (GraphView.id f)
  | None => false
  end.

Definition getEdgeColor (fixedNode : option GraphView.Node)
           (edge : GraphView.Edge) : str :=
  if isOutgoingFromFixedNode fixedNode edge then lit "#ff3e00"
  else GraphView.orElse (GraphView.edge_color edge) (lit "#999").

(** [/[a-zA-Z0-9]/] on a code unit. *)
Definition alphanumeric (c : char) : bool :=
  ((97 <=? c) && (c <=? 122) || (65 <=? c) && (c <=? 90)
   || (48 <=? c) && (c <=? 57))%N.

(** [color.replace(/[^a-zA-Z0-9]/g, "")] *)
Definition colorId (color : str) : str := filter alphanumeric color.

(** The marker an edge's line refers to. *)
Definition markerId (fixedNode : option GraphView.Node)
           (edge : GraphView.Edge) : str :=
  if isOutgoingFromFixedNode fixedNode edge then lit "arrow-highlight"
  else match GraphView.edge_color edge with
       | Some c => if nonempty c then lit "arrow-" ++ colorId c
                   else lit "arrow-default"
       | None => lit "arrow-default"
       end.

(** The markers of [<defs>], each with its id and its fill. *)
Definition markers (edges : list GraphView.Edge) : list (str * str) :=
  (lit "arrow-default", lit "#999")
    :: (lit "arrow-highlight", lit "#ff3e00")
    :: flat_map (fun edge =>
                   match GraphView.edge_color edge with
                   | Some c => if nonempty c
                               then [(lit "arrow-" ++ colorId c, c)] else []
                   | None => []
                   end) edges.

(** The element that [url(#id)] refers to: the first marker of that id. *)
Definition markerFill (id : str) (edges : list GraphView.Edge) : option str :=
  lookup id (markers edges).

(** The colors of the edges that have one. *)
Definition edgeColors (edges : list GraphView.Edge) : list str :=
  flat_map (fun edge =>
              match GraphView.edge_color edge with
              | Some c => if nonempty c then [c] else []
              | None => []
              end) edges.

(** No two colors in use share a marker id, and none takes the id of
    the default or of the highlight marker. *)
Definition distinctMarkers (edges : list GraphView.Edge) : Prop :=
  forall c, In c (edgeColors edges) ->
    colorId c <> lit "default" /\ colorId c <> lit "highlight"
    /\ forall c', In c' (edgeColors edges) -> colorId c' = colorId c -> c' = c.

(** The node is where the position map says. *)
Definition placedBy (ps : list (str * (Q * Q))) (node : GraphView.Node)
  : Prop :=
  exists p, lookup (GraphView.id node) ps = Some p
            /\ GraphView.x node = Some (fst p)
            /\ GraphView.y node = Some (snd p).

(** Every node of the view is where the position map says. *)
Definition coherent (v : GraphView.View) : Prop :=
  Forall (placedBy (GraphView.nodePositions v)) (GraphView.nodes v).

(** Both ends of every edge are nodes. *)
Definition closed (ns : list GraphView.Node) (es : list GraphView.Edge)
  : Prop :=
  Forall (fun e => In (GraphView.from e) (List.map GraphView.id ns)
                   /\ In (GraphView.to e) (List.map GraphView.id ns)) es.

(** The part of the container that is at least 50 away from its sides. *)
Definition inBox (size p : Q * Q) : Prop :=
  50 <= fst p /\ fst p <= fst size - 50
  /\ 50 <= snd p /\ snd p <= snd size - 50.

(** A node of the list has the id [k] and came with the position [p]. *)
Definition cameWith (ns : list GraphView.Node) (k : str) (p : Q * Q)
  : Prop :=
  exists n, In n ns /\ GraphView.id n = k
            /\ GraphView.x n = Some (fst p) /\ GraphView.y n = Some (snd p).

(** [Math.max(0.1, ...)] and [Math.min(..., 5)] bound the zoom. *)
Definition inZoomRange (z : Q) : Prop := 1 # 10 <= z /\ z <= 5.

(** A pan gesture: the left button goes down on the background at
    [down] and the component renders; the pointer moves through [shown],
    the component rendering after every move, and then through [late]
    before it renders again; the button is released. *)
Definition panGesture (down : Q * Q) (shown late : list (Q * Q))
  : list GraphView.Action :=
  GraphView.Handle (GraphView.SvgMouseDown 0 (fst down) (snd down))
    :: GraphView.Render
    :: GraphView.shownMoves shown ++ GraphView.lateMoves late
    ++ [GraphView.Handle GraphView.MouseUp].

(** The sum of the distances of the positions [moves] from [origin]. *)
Fixpoint distances (origin : Q * Q) (moves : list (Q * Q)) : Q * Q :=
  match moves with
  | [] => (0, 0)
  | m :: r =>
      (fst m - fst origin + fst (distances origin r),
       snd m - snd origin + snd (distances origin r))
  end.

End GraphCanvas.

(** ** [src/components/graph-visualizer-3d.tsx]: the component
    [GraphVisualizer] that owns the document and feeds the canvas

    Nodes and links have the fields that the interfaces [Node] and
    [Link] of the file declare, with the types declared there; the ends
    of a link are ids (strings). *)
Module GraphVisualizer.
Local Open Scope Q_scope.

Record Node : Type := mkNode {
  id : str;
  name : option str;
  properties : option (list (str * Json));
  color : option str;
  x : option Q;
  y : option Q
}.

Record Link : Type := mkLink {
  source : str;
  target : str;
  link_color : option str
}.

Record GraphData : Type := mkGraphData {
  nodes : list Node;
  links : list Link
}.

(** [node.properties?.group || "default"], for a group that is a string
    or is falsy: see [plainGroup]. *)
Definition groupOf (node : Node) : str :=
  match properties node with
  | Some ps =>
      match lookup (lit "group") ps with
      | Some (JStr g) => if nonempty g then g else GraphView.defaultGroup
      | _ => GraphView.defaultGroup
      end
  | None => GraphView.defaultGroup
  end.

(** The nodes at which [groupOf] and the record [groupColorMap] are the
    code's: the group is absent, falsy or a string, and it is not the
    name of a member of [Object.prototype]. *)
Definition plainGroup (node : Node) : bool :=
  match properties node with
  | Some ps =>
      match lookup (lit "group") ps with
      | Some (JStr g) => ownKey g
      | Some v => negb (truthy v)
      | None => true
      end
  | None => true
  end.

(** [Array.from(groups).sort()] for the groups of the nodes. *)
Definition allGroups (ns : list Node) : list str :=
  GraphView.sort (fold_left GraphView.setAdd (List.map groupOf ns) []).

(** Truthiness of an optional string. *)
Definition given (c : option str) : bool :=
  match c with
  | Some s => nonempty s
  | None => false
  end.

(** The body of [sortedGroups.forEach((group, index) => ...)] in the
    effect that maintains [groupColorMap], a record read and written at
    a [group] that is an [ownKey]. *)
Definition assignNew (newColorMap : list (str * str)) (e : nat * str)
  : list (str * str) :=
  let (index, group) := e in
  if given (lookup group newColorMap) then newColorMap
  else map_set group (GraphView.paletteAt index) newColorMap.

(** The new [groupColorMap] after the nodes of the document changed. *)
Definition groupColorEffect (ns : list Node) (prev : list (str * str))
  : list (str * str) :=
  fold_left assignNew (GraphView.withIndex (allGroups ns)) prev.

Definition isHidden (hiddenGroups : list str) (node : Node) : bool :=
  existsb (str_eqb (groupOf node)) hiddenGroups.

(** [node.color || groupColorMap[group] || "#888"], for a node with a
    [plainGroup]. *)
Definition shownColor (groupColorMap : list (str * str)) (node : Node)
  : str :=
  GraphView.orElse (color node)
    (GraphView.orElse (lookup (groupOf node) groupColorMap) (lit "#888")).

Definition visibleNodes (hiddenGroups : list str)
           (groupColorMap : list (str * str)) (ns : list Node) : list Node :=
  List.map (fun node =>
              mkNode (id node) (name node) (properties node)
                     (Some (shownColor groupColorMap node))
                     (x node) (y node))
           (filter (fun node => negb (isHidden hiddenGroups node)) ns).

(** [visibleNodeIds.has(sourceId) && visibleNodeIds.has(targetId)] *)
Definition joinsVisible (visible : list Node) (link : Link) : bool :=
  existsb (str_eqb (source link)) (List.map id visible)
  && existsb (str_eqb (target link)) (List.map id visible).

Definition visibleEdges (visible : list Node) (ls : list Link) : list Link :=
  filter (joinsVisible visible) ls.

Definition simpleNode (node : Node) : GraphView.Node :=
  GraphView.mkNode (id node) (GraphView.orElse (name node) (id node))
                   (x node) (y node) (color node) (properties node).

Definition simpleEdge (link : Link) : GraphView.Edge :=
  GraphView.mkEdge (source link) (target link) (link_color link).

(** The props [nodes] and [edges] of the canvas. *)
Definition simpleNodes (hiddenGroups : list str)
           (groupColorMap : list (str * str)) (g : GraphData)
  : list GraphView.Node :=
  List.map simpleNode (visibleNodes hiddenGroups groupColorMap (nodes g)).

Definition simpleEdges (hiddenGroups : list str)
           (groupColorMap : list (str * str)) (g : GraphData)
  : list GraphView.Edge :=
  List.map simpleEdge
           (visibleEdges (visibleNodes hiddenGroups groupColorMap (nodes g))
                         (links g)).

(** [`${sourceId}->${targetId}`] *)
Definition linkKey (sourceId targetId : str) : str :=
  sourceId ++ lit "->" ++ targetId.

Definition existingLinkMap (ls : list Link) : list (str * Link) :=
  fold_left (fun m link => map_set (linkKey (source link) (target link))
                                   link m) ls [].

(** The callback of [graphData.nodes.map] in [handleGraphUpdate]. *)
Definition updateNode (updatedNodes : list GraphView.Node)
           (existingNode : Node) : Node :=
  match find (fun n => str_eqb (GraphView.id n) (id existingNode))
             updatedNodes with
  | Some updatedNode =>
      mkNode (id existingNode) (name existingNode) (properties existingNode)
             (GraphView.color updatedNode)
             (GraphView.x updatedNode) (GraphView.y updatedNode)
  | None => existingNode
  end.

(** The callback of [links.map] in [handleGraphUpdate]. *)
Definition updateLink (existing : list (str * Link)) (edge : GraphView.Edge)
  : Link :=
  let link := mkLink (GraphView.from edge) (GraphView.to edge)
                     (GraphView.edge_color edge) in
  match lookup (linkKey (source link) (target link)) existing with
  | Some existingLink =>
      if given (link_color existingLink) && negb (given (link_color link))
      then mkLink (source link) (target link) (link_color existingLink)
      else link
  | None => link
  end.

(** [handleGraphUpdate]: the document after the canvas reported its nodes
    and edges. *)
Definition handleGraphUpdate (graphData : GraphData)
           (updatedNodes : list GraphView.Node)
           (updatedEdges : list GraphView.Edge) : GraphData :=
  mkGraphData
    (List.map (updateNode updatedNodes) (nodes graphData))
    (List.map (updateLink (existingLinkMap (links graphData))) updatedEdges).

Definition keepsLink (nodeId : str) (link : Link) : bool :=
  negb (str_eqb (source link) nodeId) && negb (str_eqb (target link) nodeId).

(** [handleDeleteNode]: the document without the node and its links. *)
Definition handleDeleteNode (graphData : GraphData) (nodeId : str)
  : GraphData :=
  mkGraphData
    (filter (fun node => negb (str_eqb (id node) nodeId)) (nodes graphData))
    (filter (keepsLink nodeId) (links graphData)).

(** [toggleGroupVisibility] on the set of hidden groups. *)
Definition toggleGroupVisibility (group : str) (hiddenGroups : list str)
  : list str :=
  if existsb (str_eqb group) hiddenGroups
  then filter (fun h => negb (str_eqb h group)) hiddenGroups
  else hiddenGroups ++ [group].

Definition ends (link : Link) : str * str := (source link, target link).

Definition edgeEnds (edge : GraphView.Edge) : str * str :=
  (GraphView.from edge, GraphView.to edge).

End GraphVisualizer.

(** ** The d3 canvas: node sizes and pinned positions *)
Module D3Sizes.
Local Open Scope Q_scope.

Inductive SizingMode : Type := Uniform | Incoming | Outgoing.

(** [counts[key] = (counts[key] || 0) + 1], for a [key] that is an
    [ownKey] of the record. *)
Definition bump (counts : list (str * nat)) (key : str) : list (str * nat) :=
  map_set key (S (match lookup key counts with
                  | Some c => c
                  | None => 0%nat
                  end)) counts.

(** The two records after [nodes.forEach] and [edges.forEach]: the
    incoming and the outgoing counts.  Nodes enter through their ids,
    edges through their ends [(from, to)], all of them [ownKey]s: see
    [plainNames]. *)
Definition zeroCounts (ids : list str) : list (str * nat) * list (str * nat) :=
  fold_left (fun c i => (map_set i 0%nat (fst c), map_set i 0%nat (snd c)))
            ids ([], []).

Definition countEdge (c : list (str * nat) * list (str * nat))
           (edge : str * str) : list (str * nat) * list (str * nat) :=
  let outgoingCount := bump (snd c) (fst edge) in
  let incomingCount := bump (fst c) (snd edge) in
  (incomingCount, outgoingCount).

Definition counts (ids : list str) (edges : list (str * str))
  : list (str * nat) * list (str * nat) :=
  fold_left countEdge edges (zeroCounts ids).

(** [5 + (count[node.id] / max) * 15] with
    [max = Math.max(1, ...Object.values(count))]; [None] is NaN. *)
Definition sizeBy (count : list (str * nat)) (i : str) : option Q :=
  match lookup i count with
  | Some c =>
      Some (5 + (GraphView.ofNat c
                 / GraphView.ofNat (GraphView.maxWithOne (List.map snd count)))
                * 15)
  | None => None
  end.

(** The ids and the edge ends at which the two records are the code's:
    none is the name of a member of [Object.prototype]. *)
Definition plainNames (ids : list str) (edges : list (str * str)) : bool :=
  forallb ownKey ids
  && forallb (fun edge => ownKey (fst edge) && ownKey (snd edge)) edges.

(** [nodeSizes], one radius for each node. *)
Definition nodeSizes (sizingMode : SizingMode) (ids : list str)
           (edges : list (str * str)) : list (option Q) :=
  match sizingMode with
  | Uniform => List.map (fun _ => Some 8) ids
  | Incoming => List.map (sizeBy (fst (counts ids edges))) ids
  | Outgoing => List.map (sizeBy (snd (counts ids edges))) ids
  end.

(** The number of times [k] occurs in a list of ids. *)
Definition occ (k : str) (ks : list str) : nat :=
  List.length (filter (fun x => str_eqb x k) ks).

(** A record with 0 under every id. *)
Definition zeros (ids : list str) : list (str * nat) :=
  fold_left (fun m i => map_set i 0%nat m) ids [].

(** The object of a JSON value (the node objects are objects). *)
Definition asObject (v : Json) : D3Graph.Obj :=
  match v with
  | JObj o => o
  | _ => []
  end.

(** A node object that is pinned where it is: [fx] is [x], [fy] is [y]. *)
Definition pinned (o : D3Graph.Obj) : Prop :=
  exists vx vy,
    lookup (lit "x") o = Some vx /\ lookup (lit "y") o = Some vy
    /\ lookup (lit "fx") o = Some vx /\ lookup (lit "fy") o = Some vy.

(** The keys that [createGraph] may write. *)
Definition positionKey (key : str) : Prop :=
  key = lit "x" \/ key = lit "y" \/ key = lit "fx" \/ key = lit "fy".

End D3Sizes.

(** ** The d3 canvas: dragging a node

    The handlers of the d3 canvas keep the gesture in refs and move the
    elements of the drawing themselves; none of them sets state.
    [handleNodeMouseDown] has no dependencies, so the listeners it puts
    on [document] are the [handleMouseMove] and [handleMouseUp] of the
    first render, which see the [edges] and the [onGraphUpdate] of the
    first render, whatever the props have become. *)
Module D3Drag.
Local Open Scope Q_scope.

(** A zoom transform of d3: the translation and the scale [k]. *)
Record Transform : Type := mkTransform {
  tx : Q;
  ty : Q;
  k : Q
}.

(** The elements that [createGraph] appends, with the attributes that
    the handlers read and write.  An attribute is the number that its
    text denotes ([Number.parseFloat] reads [String(x)] back as [x]);
    [None] is an attribute that is not there. *)
Record Circle : Type := mkCircle {
  data_id : str;
  cx : option Q;
  cy : option Q
}.

Record Text : Type := mkText {
  data_for : str;
  text_x : option Q;
  text_y : option Q
}.

Record Line : Type := mkLine {
  data_source : str;
  data_target : str;
  x1 : option Q;
  y1 : option Q;
  x2 : option Q;
  y2 : option Q
}.

Record State : Type := mkState {
  isDragging : bool;                 (* [isDraggingRef.current] *)
  currentNode : option str;          (* [currentNodeRef.current] *)
  transformRef : option Transform;   (* [transformRef.current] *)
  svg : option (Q * Q);              (* [svgRef.current]: left and top of
                                        its bounding rectangle *)
  container : bool;                  (* is [containerRef.current] set? *)
  zoomTransform : Transform;         (* [d3.zoomTransform(svgRef.current)] *)
  circles : list Circle;
  texts : list Text;
  lines : list Line;
  nodeObjects : list D3Graph.Obj;    (* [nodeObjectsRef.current] *)
  listening : bool                   (* are the two listeners on [document]? *)
}.

Inductive Event : Type :=
| NodeMouseDown (nodeId : str)       (* [mousedown] on the circle of a node *)
| MouseMove (clientX clientY : Q)
| MouseUp.

(** The ids at which the selectors [circle[data-id="..."]] and the like
    select the elements with that attribute: the id holds no quote, no
    backslash, no control character and no surrogate. *)
Definition selectable (i : str) : bool :=
  forallb (fun c => (32 <=? c) && negb (c =? 34) && negb (c =? 92)
                    && ((c <? 55296) || (57343 <? c)))%N i.

(** [anElement.setAttribute(...)] on the result of [querySelector]: the
    first element that matches, if there is one. *)
Fixpoint updateFirst {A} (test : A -> bool) (f : A -> A) (l : list A)
  : list A :=
  match l with
  | [] => []
  | a :: r => if test a then f a :: r else a :: updateFirst test f r
  end.

(** The same on every element of [querySelectorAll]. *)
Definition updateAll {A} (test : A -> bool) (f : A -> A) (l : list A)
  : list A :=
  List.map (fun a => if test a then f a else a) l.

(** [Number.parseFloat(element.getAttribute(name) || "0")] *)
Definition parseFloatOr0 (attribute : option Q) : Q :=
  match attribute with
  | Some q => q
  | None => 0
  end.

(** [n.id === nodeId] *)
Definition hasId (nodeId : str) (n : D3Graph.Obj) : bool :=
  match lookup (lit "id") n with
  | Some (JStr s) => str_eqb s nodeId
  | _ => false
  end.

(** The node of the gesture when
    [!isDraggingRef.current || !currentNodeRef.current] is false. *)
Definition held (st : State) : option str :=
  if isDragging st then
    match currentNode st with
    | Some nodeId => if nonempty nodeId then Some nodeId else None
    | None => None
    end
  else None.

Definition handleNodeMouseDown (st : State) (nodeId : str) : State :=
  mkState true (Some nodeId)
          (match svg st with
           | Some _ => Some (zoomTransform st)
           | None => transformRef st
           end)
          (svg st) (container st) (zoomTransform st)
          (circles st) (texts st) (lines st) (nodeObjects st) true.

Definition handleMouseMove (st : State) (clientX clientY : Q) : State :=
  match held st, svg st, container st with
  | Some nodeId, Some (svgLeft, svgTop), true =>
      let transform := match transformRef st with
                       | Some t => t
                       | None => zoomTransform st
                       end in
      let mouseX := clientX - svgLeft in
      let mouseY := clientY - svgTop in
      let x := (mouseX - tx transform) / k transform in
      let y := (mouseY - ty transform) / k transform in
      let sourceEdges :=
        updateAll (fun edge => str_eqb (data_source edge) nodeId)
                  (fun edge => mkLine (data_source edge) (data_target edge)
                                      (Some x) (Some y) (x2 edge) (y2 edge))
                  (lines st) in
      let targetEdges :=
        updateAll (fun edge => str_eqb (data_target edge) nodeId)
                  (fun edge => mkLine (data_source edge) (data_target edge)
                                      (x1 edge) (y1 edge) (Some x) (Some y))
                  sourceEdges in
      mkState (isDragging st) (currentNode st) (transformRef st)
              (svg st) (container st) (zoomTransform st)
              (updateFirst (fun c => str_eqb (data_id c) nodeId)
                           (fun c => mkCircle (data_id c) (Some x) (Some y))
                           (circles st))
              (updateFirst (fun t => str_eqb (data_for t) nodeId)
                           (fun t => mkText (data_for t) (Some x) (Some y))
                           (texts st))
              targetEdges (nodeObjects st) (listening st)
  | _, _, _ => st
  end.

(** The four assignments to [nodeObjectsRef.current[nodeIndex]]. *)
Definition pin (x y : Q) (n : D3Graph.Obj) : D3Graph.Obj :=
  map_set (lit "fy") (JNum y)
    (map_set (lit "fx") (JNum x)
       (map_set (lit "y") (JNum y)
          (map_set (lit "x") (JNum x) n))).

(** [handleMouseUp] of the first render, whose props are [first]. *)
Definition handleMouseUp (first : D3Graph.Props) (st : State)
  : State * list D3Graph.Effect :=
  match held st, svg st with
  | Some nodeId, Some _ =>
      let updated :=
        match find (fun c => str_eqb (data_id c) nodeId) (circles st) with
        | Some nodeElement =>
            let x := parseFloatOr0 (cx nodeElement) in
            let y := parseFloatOr0 (cy nodeElement) in
            match find (hasId nodeId) (nodeObjects st) with
            | Some _ =>
                let nodeObjects' :=
                  updateFirst (hasId nodeId) (pin x y) (nodeObjects st) in
                (nodeObjects',
                 if D3Graph.onGraphUpdate first
                 then [D3Graph.GraphUpdate
                         (List.map JObj nodeObjects')
                         (List.map JObj (D3Graph.edges first))]
                 else [])
            | None => (nodeObjects st, [])
            end
        | None => (nodeObjects st, [])
        end in
      (mkState false None None (svg st) (container st) (zoomTransform st)
               (circles st) (texts st) (lines st) (fst updated) false,
       snd updated)
  | _, _ =>
      (mkState (isDragging st) (currentNode st) (transformRef st)
               (svg st) (container st) (zoomTransform st)
               (circles st) (texts st) (lines st) (nodeObjects st) false,
       [])
  end.

(** An event of the page; [first] are the props of the first render. *)
Definition step (first : D3Graph.Props) (st : State) (e : Event)
  : State * list D3Graph.Effect :=
  match e with
  | NodeMouseDown nodeId => (handleNodeMouseDown st nodeId, [])
  | MouseMove clientX clientY =>
      if listening st then (handleMouseMove st clientX clientY, [])
      else (st, [])
  | MouseUp =>
      if listening st then handleMouseUp first st else (st, [])
  end.

Fixpoint run (first : D3Graph.Props) (st : State) (events : list Event)
  : State * list D3Graph.Effect :=
  match events with
  | [] => (st, [])
  | e :: rest =>
      let (st1, out1) := step first st e in
      let (st2, out2) := run first st1 rest in
      (st2, out1 ++ out2)
  end.

Definition moveEvents (moves : list (Q * Q)) : list Event :=
  List.map (fun m => MouseMove (fst m) (snd m)) moves.

(** A drag of node [nodeId]: a button goes down on its circle, the
    pointer moves through [moves], the button is released. *)
Definition drag (nodeId : str) (moves : list (Q * Q)) : list Event :=
  NodeMouseDown nodeId :: moveEvents moves ++ [MouseUp].

(** The position at which a circle is drawn. *)
Definition centre (c : Circle) : Q * Q :=
  (parseFloatOr0 (cx c), parseFloatOr0 (cy c)).

(** Modelled from the spec: [pos] is the point of the graph that the
    transform [t] shows under the pointer at [m], in an svg with its
    corner at [rect]. *)
Definition pointerAt (rect : Q * Q) (t : Transform) (m pos : Q * Q) : Prop :=
  fst pos * k t + tx t == fst m - fst rect
  /\ snd pos * k t + ty t == snd m - snd rect.

(** Modelled from the spec: the final position of a node that was drawn
    at [start] and taken through [moves]. *)
Definition finalPosition (rect : Q * Q) (t : Transform) (start : Q * Q)
           (moves : list (Q * Q)) (pos : Q * Q) : Prop :=
  match rev moves with
  | [] => pos = start
  | m :: _ => pointerAt rect t m pos
  end.

Definition positionKey (key : str) : Prop :=
  key = lit "x" \/ key = lit "y" \/ key = lit "fx" \/ key = lit "fy".

(** Modelled from the spec: [new] is the collection [old] with [pos]
    committed into the first node of id [nodeId], as its position and as
    the place where it is pinned, and nothing else changed. *)
Definition committed (nodeId : str) (pos : Q * Q)
           (old new : list D3Graph.Obj) : Prop :=
  exists before node node' after,
    old = before ++ node :: after
    /\ new = before ++ node' :: after
    /\ Forall (fun n => lookup (lit "id") n <> Some (JStr nodeId)) before
    /\ lookup (lit "id") node = Some (JStr nodeId)
    /\ lookup (lit "x") node' = Some (JNum (fst pos))
    /\ lookup (lit "y") node' = Some (JNum (snd pos))
    /\ lookup (lit "fx") node' = Some (JNum (fst pos))
    /\ lookup (lit "fy") node' = Some (JNum (snd pos))
    /\ forall key, ~ positionKey key -> lookup key node' = lookup key node.

End D3Drag.

(** ** [src/lib/graph-parser.ts]: [exportToPlantUML] *)
Module PlantUML.

(** [/[a-zA-Z0-9_]/] on a code unit. *)
Definition wordChar (c : char) : bool :=
  ((97 <=? c) && (c <=? 122) || (65 <=? c) && (c <=? 90)
   || (48 <=? c) && (c <=? 57) || (c =? 95))%N.

Definition underscore : char := 95%N.
Definition hash : char := 35%N.
Definition doubleQuote : char := 34%N.

(** [id.replace(/[^a-zA-Z0-9_]/g, "_")] *)
Definition sanitize (s : str) : str :=
  List.map (fun c => if wordChar c then c else underscore) s.

(** [color.replace("#", "")]: the first [#] is removed. *)
Fixpoint dropHash (s : str) : str :=
  match s with
  | [] => []
  | c :: r => if (c =? hash)%N then r else c :: dropHash r
  end.

(** [if (color) plantUML += ` #${color.replace("#", "")}`] *)
Definition colorPart (color : str) : str :=
  if nonempty color then lit " #" ++ dropHash color else [].

(** The color of a node type; the empty string for any other type. *)
Definition typeColor (nodeType : option Json) : str :=
  match nodeType with
  | Some (JStr t) =>
      if str_eqb t (lit "source") then lit "#4caf50"
      else if str_eqb t (lit "process") then lit "#2196f3"
      else if str_eqb t (lit "decision") then lit "#ff9800"
      else if str_eqb t (lit "sink") then lit "#f44336"
      else []
  | _ => []
  end.

(** [node.properties?.type] *)
Definition typeOf (node : GraphParser.Node) : option Json :=
  match GraphParser.properties node with
  | Some (JObj kvs) => lookup (lit "type") kvs
  | _ => None
  end.

(** [node.color || ""], then the color of the type if that is empty. *)
Definition nodeColor (node : GraphParser.Node) : str :=
  match GraphParser.color node with
  | Some c => if nonempty c then c else typeColor (typeOf node)
  | None => typeColor (typeOf node)
  end.

Definition header : str :=
  lit "@startuml" ++ [GraphParser.newline_]
  ++ lit "skinparam node {" ++ [GraphParser.newline_]
  ++ lit "  BackgroundColor white" ++ [GraphParser.newline_]
  ++ lit "  BorderColor black" ++ [GraphParser.newline_]
  ++ lit "  FontSize 12" ++ [GraphParser.newline_]
  ++ lit "}" ++ [GraphParser.newline_; GraphParser.newline_].

Section Text.
(** The text of a value in a template literal. *)
Variable String_ : Json -> str.

(** [`${node.name || node.id}`] *)
Definition nodeName (node : GraphParser.Node) : str :=
  if truthy (GraphParser.name node)
  then match GraphParser.name node with
       | JStr s => s
       | v => String_ v
       end
  else GraphParser.id node.

(** What one iteration of the first loop appends. *)
Definition nodeLine (node : GraphParser.Node) : str :=
  lit "node " ++ [doubleQuote] ++ nodeName node ++ [doubleQuote]
  ++ lit " as " ++ sanitize (GraphParser.id node)
  ++ colorPart (nodeColor node) ++ [GraphParser.newline_].

(** What one iteration of the second loop appends. *)
Definition linkLine (link : GraphParser.Link) : str :=
  sanitize (GraphParser.source link) ++ lit " --> "
  ++ sanitize (GraphParser.target link)
  ++ colorPart (match GraphParser.link_color link with
                | Some c => c
                | None => []
                end)
  ++ [GraphParser.newline_].

Definition exportToPlantUML (graphData : GraphParser.GraphData) : str :=
  let plantUML := header in
  let plantUML :=
    fold_left (fun text node => text ++ nodeLine node)
              (GraphParser.nodes graphData) plantUML in
  let plantUML := plantUML ++ [GraphParser.newline_] in
  let plantUML :=
    fold_left (fun text link => text ++ linkLine link)
              (GraphParser.links graphData) plantUML in
  plantUML ++ lit "@enduml".
End Text.

(** An identifier of the diagram: letters, digits and [_] only. *)
Definition identifier (s : str) : Prop := forallb wordChar s = true.

End PlantUML.

(** ** The connection text

    Modelled from the spec: the connection text is cut at every comma,
    semicolon and newline; each piece is trimmed of the blanks around it
    and the pieces that are left empty are dropped; what remains are the
    tokens.  A connection is SOURCE_ID (ARROW|DASH) TARGET_ID, optionally
    followed by [[COLOR]], with ARROW|DASH one of [->], [=>], em dash,
    en dash, [-], and blanks allowed around it.  A token is read for the
    first connection in it; a token without one is reported and
    skipped. *)
Module ConnectionText.
Local Open Scope N_scope.

Definition separates (c : char) : Prop := c = 44 \/ c = 59 \/ c = 10.

(** White space and line terminators. *)
Definition blank (c : char) : Prop :=
  9 <= c <= 13 \/ c = 32 \/ c = 160 \/ c = 5760 \/ 8192 <= c <= 8202
  \/ c = 8232 \/ c = 8233 \/ c = 8239 \/ c = 8287 \/ c = 12288
  \/ c = 65279.

(** The text cut at every separator. *)
Inductive Pieces : str -> list str -> Prop :=
| LastPiece piece :
    Forall (fun c => ~ separates c) piece -> Pieces piece [piece]
| NextPiece piece c rest pieces :
    Forall (fun c => ~ separates c) piece -> separates c ->
    Pieces rest pieces ->
    Pieces (piece ++ c :: rest) (piece :: pieces).

(** [token] is [piece] without the blanks at its two ends. *)
Definition Trimmed (piece token : str) : Prop :=
  exists l r,
    piece = l ++ token ++ r /\ Forall blank l /\ Forall blank r
    /\ (forall c t, token = c :: t -> ~ blank c)
    /\ (forall t c, token = t ++ [c] -> ~ blank c).

(** The trimmed pieces that are not empty, in the order of the pieces. *)
Inductive Tokens : list str -> list str -> Prop :=
| NoToken : Tokens [] []
| EmptyPiece piece pieces tokens :
    Trimmed piece [] -> Tokens pieces tokens ->
    Tokens (piece :: pieces) tokens
| NextToken piece token pieces tokens :
    Trimmed piece token -> token <> [] -> Tokens pieces tokens ->
    Tokens (piece :: pieces) (token :: tokens).

(** The characters of a source id: no blank and none of [-], [=], [>];
    those of a target id: in addition no [[]. *)
Definition idChar (c : char) : Prop :=
  ~ blank c /\ c <> 45 /\ c <> 61 /\ c <> 62.

Definition targetChar (c : char) : Prop := idChar c /\ c <> 91.

Definition arrows : list str :=
  [lit "->"; lit "=>"; [8212]; [8211]; lit "-"].

(** A color: at least one character, none of them []]. *)
Definition Color (k : str) : Prop := k <> [] /\ Forall (fun c => c <> 93) k.

Definition bracketed (color : option str) : str :=
  match color with
  | Some k => 91 :: k ++ [93]
  | None => []
  end.

(** [text] is a connection from [source] to [target] with the color
    [color]. *)
Definition Connection (text source target : str) (color : option str)
  : Prop :=
  exists ws1 a ws2,
    text = source ++ ws1 ++ a ++ ws2 ++ target ++ bracketed color
    /\ source <> [] /\ Forall idChar source
    /\ Forall blank ws1 /\ In a arrows /\ Forall blank ws2
    /\ target <> [] /\ Forall targetChar target
    /\ match color with Some k => Color k | None => True end.

(** A connection starts at the head of [rest]. *)
Definition StartsConnection (rest : str) : Prop :=
  exists text after source target color,
    rest = text ++ after /\ Connection text source target color.

(** The connection read from a token is the first one in it: no
    connection starts before it; no connection that starts where it
    starts has a longer source; its target is not followed by another
    target character; and a color in brackets that follows the target
    is part of it. *)
Definition Reads (token source target : str) (color : option str) : Prop :=
  exists before text after,
    token = before ++ text ++ after
    /\ Connection text source target color
    /\ (forall before' rest',
          token = before' ++ rest' ->
          (List.length before' < List.length before)%nat ->
          ~ StartsConnection rest')
    /\ (forall text' after' source' target' color',
          text ++ after = text' ++ after' ->
          Connection text' source' target' color' ->
          (List.length source' <= List.length source)%nat)
    /\ (color = None ->
        (forall c r, after = c :: r -> ~ targetChar c)
        /\ (forall k r, Color k -> after <> 91 :: k ++ 93 :: r)).

(** No connection starts anywhere in the token. *)
Definition Unreadable (token : str) : Prop :=
  forall before rest, token = before ++ rest -> ~ StartsConnection rest.

(** The links and the diagnostics of a list of tokens: a token that
    reads as a connection gives one link, a token that does not gives
    one diagnostic, and the tokens after it are read all the same. *)
Inductive Parsed : list str -> list GraphParser.Link -> list str -> Prop :=
| ParsedNone : Parsed [] [] []
| ParsedLink token source target color tokens links warnings :
    Reads token source target color ->
    Parsed tokens links warnings ->
    Parsed (token :: tokens)
           (GraphParser.mkLink source target color :: links) warnings
| ParsedSkip token tokens links warnings :
    Unreadable token ->
    Parsed tokens links warnings ->
    Parsed (token :: tokens) links (token :: warnings).

End ConnectionText.

(** ** The degree of a node

    Modelled from the spec: "degree counted from the edge set in the
    named direction".  An edge is the pair of the identifiers it starts
    and ends at; the incoming degree of a node is the number of edges of
    the set whose second component is the node's identifier, the
    outgoing degree the number of those whose first component is. *)
Module Degree.

Definition arrowsOf {E : Type} (source target : E -> str) (edges : list E)
  : list (str * str) :=
  List.map (fun e => (source e, target e)) edges.

Definition incoming (arrows : list (str * str)) (i : str) : nat :=
  count_occ str_eq_dec (List.map snd arrows) i.

Definition outgoing (arrows : list (str * str)) (i : str) : nat :=
  count_occ str_eq_dec (List.map fst arrows) i.

(** The largest of the degrees [degree] gives to the identifiers [ids]
    (0 when there is none). *)
Definition largest (degree : str -> nat) (ids : list str) : nat :=
  list_max (List.map degree ids).

(** The radius the specification gives to a node of degree [deg] in a
    graph whose largest degree is [maxDeg]:
    5 + 15 * (degree / max(1, maxDegreeInGraph)). *)
Definition radius (deg maxDeg : nat) : Q :=
  (5 + 15 * (inject_Z (Z.of_nat deg)
             / Qmax 1 (inject_Z (Z.of_nat maxDeg))))%Q.

End Degree.

(** ** Predicates and sample data used by the claims *)

Local Open Scope Q_scope.

(** The view while node [i] is being dragged from the view [v]: only the
    nodes and the position cache differ from [v]. *)
Definition draggingFrom (i : str) (offset : Q * Q) (v w : GraphView.View)
  : Prop :=
  GraphView.zoom w = GraphView.zoom v
  /\ GraphView.pan w = GraphView.pan v
  /\ GraphView.dragging w = Some i
  /\ GraphView.dragOffset w = offset
  /\ GraphView.isPanning w = false.

(** The order of [Array.prototype.sort] on strings. *)
Definition leStr (a b : str) : Prop := GraphView.str_leb a b = true.

Definition grouped (i g : String.string) : GraphView.Node :=
  GraphView.mkNode (lit i) (lit i) None None None
                   (Some [(lit "group", JStr (lit g))]).

Definition grouped' (i g : String.string) : SimpleDragGraph.Node :=
  SimpleDragGraph.mkNode (lit i) (lit i) 0 0 None
                         (Some [(lit "group", JStr (lit g))]).

(** A string literal of JSON text. *)
Definition quoted (x : String.string) : str := (34%N :: lit x) ++ [34%N].

(** The text [{"A":{"name":"Alpha"},"Z":{}}]. *)
Definition sampleProperties : str :=
  lit "{" ++ quoted "A" ++ lit ":{" ++ quoted "name" ++ lit ":"
      ++ quoted "Alpha" ++ lit "}," ++ quoted "Z" ++ lit ":{}}".

Definition sampleGraph : GraphParser.GraphData :=
  GraphParser.mkGraphData
    [ GraphParser.mkNode (lit "A") (JStr (lit "Alpha"))
        (Some (JObj [(lit "name", JStr (lit "Alpha"))])) None;
      GraphParser.newNode (lit "B") None;
      GraphParser.newNode (lit "C") None;
      GraphParser.newNode (lit "Z") (Some (JObj [])) ]
    [ GraphParser.mkLink (lit "A") (lit "B") None;
      GraphParser.mkLink (lit "B") (lit "A") None;
      GraphParser.mkLink (lit "A") (lit "C") None ].

(** An instance of [Number(v)] for the examples: numbers, booleans and
    null are converted as the platform does; every other value is NaN
    here (the platform also reads numeric strings). *)
Definition numberOf (v : Json) : option Q :=
  match v with
  | JNum q => Some q
  | JBool true => Some 1
  | JBool false | JNull => Some 0
  | _ => None
  end.

Definition placed (i : String.string) (px py : Q) : GraphView.Node :=
  GraphView.mkNode (lit i) (lit i) (Some px) (Some py) None None.

Definition arrow (a b : String.string) : GraphView.Edge :=
  GraphView.mkEdge (lit a) (lit b) None.

(** Three nodes; A and B both point to C. *)
Definition sampleNodes : list GraphView.Node :=
  [placed "A" 10 10; placed "B" 13 14; placed "C" 100 40].

Definition sampleEdges : list GraphView.Edge :=
  [arrow "A" "C"; arrow "B" "C"].

Definition sampleProps : GraphView.Props :=
  GraphView.mkProps sampleEdges true true (Some (0, 0)).

Definition sampleView : GraphView.View :=
  GraphView.mkView sampleNodes 1 (0, 0) None (0, 0) false (0, 0) [].

Definition sampleNodes' : list SimpleDragGraph.Node :=
  [SimpleDragGraph.mkNode (lit "A") (lit "A") 10 10 None None].

(** A canvas of the d3 view holding one node, and an idle one. *)
Definition sampleNodeObject : Json :=
  JObj [ (lit "id", JStr (lit "A")); (lit "label", JStr (lit "A"));
         (lit "x", JNum 10); (lit "y", JNum 20);
         (lit "fx", JNum 10); (lit "fy", JNum 20);
         (lit "color", JStr (lit "#ff0000")) ].

Definition sampleD3Props : D3Graph.Props :=
  D3Graph.mkProps [] [[(lit "from", JStr (lit "A")); (lit "to", JStr (lit "A"))]]
                  true.

Definition sampleD3State : D3Graph.State :=
  D3Graph.mkState [sampleNodeObject]
                  (JObj [(lit "default", JStr (lit "#00ff00"))])
                  (Some (800, 500)) 0.

Definition emptyD3State : D3Graph.State :=
  D3Graph.mkState [] (JObj []) (Some (800, 500)) 0.

Definition halves (n : nat) : Q := 1 # 2.

(** The text [{"nodes":1,"edges":[]}]. *)
Definition noNodeArray : str :=
  lit "{" ++ quoted "nodes" ++ lit ":1," ++ quoted "edges" ++ lit ":[]}".

(** The d3 canvas while node [i] is held, in a gesture that began in
    the state [st]: only the drawing differs from [st]. *)
Definition d3Dragging (i : str) (rect : Q * Q) (st w : D3Drag.State)
  : Prop :=
  D3Drag.isDragging w = true
  /\ D3Drag.currentNode w = Some i
  /\ D3Drag.transformRef w = Some (D3Drag.zoomTransform st)
  /\ D3Drag.svg w = Some rect
  /\ D3Drag.container w = true
  /\ D3Drag.zoomTransform w = D3Drag.zoomTransform st
  /\ D3Drag.nodeObjects w = D3Drag.nodeObjects st
  /\ D3Drag.listening w = true.

(** The point that [handleMouseMove] of the d3 canvas computes. *)
Definition d3Point (rect : Q * Q) (t : D3Drag.Transform) (m : Q * Q)
  : Q * Q :=
  ((fst m - fst rect - D3Drag.tx t) / D3Drag.k t,
   (snd m - snd rect - D3Drag.ty t) / D3Drag.k t).

(** A drawing of the d3 canvas: A at (10, 10) and B at (13, 14), joined
    by a line, shown at scale 2 and shifted by (5, 5). *)
Definition sampleObject (i : String.string) (px py : Q) : D3Graph.Obj :=
  [ (lit "id", JStr (lit i)); (lit "label", JStr (lit i));
    (lit "x", JNum px); (lit "y", JNum py);
    (lit "fx", JNum px); (lit "fy", JNum py) ].

Definition sampleDrawing : D3Drag.State :=
  D3Drag.mkState
    false None None (Some (0, 0)) true (D3Drag.mkTransform 5 5 2)
    [ D3Drag.mkCircle (lit "A") (Some 10) (Some 10);
      D3Drag.mkCircle (lit "B") (Some 13) (Some 14) ]
    [ D3Drag.mkText (lit "A") (Some 10) (Some 10);
      D3Drag.mkText (lit "B") (Some 13) (Some 14) ]
    [ D3Drag.mkLine (lit "A") (lit "B")
                    (Some 10) (Some 10) (Some 13) (Some 14) ]
    [ sampleObject "A" 10 10; sampleObject "B" 13 14 ]
    false.

(** The props of the first render, and the edges they had. *)
Definition sampleFirstProps : D3Graph.Props :=
  D3Graph.mkProps
    [ sampleObject "A" 10 10; sampleObject "B" 13 14 ]
    [ [(lit "from", JStr (lit "A")); (lit "to", JStr (lit "B"))] ]
    true.

(** The sample view with the positions of its nodes stored. *)
Definition sampleStoredView : GraphView.View :=
  GraphView.mkView sampleNodes 1 (0, 0) None (0, 0) false (0, 0)
                   [ (lit "A", (10, 10)); (lit "B", (13, 14));
                     (lit "C", (100, 40)) ].

Definition sampleCanvas : GraphCanvas.Canvas :=
  GraphCanvas.mkCanvas sampleStoredView true 0.

Definition sampleCallbacks : GraphCanvas.Callbacks :=
  GraphCanvas.mkCallbacks sampleProps true.

(** Zoom in, turn the wheel, pan, delete A, recolor B, zoom out. *)
Definition sampleControls : list GraphCanvas.Control :=
  [ GraphCanvas.ZoomIn;
    GraphCanvas.Pointer (GraphView.Wheel 5 5 (-1));
    GraphCanvas.Pointer (GraphView.NodeMouseDown 0 13 14 (lit "B"));
    GraphCanvas.Pointer (GraphView.MouseMove 50 60);
    GraphCanvas.Pointer GraphView.MouseUp;
    GraphCanvas.DeleteNode (lit "A");
    GraphCanvas.ApplyNodeColor (Some (lit "B")) (lit "#112233");
    GraphCanvas.ZoomOut ].

(** A node that comes without a position. *)
Definition unplaced (i : String.string) : GraphView.Node :=
  GraphView.mkNode (lit i) (lit i) None None None None.

(** Two node objects of the d3 canvas, one with a position. *)
Definition sampleD3Nodes : list D3Graph.Obj :=
  [ [ (lit "id", JStr (lit "A")); (lit "x", JNum 10); (lit "y", JNum 20) ];
    [ (lit "id", JStr (lit "B")) ] ].

Local Close Scope Q_scope.

(** * The claims *)

(** ** Association lists *)

Lemma lookup_in_keys {A} (k : str) (m : list (str * A)) (v : A) :
  lookup k m = Some v -> In k (List.map fst m).
Proof.
  induction m as [|[k' v'] m IH]; simpl; [discriminate|].
  destruct (str_eq_dec k k'); [left; congruence | right; auto].
Qed.

Lemma lookup_none_keys {A} (k : str) (m : list (str * A)) :
  lookup k m = None -> ~ In k (List.map fst m).
Proof.
  induction m as [|[k' v'] m IH]; simpl; [tauto|].
  destruct (str_eq_dec k k'); [discriminate|].
  intros H [E|I]; [congruence | exact (IH H I)].
Qed.

Lemma keys_map_set {A} (k : str) (v : A) (m : list (str * A)) :
  List.map fst (map_set k v m) =
  if has k m then List.map fst m else List.map fst m ++ [k].
Proof.
  unfold has.
  induction m as [|[k' v'] m IH]; simpl; [reflexivity|].
  destruct (str_eq_dec k k'); simpl; [reflexivity|].
  rewrite IH. destruct (lookup k m); reflexivity.
Qed.

Lemma in_map_set {A} (k : str) (v : A) (m : list (str * A)) (e : str * A) :
  In e (map_set k v m) -> In e m \/ e = (k, v).
Proof.
  induction m as [|[k' v'] m IH]; simpl.
  - intros [E|[]]; auto.
  - destruct (str_eq_dec k k') as [->|N]; simpl.
    + intros [E|I]; auto.
    + intros [E|I]; auto. destruct (IH I); auto.
Qed.

Lemma keys_grow {A} (k k' : str) (v : A) (m : list (str * A)) :
  In k (List.map fst m) -> In k (List.map fst (map_set k' v m)).
Proof.
  rewrite keys_map_set. destruct (has k' m); [auto|].
  intro; apply in_or_app; auto.
Qed.

Lemma key_set {A} (k : str) (v : A) (m : list (str * A)) :
  In k (List.map fst (map_set k v m)).
Proof.
  rewrite keys_map_set. unfold has.
  destruct (lookup k m) eqn:E.
  - eapply lookup_in_keys; eauto.
  - apply in_or_app; right; left; reflexivity.
Qed.

Lemma nodup_map_set {A} (k : str) (v : A) (m : list (str * A)) :
  NoDup (List.map fst m) -> NoDup (List.map fst (map_set k v m)).
Proof.
  intro H. rewrite keys_map_set. unfold has.
  destruct (lookup k m) eqn:E; [exact H|].
  apply NoDup_app; [exact H | repeat constructor; simpl; tauto |].
  intros a Ha [<-|[]]. exact (lookup_none_keys _ _ E Ha).
Qed.

(** ** Blank text has no connections *)

Lemma dropWhile_nil_forallb (p : char -> bool) (s : str) :
  dropWhile p s = [] <-> forallb p s = true.
Proof.
  induction s as [|c s IH]; simpl; [tauto|].
  destruct (p c); simpl; [exact IH | split; discriminate].
Qed.

Lemma dropWhile_head (p : char -> bool) (s : str) (c : char) (r : str) :
  dropWhile p s = c :: r -> p c = false.
Proof.
  induction s as [|d s IH]; simpl; [discriminate|].
  destruct (p d) eqn:E; [exact IH | congruence].
Qed.

Lemma forallb_rev (p : char -> bool) (s : str) :
  forallb p (rev s) = forallb p s.
Proof.
  destruct (forallb p s) eqn:E.
  - rewrite forallb_forall in *. intros c H. apply E, in_rev, H.
  - destruct (forallb p (rev s)) eqn:F; [|reflexivity].
    rewrite <- E. symmetry. rewrite forallb_forall in *.
    intros c H. apply F. rewrite <- in_rev. exact H.
Qed.

Lemma trim_nil_iff (s : str) : trim s = [] <-> forallb is_space s = true.
Proof.
  unfold trim. split.
  - intro H. apply (f_equal (@rev char)) in H. rewrite rev_involutive in H.
    simpl in H. apply dropWhile_nil_forallb in H. rewrite forallb_rev in H.
    destruct (dropWhile is_space s) as [|c r] eqn:D.
    + apply dropWhile_nil_forallb; exact D.
    + apply dropWhile_head in D. simpl in H. rewrite D in H. discriminate.
  - intro H. apply dropWhile_nil_forallb in H. rewrite H. reflexivity.
Qed.

Lemma split_forallb (sep p : char -> bool) (s : str) :
  forallb p s = true -> Forall (fun t => forallb p t = true) (split sep s).
Proof.
  induction s as [|c s IH]; simpl; intro H.
  - repeat constructor.
  - apply andb_true_iff in H as [Hc Hs]. specialize (IH Hs).
    destruct (sep c); [constructor; auto|].
    destruct (split sep s) as [|h t]; inversion IH; subst;
      constructor; simpl; auto; rewrite Hc; auto.
Qed.

Lemma blank_connectionsOf (s : str) :
  trim s = [] -> GraphParser.connectionsOf s = [].
Proof.
  intro H. apply trim_nil_iff in H.
  apply (split_forallb GraphParser.separator) in H.
  unfold GraphParser.connectionsOf.
  induction H as [|t l Ht _ IH]; simpl; [reflexivity|].
  apply trim_nil_iff in Ht. rewrite Ht. exact IH.
Qed.

(** ** The parser *)

Lemma fold_connectionStep (cs : list str) (st : GraphParser.St) :
  GraphParser.st_links (fold_left GraphParser.connectionStep cs st)
  = GraphParser.st_links st ++ GraphParser.edgesOf cs
  /\ GraphParser.st_warnings (fold_left GraphParser.connectionStep cs st)
     = GraphParser.st_warnings st ++ GraphParser.skipped cs.
Proof.
  revert st. induction cs as [|c cs IH]; intro st; simpl.
  - now rewrite !app_nil_r.
  - destruct (IH (GraphParser.connectionStep st c)) as [L W].
    rewrite L, W. unfold GraphParser.connectionStep, GraphParser.linkOf.
    destruct (GraphParser.matchConnection c) as [[[a b] col]|]; simpl;
      rewrite <- ?app_assoc; auto.
Qed.

Lemma parseConnections_spec (text : str) :
  let st := GraphParser.parseConnections text (GraphParser.mkSt [] [] []) in
  GraphParser.st_links st = GraphParser.edgesOf (GraphParser.connectionsOf text)
  /\ GraphParser.st_warnings st
     = GraphParser.skipped (GraphParser.connectionsOf text).
Proof.
  unfold GraphParser.parseConnections.
  destruct (trim text) eqn:T; simpl.
  - rewrite (blank_connectionsOf _ T). auto.
  - apply (fold_connectionStep _ (GraphParser.mkSt [] [] [])).
Qed.

Lemma edges_and_skipped (cs : list str) :
  (List.length (GraphParser.edgesOf cs)
   + List.length (GraphParser.skipped cs) = List.length cs)%nat.
Proof.
  induction cs as [|c cs IH]; simpl; [reflexivity|].
  unfold GraphParser.linkOf.
  destruct (GraphParser.matchConnection c) as [[[a b] col]|]; simpl; lia.
Qed.

(** C4.  When [propertiesText] is not blank and [JSON.parse] rejects it,
    the call throws: its outcome is the error whose message is
    "Failed to parse node properties: " followed by the message of the
    JSON error, whatever the connection text was, and so no graph is
    returned. *)
Theorem C4_malformed_properties_fatal
        (JSON_parse : str -> Json + str)
        (connectionsText propertiesText message : str) :
  trim propertiesText <> [] ->
  JSON_parse propertiesText = inr message ->
  fst (GraphParser.parseGraphData JSON_parse connectionsText propertiesText)
  = inr (GraphParser.failurePrefix ++ message)
  /\ forall g,
       fst (GraphParser.parseGraphData JSON_parse connectionsText propertiesText)
       <> inl g.
Proof.
  intros Hne Herr.
  assert (E : fst (GraphParser.parseGraphData JSON_parse connectionsText
                                              propertiesText)
              = inr (GraphParser.failurePrefix ++ message)).
  { unfold GraphParser.parseGraphData, GraphParser.parseProperties.
    rewrite Herr. destruct (trim propertiesText); [congruence | reflexivity]. }
  split; [exact E | intros g; rewrite E; discriminate].
Qed.

(** C4 at the text [{bad]. *)
Lemma C4_witness :
  fst (GraphParser.parseGraphData RefJSON.parse (lit "A->B") (lit "{bad"))
  = inr (GraphParser.failurePrefix ++ RefJSON.syntaxError)
  /\ forall g,
       fst (GraphParser.parseGraphData RefJSON.parse (lit "A->B") (lit "{bad"))
       <> inl g.
Proof.
  apply (C4_malformed_properties_fatal RefJSON.parse (lit "A->B") (lit "{bad")
                                       (message := RefJSON.syntaxError)).
  - vm_compute. discriminate.
  - vm_compute. reflexivity.
Defined.

(** ** The connection grammar *)

(** Whatever the matcher reports is a match. *)
Lemma run_sound (A : Type) (r : Regex.re) :
  forall (s : str) (c : Regex.caps) (k : str -> Regex.caps -> option A) (x : A),
    Regex.run r s c k = Some x ->
    exists s1 c1, RegexSemantics.Matches r s c s1 c1 /\ k s1 c1 = Some x.
Proof.
  induction r as [|p|a IHa b IHb|a IHa b IHb|a IHa|i a IHa];
    intros s c k x H; simpl in H.
  - exists s, c. split; [constructor | exact H].
  - destruct s as [|y s]; [discriminate|].
    destruct (p y) eqn:P; [|discriminate].
    exists s, c. split; [now constructor | exact H].
  - apply IHa in H as (s1 & c1 & M1 & K1).
    apply IHb in K1 as (s2 & c2 & M2 & K2).
    exists s2, c2. split; [econstructor; eauto | exact K2].
  - destruct (Regex.run a s c k) eqn:E.
    + inversion H; subst. apply IHa in E as (s1 & c1 & M & K).
      exists s1, c1. split; [now apply RegexSemantics.MAltL | exact K].
    + apply IHb in H as (s1 & c1 & M & K).
      exists s1, c1. split; [now apply RegexSemantics.MAltR | exact K].
  - revert H. generalize (List.length s) at 1. intro n. revert s c.
    induction n as [|n IHn]; intros s c H.
    + exists s, c. split; [constructor | exact H].
    + match type of H with
      | match ?t with _ => _ end = _ => destruct t eqn:E
      end.
      * inversion H; subst.
        apply IHa in E as (s1 & c1 & M & K).
        destruct (Nat.ltb_spec (List.length s1) (List.length s)) as [L|L];
          [|discriminate].
        apply IHn in K as (s2 & c2 & M2 & K2).
        exists s2, c2. split; [|exact K2].
        eapply RegexSemantics.MStarStep; eauto.
      * exists s, c. split; [constructor | exact H].
  - apply IHa in H as (s1 & c1 & M & K).
    eexists _, _. split; [constructor; exact M | exact K].
Qed.

Lemma search_sound (r : Regex.re) (s : str) (c : Regex.caps) :
  Regex.search r s = Some c ->
  exists before rest after,
    s = before ++ rest /\ RegexSemantics.Matches r rest [] after c.
Proof.
  induction s as [|y s IH]; simpl.
  - destruct (Regex.run r [] [] (fun _ c0 => Some c0)) eqn:E; [|discriminate].
    intro H. inversion H; subst.
    apply run_sound in E as (s1 & c1 & M & K). inversion K; subst.
    exists [], [], s1. split; [reflexivity | exact M].
  - destruct (Regex.run r (y :: s) [] (fun _ c0 => Some c0)) eqn:E.
    + intro H. inversion H; subst.
      apply run_sound in E as (s1 & c1 & M & K). inversion K; subst.
      exists [], (y :: s), s1. split; [reflexivity | exact M].
    + intro H. destruct (IH H) as (before & rest & after & -> & M).
      exists (y :: before), rest, after. split; [reflexivity | exact M].
Qed.

(** A match consumes a prefix. *)
Lemma matches_prefix (r : Regex.re) (s s1 : str) (c c1 : Regex.caps) :
  RegexSemantics.Matches r s c s1 c1 -> exists pre, s = pre ++ s1.
Proof.
  induction 1.
  - now exists [].
  - now exists [x].
  - destruct IHMatches1 as [p1 ->]. destruct IHMatches2 as [p2 ->].
    exists (p1 ++ p2). now rewrite app_assoc.
  - assumption.
  - assumption.
  - now exists [].
  - destruct IHMatches1 as [p1 ->]. destruct IHMatches2 as [p2 ->].
    exists (p1 ++ p2). now rewrite app_assoc.
  - assumption.
Qed.

Lemma matches_class_star (p : char -> bool) (s s1 : str) (c c1 : Regex.caps) :
  RegexSemantics.Matches (Regex.Star (Regex.Chr p)) s c s1 c1 ->
  c1 = c /\ exists pre, s = pre ++ s1 /\ forallb p pre = true.
Proof.
  intro H. remember (Regex.Star (Regex.Chr p)) as r eqn:R.
  induction H; try discriminate.
  - split; [reflexivity | now exists []].
  - inversion R; subst.
    match goal with
    | M : RegexSemantics.Matches (Regex.Chr _) _ _ _ _ |- _ =>
        inversion M; subst
    end.
    destruct (IHMatches2 eq_refl) as (-> & pre & -> & F).
    split; [reflexivity|]. exists (x :: pre). split; [reflexivity|].
    simpl. rewrite F.
    match goal with P : p x = true |- _ => now rewrite P end.
Qed.

Lemma matches_class_plus (p : char -> bool) (s s1 : str) (c c1 : Regex.caps) :
  RegexSemantics.Matches (Regex.Plus (Regex.Chr p)) s c s1 c1 ->
  c1 = c /\ exists pre, s = pre ++ s1 /\ pre <> [] /\ forallb p pre = true.
Proof.
  intro H. inversion H; subst.
  match goal with
  | M : RegexSemantics.Matches (Regex.Chr _) _ _ _ _ |- _ => inversion M; subst
  end.
  match goal with
  | M : RegexSemantics.Matches (Regex.Star _) _ _ _ _ |- _ =>
      apply matches_class_star in M as (-> & pre & -> & F)
  end.
  split; [reflexivity|]. exists (x :: pre).
  repeat split; [discriminate|]. simpl. rewrite F.
  match goal with P : p x = true |- _ => now rewrite P end.
Qed.

Lemma matches_lit (l s s1 : str) (c c1 : Regex.caps) :
  RegexSemantics.Matches (Regex.Lit l) s c s1 c1 -> c1 = c /\ s = l ++ s1.
Proof.
  revert s c. induction l as [|y l IH]; intros s c H; simpl in H.
  - inversion H; subst. auto.
  - inversion H; subst.
    match goal with
    | M : RegexSemantics.Matches (Regex.Chr _) _ _ _ _ |- _ => inversion M; subst
    end.
    match goal with P : N.eqb _ _ = true |- _ => apply N.eqb_eq in P; subst end.
    match goal with
    | M : RegexSemantics.Matches (Regex.Lit _) _ _ _ _ |- _ =>
        apply IH in M as (-> & ->)
    end.
    auto.
Qed.

Lemma firstn_prefix (pre s1 : str) :
  firstn (List.length (pre ++ s1) - List.length s1) (pre ++ s1) = pre.
Proof.
  rewrite length_app, Nat.add_sub, firstn_app, Nat.sub_diag, firstn_all.
  simpl. apply app_nil_r.
Qed.

Lemma matches_group_plus (i : nat) (p : char -> bool) (s s1 : str)
      (c c1 : Regex.caps) :
  RegexSemantics.Matches (Regex.Group i (Regex.Plus (Regex.Chr p))) s c s1 c1 ->
  exists pre, s = pre ++ s1 /\ pre <> [] /\ forallb p pre = true
              /\ c1 = (i, pre) :: c.
Proof.
  intro H. inversion H; subst.
  match goal with
  | M : RegexSemantics.Matches (Regex.Plus _) _ _ _ _ |- _ =>
      apply matches_class_plus in M as (-> & pre & -> & N & F)
  end.
  exists pre. rewrite firstn_prefix. auto.
Qed.

Lemma matches_arrow (s s1 : str) (c c1 : Regex.caps) :
  RegexSemantics.Matches GraphParser.arrow s c s1 c1 ->
  c1 = c /\ exists a, In a ParsedGraph.arrows /\ s = a ++ s1.
Proof.
  unfold GraphParser.arrow. intro H.
  assert (L : exists a, In a ParsedGraph.arrows
                        /\ RegexSemantics.Matches (Regex.Lit a) s c s1 c1).
  { unfold ParsedGraph.arrows.
    repeat match goal with
           | H : RegexSemantics.Matches (Regex.Alt _ _) _ _ _ _ |- _ =>
               inversion H; subst; clear H
           end;
      [ exists [GraphParser.minus_; GraphParser.greater_]
      | exists [GraphParser.equals_; GraphParser.greater_]
      | exists [GraphParser.emdash_]
      | exists [GraphParser.endash_]
      | exists [GraphParser.minus_] ];
      (split; [simpl; tauto | assumption]). }
  destruct L as (a & I & M). apply matches_lit in M as (-> & ->).
  split; [reflexivity|]. now exists a.
Qed.

Ltac split_seq :=
  match goal with
  | M : RegexSemantics.Matches (Regex.Seq _ _) _ _ _ _ |- _ =>
      inversion M; subst; clear M
  end.

Ltac take_group :=
  match goal with
  | M : RegexSemantics.Matches (Regex.Group _ _) _ _ _ _ |- _ =>
      let pre := fresh "id" in
      let N := fresh "N" in
      let F := fresh "F" in
      apply matches_group_plus in M as (pre & -> & N & F & ->)
  end.

Ltac take_blanks :=
  match goal with
  | M : RegexSemantics.Matches (Regex.Star _) _ _ _ _ |- _ =>
      let ws := fresh "ws" in
      let F := fresh "B" in
      apply matches_class_star in M as (-> & ws & -> & F)
  end.

(** The text that the connection grammar matches. *)
Lemma matches_connection (s s' : str) (c' : Regex.caps) :
  RegexSemantics.Matches GraphParser.connectionRe s [] s' c' ->
  exists sourceId ws1 a ws2 targetId color,
    s = sourceId ++ ws1 ++ a ++ ws2 ++ targetId
        ++ ParsedGraph.colorSuffix color ++ s'
    /\ sourceId <> [] /\ forallb GraphParser.idChar sourceId = true
    /\ forallb is_space ws1 = true /\ In a ParsedGraph.arrows
    /\ forallb is_space ws2 = true
    /\ targetId <> [] /\ forallb GraphParser.targetChar targetId = true
    /\ match color with
       | Some k => k <> [] /\ forallb GraphParser.colorChar k = true
       | None => True
       end
    /\ Regex.capture 1 c' = Some sourceId
    /\ Regex.capture 2 c' = Some targetId
    /\ Regex.capture 3 c' = color.
Proof.
  unfold GraphParser.connectionRe. intro H.
  split_seq. take_group. split_seq. take_blanks. split_seq.
  match goal with
  | M : RegexSemantics.Matches GraphParser.arrow _ _ _ _ |- _ =>
      apply matches_arrow in M as (-> & a & Ia & ->)
  end.
  split_seq. take_blanks. split_seq. take_group.
  match goal with
  | M : RegexSemantics.Matches (Regex.Opt _) _ _ _ _ |- _ =>
      unfold Regex.Opt in M; inversion M; subst; clear M
  end.
  - split_seq.
    match goal with
    | M : RegexSemantics.Matches (Regex.Chr _) _ _ _ _ |- _ =>
        inversion M; subst; clear M
    end.
    split_seq. take_group.
    match goal with
    | M : RegexSemantics.Matches (Regex.Chr _) _ _ _ _ |- _ =>
        inversion M; subst; clear M
    end.
    repeat match goal with
           | P : N.eqb _ _ = true |- _ => apply N.eqb_eq in P; subst
           end.
    exists id, ws, a, ws0, id0, (Some id1).
    repeat split; try assumption.
    simpl. now rewrite <- !app_assoc.
  - match goal with
    | M : RegexSemantics.Matches Regex.Eps _ _ _ _ |- _ =>
        inversion M; subst; clear M
    end.
    exists id, ws, a, ws0, id0, None.
    repeat split; try assumption.
Qed.

(** What a match of the connection pattern says about the piece. *)
Lemma matchConnection_shape (connection sourceId targetId : str)
      (color : option str) :
  GraphParser.matchConnection connection = Some (sourceId, targetId, color) ->
  exists before ws1 a ws2 after,
    connection = before ++ sourceId ++ ws1 ++ a ++ ws2 ++ targetId
                 ++ ParsedGraph.colorSuffix color ++ after
    /\ sourceId <> [] /\ forallb GraphParser.idChar sourceId = true
    /\ forallb is_space ws1 = true /\ In a ParsedGraph.arrows
    /\ forallb is_space ws2 = true
    /\ targetId <> [] /\ forallb GraphParser.targetChar targetId = true
    /\ match color with
       | Some k => k <> [] /\ forallb GraphParser.colorChar k = true
       | None => True
       end.
Proof.
  unfold GraphParser.matchConnection.
  destruct (Regex.search GraphParser.connectionRe connection) as [c|] eqn:S;
    [|discriminate].
  apply search_sound in S as (before & rest & after & -> & M).
  apply matches_connection in M
    as (s & ws1 & a & ws2 & t & col & -> & Ns & Fs & B1 & Ia & B2 & Nt & Ft
        & C & C1 & C2 & C3).
  rewrite C1, C2, C3. intro H. inversion H; subst.
  exists before, ws1, a, ws2, after. repeat split; assumption.
Qed.

(** *** The matcher finds every match, the leftmost and greediest first *)

Lemma run_seq (A : Type) (a b : Regex.re) (s : str) (c : Regex.caps)
      (k : str -> Regex.caps -> option A) :
  Regex.run (Regex.Seq a b) s c k
  = Regex.run a s c (fun s' c' => Regex.run b s' c' k).
Proof. reflexivity. Qed.

Lemma run_group (A : Type) (i : nat) (a : Regex.re) (s : str) (c : Regex.caps)
      (k : str -> Regex.caps -> option A) :
  Regex.run (Regex.Group i a) s c k
  = Regex.run a s c
      (fun s' c' =>
         k s' ((i, firstn (List.length s - List.length s') s) :: c')).
Proof. reflexivity. Qed.

Lemma run_alt (A : Type) (a b : Regex.re) (s : str) (c : Regex.caps)
      (k : str -> Regex.caps -> option A) :
  Regex.run (Regex.Alt a b) s c k
  = match Regex.run a s c k with
    | Some x => Some x
    | None => Regex.run b s c k
    end.
Proof. reflexivity. Qed.

Lemma run_chr_cons (A : Type) (p : char -> bool) (y : char) (s : str)
      (c : Regex.caps) (k : str -> Regex.caps -> option A) :
  Regex.run (Regex.Chr p) (y :: s) c k = if p y then k s c else None.
Proof. reflexivity. Qed.

Lemma run_star_class_cons (A : Type) (p : char -> bool) (y : char) (s : str)
      (c : Regex.caps) (k : str -> Regex.caps -> option A) :
  Regex.run (Regex.Star (Regex.Chr p)) (y :: s) c k
  = if p y
    then match Regex.run (Regex.Star (Regex.Chr p)) s c k with
         | Some x => Some x
         | None => k (y :: s) c
         end
    else k (y :: s) c.
Proof.
  cbn [Regex.run List.length]. destruct (p y); [|reflexivity].
  rewrite (proj2 (Nat.ltb_lt _ _) (Nat.lt_succ_diag_r (List.length s))).
  reflexivity.
Qed.

(** Whatever matches is tried: when the matcher fails, the continuation
    fails at the end of every match. *)
Lemma run_complete (A : Type) (r : Regex.re) :
  forall (s : str) (c : Regex.caps) (k : str -> Regex.caps -> option A),
    Regex.run r s c k = None ->
    forall s1 c1, RegexSemantics.Matches r s c s1 c1 -> k s1 c1 = None.
Proof.
  induction r as [|p|a IHa b IHb|a IHa b IHb|a IHa|i a IHa];
    intros s c k H s1 c1 M.
  - inversion M; subst. exact H.
  - inversion M; subst. rewrite run_chr_cons in H.
    match goal with P : p _ = true |- _ => rewrite P in H end. exact H.
  - inversion M; subst. rewrite run_seq in H.
    match goal with
    | Ma : RegexSemantics.Matches a _ _ _ _,
      Mb : RegexSemantics.Matches b _ _ _ _ |- _ =>
        exact (IHb _ _ _ (IHa _ _ _ H _ _ Ma) _ _ Mb)
    end.
  - rewrite run_alt in H.
    destruct (Regex.run a s c k) eqn:E; [discriminate|].
    inversion M; subst; [eapply IHa | eapply IHb]; eauto.
  - revert s1 c1 M. revert H. simpl.
    generalize (Nat.le_refl (List.length s)).
    generalize (List.length s) at 2 3. intro n. revert s c.
    induction n as [|n IHn]; intros s c L H s1 c1 M.
    + inversion M; subst; [exact H | lia].
    + match type of H with
      | match ?t with _ => _ end = _ => destruct t eqn:E
      end; [discriminate|].
      inversion M; subst; [exact H|].
      match goal with
      | Ma : RegexSemantics.Matches a _ _ _ _,
        Lt : (_ < _)%nat,
        Ms : RegexSemantics.Matches (Regex.Star a) _ _ _ _ |- _ =>
          pose proof (IHa _ _ _ E _ _ Ma) as Q; cbv beta in Q;
          rewrite (proj2 (Nat.ltb_lt _ _) Lt) in Q;
          eapply IHn; [|exact Q | exact Ms]; lia
      end.
  - inversion M; subst. rewrite run_group in H.
    match goal with
    | Ma : RegexSemantics.Matches a _ _ _ _ |- _ =>
        exact (IHa _ _ _ H _ _ Ma)
    end.
Qed.

(** The search reports the match at the first position that has one. *)
Lemma search_first (r : Regex.re) (s : str) (c : Regex.caps) :
  Regex.search r s = Some c ->
  exists before rest,
    s = before ++ rest
    /\ Regex.run r rest [] (fun _ c0 => Some c0) = Some c
    /\ forall before' rest',
         s = before' ++ rest' ->
         (List.length before' < List.length before)%nat ->
         Regex.run r rest' [] (fun _ c0 => Some c0) = None.
Proof.
  induction s as [|y s IH]; simpl.
  - destruct (Regex.run r [] [] (fun _ c0 => Some c0)) eqn:E; [|discriminate].
    intro H. inversion H; subst. exists [], [].
    split; [reflexivity|]. split; [exact E|].
    intros b' r' _ L. simpl in L. lia.
  - destruct (Regex.run r (y :: s) [] (fun _ c0 => Some c0)) eqn:E.
    + intro H. inversion H; subst. exists [], (y :: s).
      split; [reflexivity|]. split; [exact E|].
      intros b' r' _ L. simpl in L. lia.
    + intro H. destruct (IH H) as (before & rest & -> & R & F).
      exists (y :: before), rest. split; [reflexivity|]. split; [exact R|].
      intros b' r' Eq L. destruct b' as [|z b']; simpl in Eq.
      * subst r'. exact E.
      * injection Eq as -> Eq. apply (F b' r' Eq). simpl in L. lia.
Qed.

Lemma search_none (r : Regex.re) (s : str) :
  Regex.search r s = None ->
  forall before rest,
    s = before ++ rest ->
    Regex.run r rest [] (fun _ c0 => Some c0) = None.
Proof.
  induction s as [|y s IH]; simpl.
  - destruct (Regex.run r [] [] (fun _ c0 => Some c0)) eqn:E; [discriminate|].
    intros _ b r' Eq. destruct b; destruct r'; try discriminate. exact E.
  - destruct (Regex.run r (y :: s) [] (fun _ c0 => Some c0)) eqn:E;
      [discriminate|].
    intros H b r' Eq. destruct b as [|z b]; simpl in Eq.
    + subst r'. exact E.
    + injection Eq as -> Eq. apply (IH H b r' Eq).
Qed.

(** Matches of the parts of the connection pattern. *)
Lemma class_star_matches (p : char -> bool) (pre s : str) (c : Regex.caps) :
  forallb p pre = true ->
  RegexSemantics.Matches (Regex.Star (Regex.Chr p)) (pre ++ s) c s c.
Proof.
  induction pre as [|x pre IH]; simpl; intro F; [constructor|].
  apply andb_prop in F as [P F].
  eapply RegexSemantics.MStarStep;
    [apply RegexSemantics.MChr, P | simpl; lia | apply IH, F].
Qed.

Lemma class_plus_matches (p : char -> bool) (pre s : str) (c : Regex.caps) :
  pre <> [] -> forallb p pre = true ->
  RegexSemantics.Matches (Regex.Plus (Regex.Chr p)) (pre ++ s) c s c.
Proof.
  destruct pre as [|x pre]; [congruence|]. simpl. intros _ F.
  apply andb_prop in F as [P F]. unfold Regex.Plus.
  eapply RegexSemantics.MSeq;
    [apply RegexSemantics.MChr, P | apply class_star_matches, F].
Qed.

Lemma group_plus_matches (i : nat) (p : char -> bool) (pre s : str)
      (c : Regex.caps) :
  pre <> [] -> forallb p pre = true ->
  RegexSemantics.Matches (Regex.Group i (Regex.Plus (Regex.Chr p)))
                         (pre ++ s) c s ((i, pre) :: c).
Proof.
  intros N F.
  pose proof (RegexSemantics.MGroup i (@class_plus_matches p pre s c N F)) as M.
  rewrite firstn_prefix in M. exact M.
Qed.

Lemma lit_matches (l s : str) (c : Regex.caps) :
  RegexSemantics.Matches (Regex.Lit l) (l ++ s) c s c.
Proof.
  induction l as [|y l IH]; simpl; [constructor|].
  eapply RegexSemantics.MSeq;
    [apply RegexSemantics.MChr, N.eqb_refl | exact IH].
Qed.

Lemma arrow_matches (a s : str) (c : Regex.caps) :
  In a ParsedGraph.arrows ->
  RegexSemantics.Matches GraphParser.arrow (a ++ s) c s c.
Proof.
  unfold ParsedGraph.arrows, GraphParser.arrow.
  intros [<-|[<-|[<-|[<-|[<-|[]]]]]].
  - apply RegexSemantics.MAltL, lit_matches.
  - apply RegexSemantics.MAltR, RegexSemantics.MAltL, lit_matches.
  - apply RegexSemantics.MAltR, RegexSemantics.MAltR, RegexSemantics.MAltL,
      lit_matches.
  - apply RegexSemantics.MAltR, RegexSemantics.MAltR, RegexSemantics.MAltR,
      RegexSemantics.MAltL, lit_matches.
  - apply RegexSemantics.MAltR, RegexSemantics.MAltR, RegexSemantics.MAltR,
      RegexSemantics.MAltR, lit_matches.
Qed.

Lemma color_matches (k s : str) (c : Regex.caps) :
  k <> [] -> forallb GraphParser.colorChar k = true ->
  RegexSemantics.Matches
    GraphParser.colorRe
    (GraphParser.lbracket_ :: k ++ GraphParser.rbracket_ :: s) c s
    ((3%nat, k) :: c).
Proof.
  intros N F. unfold GraphParser.colorRe.
  eapply RegexSemantics.MSeq; [apply RegexSemantics.MChr, N.eqb_refl|].
  eapply RegexSemantics.MSeq;
    [apply (@group_plus_matches 3 _ k (GraphParser.rbracket_ :: s) c N F)
    | apply RegexSemantics.MChr, N.eqb_refl].
Qed.

Lemma matches_colorRe (s s1 : str) (c c1 : Regex.caps) :
  RegexSemantics.Matches GraphParser.colorRe s c s1 c1 ->
  exists k,
    s = GraphParser.lbracket_ :: k ++ GraphParser.rbracket_ :: s1
    /\ k <> [] /\ forallb GraphParser.colorChar k = true
    /\ c1 = (3%nat, k) :: c.
Proof.
  unfold GraphParser.colorRe. intro H. split_seq.
  match goal with
  | M : RegexSemantics.Matches (Regex.Chr _) _ _ _ _ |- _ =>
      inversion M; subst; clear M
  end.
  split_seq. take_group.
  match goal with
  | M : RegexSemantics.Matches (Regex.Chr _) _ _ _ _ |- _ =>
      inversion M; subst; clear M
  end.
  repeat match goal with
         | P : N.eqb _ _ = true |- _ => apply N.eqb_eq in P; subst
         end.
  exists id. repeat split; assumption.
Qed.

Lemma afterSource_matches (ws1 a ws2 t : str) (color : option str)
      (s : str) (c : Regex.caps) :
  forallb is_space ws1 = true -> In a ParsedGraph.arrows ->
  forallb is_space ws2 = true ->
  t <> [] -> forallb GraphParser.targetChar t = true ->
  match color with
  | Some k => k <> [] /\ forallb GraphParser.colorChar k = true
  | None => True
  end ->
  exists c',
    RegexSemantics.Matches
      GraphParser.afterSource
      (ws1 ++ a ++ ws2 ++ t ++ ParsedGraph.colorSuffix color ++ s) c s c'.
Proof.
  intros B1 Ia B2 Nt Ft C.
  assert (T : exists c',
             RegexSemantics.Matches
               GraphParser.targetRe
               (t ++ ParsedGraph.colorSuffix color ++ s) c s c').
  { unfold GraphParser.targetRe. destruct color as [k|].
    - destruct C as [Nk Fk]. eexists.
      eapply RegexSemantics.MSeq; [apply group_plus_matches; assumption|].
      apply RegexSemantics.MAltL. simpl. rewrite <- app_assoc. simpl.
      apply color_matches; assumption.
    - eexists.
      eapply RegexSemantics.MSeq; [apply group_plus_matches; assumption|].
      apply RegexSemantics.MAltR. constructor. }
  destruct T as [c' T]. exists c'. unfold GraphParser.afterSource.
  eapply RegexSemantics.MSeq; [apply class_star_matches, B1|].
  eapply RegexSemantics.MSeq; [apply arrow_matches, Ia|].
  eapply RegexSemantics.MSeq; [apply class_star_matches, B2 | exact T].
Qed.

(** A class followed by a star is greedy: the matcher goes on with the
    longest run of the class after which the rest succeeds. *)
Lemma run_class_star_greedy (A : Type) (p : char -> bool)
      (k : str -> Regex.caps -> option A) :
  forall (s : str) (c : Regex.caps) (x : A),
    Regex.run (Regex.Star (Regex.Chr p)) s c k = Some x ->
    exists pre rest,
      s = pre ++ rest /\ forallb p pre = true /\ k rest c = Some x
      /\ forall pre' rest',
           s = pre' ++ rest' -> forallb p pre' = true ->
           (List.length pre < List.length pre')%nat ->
           k rest' c = None.
Proof.
  induction s as [|y s IH]; intros c x H.
  - change (k [] c = Some x) in H. exists [], [].
    repeat split; auto.
    intros pre' rest' E _ L. destruct pre'; simpl in *; [lia | discriminate].
  - rewrite run_star_class_cons in H. destruct (p y) eqn:P.
    + destruct (Regex.run (Regex.Star (Regex.Chr p)) s c k) eqn:R.
      * inversion H; subst.
        destruct (IH _ _ R) as (pre & rest & -> & F & K & G).
        exists (y :: pre), rest. split; [reflexivity|].
        split; [simpl; rewrite P, F; reflexivity|]. split; [exact K|].
        intros pre' rest' E F' L.
        destruct pre' as [|z pre']; [simpl in L; lia|].
        simpl in E. injection E as <- E. simpl in F'.
        apply andb_prop in F' as [_ F'].
        apply (G pre' rest' E F'). simpl in L. lia.
      * exists [], (y :: s). split; [reflexivity|]. split; [reflexivity|].
        split; [exact H|]. intros pre' rest' E F' L.
        destruct pre' as [|z pre']; [simpl in L; lia|].
        simpl in E. injection E as <- E. simpl in F'.
        apply andb_prop in F' as [_ F'].
        apply (@run_complete _ _ _ _ _ R). rewrite E.
        apply class_star_matches, F'.
    + exists [], (y :: s). split; [reflexivity|]. split; [reflexivity|].
      split; [exact H|]. intros pre' rest' E F' L.
      destruct pre' as [|z pre']; [simpl in L; lia|].
      simpl in E. injection E as <- E. simpl in F'.
      rewrite P in F'. discriminate F'.
Qed.

Lemma run_class_plus_greedy (A : Type) (p : char -> bool)
      (k : str -> Regex.caps -> option A) (s : str) (c : Regex.caps) (x : A) :
  Regex.run (Regex.Plus (Regex.Chr p)) s c k = Some x ->
  exists pre rest,
    s = pre ++ rest /\ pre <> [] /\ forallb p pre = true
    /\ k rest c = Some x
    /\ forall pre' rest',
         s = pre' ++ rest' -> forallb p pre' = true ->
         (List.length pre < List.length pre')%nat ->
         k rest' c = None.
Proof.
  unfold Regex.Plus. rewrite run_seq. destruct s as [|y s]; [discriminate|].
  rewrite run_chr_cons. destruct (p y) eqn:P; [|discriminate].
  intro H. apply run_class_star_greedy in H as (pre & rest & -> & F & K & G).
  exists (y :: pre), rest. split; [reflexivity|]. split; [discriminate|].
  split; [simpl; rewrite P, F; reflexivity|]. split; [exact K|].
  intros pre' rest' E F' L.
  destruct pre' as [|z pre']; [simpl in L; lia|].
  simpl in E. injection E as <- E. simpl in F'.
  apply andb_prop in F' as [_ F'].
  apply (G pre' rest' E F'). simpl in L. lia.
Qed.

(** *** The code's classes are the specification's *)

Lemma is_space_blank (c : char) : is_space c = true <-> ConnectionText.blank c.
Proof.
  unfold is_space, ConnectionText.blank.
  rewrite !Bool.orb_true_iff, !Bool.andb_true_iff, !N.leb_le, !N.eqb_eq.
  tauto.
Qed.

Lemma separator_separates (c : char) :
  GraphParser.separator c = true <-> ConnectionText.separates c.
Proof.
  unfold GraphParser.separator, ConnectionText.separates,
    GraphParser.comma_, GraphParser.semicolon_, GraphParser.newline_.
  rewrite !Bool.orb_true_iff, !N.eqb_eq. tauto.
Qed.

Lemma idChar_spec (c : char) :
  GraphParser.idChar c = true <-> ConnectionText.idChar c.
Proof.
  unfold GraphParser.idChar, ConnectionText.idChar,
    GraphParser.minus_, GraphParser.equals_, GraphParser.greater_.
  rewrite Bool.negb_true_iff, !Bool.orb_false_iff, !N.eqb_neq,
    <- is_space_blank, Bool.not_true_iff_false.
  tauto.
Qed.

Lemma targetChar_spec (c : char) :
  GraphParser.targetChar c = true <-> ConnectionText.targetChar c.
Proof.
  unfold ConnectionText.targetChar. rewrite <- idChar_spec.
  unfold GraphParser.targetChar, GraphParser.idChar, GraphParser.lbracket_.
  rewrite !Bool.negb_true_iff, !Bool.orb_false_iff, !N.eqb_neq. tauto.
Qed.

Lemma colorChar_spec (c : char) :
  GraphParser.colorChar c = true <-> c <> 93%N.
Proof.
  unfold GraphParser.colorChar, GraphParser.rbracket_.
  rewrite Bool.negb_true_iff, N.eqb_neq. tauto.
Qed.

Lemma forallb_Forall (P : char -> Prop) (p : char -> bool) (l : str) :
  (forall c, p c = true <-> P c) -> (forallb p l = true <-> Forall P l).
Proof.
  intro H. rewrite forallb_forall, Forall_forall.
  split; intros G c I; apply H, G, I.
Qed.

Lemma bracketed_suffix (color : option str) :
  ConnectionText.bracketed color = ParsedGraph.colorSuffix color.
Proof. destruct color; reflexivity. Qed.

Lemma arrows_spec : ConnectionText.arrows = ParsedGraph.arrows.
Proof. reflexivity. Qed.

(** The shape of a connection, in the terms of the code and in those of
    the specification. *)
Lemma connection_shape (text source target : str) (color : option str) :
  ConnectionText.Connection text source target color
  <-> exists ws1 a ws2,
        text = source ++ ws1 ++ a ++ ws2 ++ target
               ++ ParsedGraph.colorSuffix color
        /\ source <> [] /\ forallb GraphParser.idChar source = true
        /\ forallb is_space ws1 = true /\ In a ParsedGraph.arrows
        /\ forallb is_space ws2 = true
        /\ target <> [] /\ forallb GraphParser.targetChar target = true
        /\ match color with
           | Some k => k <> [] /\ forallb GraphParser.colorChar k = true
           | None => True
           end.
Proof.
  unfold ConnectionText.Connection, ConnectionText.Color.
  rewrite arrows_spec.
  split; intros (ws1 & a & ws2 & E & Ns & Fs & B1 & Ia & B2 & Nt & Ft & C);
    exists ws1, a, ws2.
  - rewrite bracketed_suffix in E.
    apply (forallb_Forall _ _ source idChar_spec) in Fs.
    apply (forallb_Forall _ _ ws1 is_space_blank) in B1.
    apply (forallb_Forall _ _ ws2 is_space_blank) in B2.
    apply (forallb_Forall _ _ target targetChar_spec) in Ft.
    repeat split; try assumption.
    destruct color as [k|]; [|exact I]. destruct C as [Nk Fk].
    split; [exact Nk | apply (forallb_Forall _ _ k colorChar_spec), Fk].
  - rewrite bracketed_suffix.
    apply (forallb_Forall _ _ source idChar_spec) in Fs.
    apply (forallb_Forall _ _ ws1 is_space_blank) in B1.
    apply (forallb_Forall _ _ ws2 is_space_blank) in B2.
    apply (forallb_Forall _ _ target targetChar_spec) in Ft.
    repeat split; try assumption.
    destruct color as [k|]; [|exact I]. destruct C as [Nk Fk].
    split; [exact Nk | apply (forallb_Forall _ _ k colorChar_spec), Fk].
Qed.

Lemma connectionRe_parts :
  GraphParser.connectionRe
  = Regex.Seq (Regex.Group 1 (Regex.Plus (Regex.Chr GraphParser.idChar)))
              GraphParser.afterSource.
Proof. reflexivity. Qed.

(** Where a connection starts, the pattern matches. *)
Lemma starts_matches (rest : str) :
  ConnectionText.StartsConnection rest ->
  exists after caps,
    RegexSemantics.Matches GraphParser.connectionRe rest [] after caps.
Proof.
  intros (text & after & s & t & color & -> & C).
  apply connection_shape in C
    as (ws1 & a & ws2 & -> & Ns & Fs & B1 & Ia & B2 & Nt & Ft & C).
  destruct (@afterSource_matches ws1 a ws2 t color after [(1%nat, s)]
                                B1 Ia B2 Nt Ft C) as [caps M].
  exists after, caps. rewrite connectionRe_parts.
  eapply RegexSemantics.MSeq; [|exact M].
  rewrite <- !app_assoc. apply group_plus_matches; assumption.
Qed.

Lemma run_opt_some (a : Regex.re) (s : str) (c : Regex.caps) :
  Regex.run (Regex.Opt a) s c (fun _ c0 => Some c0) <> None.
Proof.
  unfold Regex.Opt. rewrite run_alt.
  destruct (Regex.run a s c (fun _ c0 => Some c0)); discriminate.
Qed.

(** What the matcher reports at the position where it succeeds. *)
Lemma run_connection_reads (rest : str) (caps : Regex.caps) :
  Regex.run GraphParser.connectionRe rest [] (fun _ c0 => Some c0)
  = Some caps ->
  exists source target color text after,
    rest = text ++ after
    /\ ConnectionText.Connection text source target color
    /\ Regex.capture 1 caps = Some source
    /\ Regex.capture 2 caps = Some target
    /\ Regex.capture 3 caps = color
    /\ (forall text' after' source' target' color',
          text ++ after = text' ++ after' ->
          ConnectionText.Connection text' source' target' color' ->
          (List.length source' <= List.length source)%nat)
    /\ (color = None ->
        (forall c r, after = c :: r -> ~ ConnectionText.targetChar c)
        /\ (forall k r, ConnectionText.Color k ->
                        after <> 91%N :: k ++ 93%N :: r)).
Proof.
  rewrite connectionRe_parts, run_seq, run_group. intro H.
  apply run_class_plus_greedy in H as (source & r1 & -> & Ns & Fs & K & G).
  cbv beta in K. rewrite firstn_prefix in K.
  assert (Longest :
            forall text' after' source' target' color',
              source ++ r1 = text' ++ after' ->
              ConnectionText.Connection text' source' target' color' ->
              (List.length source' <= List.length source)%nat).
  { intros text' after' s' t' c' E C.
    destruct (le_lt_dec (List.length s') (List.length source)) as [L|L];
      [exact L | exfalso].
    apply connection_shape in C
      as (ws1 & a & ws2 & -> & Ns' & Fs' & B1 & Ia & B2 & Nt & Ft & C).
    rewrite <- !app_assoc in E.
    specialize (G s' _ E Fs' L). cbv beta in G.
    rewrite E, firstn_prefix in G.
    destruct (@afterSource_matches ws1 a ws2 t' c' after' [(1%nat, s')]
                                  B1 Ia B2 Nt Ft C) as [caps' M].
    pose proof (@run_complete _ _ _ _ _ G _ _ M) as Q. discriminate Q. }
  unfold GraphParser.afterSource in K. rewrite run_seq in K.
  apply run_sound in K as (s2 & c2 & M1 & K).
  apply matches_class_star in M1 as (-> & ws1 & -> & B1).
  rewrite run_seq in K. apply run_sound in K as (s3 & c3 & M2 & K).
  apply matches_arrow in M2 as (-> & a & Ia & ->).
  rewrite run_seq in K. apply run_sound in K as (s4 & c4 & M3 & K).
  apply matches_class_star in M3 as (-> & ws2 & -> & B2).
  unfold GraphParser.targetRe in K. rewrite run_seq, run_group in K.
  apply run_class_plus_greedy in K as (target & r5 & -> & Nt & Ft & K & Gt).
  cbv beta in K. rewrite firstn_prefix in K.
  assert (Tmax : forall c r, r5 = c :: r -> ~ ConnectionText.targetChar c).
  { intros y r -> Ty. apply targetChar_spec in Ty.
    assert (F' : forallb GraphParser.targetChar (target ++ [y]) = true).
    { rewrite forallb_app, Ft. simpl. rewrite Ty. reflexivity. }
    assert (E : target ++ y :: r = (target ++ [y]) ++ r)
      by (rewrite <- app_assoc; reflexivity).
    assert (L : (List.length target < List.length (target ++ [y]))%nat)
      by (rewrite length_app; simpl; lia).
    specialize (Gt (target ++ [y]) r E F' L). cbv beta in Gt.
    exact (run_opt_some _ _ _ Gt). }
  unfold Regex.Opt in K. rewrite run_alt in K.
  match type of K with
  | match ?t with _ => _ end = _ => destruct t as [caps'|] eqn:RC
  end.
  - injection K as <-.
    apply run_sound in RC as (s6 & c6 & M & K6). injection K6 as ->.
    apply matches_colorRe in M as (k & -> & Nk & Fk & ->).
    exists source, target, (Some k),
      (source ++ ws1 ++ a ++ ws2 ++ target
              ++ ParsedGraph.colorSuffix (Some k)), s6.
    split; [simpl; rewrite <- !app_assoc; simpl; rewrite <- !app_assoc;
            reflexivity|].
    split; [apply connection_shape; exists ws1, a, ws2;
            repeat split; assumption|].
    split; [reflexivity|]. split; [reflexivity|]. split; [reflexivity|].
    split; [|discriminate].
    intros text' after' s' t' c' E.
      apply (Longest text' after' s' t' c'). rewrite <- E.
    simpl. rewrite <- !app_assoc. simpl. rewrite <- !app_assoc. reflexivity.
  - simpl in K. injection K as <-.
    exists source, target, None,
      (source ++ ws1 ++ a ++ ws2 ++ target ++ ParsedGraph.colorSuffix None),
      r5.
    split; [simpl; rewrite app_nil_r, <- !app_assoc; reflexivity|].
    split; [apply connection_shape; exists ws1, a, ws2;
            repeat split; assumption|].
    split; [reflexivity|]. split; [reflexivity|]. split; [reflexivity|].
    split.
    + intros text' after' s' t' c' E.
      apply (Longest text' after' s' t' c'). rewrite <- E.
      simpl. rewrite app_nil_r, <- !app_assoc. reflexivity.
    + intros _. split; [exact Tmax|].
      intros k r [Nk Fk] E.
      apply (forallb_Forall _ _ k colorChar_spec) in Fk.
      pose proof (@color_matches k r [(2%nat, target); (1%nat, source)] Nk Fk)
        as M.
      change (GraphParser.lbracket_ :: k ++ GraphParser.rbracket_ :: r)
        with (91%N :: k ++ 93%N :: r) in M.
      rewrite <- E in M.
      pose proof (@run_complete _ _ _ _ _ RC _ _ M) as Q. discriminate Q.
Qed.

(** A token in which the pattern matches reads as that connection; one
    in which it does not holds no connection. *)
Lemma matchConnection_reads (token source target : str) (color : option str) :
  GraphParser.matchConnection token = Some (source, target, color) ->
  ConnectionText.Reads token source target color
  /\ GraphParser.orUndefined color = color.
Proof.
  unfold GraphParser.matchConnection.
  destruct (Regex.search GraphParser.connectionRe token) as [caps|] eqn:S;
    [|discriminate].
  apply search_first in S as (before & rest & -> & R & First).
  apply run_connection_reads in R
    as (s & t & col & text & after & -> & C & C1 & C2 & C3 & Longest & Col).
  rewrite C1, C2. intro H. injection H as <- <- <-. rewrite C3. split.
  - exists before, text, after. split; [reflexivity|]. split; [exact C|].
    split; [|split; assumption].
    intros before' rest' E L St.
    apply starts_matches in St as (after' & caps' & M).
    pose proof (@run_complete _ _ _ _ _ (First before' rest' E L) _ _ M) as Q.
    discriminate Q.
  - destruct col as [k|]; [|reflexivity].
    destruct C as (_ & _ & _ & _ & _ & _ & _ & _ & _ & _ & _ & [Nk _]).
    destruct k; [congruence | reflexivity].
Qed.

Lemma matchConnection_unreadable (token : str) :
  GraphParser.matchConnection token = None ->
  ConnectionText.Unreadable token.
Proof.
  unfold GraphParser.matchConnection.
  destruct (Regex.search GraphParser.connectionRe token) as [caps|] eqn:S.
  - apply search_sound in S as (before & rest & after & -> & M).
    apply matches_connection in M
      as (s & ws1 & a & ws2 & t & col & _ & _ & _ & _ & _ & _ & _ & _ & _
          & C1 & C2 & _).
    rewrite C1, C2. discriminate.
  - intros _ before rest E St.
    apply starts_matches in St as (after' & caps' & M).
    pose proof (@run_complete _ _ _ _ _ (@search_none _ _ S before rest E) _ _ M)
      as Q.
    discriminate Q.
Qed.

(** *** The text is cut and trimmed as the specification says *)

Lemma split_pieces (text : str) :
  ConnectionText.Pieces text (split GraphParser.separator text).
Proof.
  induction text as [|c r IH]; simpl.
  - apply ConnectionText.LastPiece. constructor.
  - destruct (GraphParser.separator c) eqn:S.
    + apply (ConnectionText.NextPiece (piece := []));
        [constructor | apply separator_separates, S | exact IH].
    + assert (NS : ~ ConnectionText.separates c).
      { rewrite <- separator_separates, S. discriminate. }
      remember (split GraphParser.separator r) as ps eqn:E.
      destruct IH as [piece F | piece c' rest pieces F Sc P].
      * apply ConnectionText.LastPiece. constructor; assumption.
      * apply (ConnectionText.NextPiece (piece := c :: piece));
          [constructor; assumption | exact Sc | exact P].
Qed.

Lemma dropWhile_spec (p : char -> bool) (s : str) :
  exists l,
    s = l ++ dropWhile p s /\ forallb p l = true
    /\ forall c t, dropWhile p s = c :: t -> p c = false.
Proof.
  induction s as [|c s (l & E & F & H)]; simpl.
  - exists []. repeat split; auto. discriminate.
  - destruct (p c) eqn:P.
    + exists (c :: l). simpl. rewrite P, F.
      repeat split; [f_equal; exact E | exact H].
    + exists []. repeat split.
      intros c' t E'. inversion E'; subst. exact P.
Qed.

Lemma trim_trimmed (piece : str) : ConnectionText.Trimmed piece (trim piece).
Proof.
  unfold trim, ConnectionText.Trimmed.
  destruct (dropWhile_spec is_space piece) as (l & E & F & H).
  remember (dropWhile is_space piece) as m eqn:Hm.
  destruct (dropWhile_spec is_space (rev m)) as (r & E' & F' & H').
  remember (dropWhile is_space (rev m)) as d eqn:Hd.
  assert (Em : m = rev d ++ rev r).
  { rewrite <- rev_app_distr, <- E', rev_involutive. reflexivity. }
  exists l, (rev r). repeat split.
  - rewrite E, Em. reflexivity.
  - apply (forallb_Forall _ _ l is_space_blank), F.
  - apply Forall_rev, (forallb_Forall _ _ r is_space_blank), F'.
  - intros c t Ed B. apply is_space_blank in B.
    rewrite (H c (t ++ rev r)) in B; [discriminate|].
    rewrite Em, Ed. reflexivity.
  - intros t c Ed B. apply is_space_blank in B.
    rewrite (H' c (rev t)) in B; [discriminate|].
    rewrite <- (rev_involutive d), Ed, rev_app_distr. reflexivity.
Qed.

Lemma tokens_of_pieces (pieces : list str) :
  ConnectionText.Tokens pieces (filter nonempty (List.map trim pieces)).
Proof.
  induction pieces as [|p ps IH]; simpl; [constructor|].
  destruct (trim p) eqn:T; simpl.
  - apply ConnectionText.EmptyPiece;
      [rewrite <- T; apply trim_trimmed | exact IH].
  - apply ConnectionText.NextToken;
      [rewrite <- T; apply trim_trimmed | discriminate | exact IH].
Qed.

Lemma parsed_tokens (tokens : list str) :
  ConnectionText.Parsed tokens (GraphParser.edgesOf tokens)
                        (GraphParser.skipped tokens).
Proof.
  induction tokens as [|token tokens IH]; simpl; [constructor|].
  unfold GraphParser.linkOf.
  destruct (GraphParser.matchConnection token) as [[[s t] col]|] eqn:M; simpl.
  - apply matchConnection_reads in M as [R O]. rewrite O.
    apply ConnectionText.ParsedLink; assumption.
  - apply ConnectionText.ParsedSkip;
      [apply matchConnection_unreadable, M | exact IH].
Qed.

(** C5, as the code has it.  The connection text is cut at commas,
    semicolons and newlines only; each piece is trimmed of the blanks
    around it and the pieces left empty are dropped.  A token in which
    a connection SOURCE (ARROW|DASH) TARGET [COLOR] starts somewhere
    contributes one link, that of the first connection in it: the one
    that starts leftmost, with the longest source, its target and color
    taken as far as they go.  A token in which no connection starts is
    reported by one warning, the token itself, and contributes nothing;
    parsing continues with the next token.  Links and warnings keep the
    order of the tokens. *)
Theorem C5_connections_per_separator
        (JSON_parse : str -> Json + str)
        (connectionsText propertiesText : str) :
  let result :=
    GraphParser.parseGraphData JSON_parse connectionsText propertiesText in
  exists pieces tokens links,
    ConnectionText.Pieces connectionsText pieces
    /\ ConnectionText.Tokens pieces tokens
    /\ ConnectionText.Parsed tokens links (snd result)
    /\ forall g, fst result = inl g -> GraphParser.links g = links.
Proof.
  intro result. subst result.
  exists (split GraphParser.separator connectionsText),
    (GraphParser.connectionsOf connectionsText),
    (GraphParser.edgesOf (GraphParser.connectionsOf connectionsText)).
  destruct (parseConnections_spec connectionsText) as [L W]. simpl in L, W.
  split; [apply split_pieces|]. split; [apply tokens_of_pieces|].
  assert (Ws : snd (GraphParser.parseGraphData JSON_parse connectionsText
                                               propertiesText)
               = GraphParser.skipped
                   (GraphParser.connectionsOf connectionsText)).
  { unfold GraphParser.parseGraphData.
    destruct (nonempty (trim propertiesText)); [|exact W].
    destruct (GraphParser.parseProperties _ _ _); exact W. }
  split; [rewrite Ws; apply parsed_tokens|].
  intros g. unfold GraphParser.parseGraphData.
  destruct (nonempty (trim propertiesText)).
  - destruct (GraphParser.parseProperties _ _ _); simpl; [|discriminate].
    intro H. inversion H; subst. exact L.
  - simpl. intro H. inversion H; subst. exact L.
Qed.

(** C5, as the claim has it, fails: two connections separated only by a
    space are one piece, of which only the first match becomes a link; the
    second connection is dropped and no warning is issued for it. *)
Lemma C5_space_does_not_separate :
  GraphParser.connectionsOf (lit "A->B C->D") = [lit "A->B C->D"]
  /\ GraphParser.parseGraphData RefJSON.parse (lit "A->B C->D") []
     = (inl (GraphParser.mkGraphData
               [GraphParser.newNode (lit "A") None;
                GraphParser.newNode (lit "B") None]
               [GraphParser.mkLink (lit "A") (lit "B") None]), [])
  /\ ~ (exists g,
          fst (GraphParser.parseGraphData RefJSON.parse (lit "A->B C->D") [])
          = inl g
          /\ List.length (GraphParser.links g) = 2%nat).
Proof.
  split; [vm_compute; reflexivity|].
  split; [vm_compute; reflexivity|].
  intros [g [H L]]. vm_compute in H. inversion H; subst. discriminate L.
Qed.

(** Separated by a comma, a semicolon or a newline, both connections
    become links; a piece that fails the grammar is skipped with a
    warning and the pieces after it are still read. *)
Example connections_separated :
  GraphParser.parseGraphData RefJSON.parse (lit "A->B, oops; C=>D[red]") []
  = (inl (GraphParser.mkGraphData
            [GraphParser.newNode (lit "A") None;
             GraphParser.newNode (lit "B") None;
             GraphParser.newNode (lit "C") None;
             GraphParser.newNode (lit "D") None]
            [GraphParser.mkLink (lit "A") (lit "B") None;
             GraphParser.mkLink (lit "C") (lit "D") (Some (lit "red"))]),
     [lit "oops"]).
Proof. vm_compute. reflexivity. Qed.

(** A name in a property bag replaces the label of a node that the
    connections created; a bag for an unknown id creates its node. *)
Example properties_name_the_node :
  fst (GraphParser.parseGraphData RefJSON.parse (lit "A->B, B->A; A - C")
                                  sampleProperties)
  = inl sampleGraph.
Proof. vm_compute. reflexivity. Qed.

(** The color in brackets becomes the color of the link. *)
Example link_color :
  fst (GraphParser.parseGraphData RefJSON.parse (lit "A->B[#ff0000]") [])
  = inl (GraphParser.mkGraphData
           [GraphParser.newNode (lit "A") None;
            GraphParser.newNode (lit "B") None]
           [GraphParser.mkLink (lit "A") (lit "B") (Some (lit "#ff0000"))]).
Proof. vm_compute. reflexivity. Qed.

(** The JSON text [null] is well formed, and fatal all the same:
    [Object.entries(null)] throws inside the [try] block. *)
Example null_properties_fatal :
  fst (GraphParser.parseGraphData RefJSON.parse (lit "A->B") (lit "null"))
  = inr (GraphParser.failurePrefix ++ GraphParser.nullEntriesMessage).
Proof. vm_compute. reflexivity. Qed.

(** ** Well-formedness of the parsed graph *)

Lemma lookup_in {A} (k : str) (m : list (str * A)) (v : A) :
  lookup k m = Some v -> In (k, v) m.
Proof.
  induction m as [|[k' v'] m IH]; simpl; [discriminate|].
  destruct (str_eq_dec k k'); [left; congruence | right; auto].
Qed.

Lemma forall_map_set {A} (P : str * A -> Prop) (k : str) (v : A)
      (m : list (str * A)) :
  Forall P m -> P (k, v) -> Forall P (map_set k v m).
Proof.
  intros Hm Hk. apply Forall_forall. intros e He.
  destruct (in_map_set _ _ _ _ He) as [I | ->]; [|exact Hk].
  rewrite Forall_forall in Hm. auto.
Qed.

Lemma closed_grow (k : str) (v : GraphParser.Node)
      (m : list (str * GraphParser.Node)) (ls : list GraphParser.Link) :
  Forall (GraphParser.closed (List.map fst m)) ls ->
  Forall (GraphParser.closed (List.map fst (map_set k v m))) ls.
Proof.
  apply Forall_impl. intros l [S T]. split; apply keys_grow; assumption.
Qed.

Lemma wf_set (k : str) (v : GraphParser.Node)
      (m : list (str * GraphParser.Node)) (ls : list GraphParser.Link) :
  GraphParser.id v = k ->
  GraphParser.wf m ls -> GraphParser.wf (map_set k v m) ls.
Proof.
  intros Hid (N & K & C). repeat split.
  - apply nodup_map_set, N.
  - apply forall_map_set; [exact K | exact Hid].
  - apply closed_grow, C.
Qed.

Lemma wf_ensureNode (i : str) (m : list (str * GraphParser.Node))
      (ls : list GraphParser.Link) :
  GraphParser.wf m ls ->
  GraphParser.wf (GraphParser.ensureNode i m) ls
  /\ In i (List.map fst (GraphParser.ensureNode i m)).
Proof.
  intro W. unfold GraphParser.ensureNode, has.
  destruct (lookup i m) eqn:E.
  - split; [exact W | eapply lookup_in_keys; eauto].
  - split; [apply wf_set; [reflexivity | exact W] | apply key_set].
Qed.

Lemma ensureNode_keeps (i k : str) (m : list (str * GraphParser.Node)) :
  In k (List.map fst m) -> In k (List.map fst (GraphParser.ensureNode i m)).
Proof.
  unfold GraphParser.ensureNode. destruct (has i m); [auto | apply keys_grow].
Qed.

Lemma wf_connectionStep (st : GraphParser.St) (c : str) :
  GraphParser.wf (GraphParser.st_nodes st) (GraphParser.st_links st) ->
  GraphParser.wf (GraphParser.st_nodes (GraphParser.connectionStep st c))
                 (GraphParser.st_links (GraphParser.connectionStep st c)).
Proof.
  intro W. unfold GraphParser.connectionStep.
  destruct (GraphParser.matchConnection c) as [[[a b] col]|]; simpl; [|exact W].
  destruct (wf_ensureNode a W) as [W1 Ia].
  destruct (wf_ensureNode b W1) as [(N & K & C) Ib].
  repeat split; [exact N | exact K |].
  apply Forall_app; split; [exact C|].
  constructor; [|constructor].
  split; simpl; [apply ensureNode_keeps, Ia | exact Ib].
Qed.

Lemma wf_connections (cs : list str) (st : GraphParser.St) :
  GraphParser.wf (GraphParser.st_nodes st) (GraphParser.st_links st) ->
  GraphParser.wf
    (GraphParser.st_nodes (fold_left GraphParser.connectionStep cs st))
    (GraphParser.st_links (fold_left GraphParser.connectionStep cs st)).
Proof.
  revert st. induction cs as [|c cs IH]; intros st W; simpl; [exact W|].
  apply IH, wf_connectionStep, W.
Qed.

Lemma wf_parseConnections (text : str) :
  let st := GraphParser.parseConnections text (GraphParser.mkSt [] [] []) in
  GraphParser.wf (GraphParser.st_nodes st) (GraphParser.st_links st).
Proof.
  assert (W0 : GraphParser.wf [] []) by (repeat split; constructor).
  unfold GraphParser.parseConnections.
  destruct (nonempty (trim text)); [|exact W0].
  apply (wf_connections _ (GraphParser.mkSt [] [] [])), W0.
Qed.

Lemma wf_propertyStep (m : list (str * GraphParser.Node))
      (ls : list GraphParser.Link) (e : str * Json) :
  GraphParser.wf m ls -> GraphParser.wf (GraphParser.propertyStep m e) ls.
Proof.
  intro W. destruct e as [nodeId nodeProps]. unfold GraphParser.propertyStep.
  destruct (lookup nodeId m) as [node|] eqn:E.
  - apply wf_set; [|exact W]. simpl.
    destruct W as (_ & K & _). rewrite Forall_forall in K.
    exact (K _ (lookup_in _ _ E)).
  - apply wf_set; [reflexivity | exact W].
Qed.

Lemma wf_properties (es : list (str * Json))
      (m : list (str * GraphParser.Node)) (ls : list GraphParser.Link) :
  GraphParser.wf m ls ->
  GraphParser.wf (fold_left GraphParser.propertyStep es m) ls.
Proof.
  revert m. induction es as [|e es IH]; intros m W; simpl; [exact W|].
  apply IH, wf_propertyStep, W.
Qed.

Lemma keyed_ids (m : list (str * GraphParser.Node)) :
  Forall GraphParser.keyed m ->
  List.map GraphParser.id (List.map snd m) = List.map fst m.
Proof.
  induction 1 as [|kv m H _ IH]; simpl; [reflexivity|].
  rewrite IH. f_equal. exact H.
Qed.

(** C10.  Whenever [parseGraphData] returns a graph, no two of its nodes
    have the same id, and the source and the target of every link are ids
    of nodes of the graph. *)
Theorem C10_parsed_graph_well_formed
        (JSON_parse : str -> Json + str)
        (connectionsText propertiesText : str) (g : GraphParser.GraphData) :
  fst (GraphParser.parseGraphData JSON_parse connectionsText propertiesText)
  = inl g ->
  NoDup (List.map GraphParser.id (GraphParser.nodes g))
  /\ forall l, In l (GraphParser.links g) ->
       In (GraphParser.source l) (List.map GraphParser.id (GraphParser.nodes g))
       /\ In (GraphParser.target l)
             (List.map GraphParser.id (GraphParser.nodes g)).
Proof.
  intro H.
  pose proof (wf_parseConnections connectionsText) as W. simpl in W.
  assert (G : exists m,
             GraphParser.wf m (GraphParser.links g)
             /\ GraphParser.nodes g = List.map snd m).
  { unfold GraphParser.parseGraphData in H.
    destruct (nonempty (trim propertiesText)).
    - destruct (GraphParser.parseProperties _ _ _) as [m|msg] eqn:P;
        simpl in H; [|discriminate].
      inversion H; subst; simpl. exists m. split; [|reflexivity].
      unfold GraphParser.parseProperties in P.
      destruct (JSON_parse propertiesText); [|discriminate].
      destruct (GraphParser.Object_entries _); [|discriminate].
      inversion P; subst. apply wf_properties, W.
    - simpl in H. inversion H; subst; simpl. eexists; split; [exact W|reflexivity]. }
  destruct G as (m & (N & K & C) & E).
  rewrite E, (keyed_ids K). split; [exact N|].
  intros l Hl. rewrite Forall_forall in C. exact (C l Hl).
Qed.

(** ** Wheel zoom *)

Local Open Scope Q_scope.

Lemma clamp_zoom_bounds (a : Q) :
  1 # 10 <= Qmax (1 # 10) (Qmin 5 a) /\ Qmax (1 # 10) (Qmin 5 a) <= 5.
Proof.
  split; [apply Q.le_max_l|].
  apply Q.max_lub; [discriminate | apply Q.le_min_l].
Qed.

Lemma zoom_keeps_world (P pan k k' : Q) :
  ~ k' == 0 ->
  GraphView.toWorld k' (P - GraphView.toWorld k pan P * k') P
  == GraphView.toWorld k pan P.
Proof.
  intro H. unfold GraphView.toWorld.
  setoid_replace (P - (P - (P - pan) / k * k')) with ((P - pan) / k * k')
    by ring.
  apply Qdiv_mult_l, H.
Qed.

Lemma clamped_zoom_nonzero (a : Q) : ~ Qmax (1 # 10) (Qmin 5 a) == 0.
Proof.
  intro E. destruct (clamp_zoom_bounds a) as [L _].
  rewrite E in L. revert L. apply Qlt_not_le. reflexivity.
Qed.

(** C2.  A wheel event at the screen point P = (clientX - left,
    clientY - top), with the view at a scale between 0.1 and 5, sets the
    scale to clamp(k * f, 0.1, 5), where f is 1.1 when zooming in and 0.9
    when zooming out, and the pan to P - ((P - pan) / k) * k'; the new
    scale is again between 0.1 and 5, and the world point shown at P is
    the same before and after.  Both canvases compute the same zoom and
    pan. *)
Theorem C2_zoom_at_point
        (p : GraphView.Props) (v : GraphView.View)
        (rleft rtop clientX clientY deltaY : Q) :
  GraphView.container p = Some (rleft, rtop) ->
  1 # 10 <= GraphView.zoom v -> GraphView.zoom v <= 5 ->
  let Px := clientX - rleft in
  let Py := clientY - rtop in
  let k := GraphView.zoom v in
  let v' := fst (GraphView.handleWheel p v clientX clientY deltaY) in
  let k' := GraphView.zoom v' in
  k' == Qmax (1 # 10) (Qmin 5 (k * GraphView.zoomFactor deltaY))
  /\ (1 # 10 <= k' /\ k' <= 5)
  /\ fst (GraphView.pan v')
     == Px - ((Px - fst (GraphView.pan v)) / k) * k'
  /\ snd (GraphView.pan v')
     == Py - ((Py - snd (GraphView.pan v)) / k) * k'
  /\ GraphView.toWorld k' (fst (GraphView.pan v')) Px
     == GraphView.toWorld k (fst (GraphView.pan v)) Px
  /\ GraphView.toWorld k' (snd (GraphView.pan v')) Py
     == GraphView.toWorld k (snd (GraphView.pan v)) Py
  /\ SimpleDragGraph.handleWheel (Some (rleft, rtop)) k (GraphView.pan v)
                                 clientX clientY deltaY
     = Some (k', GraphView.pan v').
Proof.
  intros Hc Hlo Hhi Px Py k v' k'.
  subst v' k'. unfold GraphView.handleWheel. rewrite Hc. simpl.
  fold (GraphView.zoomFactor deltaY). fold Px Py k.
  repeat split; try reflexivity.
  - apply Q.le_max_l.
  - apply clamp_zoom_bounds.
  - apply zoom_keeps_world, clamped_zoom_nonzero.
  - apply zoom_keeps_world, clamped_zoom_nonzero.
Qed.

(** ** Sizing by degree *)

Lemma maxWithOne_maxDegree (l : list nat) :
  GraphView.maxWithOne l = Nat.max 1 (GraphView.maxDegree l).
Proof.
  unfold GraphView.maxWithOne, GraphView.maxDegree.
  induction l as [|a l IH]; cbn [fold_right]; [reflexivity|].
  rewrite IH. lia.
Qed.

Lemma ofNat_max (a b : nat) :
  GraphView.ofNat (Nat.max a b)
  == Qmax (GraphView.ofNat a) (GraphView.ofNat b).
Proof.
  unfold GraphView.ofNat.
  destruct (Nat.max_spec a b) as [[L ->]|[L ->]].
  - rewrite Q.max_r; [reflexivity|]. rewrite <- Zle_Qle. lia.
  - rewrite Q.max_l; [reflexivity|]. rewrite <- Zle_Qle. lia.
Qed.

Lemma maxDegree_ge (l : list nat) (d : nat) :
  In d l -> (d <= GraphView.maxDegree l)%nat.
Proof.
  unfold GraphView.maxDegree.
  induction l as [|a l IH]; simpl; [tauto|].
  intros [->|H]; [lia | specialize (IH H); lia].
Qed.

Lemma degree_formula (deg : nat) (l : list nat) :
  5 + (GraphView.ofNat deg / GraphView.ofNat (GraphView.maxWithOne l)) * 15
  == GraphView.degreeRadius deg (GraphView.maxDegree l).
Proof.
  unfold GraphView.degreeRadius.
  rewrite maxWithOne_maxDegree, ofNat_max.
  change (GraphView.ofNat 1) with 1. ring.
Qed.

Lemma degreeRadius_zero (m : nat) : GraphView.degreeRadius 0 m == 5.
Proof.
  unfold GraphView.degreeRadius. change (GraphView.ofNat 0) with 0.
  unfold Qdiv. ring.
Qed.

Lemma degreeRadius_max (m : nat) :
  (1 <= m)%nat -> GraphView.degreeRadius m m == 20.
Proof.
  intro H. unfold GraphView.degreeRadius.
  assert (L : 1 <= GraphView.ofNat m).
  { unfold GraphView.ofNat. change 1 with (inject_Z 1).
    rewrite <- Zle_Qle. lia. }
  rewrite (Q.max_r _ _ L).
  setoid_replace (GraphView.ofNat m / GraphView.ofNat m) with 1.
  - reflexivity.
  - apply Qmult_inv_r. intro E. rewrite E in L. revert L.
    apply Qlt_not_le. reflexivity.
Qed.

Lemma degreeRadius_bounds (d m : nat) :
  (d <= m)%nat ->
  5 <= GraphView.degreeRadius d m /\ GraphView.degreeRadius d m <= 20.
Proof.
  intro H. unfold GraphView.degreeRadius.
  set (M := Qmax 1 (GraphView.ofNat m)).
  assert (M1 : 1 <= M) by apply Q.le_max_l.
  assert (Mpos : 0 < M) by (eapply Qlt_le_trans; [|exact M1]; reflexivity).
  assert (D0 : 0 <= GraphView.ofNat d).
  { unfold GraphView.ofNat. change 0 with (inject_Z 0).
    rewrite <- Zle_Qle. lia. }
  assert (DM : GraphView.ofNat d <= M).
  { eapply Qle_trans; [|apply Q.le_max_r].
    unfold GraphView.ofNat. rewrite <- Zle_Qle. lia. }
  assert (F0 : 0 <= GraphView.ofNat d / M).
  { apply Qle_shift_div_l; [exact Mpos|]. rewrite Qmult_0_l. exact D0. }
  assert (F1 : GraphView.ofNat d / M <= 1).
  { apply Qle_shift_div_r; [exact Mpos|]. rewrite Qmult_1_l. exact DM. }
  split.
  - setoid_replace 5 with (5 + 15 * 0) at 1 by ring.
    apply Qplus_le_r, Qmult_le_l; [reflexivity | exact F0].
  - setoid_replace 20 with (5 + 15 * 1) by ring.
    apply Qplus_le_r, Qmult_le_l; [reflexivity | exact F1].
Qed.

Lemma count_occ_filter {E : Type} (f : E -> str) (edges : list E) (i : str) :
  List.length (filter (fun e => str_eqb (f e) i) edges)
  = count_occ str_eq_dec (List.map f edges) i.
Proof.
  induction edges as [|e edges IH]; cbn [filter List.map count_occ];
    [reflexivity|].
  unfold str_eqb at 1.
  destruct (str_eq_dec (f e) i); cbn [List.length]; rewrite IH; reflexivity.
Qed.

Lemma incomingCount_degree (edges : list GraphView.Edge) (i : str) :
  GraphView.incomingCount edges i
  = Degree.incoming (Degree.arrowsOf GraphView.from GraphView.to edges) i.
Proof.
  unfold GraphView.incomingCount, Degree.incoming, Degree.arrowsOf.
  rewrite map_map. apply count_occ_filter.
Qed.

Lemma outgoingCount_degree (edges : list GraphView.Edge) (i : str) :
  GraphView.outgoingCount edges i
  = Degree.outgoing (Degree.arrowsOf GraphView.from GraphView.to edges) i.
Proof.
  unfold GraphView.outgoingCount, Degree.outgoing, Degree.arrowsOf.
  rewrite map_map. apply count_occ_filter.
Qed.

Lemma simple_incomingCount_degree (edges : list SimpleDragGraph.Edge) (i : str) :
  SimpleDragGraph.incomingCount edges i
  = Degree.incoming
      (Degree.arrowsOf SimpleDragGraph.from SimpleDragGraph.to edges) i.
Proof.
  unfold SimpleDragGraph.incomingCount, Degree.incoming, Degree.arrowsOf.
  rewrite map_map. apply count_occ_filter.
Qed.

Lemma simple_outgoingCount_degree (edges : list SimpleDragGraph.Edge) (i : str) :
  SimpleDragGraph.outgoingCount edges i
  = Degree.outgoing
      (Degree.arrowsOf SimpleDragGraph.from SimpleDragGraph.to edges) i.
Proof.
  unfold SimpleDragGraph.outgoingCount, Degree.outgoing, Degree.arrowsOf.
  rewrite map_map. apply count_occ_filter.
Qed.

Lemma largest_maxDegree {N : Type} (ident : N -> str) (degree : str -> nat)
      (nodes : list N) :
  GraphView.maxDegree (List.map (fun n => degree (ident n)) nodes)
  = Degree.largest degree (List.map ident nodes).
Proof.
  unfold Degree.largest. rewrite map_map. reflexivity.
Qed.

Lemma radius_degreeRadius (d m : nat) :
  GraphView.degreeRadius d m = Degree.radius d m.
Proof. reflexivity. Qed.

(** The radius the code computes from its own counters, with the
    counters replaced by the degrees read off the edge set. *)
Lemma counted_radius {N : Type} (ident : N -> str) (count degree : str -> nat)
      (nodes : list N) (node : N) :
  (forall i, count i = degree i) ->
  5 + (GraphView.ofNat (count (ident node))
       / GraphView.ofNat
           (GraphView.maxWithOne
              (List.map (fun n => count (ident n)) nodes))) * 15
  == Degree.radius (degree (ident node))
                   (Degree.largest degree (List.map ident nodes)).
Proof.
  intro H. rewrite degree_formula, radius_degreeRadius, <- largest_maxDegree.
  rewrite H. rewrite (map_ext _ (fun n => degree (ident n)));
    [reflexivity | intro; apply H].
Qed.

(** C8.  In mode [incoming] the radius of every node is
    5 + 15 * (degree / max(1, largest degree)), the degree being the
    number of edges of the edge set that end at the node and the largest
    degree being taken over the nodes of the graph; in mode [outgoing]
    the same with the edges that start at the node.  Hence a node
    without incoming edges has radius 5, and a node that attains a
    largest incoming degree of at least one has radius 20.  The older
    canvas computes the same radii. *)
Theorem C8_degree_sizing
        (Number_ : Json -> option Q) (nodeSizingProperty : option str)
        (nodes : list GraphView.Node) (edges : list GraphView.Edge)
        (node : GraphView.Node)
        (nodes' : list SimpleDragGraph.Node) (edges' : list SimpleDragGraph.Edge)
        (node' : SimpleDragGraph.Node) :
  let arrows := Degree.arrowsOf GraphView.from GraphView.to edges in
  let ids := List.map GraphView.id nodes in
  let degIn := Degree.incoming arrows (GraphView.id node) in
  let degOut := Degree.outgoing arrows (GraphView.id node) in
  let maxIn := Degree.largest (Degree.incoming arrows) ids in
  let maxOut := Degree.largest (Degree.outgoing arrows) ids in
  let rIn := GraphView.getNodeSize Number_ GraphView.Incoming
                                   nodeSizingProperty nodes edges node in
  let rOut := GraphView.getNodeSize Number_ GraphView.Outgoing
                                    nodeSizingProperty nodes edges node in
  let arrows' :=
    Degree.arrowsOf SimpleDragGraph.from SimpleDragGraph.to edges' in
  let ids' := List.map SimpleDragGraph.id nodes' in
  GraphView.radiusIs rIn (Degree.radius degIn maxIn)
  /\ GraphView.radiusIs rOut (Degree.radius degOut maxOut)
  /\ (degIn = 0%nat -> GraphView.radiusIs rIn 5)
  /\ (degIn = maxIn -> (1 <= maxIn)%nat -> GraphView.radiusIs rIn 20)
  /\ GraphView.radiusIs
       (SimpleDragGraph.getNodeSize Number_ SimpleDragGraph.Incoming
                                    nodes' edges' node')
       (Degree.radius
          (Degree.incoming arrows' (SimpleDragGraph.id node'))
          (Degree.largest (Degree.incoming arrows') ids'))
  /\ GraphView.radiusIs
       (SimpleDragGraph.getNodeSize Number_ SimpleDragGraph.Outgoing
                                    nodes' edges' node')
       (Degree.radius
          (Degree.outgoing arrows' (SimpleDragGraph.id node'))
          (Degree.largest (Degree.outgoing arrows') ids')).
Proof.
  intros arrows ids degIn degOut maxIn maxOut rIn rOut arrows' ids'.
  assert (HIn : GraphView.radiusIs rIn (Degree.radius degIn maxIn)).
  { eexists; split; [reflexivity|].
    apply (counted_radius GraphView.id (GraphView.incomingCount edges)
                          (Degree.incoming arrows)).
    intro i. apply incomingCount_degree. }
  repeat split.
  - exact HIn.
  - eexists; split; [reflexivity|].
    apply (counted_radius GraphView.id (GraphView.outgoingCount edges)
                          (Degree.outgoing arrows)).
    intro i. apply outgoingCount_degree.
  - intro Z. destruct HIn as (q & E & Hq). exists q. split; [exact E|].
    rewrite Hq, Z, <- radius_degreeRadius. apply degreeRadius_zero.
  - intros Em M1. destruct HIn as (q & E & Hq). exists q. split; [exact E|].
    rewrite Hq, Em, <- radius_degreeRadius. apply degreeRadius_max, M1.
  - eexists; split; [reflexivity|].
    apply (counted_radius SimpleDragGraph.id
                          (SimpleDragGraph.incomingCount edges')
                          (Degree.incoming arrows')).
    intro i. apply simple_incomingCount_degree.
  - eexists; split; [reflexivity|].
    apply (counted_radius SimpleDragGraph.id
                          (SimpleDragGraph.outgoingCount edges')
                          (Degree.outgoing arrows')).
    intro i. apply simple_outgoingCount_degree.
Qed.

(** In mode [incoming] every node of the graph has a radius between 5
    and 20. *)
Corollary incoming_radius_bounds
          (Number_ : Json -> option Q) (nodeSizingProperty : option str)
          (nodes : list GraphView.Node) (edges : list GraphView.Edge)
          (node : GraphView.Node) :
  In node nodes ->
  exists q,
    GraphView.getNodeSize Number_ GraphView.Incoming nodeSizingProperty
                          nodes edges node = Some q
    /\ 5 <= q /\ q <= 20.
Proof.
  intro H. eexists. split; [reflexivity|].
  unfold GraphView.maxIncoming.
  set (l := List.map (fun n => GraphView.incomingCount edges (GraphView.id n))
                     nodes).
  set (d := GraphView.incomingCount edges (GraphView.id node)).
  assert (I : In d l)
    by apply (in_map (fun n => GraphView.incomingCount edges (GraphView.id n))), H.
  pose proof (degreeRadius_bounds (maxDegree_ge l d I)) as B.
  pose proof (degree_formula d l) as F.
  rewrite F. exact B.
Qed.

(** ** Edge geometry *)

Lemma centreDistance_zero_iff (sx sy tx ty : Q) :
  GraphView.centreDistance sx sy tx ty = 0%R <-> (sx == tx /\ sy == ty).
Proof.
  unfold GraphView.centreDistance.
  set (dx := (Q2R tx - Q2R sx)%R). set (dy := (Q2R ty - Q2R sy)%R).
  assert (P : (0 <= dx * dx + dy * dy)%R) by nra.
  split.
  - intro H. apply sqrt_eq_0 in H; [|exact P].
    assert (dx = 0%R /\ dy = 0%R) as [X Y] by (split; nra).
    subst dx dy. split; apply eqR_Qeq; lra.
  - intros [X Y]. apply Qeq_eqR in X, Y.
    replace (dx * dx + dy * dy)%R with 0%R; [apply sqrt_0|].
    subst dx dy. rewrite X, Y. ring.
Qed.

(** The unit direction of [trimmed] has length one. *)
Lemma trimmed_direction_unit (sx sy tx ty : Q) :
  GraphView.centreDistance sx sy tx ty <> 0%R ->
  let d := GraphView.centreDistance sx sy tx ty in
  (((Q2R tx - Q2R sx) / d) * ((Q2R tx - Q2R sx) / d)
   + ((Q2R ty - Q2R sy) / d) * ((Q2R ty - Q2R sy) / d) = 1)%R.
Proof.
  intros H d.
  assert (S : (d * d = (Q2R tx - Q2R sx) * (Q2R tx - Q2R sx)
                       + (Q2R ty - Q2R sy) * (Q2R ty - Q2R sy))%R).
  { subst d. unfold GraphView.centreDistance. apply sqrt_sqrt.
    apply Rplus_le_le_0_compat; apply Rle_0_sqr. }
  fold d in H. field_simplify_eq; [nra | exact H].
Qed.

Section EdgeClaims.
Variable Number_ : Json -> option Q.
Variable nodeSizingMode : GraphView.SizingMode.
Variable nodeSizingProperty : option str.
Variable nodes : list GraphView.Node.
Variable edges : list GraphView.Edge.

Let size := GraphView.getNodeSize Number_ nodeSizingMode nodeSizingProperty
                                  nodes edges.
Let line := GraphView.edgeLine Number_ nodeSizingMode nodeSizingProperty
                               nodes edges.
Let findById (i : str) :=
  find (fun n => str_eqb (GraphView.id n) i) nodes.

Lemma edgeLine_drawn_inv (edge : GraphView.Edge) (e : GraphView.Endpoints) :
  line edge = Some e ->
  exists source target sx sy tx ty,
    findById (GraphView.from edge) = Some source
    /\ findById (GraphView.to edge) = Some target
    /\ GraphView.x source = Some sx /\ GraphView.y source = Some sy
    /\ GraphView.x target = Some tx /\ GraphView.y target = Some ty
    /\ GraphView.centreDistance sx sy tx ty <> 0%R.
Proof.
  unfold line, GraphView.edgeLine, findById.
  destruct (find (fun n => str_eqb (GraphView.id n) (GraphView.from edge)) nodes)
    as [source|] eqn:Fs; [|discriminate].
  destruct (find (fun n => str_eqb (GraphView.id n) (GraphView.to edge)) nodes)
    as [target|] eqn:Ft; [|discriminate].
  unfold GraphView.calculateEdgeEndpoints.
  destruct (GraphView.x source) as [sx|] eqn:Xs; [|discriminate].
  destruct (GraphView.y source) as [sy|] eqn:Ys; [|discriminate].
  destruct (GraphView.x target) as [tx|] eqn:Xt; [|discriminate].
  destruct (GraphView.y target) as [ty|] eqn:Yt; [|discriminate].
  destruct (Req_EM_T _ 0%R) as [Z|NZ]; [discriminate|].
  intros _. exists source, target, sx, sy, tx, ty.
  repeat split; assumption.
Qed.

(** C9.  An edge whose source or target is not among the nodes is not
    drawn.  An edge between two positioned nodes whose centres coincide
    is not drawn.  An edge between two positioned nodes with different
    centres and radii [rs], [rt] is drawn from
    [source + d * rs] to [target - d * rt] with
    [d = (target - source) / |target - source|], and the distance
    [|target - source|] that [d] divides by is not zero.  In general a
    drawn edge has both nodes, both positions, and a distance other than
    zero. *)
Theorem C9_edge_trimming (edge : GraphView.Edge) :
  (findById (GraphView.from edge) = None
   \/ findById (GraphView.to edge) = None -> line edge = None)
  /\ (forall source target sx sy tx ty,
        findById (GraphView.from edge) = Some source ->
        findById (GraphView.to edge) = Some target ->
        GraphView.x source = Some sx -> GraphView.y source = Some sy ->
        GraphView.x target = Some tx -> GraphView.y target = Some ty ->
        (sx == tx /\ sy == ty -> line edge = None)
        /\ (~ (sx == tx /\ sy == ty) ->
            GraphView.centreDistance sx sy tx ty <> 0%R
            /\ forall rs rt,
                 size source = Some rs -> size target = Some rt ->
                 line edge = Some (GraphView.trimmed sx sy tx ty rs rt)))
  /\ (forall e, line edge = Some e ->
        exists source target sx sy tx ty,
          findById (GraphView.from edge) = Some source
          /\ findById (GraphView.to edge) = Some target
          /\ GraphView.x source = Some sx /\ GraphView.y source = Some sy
          /\ GraphView.x target = Some tx /\ GraphView.y target = Some ty
          /\ GraphView.centreDistance sx sy tx ty <> 0%R).
Proof.
  split; [|split].
  - unfold line, GraphView.edgeLine, findById. intros [H|H]; rewrite H.
    + reflexivity.
    + destruct (find (fun n => str_eqb (GraphView.id n) (GraphView.from edge))
                     nodes); reflexivity.
  - intros source target sx sy tx ty Fs Ft Xs Ys Xt Yt.
    unfold line, GraphView.edgeLine. unfold findById in Fs, Ft.
    rewrite Fs, Ft. unfold GraphView.calculateEdgeEndpoints.
    rewrite Xs, Ys, Xt, Yt.
    fold (GraphView.centreDistance sx sy tx ty).
    split.
    + intro C. apply centreDistance_zero_iff in C.
      destruct (Req_EM_T _ 0%R) as [Z|NZ]; [reflexivity | contradiction].
    + intro C.
      assert (NZ : GraphView.centreDistance sx sy tx ty <> 0%R).
      { intro Z. apply C, centreDistance_zero_iff, Z. }
      split; [exact NZ|]. intros rs rt Rs Rt.
      destruct (Req_EM_T _ 0%R) as [Z|_]; [contradiction|].
      unfold size in Rs, Rt. rewrite Rs, Rt. reflexivity.
  - apply edgeLine_drawn_inv.
Qed.
End EdgeClaims.

(** ** The drag gesture *)

Lemma run_app (p : GraphView.Props) (s : GraphView.Session)
      (a b : list GraphView.Action) :
  GraphView.run p s (a ++ b)
  = (fst (GraphView.run p (fst (GraphView.run p s a)) b),
     snd (GraphView.run p s a)
     ++ snd (GraphView.run p (fst (GraphView.run p s a)) b)).
Proof.
  revert s. induction a as [|e a IH]; intro s; simpl.
  - destruct (GraphView.run p s b); reflexivity.
  - destruct (GraphView.act p s e) as [s1 o1]. rewrite IH.
    destruct (GraphView.run p s1 a) as [s2 o2]; simpl.
    destruct (GraphView.run p s2 b) as [s3 o3]; simpl.
    now rewrite app_assoc.
Qed.

Lemma moveNode_again (i : str) (a b c d : Q) (ns : list GraphView.Node) :
  GraphView.moveNode i a b (GraphView.moveNode i c d ns)
  = GraphView.moveNode i a b ns.
Proof.
  unfold GraphView.moveNode. rewrite map_map. apply map_ext. intro n.
  destruct (str_eqb (GraphView.id n) i) eqn:E; simpl; rewrite E; reflexivity.
Qed.

Lemma moveNode_placedAt (i : str) (pos : Q * Q) (ns : list GraphView.Node) :
  GraphView.placedAt i pos ns (GraphView.moveNode i (fst pos) (snd pos) ns).
Proof.
  unfold GraphView.placedAt, GraphView.moveNode.
  induction ns as [|n ns IH]; simpl; constructor; [|exact IH].
  unfold str_eqb. destruct (str_eq_dec (GraphView.id n) i) as [E|N]; simpl.
  - intuition congruence.
  - intuition congruence.
Qed.

Lemma copied_edges (es : list GraphView.Edge) :
  List.map (fun edge => GraphView.mkEdge (GraphView.from edge)
                          (GraphView.to edge) (GraphView.edge_color edge)) es
  = es.
Proof.
  induction es as [|[f t c] es IH]; simpl; [reflexivity | now rewrite IH].
Qed.

(** The nodes after the pointer took node [i] through [moves]. *)
Lemma dragged_nodes (i : str) (rect : Q * Q) (v : GraphView.View)
      (offset : Q * Q) (moves : list (Q * Q)) (new : list GraphView.Node) :
  new = match rev moves with
        | [] => GraphView.nodes v
        | m :: _ =>
            GraphView.moveNode
              i (fst (GraphView.dragPosition rect v offset m))
              (snd (GraphView.dragPosition rect v offset m))
              (GraphView.nodes v)
        end ->
  GraphView.draggedTo i rect v offset moves new.
Proof.
  unfold GraphView.draggedTo. destruct (rev moves) as [|m ms]; intros ->.
  - reflexivity.
  - apply moveNode_placedAt.
Qed.

(** One move handled by the listeners of a render that saw the drag. *)
Lemma move_while_dragging (p : GraphView.Props) (rect : Q * Q) (i : str)
      (offset : Q * Q) (v seen w : GraphView.View) (m : Q * Q) :
  GraphView.container p = Some rect -> nonempty i = true ->
  draggingFrom i offset v seen ->
  GraphView.handleMouseMove p seen w (fst m) (snd m)
  = GraphView.mkView
      (GraphView.moveNode i (fst (GraphView.dragPosition rect v offset m))
                          (snd (GraphView.dragPosition rect v offset m))
                          (GraphView.nodes w))
      (GraphView.zoom w) (GraphView.pan w) (GraphView.dragging w)
      (GraphView.dragOffset w) (GraphView.isPanning w) (GraphView.panStart w)
      (map_set i (GraphView.dragPosition rect v offset m)
               (GraphView.nodePositions w)).
Proof.
  intros Hc Hi (Z & P & Dg & O & Pn).
  unfold GraphView.handleMouseMove. rewrite Hc. destruct rect as [rl rt].
  rewrite Pn, Dg, Hi.
  unfold GraphView.dragPosition, GraphView.toWorld. simpl.
  rewrite Z, P, O. reflexivity.
Qed.

Lemma moves_before_render (p : GraphView.Props) (rect : Q * Q) (i : str)
      (offset : Q * Q) (v seen : GraphView.View) (moves : list (Q * Q)) :
  GraphView.container p = Some rect -> nonempty i = true ->
  draggingFrom i offset v seen ->
  forall w, draggingFrom i offset v w ->
  let r := GraphView.run p (GraphView.mkSession w seen)
                         (GraphView.lateMoves moves) in
  snd r = []
  /\ GraphView.rendered (fst r) = seen
  /\ draggingFrom i offset v (GraphView.current (fst r))
  /\ GraphView.nodes (GraphView.current (fst r))
     = match rev moves with
       | [] => GraphView.nodes w
       | m :: _ =>
           GraphView.moveNode i (fst (GraphView.dragPosition rect v offset m))
             (snd (GraphView.dragPosition rect v offset m)) (GraphView.nodes w)
       end.
Proof.
  intros Hc Hi Ds. induction moves as [|m moves IH]; intros w D.
  - simpl. auto.
  - cbn [GraphView.lateMoves List.map GraphView.run GraphView.act
         GraphView.handle GraphView.current GraphView.rendered].
    rewrite (@move_while_dragging p rect i offset v seen w m Hc Hi Ds).
    match goal with
    | |- context [GraphView.run p (GraphView.mkSession ?w1 _) _] =>
        set (w' := w1)
    end.
    assert (D' : draggingFrom i offset v w').
    { destruct D as (Z & P & Dg & O & Pn). subst w'.
      repeat split; simpl; auto. }
    specialize (IH w' D'). cbv zeta in IH.
    fold (GraphView.lateMoves moves).
    destruct (GraphView.run p (GraphView.mkSession w' seen)
                            (GraphView.lateMoves moves)) as [s2 o2].
    simpl in *. destruct IH as (O2 & R2 & D2 & N2).
    split; [exact O2|]. split; [exact R2|]. split; [exact D2|].
    rewrite N2. subst w'. simpl.
    destruct (rev moves) as [|m' ms] eqn:R; simpl.
    + reflexivity.
    + apply moveNode_again.
Qed.

Lemma moves_each_rendered (p : GraphView.Props) (rect : Q * Q) (i : str)
      (offset : Q * Q) (v : GraphView.View) (moves : list (Q * Q)) :
  GraphView.container p = Some rect -> nonempty i = true ->
  forall w, draggingFrom i offset v w ->
  let r := GraphView.run p (GraphView.mkSession w w)
                         (GraphView.shownMoves moves) in
  snd r = []
  /\ GraphView.rendered (fst r) = GraphView.current (fst r)
  /\ draggingFrom i offset v (GraphView.current (fst r))
  /\ GraphView.nodes (GraphView.current (fst r))
     = match rev moves with
       | [] => GraphView.nodes w
       | m :: _ =>
           GraphView.moveNode i (fst (GraphView.dragPosition rect v offset m))
             (snd (GraphView.dragPosition rect v offset m)) (GraphView.nodes w)
       end.
Proof.
  intros Hc Hi. induction moves as [|m moves IH]; intros w D.
  - simpl. auto.
  - cbn [GraphView.shownMoves flat_map app GraphView.run GraphView.act
         GraphView.handle GraphView.current GraphView.rendered].
    rewrite (@move_while_dragging p rect i offset v w w m Hc Hi D).
    match goal with
    | |- context [GraphView.run p (GraphView.mkSession ?w1 _) _] =>
        set (w' := w1)
    end.
    assert (D' : draggingFrom i offset v w').
    { destruct D as (Z & P & Dg & O & Pn). subst w'.
      repeat split; simpl; auto. }
    specialize (IH w' D'). cbv zeta in IH.
    fold (GraphView.shownMoves moves).
    destruct (GraphView.run p (GraphView.mkSession w' w')
                            (GraphView.shownMoves moves)) as [s2 o2].
    simpl in *. destruct IH as (O2 & R2 & D2 & N2).
    split; [exact O2|]. split; [exact R2|]. split; [exact D2|].
    rewrite N2. subst w'. simpl.
    destruct (rev moves) as [|m' ms] eqn:R; simpl.
    + reflexivity.
    + apply moveNode_again.
Qed.

(** C6, as the code has it.  A drag of node [i]: the left button goes
    down on its circle and the component renders; the pointer moves
    through [shown], the component rendering after every move, and then
    through [late] before the component renders again; the button is
    released.  No update is emitted before the release and exactly one
    on release, with all edges.  The node collection it carries is the
    one that the render before the release has seen: node [i] at the
    position of the last move of [shown], whereas the canvas has the
    node at the position of the last move of all.  The update carries
    the final position only when the component has rendered since the
    last move. *)
Theorem C6_drag_commit
        (p : GraphView.Props) (v : GraphView.View) (rect : Q * Q)
        (i : str) (node : GraphView.Node) (c down : Q * Q)
        (shown late : list (Q * Q)) :
  GraphView.container p = Some rect ->
  GraphView.onGraphUpdate p = true ->
  nonempty i = true ->
  GraphView.isPanning v = false ->
  GraphView.findNode i (GraphView.nodes v) = Some node ->
  GraphView.x node = Some (fst c) -> GraphView.y node = Some (snd c) ->
  let offset := GraphView.grabOffset rect v c down in
  let r := GraphView.run p (GraphView.mkSession v v)
                         (GraphView.gesture down i shown late) in
  let drawn := GraphView.nodes (GraphView.current (fst r)) in
  (exists reported,
      snd r = [GraphView.GraphUpdate reported (GraphView.edges p)]
      /\ GraphView.draggedTo i rect v offset shown reported
      /\ (late = [] -> reported = drawn))
  /\ GraphView.draggedTo i rect v offset (shown ++ late) drawn
  /\ GraphView.dragging (GraphView.current (fst r)) = None
  /\ GraphView.isPanning (GraphView.current (fst r)) = false
  /\ (forall shown' late',
        snd (GraphView.run p (GraphView.mkSession v v)
               (GraphView.Handle
                  (GraphView.NodeMouseDown 0 (fst down) (snd down) i)
                :: GraphView.Render
                :: GraphView.shownMoves shown'
                ++ GraphView.lateMoves late')) = []).
Proof.
  intros Hc Hu Hi Hp Hf Hx Hy offset r drawn.
  set (v1 := GraphView.handleNodeMouseDown p v v (fst down) (snd down) i).
  assert (E1 : v1 = GraphView.mkView (GraphView.nodes v) (GraphView.zoom v)
                      (GraphView.pan v) (Some i) offset
                      (GraphView.isPanning v) (GraphView.panStart v)
                      (GraphView.nodePositions v)).
  { subst v1. unfold GraphView.handleNodeMouseDown.
    rewrite Hc. destruct rect as [rl rt]. rewrite Hf, Hx, Hy. reflexivity. }
  assert (D1 : draggingFrom i offset v v1).
  { rewrite E1. repeat split; simpl; auto. }
  assert (N1 : GraphView.nodes v1 = GraphView.nodes v)
    by (rewrite E1; reflexivity).
  (* the state after the moves that were rendered, and after all moves *)
  assert (M : forall ms ls,
             let q := GraphView.run p (GraphView.mkSession v1 v1)
                        (GraphView.shownMoves ms ++ GraphView.lateMoves ls) in
             snd q = []
             /\ draggingFrom i offset v (GraphView.rendered (fst q))
             /\ GraphView.draggedTo i rect v offset ms
                                    (GraphView.nodes (GraphView.rendered (fst q)))
             /\ GraphView.draggedTo i rect v offset (ms ++ ls)
                                    (GraphView.nodes (GraphView.current (fst q)))
             /\ (ls = [] ->
                 GraphView.rendered (fst q) = GraphView.current (fst q))).
  { intros ms ls. cbv zeta. rewrite run_app.
    destruct (@moves_each_rendered p rect i offset v ms Hc Hi v1 D1)
      as (O & R & D & N).
    set (s := fst (GraphView.run p (GraphView.mkSession v1 v1)
                                 (GraphView.shownMoves ms))) in *.
    assert (Es : s = GraphView.mkSession (GraphView.current s)
                                         (GraphView.current s)).
    { destruct s as [sc sr]. simpl in R. subst sr. reflexivity. }
    rewrite Es.
    destruct (@moves_before_render p rect i offset v (GraphView.current s)
                                   ls Hc Hi D (GraphView.current s) D)
      as (O' & R' & D' & N').
    cbn [fst snd]. rewrite O, O', R'.
    split; [reflexivity|]. split; [exact D|].
    split; [apply dragged_nodes; rewrite N, N1; reflexivity|].
    split.
    - apply dragged_nodes. rewrite N', N, N1, rev_app_distr.
      destruct (rev ls) as [|l ls']; simpl; [reflexivity|].
      destruct (rev ms) as [|m ms']; [reflexivity | apply moveNode_again].
    - intros ->. simpl. reflexivity. }
  assert (G : forall ms ls,
             GraphView.run p (GraphView.mkSession v v)
               (GraphView.Handle
                  (GraphView.NodeMouseDown 0 (fst down) (snd down) i)
                :: GraphView.Render :: ms ++ ls)
             = GraphView.run p (GraphView.mkSession v1 v1) (ms ++ ls)).
  { intros ms ls.
    cbn [GraphView.run GraphView.act GraphView.handle Nat.eqb
         GraphView.current GraphView.rendered].
    fold v1. destruct (GraphView.run p (GraphView.mkSession v1 v1) (ms ++ ls)).
    reflexivity. }
  assert (R : r = GraphView.run p (GraphView.mkSession v1 v1)
                    ((GraphView.shownMoves shown ++ GraphView.lateMoves late)
                       ++ [GraphView.Handle GraphView.MouseUp])).
  { subst r. unfold GraphView.gesture.
    rewrite <- (app_nil_r (GraphView.lateMoves late
                            ++ [GraphView.Handle GraphView.MouseUp])), G.
    rewrite app_nil_r, app_assoc. reflexivity. }
  assert (Before : forall shown' late',
             snd (GraphView.run p (GraphView.mkSession v v)
                    (GraphView.Handle
                       (GraphView.NodeMouseDown 0 (fst down) (snd down) i)
                     :: GraphView.Render
                     :: GraphView.shownMoves shown'
                     ++ GraphView.lateMoves late')) = []).
  { intros shown' late'. rewrite G.
    destruct (M shown' late') as (O' & _). exact O'. }
  destruct (M shown late) as (O & D & Ns & Nc & Same).
  subst drawn. rewrite R, run_app, O.
  set (s := fst (GraphView.run p (GraphView.mkSession v1 v1)
                   (GraphView.shownMoves shown ++ GraphView.lateMoves late)))
    in *.
  destruct D as (_ & _ & Dg & _ & _).
  cbn [GraphView.run GraphView.act GraphView.handle GraphView.handleMouseUp
       fst snd app GraphView.current GraphView.rendered GraphView.nodes
       GraphView.dragging GraphView.isPanning].
  unfold GraphView.isDragging. rewrite Dg, Hi, Hu, copied_edges.
  cbn [andb fst snd app GraphView.current GraphView.nodes
       GraphView.dragging GraphView.isPanning].
  split; [|split; [exact Nc|split; [reflexivity|split; [reflexivity|]]]].
  - exists (GraphView.nodes (GraphView.rendered s)).
    split; [reflexivity|]. split; [exact Ns|].
    intro L. rewrite (Same L). reflexivity.
  - exact Before.
Qed.

(** The drag of the sample view: A is grabbed at its centre (10, 10),
    moved to (30, 30), rendered there, moved on to (50, 50) and released
    before the next render.  The update reports A at (30, 30); the
    canvas and its position map have it at (50, 50). *)
Example release_before_render :
  let r := GraphView.run sampleProps
             (GraphView.mkSession sampleView sampleView)
             (GraphView.gesture (10, 10) (lit "A") [(30, 30)] [(50, 50)]) in
  snd r = [GraphView.GraphUpdate
             [placed "A" 30 30; placed "B" 13 14; placed "C" 100 40]
             sampleEdges]
  /\ GraphView.nodes (GraphView.current (fst r))
     = [placed "A" 50 50; placed "B" 13 14; placed "C" 100 40]
  /\ lookup (lit "A") (GraphView.nodePositions (GraphView.current (fst r)))
     = Some (50, 50).
Proof. repeat split; vm_compute; reflexivity. Qed.

(** The same drag with a render between the last move and the release
    reports A where the canvas has it. *)
Example release_after_render :
  let r := GraphView.run sampleProps
             (GraphView.mkSession sampleView sampleView)
             (GraphView.gesture (10, 10) (lit "A") [(30, 30); (50, 50)] []) in
  snd r = [GraphView.GraphUpdate
             [placed "A" 50 50; placed "B" 13 14; placed "C" 100 40]
             sampleEdges]
  /\ GraphView.nodes (GraphView.current (fst r))
     = [placed "A" 50 50; placed "B" 13 14; placed "C" 100 40].
Proof. repeat split; vm_compute; reflexivity. Qed.

(** ** Group colours *)

Lemma lookup_map_set_same {A} (k : str) (v : A) (m : list (str * A)) :
  lookup k (map_set k v m) = Some v.
Proof.
  induction m as [|[k' v'] m IH]; simpl.
  - destruct (str_eq_dec k k); congruence.
  - destruct (str_eq_dec k k') as [E|N]; simpl.
    + destruct (str_eq_dec k k'); congruence.
    + destruct (str_eq_dec k k'); [congruence | exact IH].
Qed.

Lemma lookup_map_set_other {A} (k k' : str) (v : A) (m : list (str * A)) :
  k <> k' -> lookup k (map_set k' v m) = lookup k m.
Proof.
  intro N. induction m as [|[k2 v2] m IH]; simpl.
  - destruct (str_eq_dec k k'); congruence.
  - destruct (str_eq_dec k' k2) as [E|N2]; simpl.
    + subst. destruct (str_eq_dec k k2); congruence.
    + destruct (str_eq_dec k k2); [reflexivity | exact IH].
Qed.

Lemma str_eqb_eq (a b : str) : str_eqb a b = true <-> a = b.
Proof.
  unfold str_eqb. destruct (str_eq_dec a b); split; congruence.
Qed.

Lemma setAdd_nodup (acc : list str) (g : str) :
  NoDup acc -> NoDup (GraphView.setAdd acc g).
Proof.
  intro H. unfold GraphView.setAdd.
  destruct (existsb (str_eqb g) acc) eqn:E; [exact H|].
  apply NoDup_app; [exact H | repeat constructor; simpl; tauto |].
  intros a Ha [<-|[]].
  assert (X : existsb (str_eqb g) acc = true).
  { apply existsb_exists. exists g. split; [exact Ha | now apply str_eqb_eq]. }
  congruence.
Qed.

Lemma setAdd_in (acc : list str) (g a : str) :
  In a (GraphView.setAdd acc g) <-> In a acc \/ a = g.
Proof.
  unfold GraphView.setAdd.
  destruct (existsb (str_eqb g) acc) eqn:E.
  - split; [auto|]. intros [H| ->]; [exact H|].
    apply existsb_exists in E as (b & Hb & Eb).
    apply str_eqb_eq in Eb. now subst.
  - rewrite in_app_iff. simpl. intuition.
Qed.

Lemma fold_setAdd (l acc : list str) :
  NoDup acc ->
  NoDup (fold_left GraphView.setAdd l acc)
  /\ forall a, In a (fold_left GraphView.setAdd l acc) <-> In a acc \/ In a l.
Proof.
  revert acc. induction l as [|g l IH]; intros acc H; simpl.
  - split; [exact H | intuition].
  - destruct (IH _ (setAdd_nodup g H)) as [N I]. split; [exact N|].
    intro a. rewrite I, setAdd_in. intuition.
Qed.

(** The groups of a node set are the distinct group keys of its nodes. *)
Lemma groups_distinct (nodes : list GraphView.Node) :
  NoDup (GraphView.groups nodes)
  /\ forall g, In g (GraphView.groups nodes)
               <-> exists n, In n nodes /\ GraphView.groupOf n = g.
Proof.
  unfold GraphView.groups.
  destruct (fold_setAdd (List.map GraphView.groupOf nodes) (NoDup_nil str))
    as [N I].
  split; [exact N|]. intro g. rewrite I, in_map_iff. simpl.
  split.
  - intros [[]|(n & E & H)]. exists n; auto.
  - intros (n & H & E). right. exists n; auto.
Qed.

Lemma str_ltb_asym (a b : str) :
  GraphView.str_ltb a b = true -> GraphView.str_ltb b a = false.
Proof.
  revert b. induction a as [|c a IH]; intros [|d b]; simpl; try congruence.
  destruct (N.ltb_spec c d) as [L|L].
  - intros _. destruct (N.ltb_spec d c) as [L'|L']; [lia|].
    destruct (N.eqb_spec d c); [lia | reflexivity].
  - destruct (N.eqb_spec c d) as [->|Ne]; [|discriminate].
    intro H. rewrite N.ltb_irrefl, N.eqb_refl. exact (IH _ H).
Qed.

Lemma str_leb_total (a b : str) :
  GraphView.str_leb a b = false -> GraphView.str_leb b a = true.
Proof.
  unfold GraphView.str_leb. intro H. apply negb_false_iff in H.
  now rewrite (str_ltb_asym _ _ H).
Qed.

Lemma insert_perm (g : str) (l : list str) :
  Permutation (g :: l) (GraphView.insert g l).
Proof.
  induction l as [|h t IH]; simpl; [reflexivity|].
  destruct (GraphView.str_leb g h); [reflexivity|].
  rewrite perm_swap. now apply perm_skip.
Qed.

Lemma insert_sorted (g : str) (l : list str) :
  Sorted leStr l -> Sorted leStr (GraphView.insert g l).
Proof.
  induction 1 as [|h t S IH Hd]; simpl.
  - repeat constructor.
  - destruct (GraphView.str_leb g h) eqn:E.
    + constructor; [constructor; assumption | constructor; exact E].
    + constructor; [exact IH|].
      apply str_leb_total in E.
      destruct t as [|h' t]; simpl.
      * constructor; exact E.
      * destruct (GraphView.str_leb g h'); constructor;
          [exact E | now inversion Hd].
Qed.

(** [sort] returns its argument rearranged in lexicographic order. *)
Lemma sort_sorted_perm (l : list str) :
  Sorted leStr (GraphView.sort l) /\ Permutation l (GraphView.sort l).
Proof.
  unfold GraphView.sort. induction l as [|g l [S P]]; simpl.
  - split; constructor.
  - split; [now apply insert_sorted|].
    rewrite <- insert_perm. now apply perm_skip.
Qed.

Lemma fold_assign_other (custom : list (str * str)) (l : list (nat * str))
      (acc : list (str * str)) (g : str) :
  ~ In g (List.map snd l) ->
  lookup g (fold_left (GraphView.assign custom) l acc) = lookup g acc.
Proof.
  revert acc. induction l as [|[k h] l IH]; intros acc H; simpl; [reflexivity|].
  rewrite IH by (intro I; apply H; right; exact I).
  apply lookup_map_set_other. intro E. apply H. left. symmetry. exact E.
Qed.

Lemma fold_assign_in (custom : list (str * str)) (l : list (nat * str))
      (acc : list (str * str)) (k : nat) (g : str) :
  NoDup (List.map snd l) -> In (k, g) l ->
  lookup g (fold_left (GraphView.assign custom) l acc)
  = Some (GraphView.orElse (lookup g custom) (GraphView.paletteAt k)).
Proof.
  revert acc. induction l as [|[k' h] l IH]; intros acc N I; simpl; [destruct I|].
  inversion N as [|? ? Hn N']; subst.
  destruct I as [E|I].
  - inversion E; subst. rewrite fold_assign_other by exact Hn.
    apply lookup_map_set_same.
  - apply IH; assumption.
Qed.

Lemma withIndex_from (s : nat) (l : list str) (k : nat) (g : str) :
  nth_error l k = Some g ->
  In ((s + k)%nat, g) (combine (seq s (List.length l)) l).
Proof.
  revert s k. induction l as [|h l IH]; intros s [|k] H; simpl in *;
    try discriminate.
  - left. inversion H. f_equal. lia.
  - right. replace (s + S k)%nat with (S s + k)%nat by lia. now apply IH.
Qed.

Lemma withIndex_snd (s : nat) (l : list str) :
  List.map snd (combine (seq s (List.length l)) l) = l.
Proof.
  revert s. induction l as [|h l IH]; intro s; simpl; [reflexivity|].
  now rewrite IH.
Qed.

(** The colour scale of [graph-view.tsx]: the distinct group keys are put
    in lexicographic order, and the group at position [k] of that order
    gets the user's colour for it if there is one, and otherwise the
    palette colour [k mod 10]. *)
Theorem graph_view_colors_by_sorted_index
        (nodes : list GraphView.Node) (customGroupColors : list (str * str)) :
  let sortedGroups := GraphView.sort (GraphView.groups nodes) in
  Sorted leStr sortedGroups
  /\ NoDup sortedGroups
  /\ (forall g, In g sortedGroups
                <-> exists n, In n nodes /\ GraphView.groupOf n = g)
  /\ forall k g,
       nth_error sortedGroups k = Some g ->
       lookup g (GraphView.colorScale (GraphView.groups nodes) customGroupColors)
       = Some (GraphView.orElse (lookup g customGroupColors)
                                (nth (k mod 10) GraphView.defaultColors [])).
Proof.
  intro sortedGroups.
  destruct (groups_distinct nodes) as [N I].
  destruct (sort_sorted_perm (GraphView.groups nodes)) as [S P].
  fold sortedGroups in S, P.
  assert (N' : NoDup sortedGroups) by (eapply Permutation_NoDup; eauto).
  repeat split; try assumption.
  - intro H. apply I. eapply Permutation_in; [symmetry; exact P | exact H].
  - intro H. eapply Permutation_in; [exact P | apply I, H].
  - intros k g H. unfold GraphView.colorScale, GraphView.withIndex.
    fold sortedGroups.
    change (nth (k mod 10) GraphView.defaultColors [])
      with (GraphView.paletteAt k).
    apply fold_assign_in.
    + now rewrite withIndex_snd.
    + apply (withIndex_from 0 _ _ H).
Qed.

(** With the groups "a" and "b", met in either order, [graph-view.tsx]
    gives "a" the first palette colour and "b" the second. *)
Example graph_view_colors_a_b :
  GraphView.colorScale
    (GraphView.groups [grouped "n1" "b"; grouped "n2" "a"]) []
  = [(lit "a", lit "#4285F4"); (lit "b", lit "#EA4335")]
  /\ GraphView.colorScale
       (GraphView.groups [grouped "n1" "a"; grouped "n2" "b"]) []
     = [(lit "a", lit "#4285F4"); (lit "b", lit "#EA4335")].
Proof. split; vm_compute; reflexivity. Qed.

(** C3 fails on [simple-drag-graph.tsx]: its colour scale does not sort.
    With a node of group "b" before a node of group "a", "b" gets the
    first palette colour and "a" the second, where the sorted rule (and
    [graph-view.tsx] on the same nodes) gives "a" the first and "b" the
    second. *)
Theorem C3_simple_drag_graph_encounter_order :
  let nodes := [grouped' "n1" "b"; grouped' "n2" "a"] in
  let scale := SimpleDragGraph.colorScale (SimpleDragGraph.groups nodes) [] in
  SimpleDragGraph.groups nodes = [lit "b"; lit "a"]
  /\ lookup (lit "a") scale = Some (nth 1 GraphView.defaultColors [])
  /\ lookup (lit "b") scale = Some (nth 0 GraphView.defaultColors [])
  /\ lookup (lit "a") scale <> Some (nth 0 GraphView.defaultColors [])
  /\ lookup (lit "a")
            (GraphView.colorScale
               (GraphView.groups [grouped "n1" "b"; grouped "n2" "a"]) [])
     = Some (nth 0 GraphView.defaultColors []).
Proof.
  repeat split; try (vm_compute; reflexivity).
  vm_compute. discriminate.
Qed.

(** ** The JSON printer and parser *)

Lemma Json_induction (P : Json -> Prop) :
  P JNull -> (forall b, P (JBool b)) -> (forall q, P (JNum q)) ->
  (forall s, P (JStr s)) ->
  (forall l, Forall P l -> P (JArr l)) ->
  (forall kvs, Forall (fun kv => P (snd kv)) kvs -> P (JObj kvs)) ->
  forall v, P v.
Proof.
  intros HN HB HQ HS HA HO.
  fix IH 1. intros [| b | q | s | l | kvs].
  - exact HN.
  - apply HB.
  - apply HQ.
  - apply HS.
  - apply HA. induction l as [|x l IHl]; constructor; [apply IH | exact IHl].
  - apply HO.
    induction kvs as [|[k x] kvs IHk]; constructor; [apply IH | exact IHk].
Qed.

(** *** White space *)

Lemma skip_spaces (ws s : str) :
  forallb RefJSON.jsonSpace ws = true -> RefJSON.skip (ws ++ s) = RefJSON.skip s.
Proof.
  unfold RefJSON.skip. induction ws as [|c ws IH]; simpl; [reflexivity|].
  intro F. apply andb_prop in F as [C F]. rewrite C. exact (IH F).
Qed.

Lemma skip_head (c : char) (s : str) :
  RefJSON.jsonSpace c = false -> RefJSON.skip (c :: s) = c :: s.
Proof. unfold RefJSON.skip. simpl. now intros ->. Qed.

Lemma skip_idem (s : str) : RefJSON.skip (RefJSON.skip s) = RefJSON.skip s.
Proof.
  unfold RefJSON.skip. induction s as [|c s IH]; simpl; [reflexivity|].
  destruct (RefJSON.jsonSpace c) eqn:E; [exact IH|]. simpl. now rewrite E.
Qed.

Lemma newline_spaces (d : nat) :
  forallb RefJSON.jsonSpace (RefJSON.newline d) = true.
Proof.
  unfold RefJSON.newline. simpl.
  induction (d + (d + 0))%nat as [|n IH]; simpl; [reflexivity | exact IH].
Qed.

Lemma skip_newline (d : nat) (s : str) :
  RefJSON.skip (RefJSON.newline d ++ s) = RefJSON.skip s.
Proof. apply skip_spaces, newline_spaces. Qed.

(** *** The equations of the parser *)

Lemma value_S (n : nat) (s : str) :
  RefJSON.value (S n) s
  = match RefJSON.skip s with
    | [] => None
    | c :: r =>
        if (c =? 123)%N then
          match RefJSON.after 125%N (RefJSON.skip r) with
          | Some r' => Some (JObj [], r')
          | None => RefJSON.members n r []
          end
        else if (c =? 91)%N then
          match RefJSON.after 93%N (RefJSON.skip r) with
          | Some r' => Some (JArr [], r')
          | None => RefJSON.elements n r []
          end
        else if (c =? 34)%N then
          match RefJSON.stringBody (S (List.length r)) r [] with
          | Some (x, r') => Some (JStr x, r')
          | None => None
          end
        else if (c =? 116)%N then
          option_map (pair (JBool true))
                     (RefJSON.dropPrefix (lit "true") (c :: r))
        else if (c =? 102)%N then
          option_map (pair (JBool false))
                     (RefJSON.dropPrefix (lit "false") (c :: r))
        else if (c =? 110)%N then
          option_map (pair JNull) (RefJSON.dropPrefix (lit "null") (c :: r))
        else
          match RefJSON.number (c :: r) with
          | Some (q, r') => Some (JNum q, r')
          | None => None
          end
    end.
Proof. reflexivity. Qed.

Lemma members_S (n : nat) (s : str) (acc : list (str * Json)) :
  RefJSON.members (S n) s acc
  = match RefJSON.after 34%N (RefJSON.skip s) with
    | Some r =>
        match RefJSON.stringBody (S (List.length r)) r [] with
        | Some (key, r1) =>
            match RefJSON.after 58%N (RefJSON.skip r1) with
            | Some r2 =>
                match RefJSON.value n r2 with
                | Some (v, r3) =>
                    match RefJSON.skip r3 with
                    | [] => None
                    | c :: r4 =>
                        if (c =? 44)%N
                        then RefJSON.members n r4 (map_set key v acc)
                        else if (c =? 125)%N
                             then Some (JObj (map_set key v acc), r4)
                             else None
                    end
                | None => None
                end
            | None => None
            end
        | None => None
        end
    | None => None
    end.
Proof. reflexivity. Qed.

Lemma elements_S (n : nat) (s : str) (acc : list Json) :
  RefJSON.elements (S n) s acc
  = match RefJSON.value n s with
    | Some (v, r) =>
        match RefJSON.skip r with
        | [] => None
        | c :: r' =>
            if (c =? 44)%N then RefJSON.elements n r' (acc ++ [v])
            else if (c =? 93)%N then Some (JArr (acc ++ [v]), r')
            else None
        end
    | None => None
    end.
Proof. reflexivity. Qed.

Lemma value_skip (n : nat) (s : str) :
  RefJSON.value n (RefJSON.skip s) = RefJSON.value n s.
Proof. destruct n; [reflexivity|]. now rewrite !value_S, skip_idem. Qed.

Lemma value_spaces (n : nat) (ws s : str) :
  forallb RefJSON.jsonSpace ws = true ->
  RefJSON.value n (ws ++ s) = RefJSON.value n s.
Proof.
  intro F. rewrite <- value_skip, (@skip_spaces ws s F). apply value_skip.
Qed.

Lemma value_blank (n : nat) (s : str) :
  RefJSON.value n (32%N :: s) = RefJSON.value n s.
Proof. apply (@value_spaces n [32%N] s eq_refl). Qed.

(** *** Strings *)

Lemma hex_digit (n : N) :
  (n < 16)%N -> RefJSON.hexValue (RefJSON.hexDigit n) = Some n.
Proof.
  intro H.
  assert (C : In n (List.map N.of_nat (seq 0 16))).
  { apply in_map_iff. exists (N.to_nat n). split; [apply N2Nat.id|].
    apply in_seq. lia. }
  simpl in C.
  repeat (destruct C as [<-|C]; [reflexivity|]). destruct C.
Qed.

Lemma hex4_control (c : char) (s : str) :
  (c < 32)%N ->
  RefJSON.hex4 (48%N :: 48%N :: RefJSON.hexDigit (c / 16)
                     :: RefJSON.hexDigit (c mod 16) :: s)
  = Some (c, s).
Proof.
  intro H. unfold RefJSON.hex4.
  change (RefJSON.hexValue 48%N) with (Some 0%N).
  rewrite !hex_digit.
  - f_equal. f_equal. pose proof (N.div_mod c 16). lia.
  - apply N.mod_lt. discriminate.
  - apply N.Div0.div_lt_upper_bound. lia.
Qed.

(** The parser reads back the body of a printed string. *)
Lemma stringBody_print (x : str) :
  forall (n : nat) (acc rest : str),
    (List.length x < n)%nat ->
    RefJSON.stringBody n (flat_map RefJSON.escape x ++ 34%N :: rest) acc
    = Some (rev acc ++ x, rest).
Proof.
  induction x as [|c x IH]; intros n acc rest L;
    (destruct n as [|n]; [simpl in L; lia|]).
  - simpl. now rewrite app_nil_r.
  - simpl in L.
    assert (Next : RefJSON.stringBody n (flat_map RefJSON.escape x
                                           ++ 34%N :: rest) (c :: acc)
                   = Some (rev acc ++ c :: x, rest)).
    { rewrite IH by lia. simpl. now rewrite <- app_assoc. }
    cbn [flat_map]. unfold RefJSON.escape.
    destruct (c =? 34)%N eqn:Q.
    + apply N.eqb_eq in Q. subst c. exact Next.
    + destruct (c =? 92)%N eqn:B.
      * apply N.eqb_eq in B. subst c. exact Next.
      * destruct (c <? 32)%N eqn:C.
        -- apply N.ltb_lt in C.
           cbn [app RefJSON.stringBody N.eqb Pos.eqb].
           rewrite (@hex4_control c _ C). exact Next.
        -- cbn [app RefJSON.stringBody]. rewrite Q, B, C. exact Next.
Qed.

Lemma escape_length (x : str) :
  (List.length x <= List.length (flat_map RefJSON.escape x))%nat.
Proof.
  induction x as [|c x IH]; simpl; [lia|]. rewrite length_app.
  assert (1 <= List.length (RefJSON.escape c))%nat; [|lia].
  unfold RefJSON.escape.
  destruct (c =? 34)%N; [simpl; lia|].
  destruct (c =? 92)%N; [simpl; lia|].
  destruct (c <? 32)%N; simpl; lia.
Qed.

Lemma string_print (x rest : str) :
  RefJSON.stringBody
    (S (List.length (flat_map RefJSON.escape x ++ 34%N :: rest)))
    (flat_map RefJSON.escape x ++ 34%N :: rest) []
  = Some (x, rest).
Proof.
  rewrite stringBody_print; [reflexivity|].
  rewrite length_app. pose proof (escape_length x). simpl. lia.
Qed.

(** *** Numbers *)

Lemma digits_cons (c : char) (r : str) (acc : N) (count : nat) :
  RefJSON.digits (c :: r) acc count
  = if RefJSON.isDigit c
    then RefJSON.digits r (acc * 10 + (c - 48))%N (S count)
    else (acc, count, c :: r).
Proof. reflexivity. Qed.

Lemma digits_stop (tail : str) (acc : N) (count : nat) :
  (forall c r, tail = c :: r -> RefJSON.isDigit c = false) ->
  RefJSON.digits tail acc count = (acc, count, tail).
Proof.
  destruct tail as [|c r]; [reflexivity|]. intro H.
  rewrite digits_cons, (H c r eq_refl). reflexivity.
Qed.

Lemma digit_char (n : N) :
  (n < 10)%N ->
  RefJSON.isDigit (48 + n)%N = true /\ (48 + n - 48 = n)%N.
Proof.
  intro H. unfold RefJSON.isDigit. split; [|lia].
  apply andb_true_intro. split; apply N.leb_le; lia.
Qed.

Lemma decimal_app (f : nat) :
  forall (n : N) (t1 t2 : str),
    RefJSON.decimal f n (t1 ++ t2) = RefJSON.decimal f n t1 ++ t2.
Proof.
  induction f as [|f IH]; intros n t1 t2; simpl; [reflexivity|].
  destruct (n <? 10)%N; [reflexivity|].
  rewrite <- IH. reflexivity.
Qed.

(** The parser reads back the digits of a printed natural number. *)
Lemma digits_decimal (f : nat) :
  forall n : N,
    (n < 10 ^ N.of_nat f)%N -> (1 <= f)%nat ->
    exists k : nat,
      (1 <= k)%nat
      /\ forall (tail : str) (acc : N) (count : nat),
           RefJSON.digits (RefJSON.decimal f n tail) acc count
           = RefJSON.digits tail (acc * 10 ^ N.of_nat k + n)%N
                            (count + k)%nat.
Proof.
  induction f as [|f IH]; intros n L F; [lia|].
  cbn [RefJSON.decimal]. destruct (n <? 10)%N eqn:T.
  - apply N.ltb_lt in T. exists 1%nat. split; [lia|].
    intros tail acc count. rewrite digits_cons.
    destruct (digit_char T) as [D E]. rewrite D, E.
    replace (count + 1)%nat with (S count) by lia.
    change (10 ^ N.of_nat 1)%N with 10%N. reflexivity.
  - apply N.ltb_ge in T.
    assert (F' : (1 <= f)%nat).
    { destruct f; [|lia]. simpl in L. lia. }
    assert (L' : (n / 10 < 10 ^ N.of_nat f)%N).
    { apply N.Div0.div_lt_upper_bound.
      rewrite Nat2N.inj_succ, N.pow_succ_r' in L. exact L. }
    destruct (IH (n / 10)%N L' F') as (k & K & H).
    exists (S k). split; [lia|]. intros tail acc count.
    rewrite H, digits_cons.
    assert (M : (n mod 10 < 10)%N) by (apply N.mod_lt; discriminate).
    destruct (digit_char M) as [D E]. rewrite D, E.
    replace (count + S k)%nat with (S (count + k)) by lia.
    replace (acc * 10 ^ N.of_nat (S k) + n)%N
      with ((acc * 10 ^ N.of_nat k + n / 10) * 10 + n mod 10)%N;
      [reflexivity|].
    rewrite Nat2N.inj_succ, N.pow_succ_r'.
    pose proof (N.div_mod n 10). lia.
Qed.

Lemma decimal_head (f : nat) :
  forall (n : N) (tail : str),
    (n < 10 ^ N.of_nat f)%N -> (1 <= f)%nat ->
    exists d t,
      RefJSON.decimal f n tail = (48 + d)%N :: t
      /\ (d < 10)%N /\ (d = 0%N -> n = 0%N).
Proof.
  induction f as [|f IH]; intros n tail L F; [lia|].
  cbn [RefJSON.decimal]. destruct (n <? 10)%N eqn:T.
  - apply N.ltb_lt in T. exists n, tail. auto.
  - apply N.ltb_ge in T.
    assert (F' : (1 <= f)%nat).
    { destruct f; [|lia]. simpl in L. lia. }
    assert (L' : (n / 10 < 10 ^ N.of_nat f)%N).
    { apply N.Div0.div_lt_upper_bound.
      rewrite Nat2N.inj_succ, N.pow_succ_r' in L. exact L. }
    destruct (IH (n / 10)%N ((48 + n mod 10)%N :: tail) L' F')
      as (d & t & E & D & Z).
    exists d, t. split; [exact E|]. split; [exact D|].
    intro Zd. specialize (Z Zd).
    pose proof (N.div_mod n 10).
    assert (n mod 10 < 10)%N by (apply N.mod_lt; discriminate). lia.
Qed.

Lemma pos_size_bound (p : positive) :
  (N.pos p < 2 ^ N.of_nat (Pos.size_nat p))%N.
Proof.
  induction p as [p IH|p IH|]; cbn [Pos.size_nat];
    rewrite ?Nat2N.inj_succ, ?N.pow_succ_r'; [lia | lia | reflexivity].
Qed.

Lemma size_bound (n : N) : (n < 10 ^ N.of_nat (S (N.size_nat n)))%N.
Proof.
  rewrite Nat2N.inj_succ, N.pow_succ_r'.
  assert (B : (n < 2 ^ N.of_nat (N.size_nat n))%N).
  { destruct n as [|p]; [reflexivity | apply pos_size_bound]. }
  assert (M : (2 ^ N.of_nat (N.size_nat n) <= 10 ^ N.of_nat (N.size_nat n))%N)
    by (apply N.pow_le_mono_l; lia).
  lia.
Qed.

Lemma printNat_app (n : N) (tail : str) :
  RefJSON.printNat n ++ tail = RefJSON.decimal (S (N.size_nat n)) n tail.
Proof. unfold RefJSON.printNat. now rewrite <- decimal_app. Qed.

(** Reading a printed natural number that is followed by no digit. *)
Lemma digits_printNat (n : N) (tail : str) :
  (forall c r, tail = c :: r -> RefJSON.isDigit c = false) ->
  exists k : nat,
    (1 <= k)%nat
    /\ RefJSON.digits (RefJSON.printNat n ++ tail) 0%N 0%nat = (n, k, tail)
    /\ RefJSON.leadingZero (RefJSON.printNat n ++ tail) k = false
    /\ RefJSON.after 45%N (RefJSON.printNat n ++ tail) = None.
Proof.
  intro H. rewrite printNat_app.
  destruct (@digits_decimal (S (N.size_nat n)) n (size_bound n) ltac:(lia))
    as (k & K & D).
  destruct (@decimal_head (S (N.size_nat n)) n tail (size_bound n) ltac:(lia))
    as (d & t & E & Dd & Z).
  exists k. split; [exact K|]. split; [|split].
  - rewrite D, (digits_stop _ _ H). reflexivity.
  - rewrite E. unfold RefJSON.leadingZero, RefJSON.after.
    destruct (48 + d =? 48)%N eqn:Q; [|reflexivity].
    apply N.eqb_eq in Q. assert (d = 0%N) by lia. subst d.
    rewrite (Z eq_refl) in D.
    (* zero is printed with one digit *)
    assert (K1 : k = 1%nat).
    { specialize (D tail 0%N 0%nat). rewrite (Z eq_refl) in E.
      cbn [RefJSON.decimal N.ltb N.compare] in E, D.
      rewrite digits_cons in D. change (RefJSON.isDigit (48 + 0)%N) with true in D.
      rewrite !(digits_stop _ _ H) in D. inversion D. lia. }
    subst k. reflexivity.
  - rewrite E. unfold RefJSON.after.
    destruct (48 + d =? 45)%N eqn:Q; [|reflexivity].
    apply N.eqb_eq in Q. lia.
Qed.

Lemma after_none (c : char) (s : str) :
  (forall x r, s = x :: r -> x <> c) -> RefJSON.after c s = None.
Proof.
  destruct s as [|x r]; [reflexivity|]. intro H. unfold RefJSON.after.
  destruct (x =? c)%N eqn:Q; [|reflexivity].
  apply N.eqb_eq in Q. destruct (H x r eq_refl Q).
Qed.

(** The sign and the integer part of a printed integer. *)
Lemma number_printInt (z : Z) (tail : str) :
  (forall c r, tail = c :: r -> RefJSON.isDigit c = false) ->
  RefJSON.number (RefJSON.printInt z ++ tail)
  = let '(fp, fk, s3, okf) := RefJSON.fraction (Z.abs_N z) tail in
    let '(ex, s4, oke) := RefJSON.exponent s3 in
    if okf && oke
    then Some (Qred (RefJSON.scale
                       (if (z <? 0)%Z then - Z.of_N fp else Z.of_N fp)%Z
                       (ex - Z.of_nat fk)%Z), s4)
    else None.
Proof.
  intro H. unfold RefJSON.number, RefJSON.sign.
  destruct z as [|p|p]; cbn [RefJSON.printInt Z.abs_N Z.ltb Z.compare].
  - destruct (digits_printNat 0%N H) as (k & K & D & Z & A).
    rewrite A, D, Z. destruct k; [lia | reflexivity].
  - destruct (digits_printNat (N.pos p) H) as (k & K & D & Z & A).
    rewrite A, D, Z. destruct k; [lia | reflexivity].
  - destruct (digits_printNat (N.pos p) H) as (k & K & D & Z & A).
    cbn [app RefJSON.after N.eqb Pos.eqb].
    rewrite D, Z. destruct k; [lia | reflexivity].
Qed.

Lemma shiftl_nat_pow (k : nat) :
  Z.pos (Pos.shiftl_nat 1 k) = (2 ^ Z.of_nat k)%Z.
Proof.
  induction k as [|k IH]; [reflexivity|].
  rewrite Nat2Z.inj_succ, Z.pow_succ_r by lia.
  rewrite <- IH. reflexivity.
Qed.

(** The parser reads back a printed double. *)
Lemma number_print (q : Q) (rest : str) :
  RefJSON.isDouble q = true -> RefJSON.delimited rest ->
  RefJSON.number (RefJSON.printNumber q ++ rest) = Some (Qred q, rest).
Proof.
  unfold RefJSON.isDouble, RefJSON.printNumber. intros D R.
  rewrite D. apply Pos.eqb_eq in D.
  set (r := Qred q) in *.
  set (k := pred (Pos.size_nat (Qden r))) in *.
  assert (Rd : forall c t, rest = c :: t -> RefJSON.isDigit c = false).
  { intros c t E. apply (R c t E). }
  assert (A46 : RefJSON.after 46%N rest = None).
  { apply after_none. intros x t E. apply (R x t E). }
  assert (A101 : RefJSON.after 101%N rest = None).
  { apply after_none. intros x t E. apply (R x t E). }
  assert (A69 : RefJSON.after 69%N rest = None).
  { apply after_none. intros x t E. apply (R x t E). }
  assert (Sg : forall z : Z,
             (if (z <? 0)%Z then - Z.of_N (Z.abs_N z) else Z.of_N (Z.abs_N z))%Z
             = z).
  { intro z. rewrite N2Z.inj_abs_N.
    destruct (Z.ltb_spec z 0); lia. }
  destruct k as [|k'] eqn:Ek.
  - rewrite (number_printInt _ Rd).
    unfold RefJSON.fraction, RefJSON.exponent. rewrite A46, A101, A69.
    cbn [andb]. rewrite Sg. f_equal. f_equal.
    apply Qred_complete. rewrite <- (Qred_correct q). fold r.
    unfold RefJSON.scale. cbn [Z.sub Z.of_nat Z.opp Z.add].
    unfold Qeq, inject_Z. cbn [Qnum Qden]. rewrite D.
    cbn [Pos.shiftl_nat nat_rect]. lia.
  - rewrite <- !app_assoc.
    assert (Te : forall c t,
               lit "e-" ++ RefJSON.printNat (N.of_nat (S k')) ++ rest = c :: t ->
               RefJSON.isDigit c = false).
    { intros c t E. inversion E; subst. reflexivity. }
    rewrite (number_printInt _ Te).
    unfold RefJSON.fraction, RefJSON.exponent.
    cbn [lit List.map String.list_ascii_of_string N_of_ascii N_of_digits
         app RefJSON.after N.eqb Pos.eqb N.add N.mul Pos.add Pos.mul].
    destruct (digits_printNat (N.of_nat (S k')) Rd) as (c & C & Dg & _ & _).
    rewrite Dg. destruct c as [|c]; [lia|].
    cbn [Nat.eqb negb andb]. rewrite Sg. f_equal. f_equal.
    apply Qred_complete. rewrite <- (Qred_correct q). fold r.
    rewrite nat_N_Z.
    replace (-1 * Z.of_nat (S k') - Z.of_nat 0)%Z
      with (Z.neg (Pos.of_succ_nat k')) by lia.
    unfold RefJSON.scale, Qeq. cbn [Qnum Qden]. rewrite D.
    rewrite shiftl_nat_pow, Pos2Z.inj_pow.
    rewrite Zpos_P_of_succ_nat, <- Nat2Z.inj_succ.
    change 10%Z with (5 * 2)%Z. rewrite Z.pow_mul_l. ring.
Qed.

(** *** Values *)

Lemma printNat_head (n : N) :
  exists c t, RefJSON.printNat n = c :: t /\ RefJSON.isDigit c = true.
Proof.
  destruct (@decimal_head (S (N.size_nat n)) n [] (size_bound n) ltac:(lia))
    as (d & t & E & D & _).
  exists (48 + d)%N, t. split; [exact E | apply digit_char, D].
Qed.

Lemma printInt_head (z : Z) :
  exists c t,
    RefJSON.printInt z = c :: t /\ (RefJSON.isDigit c = true \/ c = 45%N).
Proof.
  destruct z as [|p|p]; cbn [RefJSON.printInt].
  - destruct (printNat_head 0) as (c & t & E & D). exists c, t. auto.
  - destruct (printNat_head (N.pos p)) as (c & t & E & D). exists c, t. auto.
  - eexists _, _. split; [reflexivity | now right].
Qed.

Lemma printNumber_head (q : Q) :
  RefJSON.isDouble q = true ->
  exists c t,
    RefJSON.printNumber q = c :: t /\ (RefJSON.isDigit c = true \/ c = 45%N).
Proof.
  unfold RefJSON.isDouble, RefJSON.printNumber. intros ->.
  destruct (pred (Pos.size_nat (Qden (Qred q)))) as [|k].
  - apply printInt_head.
  - destruct (printInt_head (Qnum (Qred q) * 5 ^ Z.of_nat (S k)))
      as (c & t & E & D).
    rewrite E. eexists _, _. split; [reflexivity | exact D].
Qed.

Lemma numeral_start (c : char) :
  RefJSON.isDigit c = true \/ c = 45%N ->
  RefJSON.jsonSpace c = false
  /\ (c =? 123)%N = false /\ (c =? 91)%N = false /\ (c =? 34)%N = false
  /\ (c =? 116)%N = false /\ (c =? 102)%N = false /\ (c =? 110)%N = false
  /\ (c =? 93)%N = false.
Proof.
  intro H.
  assert (R : (45 <= c <= 57)%N).
  { destruct H as [D| ->]; [|lia]. unfold RefJSON.isDigit in D.
    apply andb_prop in D as [A B]. apply N.leb_le in A, B. lia. }
  unfold RefJSON.jsonSpace.
  repeat split;
    repeat (apply Bool.orb_false_intro); apply N.eqb_neq; lia.
Qed.

Lemma value_number (n : nat) (c : char) (r : str) :
  RefJSON.isDigit c = true \/ c = 45%N ->
  RefJSON.value (S n) (c :: r)
  = match RefJSON.number (c :: r) with
    | Some (q, r') => Some (JNum q, r')
    | None => None
    end.
Proof.
  intro H. destruct (@numeral_start c H) as (S0 & A & B & C & D & E & F & _).
  rewrite value_S, (@skip_head c r S0), A, B, C, D, E, F. reflexivity.
Qed.

(** Every printed value starts with a character that is no white space
    and closes no array. *)
Lemma stringifyAt_head (d : nat) (v : Json) :
  RefJSON.isData v = true ->
  exists c t,
    RefJSON.stringifyAt d v = c :: t
    /\ RefJSON.jsonSpace c = false /\ (c =? 93)%N = false.
Proof.
  destruct v as [| [|] | q | x | [|y l] | [|[k y] kvs]]; intro D;
    try (eexists _, _; split; [reflexivity | split; reflexivity]).
  cbn [RefJSON.stringifyAt]. cbn [RefJSON.isData] in D.
  destruct (@printNumber_head q D) as (c & t & E & H).
  destruct (@numeral_start c H) as (S0 & _ & _ & _ & _ & _ & _ & N93).
  exists c, t. auto.
Qed.

Lemma map_set_fresh {A} (k : str) (v : A) (m : list (str * A)) :
  ~ In k (List.map fst m) -> map_set k v m = m ++ [(k, v)].
Proof.
  induction m as [|[k' v'] m IH]; simpl; intro N; [reflexivity|].
  destruct (str_eq_dec k k') as [E|_]; [subst; tauto|].
  rewrite IH; [reflexivity | tauto].
Qed.

Lemma distinct_fresh (earlier later : list str) (k : str) :
  RefJSON.distinct (earlier ++ k :: later) = true -> ~ In k earlier.
Proof.
  induction earlier as [|a earlier IH]; simpl; [tauto|].
  intro D. apply andb_prop in D as [Na D]. intros [->|I].
  - apply Bool.negb_true_iff in Na.
    rewrite existsb_app in Na. simpl in Na.
    unfold str_eqb at 2 in Na.
    destruct (str_eq_dec k k); [|congruence].
    rewrite Bool.orb_true_r in Na. discriminate Na.
  - exact (IH D I).
Qed.

Lemma after_head (c x : char) (s : str) :
  (x =? c)%N = false -> RefJSON.after c (x :: s) = None.
Proof. unfold RefJSON.after. now intros ->. Qed.

Lemma delimited_comma (s : str) : RefJSON.delimited (44%N :: s).
Proof.
  intros c r E. inversion E; subst. repeat split; discriminate.
Qed.

Lemma delimited_newline (d : nat) (s : str) :
  RefJSON.delimited (RefJSON.newline d ++ s).
Proof.
  intros c r E. inversion E; subst. repeat split; discriminate.
Qed.

Lemma delimited_nil : RefJSON.delimited [].
Proof. intros c r E. discriminate E. Qed.

Ltac brackets :=
  change (lit "[") with [91%N]; change (lit "]") with [93%N];
  change (lit "{") with [123%N]; change (lit "}") with [125%N];
  change (lit ",") with [44%N]; change (lit ": ") with [58%N; 32%N];
  repeat (progress (rewrite <- ?app_assoc; cbn [app])).

(** The elements of a printed array. *)
Lemma elements_print (d : nat) (rest : str) :
  forall (l : list Json) (x : Json) (acc : list Json) (n : nat) (ws : str),
    Forall RefJSON.readsBack (x :: l) ->
    forallb RefJSON.isData (x :: l) = true ->
    forallb RefJSON.jsonSpace ws = true ->
    (list_sum (List.map (fun y => S (RefJSON.need y)) (x :: l)) <= n)%nat ->
    RefJSON.elements
      n (ws ++ RefJSON.stringifyAt (S d) x
            ++ flat_map (fun y => lit "," ++ RefJSON.newline (S d)
                                   ++ RefJSON.stringifyAt (S d) y) l
            ++ RefJSON.newline d ++ 93%N :: rest) acc
    = Some (JArr (acc ++ List.map RefJSON.reduced (x :: l)), rest).
Proof.
  induction l as [|y l IH]; intros x acc n ws P D W L;
    (destruct n as [|m]; [simpl in L; lia|]);
    rewrite elements_S, (@value_spaces m ws _ W);
    inversion P as [|? ? Px Pl]; subst;
    cbn [forallb] in D; apply andb_prop in D as [Dx Dl];
    cbn [List.map list_sum fold_right] in L.
  - cbn [flat_map app].
    rewrite (Px Dx (S d) m _ ltac:(lia) (@delimited_newline d _)).
    rewrite skip_newline, skip_head by reflexivity. reflexivity.
  - cbn [flat_map]. brackets.
    rewrite (Px Dx (S d) m _ ltac:(lia) (@delimited_comma _)).
    rewrite skip_head by reflexivity.
    change (44 =? 44)%N with true. cbn iota.
    assert (B : (list_sum (List.map (fun y => S (RefJSON.need y)) (y :: l))
                 <= m)%nat)
      by (cbn [List.map list_sum fold_right]; lia).
    pose proof (IH y (acc ++ [RefJSON.reduced x]) m (RefJSON.newline (S d))
                   Pl Dl (newline_spaces (S d)) B) as Next.
    rewrite <- app_assoc in Next. exact Next.
Qed.

(** The members of a printed object. *)
Lemma members_print (d : nat) (rest : str) :
  forall (kvs : list (str * Json)) (k : str) (x : Json)
         (acc : list (str * Json)) (n : nat) (ws : str),
    Forall (fun kv => RefJSON.readsBack (snd kv)) ((k, x) :: kvs) ->
    forallb (fun kv => RefJSON.isData (snd kv)) ((k, x) :: kvs) = true ->
    RefJSON.distinct (List.map fst acc ++ List.map fst ((k, x) :: kvs)) = true ->
    forallb RefJSON.jsonSpace ws = true ->
    (list_sum (List.map (fun kv => S (RefJSON.need (snd kv))) ((k, x) :: kvs))
     <= n)%nat ->
    RefJSON.members
      n (ws ++ RefJSON.printString k ++ lit ": "
            ++ RefJSON.stringifyAt (S d) x
            ++ flat_map (fun kv => lit "," ++ RefJSON.newline (S d)
                                    ++ RefJSON.printString (fst kv) ++ lit ": "
                                    ++ RefJSON.stringifyAt (S d) (snd kv)) kvs
            ++ RefJSON.newline d ++ 125%N :: rest) acc
    = Some (JObj (acc ++ List.map (fun kv => (fst kv, RefJSON.reduced (snd kv)))
                                  ((k, x) :: kvs)), rest).
Proof.
  induction kvs as [|[k' y] kvs IH]; intros k x acc n ws P D K W L;
    (destruct n as [|m]; [simpl in L; lia|]);
    rewrite members_S, (@skip_spaces ws _ W);
    unfold RefJSON.printString at 1; brackets;
    rewrite skip_head by reflexivity;
    cbn [RefJSON.after N.eqb Pos.eqb];
    rewrite string_print;
    rewrite skip_head by reflexivity;
    cbn [RefJSON.after N.eqb Pos.eqb];
    rewrite value_blank;
    inversion P as [|? ? Px Pl]; subst; cbn [snd] in Px;
    cbn [forallb snd] in D; apply andb_prop in D as [Dx Dl];
    cbn [List.map list_sum fold_right snd] in L;
    pose proof (@distinct_fresh _ _ _ K) as Fresh.
  - cbn [flat_map app].
    rewrite (Px Dx (S d) m _ ltac:(lia) (@delimited_newline d _)).
    rewrite skip_newline, skip_head by reflexivity.
    change (125 =? 44)%N with false. change (125 =? 125)%N with true.
    cbn iota. rewrite (@map_set_fresh _ k (RefJSON.reduced x) acc Fresh).
    reflexivity.
  - cbn [flat_map fst snd]. brackets.
    rewrite (Px Dx (S d) m _ ltac:(lia) (@delimited_comma _)).
    rewrite skip_head by reflexivity.
    change (44 =? 44)%N with true. cbn iota.
    rewrite (@map_set_fresh _ k (RefJSON.reduced x) acc Fresh).
    assert (B : (list_sum (List.map (fun kv : str * Json =>
                                       S (RefJSON.need (snd kv)))
                                    ((k', y) :: kvs)) <= m)%nat)
      by (cbn [List.map list_sum fold_right snd]; lia).
    assert (K' : RefJSON.distinct
                   (List.map fst (acc ++ [(k, RefJSON.reduced x)])
                    ++ List.map fst ((k', y) :: kvs)) = true).
    { rewrite map_app. cbn [List.map fst]. rewrite <- app_assoc. exact K. }
    pose proof (IH k' y (acc ++ [(k, RefJSON.reduced x)]) m
                   (RefJSON.newline (S d)) Pl Dl K' (newline_spaces (S d)) B)
      as Next.
    rewrite <- app_assoc in Next. exact Next.
Qed.

(** The parser reads every printed value back. *)
Lemma value_print (v : Json) : RefJSON.readsBack v.
Proof.
  induction v as [| b | q | x | l IH | kvs IH] using Json_induction;
    intros D d n rest L R; (destruct n as [|m]; [simpl in L; lia|]).
  - reflexivity.
  - destruct b; reflexivity.
  - cbn [RefJSON.stringifyAt RefJSON.reduced]. cbn [RefJSON.isData] in D.
    destruct (@printNumber_head q D) as (c & t & E & H).
    pose proof (@number_print q rest D R) as N. rewrite E in *.
    cbn [app] in *. rewrite (@value_number m c _ H), N. reflexivity.
  - cbn [RefJSON.stringifyAt RefJSON.reduced]. unfold RefJSON.printString.
    brackets. rewrite value_S, skip_head by reflexivity.
    cbn [N.eqb Pos.eqb]. rewrite string_print. reflexivity.
  - destruct l as [|x l]; [reflexivity|].
    cbn [RefJSON.stringifyAt RefJSON.reduced]. brackets.
    rewrite value_S, skip_head by reflexivity. cbn [N.eqb Pos.eqb].
    rewrite skip_newline.
    cbn [RefJSON.isData] in D.
    assert (Dx : RefJSON.isData x = true).
    { cbn [forallb] in D. apply andb_prop in D. tauto. }
    destruct (@stringifyAt_head (S d) x Dx) as (c & t & E & S0 & N93).
    rewrite E. cbn [app].
    rewrite (@skip_head c _ S0), (@after_head 93%N c _ N93).
    cbn [RefJSON.need] in L.
    pose proof (@elements_print d rest l x [] m (RefJSON.newline (S d))
                                IH D (newline_spaces (S d)) ltac:(lia)) as El.
    rewrite E in El. cbn [app] in El. exact El.
  - destruct kvs as [|[k x] kvs]; [reflexivity|].
    cbn [RefJSON.stringifyAt RefJSON.reduced]. brackets.
    rewrite value_S, skip_head by reflexivity. cbn [N.eqb Pos.eqb].
    rewrite skip_newline. unfold RefJSON.printString at 1. brackets.
    rewrite skip_head by reflexivity.
    cbn [RefJSON.after N.eqb Pos.eqb].
    cbn [RefJSON.isData] in D. apply andb_prop in D as [K D].
    cbn [RefJSON.need] in L.
    pose proof (@members_print d rest kvs k x [] m (RefJSON.newline (S d))
                               IH D K (newline_spaces (S d)) ltac:(lia)) as Me.
    exact Me.
Qed.

Lemma printInt_length (z : Z) : (1 <= List.length (RefJSON.printInt z))%nat.
Proof.
  destruct (printInt_head z) as (c & t & E & _). rewrite E. simpl. lia.
Qed.

Lemma printNumber_length (q : Q) :
  (1 <= List.length (RefJSON.printNumber q))%nat.
Proof.
  unfold RefJSON.printNumber.
  destruct (Pos.eqb _ _); [|simpl; lia].
  destruct (pred _) as [|k]; [apply printInt_length|].
  rewrite length_app.
  pose proof (printInt_length (Qnum (Qred q) * 5 ^ Z.of_nat (S k))). lia.
Qed.

Lemma list_sum_flat_map {A} (f : A -> nat) (g : A -> str) (l : list A) :
  Forall (fun a => (f a <= List.length (g a))%nat) l ->
  (list_sum (List.map f l) <= List.length (flat_map g l))%nat.
Proof.
  induction 1 as [|a l Ha Hl IH]; simpl; [lia|]. rewrite length_app. lia.
Qed.

Lemma list_sum_cons (a : nat) (l : list nat) :
  list_sum (a :: l) = (a + list_sum l)%nat.
Proof. reflexivity. Qed.

(** The text of a value is at least as long as the fuel that reading
    it takes. *)
Lemma need_length (v : Json) :
  forall d, (RefJSON.need v <= List.length (RefJSON.stringifyAt d v))%nat.
Proof.
  induction v as [| b | q | x | l IH | kvs IH] using Json_induction; intro d.
  - simpl. lia.
  - destruct b; simpl; lia.
  - apply printNumber_length.
  - cbn [RefJSON.need RefJSON.stringifyAt]. unfold RefJSON.printString.
    rewrite length_app. simpl. lia.
  - destruct l as [|x l]; [simpl; lia|].
    cbn [RefJSON.need RefJSON.stringifyAt List.map].
    rewrite list_sum_cons.
    inversion IH as [|? ? Hx Hl]; subst.
    assert (I : (list_sum (List.map (fun y => S (RefJSON.need y)) l)
                 <= List.length
                      (flat_map (fun y => lit "," ++ RefJSON.newline (S d)
                                             ++ RefJSON.stringifyAt (S d) y)
                                l))%nat).
    { apply list_sum_flat_map. eapply Forall_impl; [|exact Hl].
      intros y Hy. cbv beta. change (lit ",") with [44%N].
      rewrite !length_app. cbn [List.length]. specialize (Hy (S d)). lia. }
    change (lit "[") with [91%N]. change (lit "]") with [93%N].
    rewrite !length_app. cbn [List.length]. specialize (Hx (S d)). lia.
  - destruct kvs as [|[k x] kvs]; [simpl; lia|].
    cbn [RefJSON.need RefJSON.stringifyAt List.map snd].
    rewrite list_sum_cons.
    inversion IH as [|? ? Hx Hl]; subst. cbn [snd] in Hx.
    assert (I : (list_sum (List.map (fun kv : str * Json =>
                                       S (RefJSON.need (snd kv))) kvs)
                 <= List.length
                      (flat_map
                         (fun kv => lit "," ++ RefJSON.newline (S d)
                                        ++ RefJSON.printString (fst kv)
                                        ++ lit ": "
                                        ++ RefJSON.stringifyAt (S d) (snd kv))
                         kvs))%nat).
    { apply list_sum_flat_map. eapply Forall_impl; [|exact Hl].
      intros kv Hy. cbv beta. change (lit ",") with [44%N].
      rewrite !length_app. cbn [List.length]. specialize (Hy (S d)). lia. }
    change (lit "{") with [123%N]. change (lit "}") with [125%N].
    rewrite !length_app. cbn [List.length]. specialize (Hx (S d)). lia.
Qed.

(** Parsing the text that the printer writes for a value gives the
    value, its numbers in lowest terms. *)
Lemma parse_print (v : Json) :
  RefJSON.isData v = true ->
  RefJSON.parse (RefJSON.stringify v) = inl (RefJSON.reduced v).
Proof.
  intro D. unfold RefJSON.parse, RefJSON.stringify.
  pose proof (@value_print v D 0%nat
                          (S (List.length (RefJSON.stringifyAt 0 v)))
                          [] ltac:(pose proof (need_length v 0); lia)
                          delimited_nil) as P.
  rewrite app_nil_r in P. rewrite P. reflexivity.
Qed.

(** ** Export and import of the graph state *)

(** C7.  When the imported text is JSON whose value has no array under
    [nodes] or no array under [edges], the import shows one alert, sends
    no update, and leaves the canvas (its nodes, its group colours)
    exactly as it was.  The alert is "Invalid graph file format" unless
    the value is [null]. *)
Theorem C7_invalid_import_rejected
        (random : nat -> Q) (JSON_parse : str -> Json + str)
        (p : D3Graph.Props) (st : D3Graph.State) (content : str) (v : Json) :
  JSON_parse content = inl v ->
  (forall ns, D3Graph.field (lit "nodes") v <> Some (JArr ns))
  \/ (forall es, D3Graph.field (lit "edges") v <> Some (JArr es)) ->
  exists message,
    D3Graph.importGraph random JSON_parse p st content
    = (st, [D3Graph.Alert message])
    /\ (v <> JNull -> message = D3Graph.invalidFormat).
Proof.
  intros P H.
  assert (C : negb (D3Graph.truthyOpt (D3Graph.field (lit "nodes") v))
              || negb (D3Graph.isArray (D3Graph.field (lit "nodes") v))
              || negb (D3Graph.truthyOpt (D3Graph.field (lit "edges") v))
              || negb (D3Graph.isArray (D3Graph.field (lit "edges") v))
              = true).
  { destruct H as [H|H].
    - destruct (D3Graph.field (lit "nodes") v) as [[| | | |ns|]|];
        simpl; rewrite ?orb_true_r; try reflexivity.
      now destruct (H ns).
    - destruct (D3Graph.field (lit "edges") v) as [[| | | |es|]|];
        simpl; rewrite ?orb_true_r; try reflexivity.
      now destruct (H es). }
  unfold D3Graph.importGraph. rewrite P.
  destruct v; try (rewrite C; eexists; split; [reflexivity | reflexivity]).
  eexists; split; [reflexivity | congruence].
Qed.

(** A file that is not JSON is rejected in the same way. *)
Lemma import_of_malformed_text
      (random : nat -> Q) (JSON_parse : str -> Json + str)
      (p : D3Graph.Props) (st : D3Graph.State) (content message : str) :
  JSON_parse content = inr message ->
  D3Graph.importGraph random JSON_parse p st content
  = (st, [D3Graph.Alert (D3Graph.importFailed ++ message)]).
Proof. intro P. unfold D3Graph.importGraph. now rewrite P. Qed.

Lemma createGraph_keeps_colors
      (random : nat -> Q) (p : D3Graph.Props) (st : D3Graph.State) :
  D3Graph.customGroupColors (D3Graph.createGraph random p st)
  = D3Graph.customGroupColors st.
Proof.
  unfold D3Graph.createGraph.
  destruct (D3Graph.container st) as [[w h]|]; [|reflexivity].
  destruct (D3Graph.nodes p) as [|o l]; [reflexivity|].
  destruct (D3Graph.placeAll random w h (D3Graph.draws st) (o :: l));
    reflexivity.
Qed.

(** The import of a text that denotes a state of the exported shape. *)
Lemma import_of_exported_shape
      (random : nat -> Q) (JSON_parse : str -> Json + str)
      (p0 : D3Graph.Props) (st0 : D3Graph.State) (content : str)
      (ns es : list Json) (gc : Json) :
  JSON_parse content
  = inl (JObj [ (lit "nodes", JArr ns); (lit "edges", JArr es);
                (lit "groupColors", gc);
                (lit "version", JStr D3Graph.version) ]) ->
  D3Graph.importGraph random JSON_parse p0 st0 content
  = (D3Graph.createGraph random p0
       (D3Graph.mkState ns
          (if truthy gc then gc else D3Graph.customGroupColors st0)
          (D3Graph.container st0) (D3Graph.draws st0)),
     if D3Graph.onGraphUpdate p0 then [D3Graph.GraphUpdate ns es] else []).
Proof. intro P. unfold D3Graph.importGraph. rewrite P. reflexivity. Qed.

Lemma same_reduced (v : Json) : same v (RefJSON.reduced v).
Proof.
  induction v as [| b | q | x | l IH | kvs IH] using Json_induction;
    cbn [same RefJSON.reduced]; auto.
  - symmetry. apply Qred_correct.
  - induction IH as [|x l Hx Hl IHl]; cbn [List.map]; auto.
  - induction IH as [|[k x] kvs Hx Hl IHl]; cbn [List.map fst snd]; auto.
Qed.

Lemma sameAll_reduced (l : list Json) :
  sameAll l (List.map RefJSON.reduced l).
Proof. exact (same_reduced (JArr l)). Qed.



(** ** The claims at sample inputs *)


(** C2 for a wheel step towards the user at (100, 50), from scale 1. *)
Lemma C2_witness :
  (1 # 10 <= GraphView.zoom sampleView /\ GraphView.zoom sampleView <= 5)
  /\ GraphView.zoom
       (fst (GraphView.handleWheel sampleProps sampleView 100 50 (- (1))))
     == 11 # 10
  /\ GraphView.toWorld
       (GraphView.zoom
          (fst (GraphView.handleWheel sampleProps sampleView 100 50 (- (1)))))
       (fst (GraphView.pan
               (fst (GraphView.handleWheel sampleProps sampleView 100 50
                                           (- (1))))))
       (100 - 0)
     == GraphView.toWorld 1 0 (100 - 0).
Proof.
  assert (L : 1 # 10 <= GraphView.zoom sampleView) by discriminate.
  assert (U : GraphView.zoom sampleView <= 5) by discriminate.
  destruct (C2_zoom_at_point sampleProps sampleView 100 50 (- (1))
                             (rleft := 0) (rtop := 0) eq_refl L U)
    as (K & _ & _ & _ & W & _).
  split; [split; assumption|]. split; [|exact W].
  rewrite K. reflexivity.
Defined.

(** C6 for node A grabbed at its centre (10, 10), moved to (30, 30),
    rendered there, moved on to (50, 50) and released before the next
    render. *)
Lemma C6_witness :
  let r := GraphView.run sampleProps
             (GraphView.mkSession sampleView sampleView)
             (GraphView.gesture (10, 10) (lit "A") [(30, 30)] [(50, 50)]) in
  let offset := GraphView.grabOffset (0, 0) sampleView (10, 10) (10, 10) in
  (exists reported,
      snd r = [GraphView.GraphUpdate reported sampleEdges]
      /\ GraphView.draggedTo (lit "A") (0, 0) sampleView offset
                             [(30, 30)] reported)
  /\ GraphView.draggedTo (lit "A") (0, 0) sampleView offset
                         [(30, 30); (50, 50)]
                         (GraphView.nodes (GraphView.current (fst r))).
Proof.
  destruct (@C6_drag_commit sampleProps sampleView (0, 0) (lit "A")
              (placed "A" 10 10) (10, 10) (10, 10) [(30, 30)] [(50, 50)]
              eq_refl eq_refl eq_refl eq_refl eq_refl eq_refl eq_refl)
    as ((reported & O & D & _) & N & _).
  split; [exists reported; split; [exact O | exact D] | exact N].
Defined.

(** C7 for a file whose [nodes] is a number. *)
Lemma C7_witness :
  exists message,
    D3Graph.importGraph halves RefJSON.parse sampleD3Props sampleD3State
                        noNodeArray
    = (sampleD3State, [D3Graph.Alert message])
    /\ (JObj [(lit "nodes", JNum 1); (lit "edges", JArr [])] <> JNull ->
        message = D3Graph.invalidFormat).
Proof.
  apply C7_invalid_import_rejected.
  - vm_compute. reflexivity.
  - left. intros ns H. vm_compute in H. discriminate H.
Defined.

(** C8 where A and B both point to C: A has radius 5 and C radius 20. *)
Lemma C8_witness :
  GraphView.radiusIs
    (GraphView.getNodeSize numberOf GraphView.Incoming None
                           sampleNodes sampleEdges (placed "A" 10 10)) 5
  /\ GraphView.radiusIs
       (GraphView.getNodeSize numberOf GraphView.Incoming None
                              sampleNodes sampleEdges (placed "C" 100 40)) 20.
Proof.
  split.
  - destruct (C8_degree_sizing numberOf None sampleNodes sampleEdges
                (placed "A" 10 10) sampleNodes' [] 
                (SimpleDragGraph.mkNode (lit "A") (lit "A") 10 10 None None))
      as (_ & _ & Z & _).
    apply Z. reflexivity.
  - destruct (C8_degree_sizing numberOf None sampleNodes sampleEdges
                (placed "C" 100 40) sampleNodes' [] 
                (SimpleDragGraph.mkNode (lit "A") (lit "A") 10 10 None None))
      as (_ & _ & _ & M & _).
    apply M; [reflexivity | vm_compute; lia].
Defined.

(** C9 for an edge between centres at distance 5 and radii 8, and for an
    edge to a node that does not exist. *)
Lemma C9_witness :
  GraphView.edgeLine numberOf GraphView.Uniform None sampleNodes sampleEdges
                     (arrow "A" "B")
  = Some (GraphView.trimmed 10 10 13 14 8 8)
  /\ GraphView.centreDistance 10 10 13 14 <> 0%R
  /\ GraphView.edgeLine numberOf GraphView.Uniform None sampleNodes sampleEdges
                        (arrow "A" "X") = None.
Proof.
  destruct (C9_edge_trimming numberOf GraphView.Uniform None sampleNodes
                             sampleEdges (arrow "A" "B")) as (_ & T & _).
  destruct (T (placed "A" 10 10) (placed "B" 13 14) 10 10 13 14
              eq_refl eq_refl eq_refl eq_refl eq_refl eq_refl) as (_ & D).
  assert (N : ~ (10 == 13 /\ 10 == 14)).
  { intros [H _]. vm_compute in H. discriminate H. }
  destruct (D N) as (NZ & E).
  split; [apply E; reflexivity|]. split; [exact NZ|].
  apply (proj1 (C9_edge_trimming numberOf GraphView.Uniform None sampleNodes
                                 sampleEdges (arrow "A" "X"))).
  right. reflexivity.
Defined.

(** C10 for connections that repeat A and B and a property bag for A. *)
Lemma C10_witness :
  NoDup (List.map GraphParser.id (GraphParser.nodes sampleGraph))
  /\ forall l, In l (GraphParser.links sampleGraph) ->
       In (GraphParser.source l)
          (List.map GraphParser.id (GraphParser.nodes sampleGraph))
       /\ In (GraphParser.target l)
             (List.map GraphParser.id (GraphParser.nodes sampleGraph)).
Proof.
  apply (C10_parsed_graph_well_formed RefJSON.parse
           (lit "A->B, B->A; A - C") sampleProperties).
  vm_compute. reflexivity.
Defined.

(** * Further properties of the code *)

(** ** The links of a parsed graph *)

(** X1. The links of a parsed graph come from the pieces of the
    connection text: each link has a piece of the shape
    [source blanks arrow blanks target], followed by [[color]] when the
    link has a color.  The source is not empty and contains no blank and
    none of [-], [=], [>]; the target in addition contains no [[]; the
    color is not empty and contains no []]. *)
Theorem parsed_links_shape
        (JSON_parse : str -> Json + str)
        (connectionsText propertiesText : str)
        (g : GraphParser.GraphData) (l : GraphParser.Link) :
  fst (GraphParser.parseGraphData JSON_parse connectionsText propertiesText)
  = inl g ->
  In l (GraphParser.links g) ->
  exists piece before ws1 a ws2 after,
    In piece (GraphParser.connectionsOf connectionsText)
    /\ piece = before ++ GraphParser.source l ++ ws1 ++ a ++ ws2
               ++ GraphParser.target l
               ++ ParsedGraph.colorSuffix (GraphParser.link_color l) ++ after
    /\ GraphParser.source l <> []
    /\ forallb GraphParser.idChar (GraphParser.source l) = true
    /\ forallb is_space ws1 = true /\ In a ParsedGraph.arrows
    /\ forallb is_space ws2 = true
    /\ GraphParser.target l <> []
    /\ forallb GraphParser.targetChar (GraphParser.target l) = true
    /\ match GraphParser.link_color l with
       | Some k => k <> [] /\ forallb GraphParser.colorChar k = true
       | None => True
       end.
Proof.
  intros H I.
  assert (E : GraphParser.links g
              = GraphParser.edgesOf (GraphParser.connectionsOf connectionsText)).
  { destruct (parseConnections_spec connectionsText) as [L _]. simpl in L.
    unfold GraphParser.parseGraphData in H.
    destruct (nonempty (trim propertiesText)).
    - destruct (GraphParser.parseProperties _ _ _); simpl in H;
        [|discriminate]. inversion H; subst. exact L.
    - simpl in H. inversion H; subst. exact L. }
  rewrite E in I. unfold GraphParser.edgesOf in I.
  apply in_flat_map in I as (piece & Ip & Il).
  unfold GraphParser.linkOf in Il.
  destruct (GraphParser.matchConnection piece) as [[[s t] col]|] eqn:M;
    [|destruct Il].
  destruct Il as [<-|[]]. simpl.
  apply matchConnection_shape in M
    as (before & ws1 & a & ws2 & after & -> & Ns & Fs & B1 & Ia & B2 & Nt & Ft & C).
  exists (before ++ s ++ ws1 ++ a ++ ws2 ++ t ++ ParsedGraph.colorSuffix col
                 ++ after), before, ws1, a, ws2, after.
  assert (O : GraphParser.orUndefined col = col).
  { destruct col as [k|]; [|reflexivity].
    destruct C as [Nk _]. destruct k; [congruence | reflexivity]. }
  rewrite O. repeat split; try assumption.
Qed.

(** ** The nodes of a parsed graph *)

Lemma has_existsb {A} (k : str) (m : list (str * A)) :
  has k m = existsb (str_eqb k) (List.map fst m).
Proof.
  unfold has. induction m as [|[k' v] m IH]; simpl; [reflexivity|].
  unfold str_eqb at 1. destruct (str_eq_dec k k'); [reflexivity | exact IH].
Qed.

Lemma keys_set_setAdd {A} (k : str) (v : A) (m : list (str * A)) :
  List.map fst (map_set k v m) = GraphView.setAdd (List.map fst m) k.
Proof.
  rewrite keys_map_set, has_existsb. unfold GraphView.setAdd.
  destruct (existsb (str_eqb k) (List.map fst m)); reflexivity.
Qed.

Lemma keys_ensureNode (i : str) (m : list (str * GraphParser.Node)) :
  List.map fst (GraphParser.ensureNode i m)
  = GraphView.setAdd (List.map fst m) i.
Proof.
  unfold GraphParser.ensureNode. rewrite has_existsb.
  destruct (existsb (str_eqb i) (List.map fst m)) eqn:E.
  - unfold GraphView.setAdd. now rewrite E.
  - rewrite keys_set_setAdd. reflexivity.
Qed.

Lemma keys_connections (cs : list str) (st : GraphParser.St) :
  List.map fst
    (GraphParser.st_nodes (fold_left GraphParser.connectionStep cs st))
  = fold_left GraphView.setAdd (ParsedGraph.endpointIds cs)
              (List.map fst (GraphParser.st_nodes st)).
Proof.
  revert st. induction cs as [|c cs IH]; intro st; simpl; [reflexivity|].
  rewrite IH. unfold ParsedGraph.endpointIds. simpl.
  rewrite flat_map_app, fold_left_app. f_equal.
  unfold GraphParser.connectionStep, GraphParser.linkOf.
  destruct (GraphParser.matchConnection c) as [[[a b] col]|]; simpl;
    [|reflexivity].
  now rewrite !keys_ensureNode.
Qed.

Lemma keys_properties (es : list (str * Json))
      (m : list (str * GraphParser.Node)) :
  List.map fst (fold_left GraphParser.propertyStep es m)
  = fold_left GraphView.setAdd (List.map fst es) (List.map fst m).
Proof.
  revert m. induction es as [|[k v] es IH]; intro m; simpl; [reflexivity|].
  rewrite IH. f_equal.
  destruct (lookup k m); apply keys_set_setAdd.
Qed.

Lemma keys_parseConnections (text : str) :
  List.map fst
    (GraphParser.st_nodes
       (GraphParser.parseConnections text (GraphParser.mkSt [] [] [])))
  = ParsedGraph.firstSeen
      (ParsedGraph.endpointIds (GraphParser.connectionsOf text)).
Proof.
  unfold GraphParser.parseConnections, ParsedGraph.firstSeen.
  destruct (trim text) eqn:T; simpl.
  - now rewrite (blank_connectionsOf _ T).
  - apply (keys_connections _ (GraphParser.mkSt [] [] [])).
Qed.

(** The [Map] that the two passes leave, for a call that returns. *)
Lemma parsed_map (JSON_parse : str -> Json + str)
      (connectionsText propertiesText : str) (g : GraphParser.GraphData) :
  fst (GraphParser.parseGraphData JSON_parse connectionsText propertiesText)
  = inl g ->
  GraphParser.nodes g
  = List.map snd
      (fold_left GraphParser.propertyStep
         (ParsedGraph.propertyEntries JSON_parse propertiesText)
         (GraphParser.st_nodes
            (GraphParser.parseConnections connectionsText
                                          (GraphParser.mkSt [] [] [])))).
Proof.
  unfold GraphParser.parseGraphData, ParsedGraph.propertyEntries,
    GraphParser.parseProperties.
  destruct (nonempty (trim propertiesText)).
  - destruct (JSON_parse propertiesText) as [v|]; simpl; [|discriminate].
    destruct (GraphParser.Object_entries v); simpl; [|discriminate].
    intro H. now inversion H.
  - simpl. intro H. now inversion H.
Qed.

Lemma parsed_ids
      (JSON_parse : str -> Json + str)
        (connectionsText propertiesText : str) (g : GraphParser.GraphData) :
  fst (GraphParser.parseGraphData JSON_parse connectionsText propertiesText)
  = inl g ->
  List.map GraphParser.id (GraphParser.nodes g)
  = ParsedGraph.firstSeen
      (ParsedGraph.endpointIds (GraphParser.connectionsOf connectionsText)
       ++ List.map fst (ParsedGraph.propertyEntries JSON_parse propertiesText)).
Proof.
  intro H. rewrite (parsed_map _ _ _ H).
  pose proof (wf_parseConnections connectionsText) as W. simpl in W.
  apply (wf_properties (ParsedGraph.propertyEntries JSON_parse propertiesText))
    in W.
  destruct W as (_ & K & _). rewrite (keyed_ids K), keys_properties.
  rewrite keys_parseConnections. unfold ParsedGraph.firstSeen.
  now rewrite fold_left_app.
Qed.

(** X2. The nodes of a parsed graph are in first-seen order: first the
    ends of the links as the connection text names them (source before
    target), then the keys of the property object that end no link, each
    id once. *)
Theorem node_ids_first_seen
        (JSON_parse : str -> Json + str)
        (connectionsText propertiesText : str) (g : GraphParser.GraphData) :
  fst (GraphParser.parseGraphData JSON_parse connectionsText propertiesText)
  = inl g ->
  List.map GraphParser.id (GraphParser.nodes g)
  = ParsedGraph.firstSeen
      (ParsedGraph.endpointIds (GraphParser.connectionsOf connectionsText)
       ++ List.map fst (ParsedGraph.propertyEntries JSON_parse propertiesText)).
Proof.
  exact (@parsed_ids JSON_parse connectionsText propertiesText g).
Qed.

Lemma in_map_set_nodup {A} (k k' : str) (v n : A) (m : list (str * A)) :
  NoDup (List.map fst m) ->
  In (k', n) (map_set k v m) ->
  (k' = k /\ n = v) \/ (k' <> k /\ In (k', n) m).
Proof.
  induction m as [|[k2 v2] m IH]; simpl; intros N I.
  - destruct I as [E|[]]. inversion E; subst. now left.
  - inversion N as [|? ? Hn N']; subst.
    destruct (str_eq_dec k k2) as [->|Ne]; simpl in I.
    + destruct I as [E|I].
      * inversion E; subst. now left.
      * right. split; [|now right]. intros ->. apply Hn.
        change k2 with (fst (k2, n)). now apply in_map.
    + destruct I as [E|I].
      * inversion E; subst. right. split; [congruence | now left].
      * destruct (IH N' I) as [L|[R1 R2]]; [now left | right; auto].
Qed.

Lemma lookup_app_none {A} (k : str) (a b : list (str * A)) :
  lookup k a = None -> lookup k (a ++ b) = lookup k b.
Proof.
  induction a as [|[k' v] a IH]; simpl; [reflexivity|].
  destruct (str_eq_dec k k'); [discriminate | exact IH].
Qed.

Lemma lookup_app_other {A} (k k0 : str) (v : A) (a : list (str * A)) :
  k <> k0 -> lookup k (a ++ [(k0, v)]) = lookup k a.
Proof.
  intro N. induction a as [|[k' v'] a IH]; simpl.
  - destruct (str_eq_dec k k0); congruence.
  - destruct (str_eq_dec k k'); [reflexivity | exact IH].
Qed.

Lemma lookup_not_key {A} (k : str) (m : list (str * A)) :
  ~ In k (List.map fst m) -> lookup k m = None.
Proof.
  intro H. destruct (lookup k m) eqn:E; [|reflexivity].
  destruct H. eapply lookup_in_keys; eauto.
Qed.

Lemma existsb_str_in (k : str) (l : list str) :
  existsb (str_eqb k) l = true <-> In k l.
Proof.
  rewrite existsb_exists. split.
  - intros (x & I & E). apply str_eqb_eq in E. now subst.
  - intro I. exists k. split; [exact I | now apply str_eqb_eq].
Qed.

Lemma existsb_same (k : str) (a b : list str) :
  (In k a <-> In k b) ->
  existsb (str_eqb k) a = existsb (str_eqb k) b.
Proof.
  intro H. destruct (existsb (str_eqb k) b) eqn:E.
  - apply existsb_str_in, H, existsb_str_in, E.
  - destruct (existsb (str_eqb k) a) eqn:F; [|reflexivity].
    rewrite <- E. symmetry. apply existsb_str_in, H, existsb_str_in, F.
Qed.

(** The nodes of the connection pass carry their id as name and nothing
    else. *)
Lemma connections_fresh (cs : list str) (st : GraphParser.St) :
  Forall (fun kv => snd kv = GraphParser.newNode (fst kv) None)
         (GraphParser.st_nodes st) ->
  Forall (fun kv => snd kv = GraphParser.newNode (fst kv) None)
         (GraphParser.st_nodes (fold_left GraphParser.connectionStep cs st)).
Proof.
  revert st. induction cs as [|c cs IH]; intros st F; simpl; [exact F|].
  apply IH. unfold GraphParser.connectionStep.
  destruct (GraphParser.matchConnection c) as [[[a b] col]|]; simpl;
    [|exact F].
  assert (E : forall i m,
             Forall (fun kv => snd kv = GraphParser.newNode (fst kv) None) m ->
             Forall (fun kv => snd kv = GraphParser.newNode (fst kv) None)
                    (GraphParser.ensureNode i m)).
  { intros i m Fm. unfold GraphParser.ensureNode.
    destruct (has i m); [exact Fm|]. now apply forall_map_set. }
  now apply E, E.
Qed.

(** The property pass, entry by entry: [done] are the entries already
    read, [K0] the ids of the connection pass. *)
Lemma properties_content (K0 : list str) (es done : list (str * Json))
      (m : list (str * GraphParser.Node)) :
  NoDup (List.map fst (done ++ es)) ->
  NoDup (List.map fst m) ->
  (forall k, In k (List.map fst m)
             <-> In k K0 \/ In k (List.map fst done)) ->
  (forall k n, In (k, n) m -> n = ParsedGraph.nodeOf K0 done k) ->
  forall k n,
    In (k, n) (fold_left GraphParser.propertyStep es m) ->
    n = ParsedGraph.nodeOf K0 (done ++ es) k.
Proof.
  revert done m. induction es as [|[k0 v] es IH]; intros done m N Nm Keys Inv.
  - rewrite app_nil_r. exact Inv.
  - simpl. replace (done ++ (k0, v) :: es) with ((done ++ [(k0, v)]) ++ es)
      by now rewrite <- app_assoc.
    assert (Fresh : ~ In k0 (List.map fst done)).
    { rewrite map_app in N. simpl in N.
      apply NoDup_remove_2 in N. intro I. apply N, in_or_app. now left. }
    assert (L0 : lookup k0 (done ++ [(k0, v)]) = Some v).
    { rewrite lookup_app_none by now apply lookup_not_key.
      simpl. destruct (str_eq_dec k0 k0); congruence. }
    apply IH.
    + now rewrite <- app_assoc.
    + destruct (lookup k0 m); now apply nodup_map_set.
    + intro k. rewrite map_app, in_app_iff. simpl.
      assert (S : forall x, In k (List.map fst (map_set k0 x m))
                            <-> In k (List.map fst m) \/ k = k0).
      { intro x. rewrite keys_set_setAdd. apply setAdd_in. }
      unfold GraphParser.propertyStep.
      destruct (lookup k0 m); rewrite S, Keys; intuition.
    + intros k n I. unfold GraphParser.propertyStep in I.
      destruct (lookup k0 m) as [node|] eqn:Lk.
      * apply in_map_set_nodup in I; [|exact Nm].
        destruct I as [[-> ->]|[Ne I]].
        -- pose proof (Inv _ _ (lookup_in _ _ Lk)) as En.
           assert (I0 : In k0 K0).
           { apply lookup_in_keys, Keys in Lk. tauto. }
           unfold ParsedGraph.nodeOf in *.
           rewrite (lookup_not_key _ _ Fresh) in En. rewrite L0.
           apply existsb_str_in in I0. rewrite I0 in *.
           subst node. reflexivity.
        -- rewrite (Inv _ _ I). unfold ParsedGraph.nodeOf.
           now rewrite (lookup_app_other _ _ Ne).
      * apply in_map_set_nodup in I; [|exact Nm].
        destruct I as [[-> ->]|[Ne I]].
        -- assert (I0 : ~ In k0 K0).
           { intro I0. apply (lookup_none_keys _ _ Lk), Keys. now left. }
           unfold ParsedGraph.nodeOf, GraphParser.newNode. rewrite L0.
           destruct (existsb (str_eqb k0) K0) eqn:X; [|reflexivity].
           apply existsb_str_in in X. contradiction.
        -- rewrite (Inv _ _ I). unfold ParsedGraph.nodeOf.
           now rewrite (lookup_app_other _ _ Ne).
Qed.

Lemma values_by_key {A B} (f : A -> B) (m : list (A * B)) :
  (forall k n, In (k, n) m -> n = f k) ->
  List.map snd m = List.map f (List.map fst m).
Proof.
  induction m as [|[k n] m IH]; simpl; intro H; [reflexivity|].
  rewrite IH by (intros; apply H; now right).
  f_equal. apply H. now left.
Qed.

(** X3. The nodes of a parsed graph, in closed form, when the keys of the
    property object are distinct.  In first-seen order, the node of id
    [k] has the bag of [k] as its properties (none if there is no bag);
    its name is the bag's [name] if [k] ends a link and the bag has a
    name, and [k] itself otherwise; its color is not set.  A node that
    only the property object names keeps its id as name, whatever its
    bag says. *)
Theorem parsed_nodes_closed_form
        (JSON_parse : str -> Json + str)
        (connectionsText propertiesText : str) (g : GraphParser.GraphData) :
  let endpoints :=
    ParsedGraph.endpointIds (GraphParser.connectionsOf connectionsText) in
  let entries := ParsedGraph.propertyEntries JSON_parse propertiesText in
  fst (GraphParser.parseGraphData JSON_parse connectionsText propertiesText)
  = inl g ->
  NoDup (List.map fst entries) ->
  GraphParser.nodes g
  = List.map (ParsedGraph.nodeOf endpoints entries)
             (ParsedGraph.firstSeen (endpoints ++ List.map fst entries)).
Proof.
  intros endpoints entries H N. subst endpoints entries.
  rewrite <- (parsed_ids _ _ _ H).
  set (endpoints :=
         ParsedGraph.endpointIds (GraphParser.connectionsOf connectionsText)).
  set (entries := ParsedGraph.propertyEntries JSON_parse propertiesText) in *.
  rewrite (parsed_map _ _ _ H). fold entries.
  set (m0 := GraphParser.st_nodes
               (GraphParser.parseConnections connectionsText
                                             (GraphParser.mkSt [] [] []))).
  pose proof (wf_parseConnections connectionsText) as W. simpl in W.
  fold m0 in W.
  pose proof (wf_properties entries W) as (_ & K & _).
  rewrite (keyed_ids K).
  apply values_by_key. intros k n I.
  assert (F0 : Forall (fun kv => snd kv = GraphParser.newNode (fst kv) None) m0).
  { subst m0. unfold GraphParser.parseConnections.
    destruct (nonempty (trim connectionsText)); [|constructor].
    apply (connections_fresh _ (GraphParser.mkSt [] [] [])). constructor. }
  assert (C : n = ParsedGraph.nodeOf (List.map fst m0) ([] ++ entries) k).
  { apply (@properties_content (List.map fst m0) entries [] m0).
    - exact N.
    - apply W.
    - intro x. simpl. tauto.
    - intros x y Ixy. rewrite Forall_forall in F0.
      specialize (F0 _ Ixy). simpl in F0. subst y.
      unfold ParsedGraph.nodeOf, GraphParser.newNode. simpl.
      now destruct (existsb (str_eqb x) (List.map fst m0)).
    - exact I. }
  simpl in C. rewrite C. unfold ParsedGraph.nodeOf. f_equal.
  rewrite (existsb_same k (List.map fst m0) endpoints); [reflexivity|].
  subst m0. rewrite keys_parseConnections. unfold ParsedGraph.firstSeen.
  destruct (fold_setAdd endpoints (NoDup_nil str)) as [_ Iff].
  specialize (Iff k). simpl in Iff. tauto.
Qed.

(** X1 for the colored link of [A => B[red], B - C]. *)
Lemma parsed_links_shape_witness :
  exists piece before ws1 a ws2 after,
    In piece (GraphParser.connectionsOf (lit "A => B[red], B - C"))
    /\ piece = before ++ lit "A" ++ ws1 ++ a ++ ws2 ++ lit "B"
               ++ ParsedGraph.colorSuffix (Some (lit "red")) ++ after
    /\ lit "A" <> []
    /\ forallb GraphParser.idChar (lit "A") = true
    /\ forallb is_space ws1 = true /\ In a ParsedGraph.arrows
    /\ forallb is_space ws2 = true
    /\ lit "B" <> []
    /\ forallb GraphParser.targetChar (lit "B") = true
    /\ (lit "red" <> [] /\ forallb GraphParser.colorChar (lit "red") = true).
Proof.
  apply (@parsed_links_shape RefJSON.parse (lit "A => B[red], B - C") []
           (GraphParser.mkGraphData
              [GraphParser.newNode (lit "A") None;
               GraphParser.newNode (lit "B") None;
               GraphParser.newNode (lit "C") None]
              [GraphParser.mkLink (lit "A") (lit "B") (Some (lit "red"));
               GraphParser.mkLink (lit "B") (lit "C") None])
           (GraphParser.mkLink (lit "A") (lit "B") (Some (lit "red")))).
  - vm_compute. reflexivity.
  - simpl. left. reflexivity.
Defined.

(** X2 for connections that repeat A and B and property bags for A and
    Z: the order is A, B, C, Z. *)
Lemma node_ids_first_seen_witness :
  List.map GraphParser.id (GraphParser.nodes sampleGraph)
  = ParsedGraph.firstSeen
      (ParsedGraph.endpointIds
         (GraphParser.connectionsOf (lit "A->B, B->A; A - C"))
       ++ List.map fst
            (ParsedGraph.propertyEntries RefJSON.parse sampleProperties)).
Proof.
  apply (@node_ids_first_seen RefJSON.parse (lit "A->B, B->A; A - C")
           sampleProperties sampleGraph).
  vm_compute. reflexivity.
Defined.

(** X3 for the same texts. *)
Lemma parsed_nodes_closed_form_witness :
  GraphParser.nodes sampleGraph
  = List.map
      (ParsedGraph.nodeOf
         (ParsedGraph.endpointIds
            (GraphParser.connectionsOf (lit "A->B, B->A; A - C")))
         (ParsedGraph.propertyEntries RefJSON.parse sampleProperties))
      (ParsedGraph.firstSeen
         (ParsedGraph.endpointIds
            (GraphParser.connectionsOf (lit "A->B, B->A; A - C"))
          ++ List.map fst
               (ParsedGraph.propertyEntries RefJSON.parse sampleProperties))).
Proof.
  apply (@parsed_nodes_closed_form RefJSON.parse (lit "A->B, B->A; A - C")
           sampleProperties sampleGraph).
  - vm_compute. reflexivity.
  - vm_compute. repeat constructor; simpl; intuition discriminate.
Defined.

(** ** The canvas: zoom and pan *)

Ltac by_cases :=
  repeat match goal with
         | |- context [match ?t with _ => _ end] => destruct t
         end; simpl; auto.

Lemma step_zoom (p : GraphView.Props) (v : GraphView.View)
      (e : GraphView.Event) :
  GraphCanvas.inZoomRange (GraphView.zoom v) ->
  GraphCanvas.inZoomRange (GraphView.zoom (fst (GraphView.step p v e))).
Proof.
  intro H. destruct e; simpl.
  - unfold GraphView.handleNodeMouseDown. by_cases.
  - unfold GraphView.handleSvgMouseDown. by_cases.
  - unfold GraphView.handleMouseMove. by_cases.
  - exact H.
  - unfold GraphView.handleWheel. destruct (GraphView.container p) as [[l t]|];
      simpl; [apply clamp_zoom_bounds | exact H].
Qed.

Lemma control_zoom (cb : GraphCanvas.Callbacks) (v : GraphView.View)
      (c : GraphCanvas.Control) :
  GraphCanvas.inZoomRange (GraphView.zoom v) ->
  GraphCanvas.inZoomRange (GraphView.zoom (fst (GraphCanvas.control cb v c))).
Proof.
  intro H. destruct c; simpl.
  - pose proof (@step_zoom (GraphCanvas.props cb) v e H) as S.
    destruct (GraphView.step (GraphCanvas.props cb) v e). exact S.
  - destruct H as [L U]. split.
    + apply Q.min_glb; [Lqa.lra | discriminate].
    + apply Q.le_min_r.
  - destruct H as [L U]. split.
    + apply Q.le_max_r.
    + apply Q.max_lub; [|discriminate].
      unfold Qdiv. change (/ (12 # 10)) with (10 # 12). Lqa.lra.
  - split; discriminate.
  - exact H.
  - destruct selectedNode; exact H.
Qed.

(** X4. The zoom never leaves the range from 0.1 to 5: whatever the user
    does (pointer and wheel events, the zoom-in, zoom-out and reset
    controls, deleting and recoloring nodes), a view whose zoom is in the
    range keeps it there.  The initial zoom, 1, is in the range. *)
Theorem zoom_stays_in_range (cb : GraphCanvas.Callbacks)
        (cs : list GraphCanvas.Control) (v : GraphView.View) :
  1 # 10 <= GraphView.zoom v /\ GraphView.zoom v <= 5 ->
  1 # 10 <= GraphView.zoom (fst (GraphCanvas.controls cb v cs))
  /\ GraphView.zoom (fst (GraphCanvas.controls cb v cs)) <= 5.
Proof.
  revert v. induction cs as [|c cs IH]; intros v H; simpl; [exact H|].
  pose proof (@control_zoom cb v c H) as S.
  destruct (GraphCanvas.control cb v c) as [v1 o1]. simpl in S.
  specialize (IH v1 S).
  destruct (GraphCanvas.controls cb v1 cs) as [v2 o2]. exact IH.
Qed.

Lemma last_local (rl rt : Q) (moves : list (Q * Q)) (d : Q * Q) :
  last (List.map (fun m => (fst m - rl, snd m - rt)) moves)
       (fst d - rl, snd d - rt)
  = (fst (last moves d) - rl, snd (last moves d) - rt).
Proof.
  induction moves as [|m moves IH]; simpl; [reflexivity|].
  destruct moves as [|m' moves]; [reflexivity|]. exact IH.
Qed.

Lemma last_cons_default {A} (a : A) (l : list A) (d d' : A) :
  last (a :: l) d = last (a :: l) d'.
Proof.
  revert a. induction l as [|b l IH]; intro a; [reflexivity|].
  change (last (b :: l) d = last (b :: l) d'). apply IH.
Qed.

(** While the background is held and the component renders after every
    move, a move shifts the pan by as much as the pointer went since the
    move before. *)
Lemma moves_while_panning (p : GraphView.Props) (rl rt : Q)
      (moves : list (Q * Q)) :
  GraphView.container p = Some (rl, rt) ->
  forall w, GraphView.isPanning w = true ->
  let r := GraphView.run p (GraphView.mkSession w w)
                         (GraphView.shownMoves moves) in
  let w' := GraphView.current (fst r) in
  snd r = []
  /\ GraphView.rendered (fst r) = w'
  /\ GraphView.nodes w' = GraphView.nodes w
  /\ GraphView.zoom w' = GraphView.zoom w
  /\ GraphView.dragging w' = GraphView.dragging w
  /\ GraphView.nodePositions w' = GraphView.nodePositions w
  /\ GraphView.isPanning w' = true
  /\ GraphView.panStart w'
     = last (List.map (fun m => (fst m - rl, snd m - rt)) moves)
            (GraphView.panStart w)
  /\ fst (GraphView.pan w') - fst (GraphView.panStart w')
     == fst (GraphView.pan w) - fst (GraphView.panStart w)
  /\ snd (GraphView.pan w') - snd (GraphView.panStart w')
     == snd (GraphView.pan w) - snd (GraphView.panStart w).
Proof.
  intro Hc. induction moves as [|m moves IH]; intros w Pn.
  - simpl. repeat split; auto; reflexivity.
  - cbn [GraphView.shownMoves flat_map app GraphView.run GraphView.act
         GraphView.handle GraphView.current GraphView.rendered].
    unfold GraphView.handleMouseMove. rewrite Hc, Pn.
    match goal with
    | |- context [GraphView.run p (GraphView.mkSession ?w1 _) _] =>
        set (w' := w1)
    end.
    specialize (IH w' eq_refl). cbv zeta in IH.
    fold (GraphView.shownMoves moves).
    destruct (GraphView.run p (GraphView.mkSession w' w')
                            (GraphView.shownMoves moves)) as [s2 o2].
    simpl in *.
    destruct IH as (O & R & Ns & Z & D & Ps & P2 & S & X & Y).
    repeat split; auto.
    + rewrite S. destruct moves as [|m' moves]; [reflexivity|].
      apply last_cons_default.
    + rewrite X. ring.
    + rewrite Y. ring.
Qed.

(** Moves that the listeners of one render handle all measure the way
    of the pointer from the position that this render has seen. *)
Lemma pans_before_render (p : GraphView.Props) (rl rt : Q)
      (seen : GraphView.View) (origin : Q * Q) (moves : list (Q * Q)) :
  GraphView.container p = Some (rl, rt) ->
  GraphView.isPanning seen = true ->
  GraphView.panStart seen = (fst origin - rl, snd origin - rt) ->
  forall w,
  let r := GraphView.run p (GraphView.mkSession w seen)
                         (GraphView.lateMoves moves) in
  let w' := GraphView.current (fst r) in
  snd r = []
  /\ GraphView.rendered (fst r) = seen
  /\ GraphView.nodes w' = GraphView.nodes w
  /\ GraphView.zoom w' = GraphView.zoom w
  /\ GraphView.dragging w' = GraphView.dragging w
  /\ GraphView.nodePositions w' = GraphView.nodePositions w
  /\ GraphView.isPanning w' = GraphView.isPanning w
  /\ fst (GraphView.pan w')
     == fst (GraphView.pan w) + fst (GraphCanvas.distances origin moves)
  /\ snd (GraphView.pan w')
     == snd (GraphView.pan w) + snd (GraphCanvas.distances origin moves).
Proof.
  intros Hc Pn Ps. induction moves as [|m moves IH]; intro w.
  - simpl. repeat split; auto; ring.
  - cbn [GraphView.lateMoves List.map GraphView.run GraphView.act
         GraphView.handle GraphView.current GraphView.rendered].
    unfold GraphView.handleMouseMove. rewrite Hc, Pn, Ps.
    match goal with
    | |- context [GraphView.run p (GraphView.mkSession ?w1 _) _] =>
        set (w' := w1)
    end.
    specialize (IH w'). cbv zeta in IH.
    fold (GraphView.lateMoves moves).
    destruct (GraphView.run p (GraphView.mkSession w' seen)
                            (GraphView.lateMoves moves)) as [s2 o2].
    simpl in *.
    destruct IH as (O & R & Ns & Z & D & Pos & P2 & X & Y).
    repeat split; auto.
    + rewrite X. ring.
    + rewrite Y. ring.
Qed.

(** X5. Panning by the background.  With the container mounted and no
    node held, the left button goes down on the background at [down]
    and the component renders; the pointer moves through [shown], the
    component rendering after every move, and then through [late]
    before it renders again; the button is released.  The moves of
    [shown] shift the pan by the way from [down] to the last of them,
    and every move of [late] shifts it by its distance from that last
    position, which is the one the listeners have seen.  So when the
    component has rendered after every move, the point of the graph
    under the pointer at the press is under it at the release.  The
    nodes, the zoom and the stored positions do not change, nothing is
    reported to the parent, and the view ends idle. *)
Theorem pan_gesture (p : GraphView.Props) (rect : Q * Q)
        (v : GraphView.View) (down : Q * Q) (shown late : list (Q * Q)) :
  GraphView.container p = Some rect ->
  GraphView.dragging v = None ->
  let r := GraphView.run p (GraphView.mkSession v v)
                         (GraphCanvas.panGesture down shown late) in
  let v' := GraphView.current (fst r) in
  let seen := last shown down in
  let rest := GraphCanvas.distances seen late in
  snd r = []
  /\ GraphView.nodes v' = GraphView.nodes v
  /\ GraphView.zoom v' = GraphView.zoom v
  /\ GraphView.nodePositions v' = GraphView.nodePositions v
  /\ GraphView.isPanning v' = false
  /\ GraphView.dragging v' = None
  /\ fst (GraphView.pan v')
     == fst (GraphView.pan v) + (fst seen - fst down) + fst rest
  /\ snd (GraphView.pan v')
     == snd (GraphView.pan v) + (snd seen - snd down) + snd rest
  /\ (late = [] ->
      GraphView.toWorld (GraphView.zoom v') (fst (GraphView.pan v'))
                        (fst seen - fst rect)
      == GraphView.toWorld (GraphView.zoom v) (fst (GraphView.pan v))
                           (fst down - fst rect)
      /\ GraphView.toWorld (GraphView.zoom v') (snd (GraphView.pan v'))
                           (snd seen - snd rect)
         == GraphView.toWorld (GraphView.zoom v) (snd (GraphView.pan v))
                              (snd down - snd rect)).
Proof.
  intros Hc Hd. destruct rect as [rl rt].
  unfold GraphCanvas.panGesture.
  cbn [GraphView.run GraphView.act GraphView.handle
       GraphView.current GraphView.rendered].
  unfold GraphView.handleSvgMouseDown.
  rewrite Hc. cbn [Nat.eqb negb].
  match goal with
  | |- context [GraphView.run p (GraphView.mkSession ?w1 _) _] =>
      set (w := w1)
  end.
  rewrite !run_app.
  pose proof (@moves_while_panning p rl rt shown Hc w eq_refl)
    as (O & R & Ns & Z & D & Ps & P2 & S & X & Y).
  set (s1 := fst (GraphView.run p (GraphView.mkSession w w)
                                (GraphView.shownMoves shown))) in *.
  cbv zeta in R, Ns, Z, D, Ps, P2, S, X, Y.
  assert (E1 : s1 = GraphView.mkSession (GraphView.current s1)
                                        (GraphView.current s1)).
  { destruct s1 as [sc sr]. simpl in R. subst sr. reflexivity. }
  set (w2 := GraphView.current s1) in *.
  subst w. cbn [GraphView.pan GraphView.panStart GraphView.nodes
                GraphView.zoom GraphView.dragging GraphView.nodePositions
                fst snd] in Ns, Z, D, Ps, S, X, Y.
  rewrite last_local in S.
  pose proof (@pans_before_render p rl rt w2 (last shown down) late
                                  Hc P2 S w2)
    as (O' & R' & Ns' & Z' & D' & Ps' & P2' & X' & Y').
  rewrite <- E1 in O', R', Ns', Z', D', Ps', P2', X', Y'.
  set (s2 := fst (GraphView.run p s1 (GraphView.lateMoves late))) in *.
  cbv zeta in R', Ns', Z', D', Ps', P2', X', Y'.
  rewrite O, O'.
  cbn [GraphView.run GraphView.act GraphView.handle GraphView.handleMouseUp
       fst snd app GraphView.current GraphView.rendered].
  unfold GraphView.isDragging. rewrite R', D, Hd.
  cbn [fst snd andb app GraphView.nodes GraphView.zoom GraphView.pan
       GraphView.nodePositions GraphView.isPanning GraphView.dragging
       GraphView.current].
  rewrite S in X, Y. cbn [fst snd] in X, Y.
  assert (PX : fst (GraphView.pan w2)
               == fst (GraphView.pan v) + (fst (last shown down) - fst down)).
  { setoid_replace (fst (GraphView.pan w2))
      with (fst (GraphView.pan w2) - (fst (last shown down) - rl)
            + (fst (last shown down) - rl)) by ring.
    rewrite X. ring. }
  assert (PY : snd (GraphView.pan w2)
               == snd (GraphView.pan v) + (snd (last shown down) - snd down)).
  { setoid_replace (snd (GraphView.pan w2))
      with (snd (GraphView.pan w2) - (snd (last shown down) - rt)
            + (snd (last shown down) - rt)) by ring.
    rewrite Y. ring. }
  split; [reflexivity|].
  split; [rewrite Ns', Ns; reflexivity|].
  split; [rewrite Z', Z; reflexivity|].
  split; [rewrite Ps', Ps; reflexivity|].
  split; [reflexivity|]. split; [reflexivity|].
  split; [rewrite X', PX; reflexivity|].
  split; [rewrite Y', PY; reflexivity|].
  intro L. unfold GraphView.toWorld. rewrite Z', Z.
  rewrite L in X', Y'. cbn [GraphCanvas.distances fst snd] in X', Y'.
  split; (apply Qmult_comp; [|reflexivity]).
  - rewrite X', PX. cbn [fst]. ring.
  - rewrite Y', PY. cbn [snd]. ring.
Qed.

(** ** The canvas: deleting a node *)

Lemma str_eqb_neq (a b : str) : str_eqb a b = false <-> a <> b.
Proof.
  unfold str_eqb. destruct (str_eq_dec a b); split; congruence.
Qed.

Lemma lookup_map_delete_same {A} (k : str) (m : list (str * A)) :
  lookup k (GraphCanvas.map_delete k m) = None.
Proof.
  induction m as [|[k' v] m IH]; simpl; [reflexivity|].
  destruct (str_eqb k' k) eqn:E; simpl; [exact IH|].
  apply str_eqb_neq in E.
  destruct (str_eq_dec k k'); [congruence | exact IH].
Qed.

Lemma lookup_map_delete_other {A} (k k' : str) (m : list (str * A)) :
  k' <> k ->
  lookup k' (GraphCanvas.map_delete k m) = lookup k' m.
Proof.
  intro N. induction m as [|[k2 v] m IH]; simpl; [reflexivity|].
  destruct (str_eqb k2 k) eqn:E; simpl.
  - apply str_eqb_eq in E. subst k2.
    destruct (str_eq_dec k' k); [congruence | exact IH].
  - destruct (str_eq_dec k' k2); [reflexivity | exact IH].
Qed.

Lemma keepsNode_iff (nodeId : str) (n : GraphView.Node) :
  GraphCanvas.keepsNode nodeId n = true <-> GraphView.id n <> nodeId.
Proof.
  unfold GraphCanvas.keepsNode. rewrite negb_true_iff. apply str_eqb_neq.
Qed.

Lemma keepsEdge_iff (nodeId : str) (e : GraphView.Edge) :
  GraphCanvas.keepsEdge nodeId e = true
  <-> GraphView.from e <> nodeId /\ GraphView.to e <> nodeId.
Proof.
  unfold GraphCanvas.keepsEdge.
  rewrite andb_true_iff, !negb_true_iff, !str_eqb_neq. tauto.
Qed.

Lemma kept_ids (nodeId k : str) (ns : list GraphView.Node) :
  In k (List.map GraphView.id (filter (GraphCanvas.keepsNode nodeId) ns))
  <-> In k (List.map GraphView.id ns) /\ k <> nodeId.
Proof.
  rewrite !in_map_iff. split.
  - intros (n & <- & I). apply filter_In in I as [I K].
    apply keepsNode_iff in K. split; [|exact K]. now exists n.
  - intros [(n & <- & I) K]. exists n. split; [reflexivity|].
    apply filter_In. split; [exact I | now apply keepsNode_iff].
Qed.

(** X6. Deleting a node.  The node leaves the view and the position
    map, the other nodes stay as they are and in their order, and the
    positions of the others stay stored.  The update sent to the parent,
    if the callback is there, carries the remaining nodes and exactly the
    edges that do not touch the deleted node, so that a graph whose edges
    all join nodes stays such a graph; the deletion itself is reported
    after the update. *)
Theorem delete_node_cascade (cb : GraphCanvas.Callbacks)
        (v : GraphView.View) (nodeId : str) :
  let r := GraphCanvas.handleDeleteNode cb v nodeId in
  let v' := fst r in
  let edges := GraphView.edges (GraphCanvas.props cb) in
  ~ In nodeId (List.map GraphView.id (GraphView.nodes v'))
  /\ GraphView.nodes v'
     = filter (fun n => negb (str_eqb (GraphView.id n) nodeId))
              (GraphView.nodes v)
  /\ lookup nodeId (GraphView.nodePositions v') = None
  /\ (forall k, k <> nodeId ->
                lookup k (GraphView.nodePositions v')
                = lookup k (GraphView.nodePositions v))
  /\ (exists es,
        snd r
        = (if GraphView.onGraphUpdate (GraphCanvas.props cb)
           then [GraphCanvas.Emitted
                   (GraphView.GraphUpdate (GraphView.nodes v') es)]
           else [])
          ++ (if GraphCanvas.onDeleteNode cb
              then [GraphCanvas.NodeDeleted nodeId] else [])
        /\ (forall e, In e es
                      <-> In e edges /\ GraphView.from e <> nodeId
                          /\ GraphView.to e <> nodeId)
        /\ (GraphCanvas.closed (GraphView.nodes v) edges ->
            GraphCanvas.closed (GraphView.nodes v') es)).
Proof.
  simpl. split; [|split; [|split; [|split]]].
  - intro I. apply kept_ids in I. tauto.
  - reflexivity.
  - apply lookup_map_delete_same.
  - intros k N. now apply lookup_map_delete_other.
  - exists (filter (GraphCanvas.keepsEdge nodeId)
                   (GraphView.edges (GraphCanvas.props cb))).
    split; [|split].
    + unfold GraphCanvas.graphUpdate.
      destruct (GraphView.onGraphUpdate (GraphCanvas.props cb)); reflexivity.
    + intro e. rewrite filter_In, keepsEdge_iff. tauto.
    + unfold GraphCanvas.closed. rewrite !Forall_forall.
      intros C e I. apply filter_In in I as [I K].
      apply keepsEdge_iff in K. destruct (C e I) as [F T].
      split; apply kept_ids; tauto.
Qed.

(** ** The canvas: nodes and their stored positions *)

Lemma withPosition_same (node : GraphView.Node) (p : Q * Q) :
  GraphView.x node = Some (fst p) -> GraphView.y node = Some (snd p) ->
  GraphCanvas.withPosition node p = node.
Proof.
  destruct node; simpl. intros -> ->. reflexivity.
Qed.

(** One node of the second effect: what is stored stays stored, and with
    the container mounted the node ends where the map says. *)
Lemma syncNode_spec (random : nat -> Q) (size : option (Q * Q))
      (ps : list (str * (Q * Q))) (n : nat) (node : GraphView.Node) :
  let r := GraphCanvas.syncNode random size (ps, n) node in
  (forall k p, lookup k ps = Some p -> lookup k (fst (snd r)) = Some p)
  /\ GraphView.id (fst r) = GraphView.id node
  /\ GraphView.label (fst r) = GraphView.label node
  /\ GraphView.color (fst r) = GraphView.color node
  /\ GraphView.properties (fst r) = GraphView.properties node
  /\ (forall p, lookup (GraphView.id node) ps = Some p ->
                fst r = GraphCanvas.withPosition node p /\ snd r = (ps, n))
  /\ (size <> None -> GraphCanvas.placedBy (fst (snd r)) (fst r)).
Proof.
  unfold GraphCanvas.syncNode.
  destruct (lookup (GraphView.id node) ps) as [stored|] eqn:L.
  - simpl. repeat split; auto; try congruence.
    intros _. exists stored. simpl. rewrite L. auto.
  - assert (K : forall v k p, lookup k ps = Some p ->
                              lookup k (map_set (GraphView.id node) v ps)
                              = Some p).
    { intros v k p H. rewrite lookup_map_set_other; [exact H|]. congruence. }
    destruct (GraphView.x node) as [nx|] eqn:X;
      [destruct (GraphView.y node) as [ny|] eqn:Y|].
    + simpl. repeat split; auto; try discriminate.
      intros _. exists (nx, ny). now rewrite lookup_map_set_same.
    + destruct size as [sz|]; simpl; repeat split; auto; try discriminate;
        try congruence.
      intros _. exists (GraphCanvas.randomPosition random sz n). simpl.
      now rewrite lookup_map_set_same.
    + destruct size as [sz|]; simpl; repeat split; auto; try discriminate;
        try congruence.
      intros _. exists (GraphCanvas.randomPosition random sz n). simpl.
      now rewrite lookup_map_set_same.
Qed.

Lemma placedBy_mono (ps ps' : list (str * (Q * Q))) (node : GraphView.Node) :
  (forall k p, lookup k ps = Some p -> lookup k ps' = Some p) ->
  GraphCanvas.placedBy ps node -> GraphCanvas.placedBy ps' node.
Proof.
  intros M (p & L & X & Y). exists p. auto.
Qed.

Lemma syncNodes_spec (random : nat -> Q) (size : option (Q * Q))
      (ns : list GraphView.Node) :
  forall (ps : list (str * (Q * Q))) (n : nat),
    let r := GraphCanvas.syncNodes random size ns (ps, n) in
    (forall k p, lookup k ps = Some p -> lookup k (fst (snd r)) = Some p)
    /\ List.map GraphView.id (fst r) = List.map GraphView.id ns
    /\ List.map GraphView.label (fst r) = List.map GraphView.label ns
    /\ List.map GraphView.color (fst r) = List.map GraphView.color ns
    /\ List.map GraphView.properties (fst r)
       = List.map GraphView.properties ns
    /\ (forall k p node, lookup k ps = Some p -> In node (fst r) ->
                         GraphView.id node = k ->
                         GraphView.x node = Some (fst p)
                         /\ GraphView.y node = Some (snd p))
    /\ (size <> None -> Forall (GraphCanvas.placedBy (fst (snd r))) (fst r)).
Proof.
  induction ns as [|node ns IH]; intros ps n; cbv zeta;
    cbn [GraphCanvas.syncNodes].
  - simpl. repeat split; auto; contradiction.
  - pose proof (syncNode_spec random size ps n node)
      as (M1 & I1 & L1 & C1 & P1 & S1 & Pl1).
    destruct (GraphCanvas.syncNode random size (ps, n) node)
      as [node' [ps1 n1]].
    simpl in M1, I1, L1, C1, P1, S1, Pl1.
    specialize (IH ps1 n1). simpl in IH.
    destruct (GraphCanvas.syncNodes random size ns (ps1, n1))
      as [ns' [ps2 n2]].
    simpl in *. destruct IH as (M2 & I2 & L2 & C2 & P2 & S2 & Pl2).
    split; [auto|]. split; [congruence|]. split; [congruence|].
    split; [congruence|]. split; [congruence|]. split.
    + intros k p x Lk [<-|I] E.
      * rewrite <- E, I1 in Lk.
        destruct (S1 p Lk) as [-> _]. simpl. auto.
      * eapply S2; eauto.
    + intro Sz. constructor; [|auto].
      eapply placedBy_mono; [exact M2 | auto].
Qed.

(** X7. The second effect keeps what is known.  Once the component is
    initialized, receiving a node list gives the view the same nodes in
    the same order, with their ids, labels, colors and properties;
    a position that is stored for an id stays stored and is where every
    node of that id is put, whatever coordinates the node came with; and
    with the container mounted every node of the view has a position,
    the one the map holds for its id. *)
Theorem sync_keeps_positions (random : nat -> Q) (size : option (Q * Q))
        (initialNodes : list GraphView.Node) (c : GraphCanvas.Canvas) :
  GraphCanvas.isInitialized c = true ->
  let v := GraphCanvas.view c in
  let v' := GraphCanvas.view
              (GraphCanvas.syncEffect random size initialNodes c) in
  List.map GraphView.id (GraphView.nodes v')
  = List.map GraphView.id initialNodes
  /\ List.map GraphView.label (GraphView.nodes v')
     = List.map GraphView.label initialNodes
  /\ List.map GraphView.color (GraphView.nodes v')
     = List.map GraphView.color initialNodes
  /\ List.map GraphView.properties (GraphView.nodes v')
     = List.map GraphView.properties initialNodes
  /\ (forall k p,
         lookup k (GraphView.nodePositions v) = Some p ->
         lookup k (GraphView.nodePositions v') = Some p
         /\ forall node, In node (GraphView.nodes v') ->
                         GraphView.id node = k ->
                         GraphView.x node = Some (fst p)
                         /\ GraphView.y node = Some (snd p))
  /\ (size <> None -> GraphCanvas.coherent v').
Proof.
  intro Init. unfold GraphCanvas.syncEffect. rewrite Init.
  pose proof (syncNodes_spec random size initialNodes
                (GraphView.nodePositions (GraphCanvas.view c))
                (GraphCanvas.draws c))
    as (M & I & L & C & P & S & Pl).
  destruct (GraphCanvas.syncNodes random size initialNodes
              (GraphView.nodePositions (GraphCanvas.view c),
               GraphCanvas.draws c)) as [ns' [ps' n']].
  simpl in *. repeat split; auto.
  - eapply S; eauto.
  - eapply S; eauto.
Qed.

Lemma coherent_same (v v' : GraphView.View) :
  GraphView.nodes v' = GraphView.nodes v ->
  GraphView.nodePositions v' = GraphView.nodePositions v ->
  GraphCanvas.coherent v -> GraphCanvas.coherent v'.
Proof.
  unfold GraphCanvas.coherent. now intros -> ->.
Qed.

Lemma coherent_move (i : str) (newX newY : Q) (ns : list GraphView.Node)
      (ps : list (str * (Q * Q))) :
  Forall (GraphCanvas.placedBy ps) ns ->
  Forall (GraphCanvas.placedBy (map_set i (newX, newY) ps))
         (GraphView.moveNode i newX newY ns).
Proof.
  intro H. unfold GraphView.moveNode. apply Forall_map.
  eapply Forall_impl; [|exact H]. intros n (p & L & X & Y).
  destruct (str_eqb (GraphView.id n) i) eqn:E.
  - apply str_eqb_eq in E. exists (newX, newY). simpl.
    rewrite E, lookup_map_set_same. auto.
  - apply str_eqb_neq in E. exists p.
    rewrite lookup_map_set_other by exact E. auto.
Qed.

Lemma step_coherent (p : GraphView.Props) (v : GraphView.View)
      (e : GraphView.Event) :
  GraphCanvas.coherent v ->
  GraphCanvas.coherent (fst (GraphView.step p v e)).
Proof.
  intro H. destruct e; simpl.
  - unfold GraphView.handleNodeMouseDown. by_cases.
  - unfold GraphView.handleSvgMouseDown. by_cases.
  - unfold GraphView.handleMouseMove.
    destruct (GraphView.container p) as [[rl rt]|]; [|exact H].
    destruct (GraphView.isPanning v); [exact H|].
    destruct (GraphView.dragging v) as [i|]; [|exact H].
    destruct (nonempty i); [|exact H].
    apply coherent_move, H.
  - exact H.
  - unfold GraphView.handleWheel. by_cases.
Qed.

Lemma control_coherent (cb : GraphCanvas.Callbacks) (v : GraphView.View)
      (c : GraphCanvas.Control) :
  GraphCanvas.coherent v ->
  GraphCanvas.coherent (fst (GraphCanvas.control cb v c)).
Proof.
  intro H. destruct c; simpl; try exact H.
  - pose proof (@step_coherent (GraphCanvas.props cb) v e H) as S.
    destruct (GraphView.step (GraphCanvas.props cb) v e). exact S.
  - unfold GraphCanvas.coherent in *. simpl.
    apply Forall_forall. intros n I. apply filter_In in I as [I K].
    apply keepsNode_iff in K. rewrite Forall_forall in H.
    destruct (H n I) as (p & L & X & Y). exists p.
    rewrite lookup_map_delete_other by exact K. auto.
  - destruct selectedNode as [selected|]; [|exact H].
    unfold GraphCanvas.coherent in *. simpl.
    unfold GraphCanvas.recolor. apply Forall_map.
    eapply Forall_impl; [|exact H]. intros n (p & L & X & Y).
    destruct (str_eqb (GraphView.id n) selected); exists p; auto.
Qed.

(** X8. The view and its position map stay in step.  If every node of
    the view is at the position that the map stores for its id (as it is
    after the second effect ran in a mounted container), this stays so
    whatever the user does: drags update the node and the map together, a
    deletion removes only the entry of the deleted node, and panning,
    zooming and recoloring touch neither. *)
Theorem positions_stay_coherent (cb : GraphCanvas.Callbacks)
        (cs : list GraphCanvas.Control) (v : GraphView.View) :
  GraphCanvas.coherent v ->
  GraphCanvas.coherent (fst (GraphCanvas.controls cb v cs)).
Proof.
  revert v. induction cs as [|c cs IH]; intros v H; simpl; [exact H|].
  pose proof (@control_coherent cb v c H) as S.
  destruct (GraphCanvas.control cb v c) as [v1 o1]. simpl in S.
  specialize (IH v1 S).
  destruct (GraphCanvas.controls cb v1 cs) as [v2 o2]. exact IH.
Qed.

Lemma syncNodes_placed (random : nat -> Q) (size : option (Q * Q))
      (ps : list (str * (Q * Q))) (n : nat) (ns : list GraphView.Node) :
  Forall (GraphCanvas.placedBy ps) ns ->
  GraphCanvas.syncNodes random size ns (ps, n) = (ns, (ps, n)).
Proof.
  induction 1 as [|node ns (p & L & X & Y) F IH]; simpl; [reflexivity|].
  rewrite L, IH, withPosition_same by assumption. reflexivity.
Qed.

(** X9. The echo of an update changes nothing.  When the nodes that the
    view shows come back to it as the new node list (the parent stores
    what [onGraphUpdate] reported and passes it down again), the second
    effect leaves the view, the position map and the random source as
    they are, provided every node is where the map says. *)
Theorem sync_of_own_nodes (random : nat -> Q) (size : option (Q * Q))
        (c : GraphCanvas.Canvas) :
  GraphCanvas.isInitialized c = true ->
  GraphCanvas.coherent (GraphCanvas.view c) ->
  GraphCanvas.syncEffect random size (GraphView.nodes (GraphCanvas.view c)) c
  = c.
Proof.
  intros I H. unfold GraphCanvas.syncEffect. rewrite I.
  rewrite (syncNodes_placed random size (GraphCanvas.draws c) H).
  destruct c as [[ns z pn d o ip pst ps] i dr]. simpl in *. now subst i.
Qed.

(** ** The canvas: where new nodes are put *)

Lemma randomPosition_inBox (random : nat -> Q) (w h : Q) (n : nat) :
  (forall i, 0 <= random i /\ random i < 1) ->
  100 <= w -> 100 <= h ->
  GraphCanvas.inBox (w, h) (GraphCanvas.randomPosition random (w, h) n).
Proof.
  intros R W H. unfold GraphCanvas.inBox, GraphCanvas.randomPosition. simpl.
  destruct (R n) as [A B]. destruct (R (S n)) as [C D].
  assert (E1 : 0 <= random n * (w - 100)).
  { apply Qmult_le_0_compat; [exact A | Lqa.lra]. }
  assert (E2 : random n * (w - 100) <= 1 * (w - 100)).
  { apply Qmult_le_compat_r; [apply Qlt_le_weak, B | Lqa.lra]. }
  assert (E3 : 0 <= random (S n) * (h - 100)).
  { apply Qmult_le_0_compat; [exact C | Lqa.lra]. }
  assert (E4 : random (S n) * (h - 100) <= 1 * (h - 100)).
  { apply Qmult_le_compat_r; [apply Qlt_le_weak, D | Lqa.lra]. }
  repeat split; Lqa.lra.
Qed.

Lemma lookup_map_set_inv {A} (k k' : str) (v p : A) (m : list (str * A)) :
  lookup k (map_set k' v m) = Some p ->
  (k = k' /\ p = v) \/ lookup k m = Some p.
Proof.
  intro H. destruct (str_eq_dec k k') as [->|N].
  - rewrite lookup_map_set_same in H. left. split; congruence.
  - rewrite lookup_map_set_other in H by exact N. now right.
Qed.

Section NewNodes.
Variable random : nat -> Q.
Variables w h : Q.
Variable initialNodes : list GraphView.Node.
Hypothesis random_range : forall i, 0 <= random i /\ random i < 1.
Hypothesis wide : 100 <= w.
Hypothesis high : 100 <= h.

(** Every stored position came with a node or lies in the box. *)
Let good (ps : list (str * (Q * Q))) : Prop :=
  forall k p, lookup k ps = Some p ->
              GraphCanvas.cameWith initialNodes k p
              \/ GraphCanvas.inBox (w, h) p.

Lemma good_set (ps : list (str * (Q * Q))) (node : GraphView.Node)
      (p : Q * Q) :
  good ps ->
  GraphCanvas.cameWith initialNodes (GraphView.id node) p
  \/ GraphCanvas.inBox (w, h) p ->
  good (map_set (GraphView.id node) p ps).
Proof.
  intros G H k q L. apply lookup_map_set_inv in L as [[-> ->]|L]; auto.
Qed.

Lemma good_random (ps : list (str * (Q * Q))) (node : GraphView.Node)
      (n : nat) :
  good ps ->
  good (map_set (GraphView.id node)
                (GraphCanvas.randomPosition random (w, h) n) ps).
Proof.
  intro G. apply good_set; [exact G|]. right.
  now apply randomPosition_inBox.
Qed.

Lemma good_own (ps : list (str * (Q * Q))) (node : GraphView.Node)
      (nx ny : Q) :
  In node initialNodes ->
  GraphView.x node = Some nx -> GraphView.y node = Some ny ->
  good ps -> good (map_set (GraphView.id node) (nx, ny) ps).
Proof.
  intros I X Y G. apply good_set; [exact G|]. left. now exists node.
Qed.

Lemma good_init (ns : list GraphView.Node) :
  (forall n, In n ns -> In n initialNodes) ->
  forall st, good (fst st) ->
             good (fst (fold_left (GraphCanvas.initNode random (w, h)) ns st)).
Proof.
  induction ns as [|node ns IH]; intros Sub [ps n] G; simpl; [exact G|].
  apply IH; [intros; apply Sub; now right|].
  assert (I : In node initialNodes) by (apply Sub; now left).
  destruct (GraphView.x node) as [nx|] eqn:X;
    [destruct (GraphView.y node) as [ny|] eqn:Y|]; simpl;
    auto using good_random, good_own.
Qed.

Lemma good_sync (ns : list GraphView.Node) :
  (forall n, In n ns -> In n initialNodes) ->
  forall ps n,
    good ps ->
    good (fst (snd (GraphCanvas.syncNodes random (Some (w, h)) ns (ps, n)))).
Proof.
  induction ns as [|node ns IH]; intros Sub ps n G;
    cbn [GraphCanvas.syncNodes]; [exact G|].
  assert (I : In node initialNodes) by (apply Sub; now left).
  assert (G1 : good (fst (snd (GraphCanvas.syncNode random (Some (w, h))
                                                    (ps, n) node)))).
  { unfold GraphCanvas.syncNode.
    destruct (lookup (GraphView.id node) ps); [exact G|].
    destruct (GraphView.x node) as [nx|] eqn:X;
      [destruct (GraphView.y node) as [ny|] eqn:Y|]; simpl;
      auto using good_random, good_own. }
  destruct (GraphCanvas.syncNode random (Some (w, h)) (ps, n) node)
    as [node' [ps1 n1]].
  simpl in G1.
  specialize (IH (fun x H => Sub x (or_intror H)) ps1 n1 G1).
  destruct (GraphCanvas.syncNodes random (Some (w, h)) ns (ps1, n1))
    as [ns' [ps2 n2]].
  exact IH.
Qed.

Lemma mounted_nodes :
  let v := GraphCanvas.view
             (GraphCanvas.mount random (Some (w, h)) initialNodes) in
  List.map GraphView.id (GraphView.nodes v)
  = List.map GraphView.id initialNodes
  /\ GraphCanvas.coherent v
  /\ forall node,
       In node (GraphView.nodes v) ->
       exists p, GraphView.x node = Some (fst p)
                 /\ GraphView.y node = Some (snd p)
                 /\ (GraphCanvas.cameWith initialNodes (GraphView.id node) p
                     \/ GraphCanvas.inBox (w, h) p).
Proof.
  unfold GraphCanvas.mount, GraphCanvas.initEffect.
  cbn [GraphCanvas.isInitialized GraphCanvas.view GraphCanvas.draws
       GraphCanvas.initialView GraphView.nodePositions].
  pose proof (@good_init initialNodes (fun n H => H) ([], 0%nat)) as G0.
  destruct (fold_left (GraphCanvas.initNode random (w, h)) initialNodes
                      ([], 0%nat)) as [ps0 n0].
  assert (G0' : good ps0) by (apply G0; intros k p L; discriminate L).
  unfold GraphCanvas.syncEffect.
  cbn [GraphCanvas.isInitialized GraphCanvas.view GraphCanvas.draws
       GraphCanvas.setPositions GraphView.nodePositions].
  pose proof (syncNodes_spec random (Some (w, h)) initialNodes ps0 n0)
    as (M & I & L & C & P & S & Pl).
  pose proof (@good_sync initialNodes (fun n H => H) ps0 n0 G0') as G1.
  destruct (GraphCanvas.syncNodes random (Some (w, h)) initialNodes (ps0, n0))
    as [ns' [ps' n']].
  simpl in *. split; [exact I|]. split; [apply Pl; discriminate|].
  intros node In'.
  assert (F : Forall (GraphCanvas.placedBy ps') ns') by (apply Pl; discriminate).
  rewrite Forall_forall in F. destruct (F node In') as (p & Lp & X & Y).
  exists p. auto.
Qed.
End NewNodes.

(** X10. Where a mounted view puts its nodes.  In a container of at
    least 100 by 100, after the first render the view shows the nodes it
    was given, in their order, each with a position that the map holds
    for its id; the position is one that a node of this id came with, or
    it was drawn at random and then lies at least 50 away from every side
    of the container. *)
Theorem mount_places_nodes (random : nat -> Q) (w h : Q)
        (initialNodes : list GraphView.Node) :
  (forall i, 0 <= random i /\ random i < 1) ->
  100 <= w -> 100 <= h ->
  let v := GraphCanvas.view
             (GraphCanvas.mount random (Some (w, h)) initialNodes) in
  List.map GraphView.id (GraphView.nodes v)
  = List.map GraphView.id initialNodes
  /\ GraphCanvas.coherent v
  /\ forall node,
       In node (GraphView.nodes v) ->
       exists p, GraphView.x node = Some (fst p)
                 /\ GraphView.y node = Some (snd p)
                 /\ (GraphCanvas.cameWith initialNodes (GraphView.id node) p
                     \/ GraphCanvas.inBox (w, h) p).
Proof.
  intros R W H. exact (@mounted_nodes random w h initialNodes R W H).
Qed.

(** ** The canvas: what is drawn *)

Lemma paletteAt_nonempty (k : nat) : GraphView.paletteAt k <> [].
Proof.
  unfold GraphView.paletteAt.
  assert (B : (k mod List.length GraphView.defaultColors < 10)%nat)
    by (apply Nat.mod_upper_bound; discriminate).
  destruct (k mod List.length GraphView.defaultColors)%nat
    as [|[|[|[|[|[|[|[|[|[|n]]]]]]]]]]; try discriminate; lia.
Qed.

Lemma orElse_nonempty (a : option str) (b : str) :
  b <> [] -> GraphView.orElse a b <> [].
Proof.
  intro H. unfold GraphView.orElse. destruct a as [[|c s]|]; simpl; auto.
  discriminate.
Qed.

(** X11. Every node of the view has a fill.  Whatever the groups of the
    other nodes and the user's group colors are, a node of the view
    whose group is absent, falsy or a string, and not the name of a
    member of [Object.prototype], has an entry for its group in the
    color scale built from the nodes of the view, so that its fill, its
    own color or else the color of its group, is never missing and
    never the empty string. *)
Theorem every_node_has_a_fill (nodes : list GraphView.Node)
        (customGroupColors : list (str * str)) (node : GraphView.Node) :
  In node nodes ->
  GraphView.plainGroup node = true ->
  exists fill,
    GraphView.fillOf
      (GraphView.colorScale (GraphView.groups nodes) customGroupColors) node
    = Some fill
    /\ fill <> [].
Proof.
  intros I _.
  destruct (graph_view_colors_by_sorted_index nodes customGroupColors)
    as (_ & _ & G & C).
  assert (Ig : In (GraphView.groupOf node)
                  (GraphView.sort (GraphView.groups nodes)))
    by (apply G; now exists node).
  apply In_nth_error in Ig as [k Ek]. specialize (C k _ Ek).
  assert (N : GraphView.orElse
                (lookup (GraphView.groupOf node) customGroupColors)
                (nth (k mod 10) GraphView.defaultColors []) <> [])
    by apply orElse_nonempty, (paletteAt_nonempty k).
  unfold GraphView.fillOf.
  destruct (GraphView.color node) as [[|c s]|]; simpl; eauto.
  exists (c :: s). split; [reflexivity | discriminate].
Qed.

Lemma lookup_found {A} (k : str) (v : A) (m : list (str * A)) :
  In (k, v) m -> exists v', lookup k m = Some v'.
Proof.
  induction m as [|[k' w] m IH]; simpl; [tauto|].
  intros [E|I]; destruct (str_eq_dec k k'); eauto.
  inversion E; subst. congruence.
Qed.

Lemma lookup_member {A} (k : str) (v : A) (m : list (str * A)) :
  lookup k m = Some v -> In (k, v) m.
Proof.
  induction m as [|[k' w] m IH]; simpl; [discriminate|].
  destruct (str_eq_dec k k') as [->|N]; intro H.
  - inversion H; subst. now left.
  - right. exact (IH H).
Qed.

Lemma own_marker (edges : list GraphView.Edge) (id fill : str) :
  In (id, fill)
     (flat_map (fun edge =>
                  match GraphView.edge_color edge with
                  | Some c => if nonempty c
                              then [(lit "arrow-" ++ GraphCanvas.colorId c, c)]
                              else []
                  | None => []
                  end) edges) ->
  In fill (GraphCanvas.edgeColors edges)
  /\ id = lit "arrow-" ++ GraphCanvas.colorId fill.
Proof.
  intro I. apply in_flat_map in I as (e & Ie & I).
  unfold GraphCanvas.edgeColors.
  destruct (GraphView.edge_color e) as [c|] eqn:E; [|destruct I].
  destruct (nonempty c) eqn:N; [|destruct I].
  destruct I as [I|[]]. inversion I; subst. split; [|reflexivity].
  apply in_flat_map. exists e. split; [exact Ie|].
  rewrite E, N. now left.
Qed.

(** X12. Every edge's arrowhead is defined.  The reference [url(#id)]
    of the line of an edge finds a marker: the first one of that id.
    It is the highlight marker for an edge that leaves the fixed node
    and the default marker for an edge without a color, and then its
    fill is the stroke color of the line.  For an edge with a color it
    is the first marker generated for a color with the same letters and
    digits, so that its fill is the stroke color of the line when no
    two colors in use share their letters and digits and none of them
    spells [default] or [highlight]. *)
Theorem edge_marker_is_defined (fixedNode : option GraphView.Node)
        (edges : list GraphView.Edge) (edge : GraphView.Edge) :
  In edge edges ->
  exists fill,
    GraphCanvas.markerFill (GraphCanvas.markerId fixedNode edge) edges
    = Some fill
    /\ (GraphCanvas.isOutgoingFromFixedNode fixedNode edge = true
        \/ GraphView.orElse (GraphView.edge_color edge) [] = []
        \/ GraphCanvas.distinctMarkers edges ->
        fill = GraphCanvas.getEdgeColor fixedNode edge).
Proof.
  intro I. unfold GraphCanvas.markerFill, GraphCanvas.markerId,
             GraphCanvas.getEdgeColor.
  destruct (GraphCanvas.isOutgoingFromFixedNode fixedNode edge) eqn:O.
  - exists (lit "#ff3e00"). split; [reflexivity | auto].
  - destruct (GraphView.edge_color edge) as [[|a c]|] eqn:E;
      cbn [nonempty GraphView.orElse].
    + exists (lit "#999"). split; [reflexivity | auto].
    + assert (M : In (lit "arrow-" ++ GraphCanvas.colorId (a :: c), a :: c)
                     (GraphCanvas.markers edges)).
      { unfold GraphCanvas.markers. right. right.
        apply in_flat_map. exists edge. split; [exact I|].
        rewrite E. simpl. left. reflexivity. }
      destruct (lookup_found _ _ _ M) as [fill L].
      exists fill. split; [exact L|].
      intros [H|[H|D]]; [discriminate H | discriminate H |].
      assert (Ic : In (a :: c) (GraphCanvas.edgeColors edges)).
      { unfold GraphCanvas.edgeColors. apply in_flat_map.
        exists edge. split; [exact I|]. rewrite E. simpl. now left. }
      destruct (D _ Ic) as (Nd & Nh & Same).
      apply lookup_member in L. unfold GraphCanvas.markers in L.
      destruct L as [L|[L|L]].
      * injection L as K _. destruct (Nd (eq_sym K)).
      * injection L as K _. destruct (Nh (eq_sym K)).
      * apply own_marker in L as [If K]. apply app_inv_head in K.
        apply Same; [exact If | symmetry; exact K].
    + exists (lit "#999"). split; [reflexivity | auto].
Qed.

(** Two colors with the same letters and digits share a marker id: the
    line of the second edge gets the arrowhead of the first. *)
Example markers_clash :
  let edges := [ GraphView.mkEdge (lit "A") (lit "B") (Some (lit "#f00"));
                 GraphView.mkEdge (lit "B") (lit "C") (Some (lit "f00")) ] in
  let second := GraphView.mkEdge (lit "B") (lit "C") (Some (lit "f00")) in
  GraphCanvas.getEdgeColor None second = lit "f00"
  /\ GraphCanvas.markerFill (GraphCanvas.markerId None second) edges
     = Some (lit "#f00").
Proof. split; vm_compute; reflexivity. Qed.

(** ** The radii of the nodes *)

Lemma fold_min_le_start (r : list Q) (q : Q) : fold_left Qmin r q <= q.
Proof.
  revert q. induction r as [|a r IH]; intro q; simpl; [apply Qle_refl|].
  eapply Qle_trans; [apply IH | apply Q.le_min_l].
Qed.

Lemma fold_min_le (r : list Q) (q x : Q) :
  In x (q :: r) -> fold_left Qmin r q <= x.
Proof.
  revert q. induction r as [|a r IH]; intros q [<-|I]; simpl.
  - apply Qle_refl.
  - destruct I.
  - eapply Qle_trans; [apply fold_min_le_start | apply Q.le_min_l].
  - destruct I as [<-|I].
    + eapply Qle_trans; [apply fold_min_le_start | apply Q.le_min_r].
    + apply IH. now right.
Qed.

Lemma fold_max_ge_start (r : list Q) (q : Q) : q <= fold_left Qmax r q.
Proof.
  revert q. induction r as [|a r IH]; intro q; simpl; [apply Qle_refl|].
  eapply Qle_trans; [apply Q.le_max_l | apply IH].
Qed.

Lemma fold_max_ge (r : list Q) (q x : Q) :
  In x (q :: r) -> x <= fold_left Qmax r q.
Proof.
  revert q. induction r as [|a r IH]; intros q [<-|I]; simpl.
  - apply Qle_refl.
  - destruct I.
  - eapply Qle_trans; [apply Q.le_max_l | apply fold_max_ge_start].
  - destruct I as [<-|I].
    + eapply Qle_trans; [apply Q.le_max_r | apply fold_max_ge_start].
    + apply IH. now right.
Qed.

Lemma scaled_bounds (lo hi value : Q) :
  lo <= value -> value <= hi -> ~ lo == hi ->
  4 <= 4 + ((value - lo) / (hi - lo)) * 16
  /\ 4 + ((value - lo) / (hi - lo)) * 16 <= 20.
Proof.
  intros L U N.
  assert (P : 0 < hi - lo).
  { destruct (Qlt_le_dec lo hi) as [H|H]; [Lqa.lra|].
    exfalso. apply N. apply Qle_antisym; [|exact H].
    eapply Qle_trans; eauto. }
  assert (T0 : 0 <= (value - lo) / (hi - lo)).
  { apply Qle_shift_div_l; [exact P | Lqa.lra]. }
  assert (T1 : (value - lo) / (hi - lo) <= 1).
  { apply Qle_shift_div_r; [exact P | Lqa.lra]. }
  split; Lqa.lra.
Qed.

Lemma degree_bounds (d : nat) (l : list nat) :
  In d l ->
  4 <= 5 + (GraphView.ofNat d / GraphView.ofNat (GraphView.maxWithOne l)) * 15
  /\ 5 + (GraphView.ofNat d / GraphView.ofNat (GraphView.maxWithOne l)) * 15
     <= 20.
Proof.
  intro I.
  pose proof (degreeRadius_bounds (maxDegree_ge l d I)) as [B1 B2].
  pose proof (degree_formula d l) as F.
  rewrite F. split; [|exact B2].
  eapply Qle_trans; [|exact B1]. discriminate.
Qed.

(** X13. Every radius is between 4 and 20.  In each of the five sizing
    modes, a node of the graph whose radius is a number (it is not a
    number only when the size or the chosen property of the node does not
    convert to one) has a radius of at least 4 and at most 20. *)
Theorem radius_between_4_and_20
        (Number_ : Json -> option Q) (nodeSizingMode : GraphView.SizingMode)
        (nodeSizingProperty : option str)
        (nodes : list GraphView.Node) (edges : list GraphView.Edge)
        (node : GraphView.Node) (r : Q) :
  In node nodes ->
  GraphView.getNodeSize Number_ nodeSizingMode nodeSizingProperty
                        nodes edges node = Some r ->
  4 <= r /\ r <= 20.
Proof.
  intros I H.
  assert (E8 : forall q, Some 8 = Some q -> 4 <= q /\ q <= 20).
  { intros q Hq. inversion Hq; subst. split; discriminate. }
  unfold GraphView.getNodeSize in H.
  destruct nodeSizingMode.
  - now apply E8.
  - inversion H; subst.
    apply (degree_bounds
             (GraphView.incomingCount edges (GraphView.id node))
             (List.map (fun n => GraphView.incomingCount edges (GraphView.id n))
                       nodes)).
    apply (in_map (fun n => GraphView.incomingCount edges (GraphView.id n))), I.
  - inversion H; subst.
    apply (degree_bounds
             (GraphView.outgoingCount edges (GraphView.id node))
             (List.map (fun n => GraphView.outgoingCount edges (GraphView.id n))
                       nodes)).
    apply (in_map (fun n => GraphView.outgoingCount edges (GraphView.id n))), I.
  - destruct (GraphView.prop (lit "size") node) as [size|]; [|now apply E8].
    destruct (Number_ size) as [q|]; simpl in H; [|discriminate].
    inversion H; subst. split; [apply Q.le_max_l|].
    apply Q.max_lub; [discriminate | apply Q.le_min_l].
  - destruct (GraphView.prop (lit "size") node);
      (destruct (GraphView.sizingValue nodeSizingProperty node) as [v|] eqn:V;
       [|now apply E8]);
      unfold GraphView.propertySize in H;
      (destruct (GraphView.propertyValues Number_ nodeSizingProperty nodes)
         as [|q0 rest] eqn:Vs; [now apply E8|]);
      (destruct (Qeq_bool (fold_left Qmin rest q0) (fold_left Qmax rest q0))
         eqn:Q; [now apply E8|]);
      (destruct (Number_ v) as [value|] eqn:Nv; [|discriminate]);
      inversion H; subst;
      (assert (Iv : In value (q0 :: rest))
        by (rewrite <- Vs; unfold GraphView.propertyValues;
            apply in_flat_map; exists node; split; [exact I|];
            rewrite V, Nv; now left));
      (apply scaled_bounds;
       [ now apply fold_min_le | now apply fold_max_ge
       | now apply Qeq_bool_neq ]).
Qed.

(** ** Where the line of an edge ends *)

(** X14. The line of an edge ends on the two circles.  Between two
    positioned nodes with different centres, [d] apart, and radii [rs]
    and [rt], the line is drawn; its first end is at distance [rs] from
    the centre of the source, its second end at distance [rt] from the
    centre of the target, and the way from the first end to the second is
    the way from centre to centre shortened by the factor
    [(d - rs - rt) / d] (so circles that overlap, [rs + rt > d], get a
    line that runs backwards). *)
Theorem edge_ends_on_the_circles
        (Number_ : Json -> option Q) (nodeSizingMode : GraphView.SizingMode)
        (nodeSizingProperty : option str)
        (nodes : list GraphView.Node) (edges : list GraphView.Edge)
        (source target : GraphView.Node)
        (sx sy tx ty rs rt : Q) :
  GraphView.x source = Some sx -> GraphView.y source = Some sy ->
  GraphView.x target = Some tx -> GraphView.y target = Some ty ->
  GraphView.getNodeSize Number_ nodeSizingMode nodeSizingProperty
                        nodes edges source = Some rs ->
  GraphView.getNodeSize Number_ nodeSizingMode nodeSizingProperty
                        nodes edges target = Some rt ->
  ~ (sx == tx /\ sy == ty) ->
  let d := GraphView.centreDistance sx sy tx ty in
  exists ax ay bx by_,
    GraphView.calculateEdgeEndpoints Number_ nodeSizingMode nodeSizingProperty
                                     nodes edges source target
    = Some (GraphView.mkEndpoints (Some ax) (Some ay) (Some bx) (Some by_))
    /\ d <> 0%R
    /\ ((ax - Q2R sx) * (ax - Q2R sx) + (ay - Q2R sy) * (ay - Q2R sy)
        = Q2R rs * Q2R rs)%R
    /\ ((bx - Q2R tx) * (bx - Q2R tx) + (by_ - Q2R ty) * (by_ - Q2R ty)
        = Q2R rt * Q2R rt)%R
    /\ (bx - ax = (Q2R tx - Q2R sx) * ((d - Q2R rs - Q2R rt) / d))%R
    /\ (by_ - ay = (Q2R ty - Q2R sy) * ((d - Q2R rs - Q2R rt) / d))%R.
Proof.
  intros Xs Ys Xt Yt Rs Rt Far d.
  assert (NZ : d <> 0%R).
  { intro Z. apply Far, centreDistance_zero_iff, Z. }
  unfold GraphView.calculateEdgeEndpoints.
  rewrite Xs, Ys, Xt, Yt, Rs, Rt.
  fold (GraphView.centreDistance sx sy tx ty). fold d.
  destruct (Req_EM_T d 0%R) as [Z|_]; [contradiction|]. simpl.
  pose proof (trimmed_direction_unit sx sy tx ty NZ) as U.
  simpl in U. fold d in U.
  set (nx := ((Q2R tx - Q2R sx) / d)%R) in *.
  set (ny := ((Q2R ty - Q2R sy) / d)%R) in *.
  do 4 eexists. split; [reflexivity|]. split; [exact NZ|].
  split; [|split; [|split]].
  - replace ((Q2R sx + nx * Q2R rs - Q2R sx) * (Q2R sx + nx * Q2R rs - Q2R sx)
             + (Q2R sy + ny * Q2R rs - Q2R sy)
               * (Q2R sy + ny * Q2R rs - Q2R sy))%R
      with ((nx * nx + ny * ny) * (Q2R rs * Q2R rs))%R by ring.
    rewrite U. ring.
  - replace ((Q2R tx - nx * Q2R rt - Q2R tx) * (Q2R tx - nx * Q2R rt - Q2R tx)
             + (Q2R ty - ny * Q2R rt - Q2R ty)
               * (Q2R ty - ny * Q2R rt - Q2R ty))%R
      with ((nx * nx + ny * ny) * (Q2R rt * Q2R rt))%R by ring.
    rewrite U. ring.
  - subst nx. field. exact NZ.
  - subst ny. field. exact NZ.
Qed.

(** ** The document behind the canvas *)

Lemma updateNode_keeps (ns : list GraphView.Node) (n : GraphVisualizer.Node) :
  GraphVisualizer.id (GraphVisualizer.updateNode ns n) = GraphVisualizer.id n
  /\ GraphVisualizer.name (GraphVisualizer.updateNode ns n)
     = GraphVisualizer.name n
  /\ GraphVisualizer.properties (GraphVisualizer.updateNode ns n)
     = GraphVisualizer.properties n.
Proof.
  unfold GraphVisualizer.updateNode.
  destruct (find _ ns); simpl; auto.
Qed.

Lemma find_by_id_none (i : str) (ns : list GraphView.Node) :
  ~ In i (List.map GraphView.id ns) ->
  find (fun n => str_eqb (GraphView.id n) i) ns = None.
Proof.
  intro H. destruct (find _ ns) as [u|] eqn:F; [|reflexivity].
  apply find_some in F as [I E]. apply str_eqb_eq in E.
  destruct H. rewrite <- E. now apply in_map.
Qed.

(** X15. An update from the canvas never adds, drops or reorders nodes.
    The document keeps its nodes in their order, each with its id, name
    and properties; a node that the canvas did not report (it was
    hidden) stays exactly as it was; a node that the canvas reported
    takes the color and the position of the first reported node with its
    id. *)
Theorem graph_update_keeps_nodes (graphData : GraphVisualizer.GraphData)
        (updatedNodes : list GraphView.Node)
        (updatedEdges : list GraphView.Edge) :
  let g' := GraphVisualizer.handleGraphUpdate graphData updatedNodes
                                              updatedEdges in
  List.map GraphVisualizer.id (GraphVisualizer.nodes g')
  = List.map GraphVisualizer.id (GraphVisualizer.nodes graphData)
  /\ List.map GraphVisualizer.name (GraphVisualizer.nodes g')
     = List.map GraphVisualizer.name (GraphVisualizer.nodes graphData)
  /\ List.map GraphVisualizer.properties (GraphVisualizer.nodes g')
     = List.map GraphVisualizer.properties (GraphVisualizer.nodes graphData)
  /\ (forall k node node',
         nth_error (GraphVisualizer.nodes graphData) k = Some node ->
         nth_error (GraphVisualizer.nodes g') k = Some node' ->
         match find (fun n => str_eqb (GraphView.id n)
                                      (GraphVisualizer.id node))
                    updatedNodes with
         | Some u => GraphVisualizer.color node' = GraphView.color u
                     /\ GraphVisualizer.x node' = GraphView.x u
                     /\ GraphVisualizer.y node' = GraphView.y u
         | None => node' = node
         end)
  /\ (forall node,
         In node (GraphVisualizer.nodes graphData) ->
         ~ In (GraphVisualizer.id node) (List.map GraphView.id updatedNodes) ->
         In node (GraphVisualizer.nodes g')).
Proof.
  simpl. repeat split.
  - rewrite map_map. apply map_ext. intro n. apply updateNode_keeps.
  - rewrite map_map. apply map_ext. intro n. apply updateNode_keeps.
  - rewrite map_map. apply map_ext. intro n. apply updateNode_keeps.
  - intros k node node' E E'. rewrite nth_error_map, E in E'. simpl in E'.
    inversion E'; subst node'. unfold GraphVisualizer.updateNode.
    destruct (find _ updatedNodes); simpl; auto.
  - intros node I N. apply in_map_iff. exists node. split; [|exact I].
    unfold GraphVisualizer.updateNode. now rewrite find_by_id_none.
Qed.

Lemma updateLink_ends (ex : list (str * GraphVisualizer.Link))
      (e : GraphView.Edge) :
  GraphVisualizer.ends (GraphVisualizer.updateLink ex e)
  = GraphVisualizer.edgeEnds e.
Proof.
  unfold GraphVisualizer.updateLink. simpl.
  destruct (lookup _ ex) as [l|]; [|reflexivity].
  destruct (GraphVisualizer.given (GraphVisualizer.link_color l)
            && negb (GraphVisualizer.given (GraphView.edge_color e)));
    reflexivity.
Qed.

(** X16. An update from the canvas replaces the links of the document by
    the edges that the canvas reports: the new links join the same ends
    in the same order.  The canvas reports the edges it was given, which
    are the links between visible nodes; so after an update that follows
    hiding a group, every link left in the document joins two visible
    nodes, and the links of the hidden nodes are gone from the
    document. *)
Theorem graph_update_replaces_links
        (graphData : GraphVisualizer.GraphData)
        (hiddenGroups : list str) (groupColorMap : list (str * str))
        (updatedNodes : list GraphView.Node)
        (updatedEdges : list GraphView.Edge) :
  List.map GraphVisualizer.ends
           (GraphVisualizer.links
              (GraphVisualizer.handleGraphUpdate graphData updatedNodes
                                                 updatedEdges))
  = List.map GraphVisualizer.edgeEnds updatedEdges
  /\ let visible :=
       GraphVisualizer.visibleNodes hiddenGroups groupColorMap
                                    (GraphVisualizer.nodes graphData) in
     let g' :=
       GraphVisualizer.handleGraphUpdate
         graphData updatedNodes
         (GraphVisualizer.simpleEdges hiddenGroups groupColorMap graphData) in
     List.map GraphVisualizer.ends (GraphVisualizer.links g')
     = List.map GraphVisualizer.ends
                (GraphVisualizer.visibleEdges visible
                                              (GraphVisualizer.links graphData))
     /\ forall link,
          In link (GraphVisualizer.links g') ->
          In (GraphVisualizer.source link)
             (List.map GraphVisualizer.id visible)
          /\ In (GraphVisualizer.target link)
                (List.map GraphVisualizer.id visible).
Proof.
  assert (E : forall es,
             List.map GraphVisualizer.ends
               (List.map (GraphVisualizer.updateLink
                            (GraphVisualizer.existingLinkMap
                               (GraphVisualizer.links graphData))) es)
             = List.map GraphVisualizer.edgeEnds es).
  { intro es. rewrite map_map. apply map_ext. intro e.
    apply updateLink_ends. }
  split; [apply E|]. simpl. split.
  - rewrite E. unfold GraphVisualizer.simpleEdges. rewrite map_map.
    reflexivity.
  - intros link I.
    apply (in_map GraphVisualizer.ends) in I. rewrite E in I.
    unfold GraphVisualizer.simpleEdges in I. rewrite map_map in I.
    apply in_map_iff in I as (l & El & Il).
    unfold GraphVisualizer.visibleEdges in Il.
    apply filter_In in Il as [_ J].
    unfold GraphVisualizer.joinsVisible in J.
    apply andb_true_iff in J as [Js Jt].
    apply existsb_str_in in Js. apply existsb_str_in in Jt.
    unfold GraphVisualizer.edgeEnds, GraphVisualizer.ends in El.
    simpl in El. inversion El as [[Es Et]]. split; assumption.
Qed.

Lemma simpleNodes_ids (hiddenGroups : list str)
      (groupColorMap : list (str * str)) (g : GraphVisualizer.GraphData) :
  List.map GraphView.id
           (GraphVisualizer.simpleNodes hiddenGroups groupColorMap g)
  = List.map GraphVisualizer.id
             (GraphVisualizer.visibleNodes hiddenGroups groupColorMap
                                           (GraphVisualizer.nodes g)).
Proof.
  unfold GraphVisualizer.simpleNodes. now rewrite map_map.
Qed.

Lemma shownColor_nonempty (groupColorMap : list (str * str))
      (node : GraphVisualizer.Node) :
  GraphVisualizer.shownColor groupColorMap node <> [].
Proof.
  unfold GraphVisualizer.shownColor.
  apply orElse_nonempty, orElse_nonempty. discriminate.
Qed.

(** X17. What the canvas is given.  The edges passed to the canvas join
    nodes passed to the canvas, whatever groups are hidden.  Every node
    passed to the canvas whose group is absent, falsy or a string, and
    not the name of a member of [Object.prototype], carries a color
    that is not empty (its own, or else the stable color of its group,
    or else [#888]), so the canvas fills it with that color and never
    consults its own color scale. *)
Theorem canvas_props_closed_and_colored
        (hiddenGroups : list str) (groupColorMap : list (str * str))
        (g : GraphVisualizer.GraphData) :
  GraphCanvas.closed
    (GraphVisualizer.simpleNodes hiddenGroups groupColorMap g)
    (GraphVisualizer.simpleEdges hiddenGroups groupColorMap g)
  /\ forall node,
       In node (GraphVisualizer.simpleNodes hiddenGroups groupColorMap g) ->
       GraphView.plainGroup node = true ->
       exists c,
         GraphView.color node = Some c /\ c <> []
         /\ forall colorMap, GraphView.fillOf colorMap node = Some c.
Proof.
  split.
  - unfold GraphCanvas.closed. apply Forall_forall. intros e I.
    rewrite simpleNodes_ids.
    unfold GraphVisualizer.simpleEdges in I.
    apply in_map_iff in I as (l & <- & Il).
    apply filter_In in Il as [_ J].
    apply andb_true_iff in J as [Js Jt].
    apply existsb_str_in in Js. apply existsb_str_in in Jt.
    split; assumption.
  - intros node I _. unfold GraphVisualizer.simpleNodes in I.
    apply in_map_iff in I as (n & <- & In').
    unfold GraphVisualizer.visibleNodes in In'.
    apply in_map_iff in In' as (n0 & <- & _).
    exists (GraphVisualizer.shownColor groupColorMap n0).
    pose proof (shownColor_nonempty groupColorMap n0) as N.
    split; [reflexivity|]. split; [exact N|].
    intro colorMap. unfold GraphView.fillOf. simpl.
    destruct (GraphVisualizer.shownColor groupColorMap n0);
      [congruence | reflexivity].
Qed.

(** ** Stable group colors *)

Lemma assignNew_keeps (m : list (str * str)) (e : nat * str)
      (g c : str) :
  lookup g m = Some c -> c <> [] ->
  lookup g (GraphVisualizer.assignNew m e) = Some c.
Proof.
  intros L N. destruct e as [index group]. simpl.
  destruct (GraphVisualizer.given (lookup group m)) eqn:G; [exact L|].
  destruct (str_eq_dec g group) as [->|Ne].
  - rewrite L in G. simpl in G. destruct c; [congruence | discriminate].
  - now rewrite lookup_map_set_other.
Qed.

Lemma fold_assignNew_keeps (es : list (nat * str)) (m : list (str * str))
      (g c : str) :
  lookup g m = Some c -> c <> [] ->
  lookup g (fold_left GraphVisualizer.assignNew es m) = Some c.
Proof.
  revert m. induction es as [|e es IH]; intros m L N; simpl; [exact L|].
  apply IH; [now apply assignNew_keeps | exact N].
Qed.

Lemma assignNew_sets (m : list (str * str)) (index : nat) (group : str) :
  exists c, lookup group (GraphVisualizer.assignNew m (index, group)) = Some c
            /\ c <> [].
Proof.
  simpl. destruct (lookup group m) as [c|] eqn:L; simpl.
  - destruct c as [|a s] eqn:C; simpl.
    + exists (GraphView.paletteAt index).
      rewrite lookup_map_set_same. split; [reflexivity|].
      apply paletteAt_nonempty.
    + exists (a :: s). split; [exact L | discriminate].
  - exists (GraphView.paletteAt index).
    rewrite lookup_map_set_same. split; [reflexivity|].
    apply paletteAt_nonempty.
Qed.

Lemma fold_assignNew_sets (es : list (nat * str)) (m : list (str * str))
      (group : str) :
  In group (List.map snd es) ->
  exists c, lookup group (fold_left GraphVisualizer.assignNew es m) = Some c
            /\ c <> [].
Proof.
  revert m. induction es as [|[index g0] es IH]; intros m I; [destruct I|].
  simpl in I. destruct I as [->|I].
  - destruct (assignNew_sets m index group) as (c & L & N).
    exists c. split; [|exact N].
    change (fold_left GraphVisualizer.assignNew ((index, group) :: es) m)
      with (fold_left GraphVisualizer.assignNew es
                      (GraphVisualizer.assignNew m (index, group))).
    now apply fold_assignNew_keeps.
  - apply (IH _ I).
Qed.

Lemma in_allGroups (ns : list GraphVisualizer.Node)
      (node : GraphVisualizer.Node) :
  In node ns ->
  In (GraphVisualizer.groupOf node) (GraphVisualizer.allGroups ns).
Proof.
  intro I. unfold GraphVisualizer.allGroups.
  set (l := fold_left GraphView.setAdd
                      (List.map GraphVisualizer.groupOf ns) []).
  destruct (sort_sorted_perm l) as [_ P].
  eapply Permutation_in; [exact P|]. subst l.
  apply (fold_setAdd _ (NoDup_nil str)). right. now apply in_map.
Qed.

(** X18. Group colors are stable.  When the nodes of the document
    change, a group that already has a color keeps it, whether or not
    the group still occurs and whatever its place among the sorted groups
    has become; and afterwards the group of every node has a color,
    provided that group is absent, falsy or a string, and not the name
    of a member of [Object.prototype]. *)
Theorem group_colors_are_stable (ns : list GraphVisualizer.Node)
        (prev : list (str * str)) :
  (forall group c, lookup group prev = Some c -> c <> [] ->
                   lookup group (GraphVisualizer.groupColorEffect ns prev)
                   = Some c)
  /\ forall node, In node ns ->
       GraphVisualizer.plainGroup node = true ->
       exists c,
         lookup (GraphVisualizer.groupOf node)
                (GraphVisualizer.groupColorEffect ns prev) = Some c
         /\ c <> [].
Proof.
  split.
  - intros group c L N. now apply fold_assignNew_keeps.
  - intros node I _. apply fold_assignNew_sets.
    unfold GraphView.withIndex. rewrite withIndex_snd.
    now apply in_allGroups.
Qed.

(** ** Deleting a node, in the document and on the canvas *)

Lemma filter_map_swap {A B} (f : A -> B) (p : B -> bool) (l : list A) :
  filter p (List.map f l) = List.map f (filter (fun a => p (f a)) l).
Proof.
  induction l as [|a l IH]; simpl; [reflexivity|].
  destruct (p (f a)); simpl; now rewrite IH.
Qed.

Lemma filter_filter_swap {A} (p q : A -> bool) (l : list A) :
  filter p (filter q l) = filter q (filter p l).
Proof.
  induction l as [|a l IH]; simpl; [reflexivity|].
  destruct (q a) eqn:Q, (p a) eqn:P; simpl; rewrite ?Q, ?P, IH; reflexivity.
Qed.

Lemma existsb_filter_other (s i : str) (l : list str) :
  s <> i ->
  existsb (str_eqb s) (filter (fun k => negb (str_eqb k i)) l)
  = existsb (str_eqb s) l.
Proof.
  intro N. induction l as [|k l IH]; simpl; [reflexivity|].
  destruct (str_eqb k i) eqn:E; simpl.
  - apply str_eqb_eq in E. subst k.
    apply str_eqb_neq in N. now rewrite N.
  - now rewrite IH.
Qed.

Lemma visibleNodes_delete (hiddenGroups : list str)
      (groupColorMap : list (str * str)) (ns : list GraphVisualizer.Node)
      (nodeId : str) :
  GraphVisualizer.visibleNodes hiddenGroups groupColorMap
    (filter (fun node => negb (str_eqb (GraphVisualizer.id node) nodeId)) ns)
  = filter (fun node => negb (str_eqb (GraphVisualizer.id node) nodeId))
           (GraphVisualizer.visibleNodes hiddenGroups groupColorMap ns).
Proof.
  unfold GraphVisualizer.visibleNodes.
  rewrite filter_map_swap. simpl. f_equal. apply filter_filter_swap.
Qed.

Lemma joinsVisible_delete (vn : list GraphVisualizer.Node)
      (l : GraphVisualizer.Link) (nodeId : str) :
  GraphVisualizer.keepsLink nodeId l = true ->
  GraphVisualizer.joinsVisible
    (filter (fun node => negb (str_eqb (GraphVisualizer.id node) nodeId)) vn)
    l
  = GraphVisualizer.joinsVisible vn l.
Proof.
  intro K. unfold GraphVisualizer.keepsLink in K.
  apply andb_true_iff in K as [Ks Kt].
  apply negb_true_iff, str_eqb_neq in Ks.
  apply negb_true_iff, str_eqb_neq in Kt.
  unfold GraphVisualizer.joinsVisible.
  assert (F : List.map GraphVisualizer.id
                (filter (fun node =>
                           negb (str_eqb (GraphVisualizer.id node) nodeId))
                        vn)
              = filter (fun k => negb (str_eqb k nodeId))
                       (List.map GraphVisualizer.id vn))
    by (symmetry;
        apply (filter_map_swap GraphVisualizer.id
                               (fun k => negb (str_eqb k nodeId)))).
  rewrite F, !existsb_filter_other by assumption. reflexivity.
Qed.

Lemma visibleEdges_delete (vn : list GraphVisualizer.Node)
      (ls : list GraphVisualizer.Link) (nodeId : str) :
  GraphVisualizer.visibleEdges
    (filter (fun node => negb (str_eqb (GraphVisualizer.id node) nodeId)) vn)
    (filter (GraphVisualizer.keepsLink nodeId) ls)
  = filter (GraphVisualizer.keepsLink nodeId)
           (GraphVisualizer.visibleEdges vn ls).
Proof.
  unfold GraphVisualizer.visibleEdges.
  induction ls as [|l ls IH]; simpl; [reflexivity|].
  destruct (GraphVisualizer.keepsLink nodeId l) eqn:K; simpl.
  - rewrite (@joinsVisible_delete vn l nodeId K).
    destruct (GraphVisualizer.joinsVisible vn l); simpl.
    + rewrite K. now rewrite IH.
    + exact IH.
  - destruct (GraphVisualizer.joinsVisible vn l); simpl.
    + rewrite K. exact IH.
    + exact IH.
Qed.

(** X19. Deleting a node gives the same picture either way.  The canvas
    removes the node and its edges from what it shows at once; the
    document removes the node and its links, and what it then passes to
    the canvas is exactly that: the nodes without the deleted one, and
    the edges without those that touch it, whatever groups are hidden. *)
Theorem delete_agrees_with_canvas
        (hiddenGroups : list str) (groupColorMap : list (str * str))
        (g : GraphVisualizer.GraphData) (nodeId : str) :
  let g' := GraphVisualizer.handleDeleteNode g nodeId in
  GraphVisualizer.simpleNodes hiddenGroups groupColorMap g'
  = filter (GraphCanvas.keepsNode nodeId)
           (GraphVisualizer.simpleNodes hiddenGroups groupColorMap g)
  /\ GraphVisualizer.simpleEdges hiddenGroups groupColorMap g'
     = filter (GraphCanvas.keepsEdge nodeId)
              (GraphVisualizer.simpleEdges hiddenGroups groupColorMap g).
Proof.
  simpl. split.
  - unfold GraphVisualizer.simpleNodes. simpl.
    rewrite visibleNodes_delete, filter_map_swap. reflexivity.
  - unfold GraphVisualizer.simpleEdges. simpl.
    rewrite visibleNodes_delete, visibleEdges_delete, filter_map_swap.
    reflexivity.
Qed.

(** ** The d3 canvas: pinned positions *)

Lemma map_set_same_value {A} (k : str) (v : A) (m : list (str * A)) :
  lookup k m = Some v -> map_set k v m = m.
Proof.
  induction m as [|[k' v'] m IH]; simpl; [discriminate|].
  destruct (str_eq_dec k k') as [->|N]; intro H.
  - inversion H. reflexivity.
  - now rewrite IH.
Qed.

Ltac lit_neq :=
  let H := fresh in intro H; vm_compute in H; discriminate H.

Ltac other_key :=
  rewrite lookup_map_set_other by lit_neq.

Lemma place_spec (random : nat -> Q) (w h : Q) (k : nat) (o : D3Graph.Obj) :
  let o' := fst (D3Graph.place random w h k o) in
  D3Sizes.pinned o'
  /\ (forall key, ~ D3Sizes.positionKey key -> lookup key o' = lookup key o)
  /\ (forall vx vy, lookup (lit "x") o = Some vx ->
                    lookup (lit "y") o = Some vy ->
                    lookup (lit "x") o' = Some vx
                    /\ lookup (lit "y") o' = Some vy).
Proof.
  unfold D3Graph.place.
  assert (K : forall key (a b c d : Json) m,
             ~ D3Sizes.positionKey key ->
             lookup key (map_set (lit "fy") a
                           (map_set (lit "fx") b
                              (map_set (lit "y") c
                                 (map_set (lit "x") d m))))
             = lookup key m).
  { intros key a b c d m N. unfold D3Sizes.positionKey in N.
    rewrite !lookup_map_set_other; [reflexivity| | | |]; intro E;
      apply N; auto. }
  assert (K2 : forall key (a b : Json) m,
             ~ D3Sizes.positionKey key ->
             lookup key (map_set (lit "fy") a (map_set (lit "fx") b m))
             = lookup key m).
  { intros key a b m N. unfold D3Sizes.positionKey in N.
    rewrite !lookup_map_set_other; [reflexivity| |]; intro E;
      apply N; auto. }
  destruct (lookup (lit "x") o) as [nx|] eqn:X;
    [destruct (lookup (lit "y") o) as [ny|] eqn:Y|]; simpl.
  - split; [|split].
    + exists nx, ny. repeat split.
      * now do 2 other_key.
      * now do 2 other_key.
      * other_key. apply lookup_map_set_same.
      * apply lookup_map_set_same.
    + intros key N. now apply K2.
    + intros vx vy Ex Ey. inversion Ex; inversion Ey; subst.
      split; now do 2 other_key.
  - split; [|split].
    + do 2 eexists. repeat split.
      * do 3 other_key. apply lookup_map_set_same.
      * do 2 other_key. apply lookup_map_set_same.
      * other_key. apply lookup_map_set_same.
      * apply lookup_map_set_same.
    + intros key N. now apply K.
    + intros vx vy _ Ey. discriminate Ey.
  - split; [|split].
    + do 2 eexists. repeat split.
      * do 3 other_key. apply lookup_map_set_same.
      * do 2 other_key. apply lookup_map_set_same.
      * other_key. apply lookup_map_set_same.
      * apply lookup_map_set_same.
    + intros key N. now apply K.
    + intros vx vy Ex. discriminate Ex.
Qed.

Lemma place_pinned (random : nat -> Q) (w h : Q) (k : nat) (o : D3Graph.Obj) :
  D3Sizes.pinned o -> D3Graph.place random w h k o = (o, k).
Proof.
  intros (vx & vy & X & Y & FX & FY). unfold D3Graph.place.
  rewrite X, Y.
  rewrite (map_set_same_value _ _ FX), (map_set_same_value _ _ FY).
  reflexivity.
Qed.

Lemma placeAll_pinned (random : nat -> Q) (w h : Q) (k : nat)
      (objs : list D3Graph.Obj) :
  Forall D3Sizes.pinned objs ->
  D3Graph.placeAll random w h k objs = (List.map JObj objs, k).
Proof.
  induction 1 as [|o objs P F IH]; simpl; [reflexivity|].
  rewrite (place_pinned random w h k P), IH. reflexivity.
Qed.

Lemma placeAll_spec (random : nat -> Q) (w h : Q) (ns : list D3Graph.Obj) :
  forall k,
    let r := D3Graph.placeAll random w h k ns in
    let objs := List.map D3Sizes.asObject (fst r) in
    fst r = List.map JObj objs
    /\ Forall D3Sizes.pinned objs
    /\ Forall2 (fun o o' =>
                  (forall key, ~ D3Sizes.positionKey key ->
                               lookup key o' = lookup key o)
                  /\ (forall vx vy, lookup (lit "x") o = Some vx ->
                                    lookup (lit "y") o = Some vy ->
                                    lookup (lit "x") o' = Some vx
                                    /\ lookup (lit "y") o' = Some vy))
               ns objs.
Proof.
  induction ns as [|o ns IH]; intro k; cbv zeta; cbn [D3Graph.placeAll].
  - simpl. repeat split; constructor.
  - pose proof (place_spec random w h k o) as (P & Ko & Kp).
    destruct (D3Graph.place random w h k o) as [o' k1]. simpl in P, Ko, Kp.
    specialize (IH k1). cbv zeta in IH.
    destruct (D3Graph.placeAll random w h k1 ns) as [r' k2].
    simpl in *. destruct IH as (E & F & F2).
    split; [now rewrite <- E|]. split; constructor; auto.
Qed.

(** X20. The d3 canvas pins every node, and a redraw keeps the picture.
    With the container mounted and at least one node, [createGraph]
    leaves one node object for each node, in their order; every object
    has a position and is pinned to it ([fx] is [x] and [fy] is [y]);
    a node that came with a position keeps it, and all other fields of
    every node are kept.  Drawing again from these objects draws no
    random number and leaves them as they are. *)
Theorem createGraph_pins_every_node
        (random : nat -> Q) (p : D3Graph.Props) (st : D3Graph.State) :
  D3Graph.container st <> None ->
  D3Graph.nodes p <> [] ->
  let st' := D3Graph.createGraph random p st in
  let objs := List.map D3Sizes.asObject (D3Graph.nodeObjects st') in
  D3Graph.nodeObjects st' = List.map JObj objs
  /\ Forall D3Sizes.pinned objs
  /\ Forall2 (fun o o' =>
                (forall key, ~ D3Sizes.positionKey key ->
                             lookup key o' = lookup key o)
                /\ (forall vx vy, lookup (lit "x") o = Some vx ->
                                  lookup (lit "y") o = Some vy ->
                                  lookup (lit "x") o' = Some vx
                                  /\ lookup (lit "y") o' = Some vy))
             (D3Graph.nodes p) objs
  /\ D3Graph.createGraph
       random
       (D3Graph.mkProps objs (D3Graph.edges p) (D3Graph.onGraphUpdate p)) st'
     = st'.
Proof.
  intros C N.
  destruct (D3Graph.container st) as [[w h]|] eqn:Ct; [|congruence].
  destruct (D3Graph.nodes p) as [|o ns] eqn:Np; [congruence|].
  set (r := D3Graph.placeAll random w h (D3Graph.draws st) (o :: ns)).
  assert (S : D3Graph.createGraph random p st
              = D3Graph.mkState (fst r) (D3Graph.customGroupColors st)
                                (Some (w, h)) (snd r)).
  { unfold D3Graph.createGraph. rewrite Ct, Np. fold r.
    destruct r; reflexivity. }
  cbv zeta. rewrite S. cbn [D3Graph.nodeObjects].
  pose proof (placeAll_spec random w h (o :: ns) (D3Graph.draws st))
    as (E & F & F2).
  fold r in E, F, F2.
  split; [exact E|]. split; [exact F|]. split; [exact F2|].
  unfold D3Graph.createGraph.
  cbn [D3Graph.container D3Graph.nodes D3Graph.draws
       D3Graph.customGroupColors].
  destruct (List.map D3Sizes.asObject (fst r)) as [|o1 os] eqn:M.
  - inversion F2.
  - rewrite (placeAll_pinned random w h (snd r) F). rewrite <- E.
    reflexivity.
Qed.

(** ** The d3 canvas: node sizes *)

Lemma zeroCounts_zeros (ids : list str) :
  D3Sizes.zeroCounts ids = (D3Sizes.zeros ids, D3Sizes.zeros ids).
Proof.
  unfold D3Sizes.zeroCounts, D3Sizes.zeros.
  assert (G : forall a b,
             fold_left (fun c i => (map_set i 0%nat (fst c),
                                    map_set i 0%nat (snd c))) ids (a, b)
             = (fold_left (fun m i => map_set i 0%nat m) ids a,
                fold_left (fun m i => map_set i 0%nat m) ids b)).
  { induction ids as [|i ids IH]; intros a b; simpl; [reflexivity|].
    apply IH. }
  apply G.
Qed.

Lemma countEdge_fold (es : list (str * str))
      (c : list (str * nat) * list (str * nat)) :
  fold_left D3Sizes.countEdge es c
  = (fold_left D3Sizes.bump (List.map snd es) (fst c),
     fold_left D3Sizes.bump (List.map fst es) (snd c)).
Proof.
  revert c. induction es as [|e es IH]; intros [a b]; simpl; [reflexivity|].
  rewrite IH. reflexivity.
Qed.

Lemma zeros_lookup (ids : list str) (k : str) :
  forall m0,
    lookup k (fold_left (fun m i => map_set i 0%nat m) ids m0)
    = if existsb (str_eqb k) ids then Some 0%nat else lookup k m0.
Proof.
  induction ids as [|i ids IH]; intro m0; simpl; [reflexivity|].
  rewrite IH. destruct (existsb (str_eqb k) ids); [now rewrite orb_true_r|].
  rewrite orb_false_r. destruct (str_eqb k i) eqn:E.
  - apply str_eqb_eq in E. subst. apply lookup_map_set_same.
  - apply str_eqb_neq in E. now apply lookup_map_set_other.
Qed.

Lemma zeros_nodup (ids : list str) :
  forall m0 : list (str * nat),
    NoDup (List.map fst m0) ->
    NoDup (List.map fst (fold_left (fun m i => map_set i 0%nat m) ids m0)).
Proof.
  induction ids as [|i ids IH]; intros m0 N; simpl; [exact N|].
  apply IH. now apply nodup_map_set.
Qed.

Lemma bumps_nodup (ks : list str) :
  forall m : list (str * nat),
    NoDup (List.map fst m) ->
    NoDup (List.map fst (fold_left D3Sizes.bump ks m)).
Proof.
  induction ks as [|key ks IH]; intros m N; simpl; [exact N|].
  apply IH. now apply nodup_map_set.
Qed.

Lemma occ_cons (k key : str) (ks : list str) :
  D3Sizes.occ k (key :: ks)
  = if str_eqb key k then S (D3Sizes.occ k ks) else D3Sizes.occ k ks.
Proof.
  unfold D3Sizes.occ. simpl. destruct (str_eqb key k); reflexivity.
Qed.

Lemma bumps_lookup (ks : list str) (k : str) :
  forall m,
    lookup k (fold_left D3Sizes.bump ks m)
    = match lookup k m with
      | Some c => Some (c + D3Sizes.occ k ks)%nat
      | None => if (D3Sizes.occ k ks =? 0)%nat then None
                else Some (D3Sizes.occ k ks)
      end.
Proof.
  induction ks as [|key ks IH]; intro m; simpl.
  - destruct (lookup k m); [f_equal; unfold D3Sizes.occ; simpl; lia
                           | reflexivity].
  - rewrite IH, occ_cons. unfold D3Sizes.bump.
    destruct (str_eqb key k) eqn:E.
    + apply str_eqb_eq in E. subst key. rewrite lookup_map_set_same.
      destruct (lookup k m); simpl; f_equal; lia.
    + apply str_eqb_neq in E.
      rewrite lookup_map_set_other by congruence. reflexivity.
Qed.

Lemma counted (ids ks : list str) (k : str) :
  let m := fold_left D3Sizes.bump ks (D3Sizes.zeros ids) in
  (forall c, lookup k m = Some c -> c = D3Sizes.occ k ks /\ (In k ids \/ In k ks))
  /\ (In k ids -> lookup k m = Some (D3Sizes.occ k ks)).
Proof.
  simpl. rewrite bumps_lookup. unfold D3Sizes.zeros. rewrite zeros_lookup.
  simpl. destruct (existsb (str_eqb k) ids) eqn:X.
  - apply existsb_str_in in X. split.
    + intros c H. inversion H. auto.
    + reflexivity.
  - split.
    + intros c H. destruct (D3Sizes.occ k ks) as [|n] eqn:O; simpl in H;
        [discriminate|]. inversion H. split; [reflexivity|]. right.
      unfold D3Sizes.occ in O.
      destruct (filter (fun x => str_eqb x k) ks) as [|x l] eqn:F;
        [discriminate|].
      assert (I : In x (filter (fun x => str_eqb x k) ks))
        by (rewrite F; now left).
      apply filter_In in I as [I E]. apply str_eqb_eq in E. now subst.
    + intro I. apply existsb_str_in in I. congruence.
Qed.

Lemma counted_nodup (ids ks : list str) :
  NoDup (List.map fst (fold_left D3Sizes.bump ks (D3Sizes.zeros ids))).
Proof.
  apply bumps_nodup. unfold D3Sizes.zeros. apply zeros_nodup. constructor.
Qed.

Lemma in_nodup_lookup {A} (k : str) (v : A) (m : list (str * A)) :
  NoDup (List.map fst m) -> In (k, v) m -> lookup k m = Some v.
Proof.
  induction m as [|[k' v'] m IH]; simpl; intros N I; [destruct I|].
  inversion N as [|? ? Hn N']; subst.
  destruct I as [E|I].
  - inversion E; subst. destruct (str_eq_dec k k); congruence.
  - destruct (str_eq_dec k k') as [->|Ne]; [|auto].
    destruct Hn. change k' with (fst (k', v)). now apply in_map.
Qed.

Lemma sizeBy_bounds (ids ks : list str) (i : str) :
  In i ids ->
  exists r,
    D3Sizes.sizeBy (fold_left D3Sizes.bump ks (D3Sizes.zeros ids)) i = Some r
    /\ 5 <= r /\ r <= 20.
Proof.
  intro I. destruct (counted ids ks i) as [_ L]. specialize (L I).
  unfold D3Sizes.sizeBy. simpl in L. rewrite L.
  eexists. split; [reflexivity|].
  set (vs := List.map snd (fold_left D3Sizes.bump ks (D3Sizes.zeros ids))).
  assert (Iv : In (D3Sizes.occ i ks) vs).
  { subst vs. apply lookup_in in L.
    change (D3Sizes.occ i ks) with (snd (i, D3Sizes.occ i ks)).
    now apply in_map. }
  pose proof (degreeRadius_bounds (maxDegree_ge vs _ Iv)) as B.
  pose proof (degree_formula (D3Sizes.occ i ks) vs) as F.
  rewrite F. exact B.
Qed.

(** X21. The d3 canvas gives every node a radius between 5 and 20.  When
    no node id and no end of an edge is the name of a member of
    [Object.prototype], in each of the three sizing modes there is one
    radius for each node, it is a number, and it is at least 5 and at
    most 20, also when edges name ids that are not nodes (their counts
    enter the maximum). *)
Theorem d3_node_sizes_in_range (sizingMode : D3Sizes.SizingMode)
        (ids : list str) (edges : list (str * str)) :
  D3Sizes.plainNames ids edges = true ->
  List.length (D3Sizes.nodeSizes sizingMode ids edges) = List.length ids
  /\ Forall (fun size => exists r, size = Some r /\ 5 <= r /\ r <= 20)
            (D3Sizes.nodeSizes sizingMode ids edges).
Proof.
  intros _. unfold D3Sizes.nodeSizes, D3Sizes.counts.
  rewrite countEdge_fold, zeroCounts_zeros. simpl.
  destruct sizingMode; rewrite length_map; (split; [reflexivity|]);
    apply Forall_map, Forall_forall; intros i I.
  - exists 8. repeat split; discriminate.
  - now apply sizeBy_bounds.
  - now apply sizeBy_bounds.
Qed.

Lemma maxDegree_le (l : list nat) (n : nat) :
  (forall x, In x l -> (x <= n)%nat) -> (GraphView.maxDegree l <= n)%nat.
Proof.
  unfold GraphView.maxDegree.
  induction l as [|a l IH]; intro H; simpl; [lia|].
  apply Nat.max_lub; [apply H; now left | apply IH; intros; apply H; now right].
Qed.

Lemma maxWithOne_same (l l' : list nat) :
  (forall x, In x l <-> In x l') ->
  GraphView.maxWithOne l = GraphView.maxWithOne l'.
Proof.
  intro H. rewrite !maxWithOne_maxDegree. f_equal.
  apply Nat.le_antisymm; apply maxDegree_le; intros x I;
    apply maxDegree_ge, H, I.
Qed.

Lemma occ_degree (f : GraphView.Edge -> str) (edges : list GraphView.Edge)
      (k : str) :
  D3Sizes.occ k (List.map f edges)
  = List.length (filter (fun e => str_eqb (f e) k) edges).
Proof.
  unfold D3Sizes.occ.
  rewrite (filter_map_swap f (fun x => str_eqb x k)). apply length_map.
Qed.

(** The sizes by one of the two counts agree with those of the plain
    canvas when every counted end is a node. *)
Lemma sizeBy_agrees (f : GraphView.Edge -> str)
      (nodes : list GraphView.Node) (edges : list GraphView.Edge) :
  (forall e, In e edges -> In (f e) (List.map GraphView.id nodes)) ->
  let degree := fun i => List.length (filter (fun e => str_eqb (f e) i) edges) in
  List.map (D3Sizes.sizeBy
              (fold_left D3Sizes.bump (List.map f edges)
                         (D3Sizes.zeros (List.map GraphView.id nodes))))
           (List.map GraphView.id nodes)
  = List.map
      (fun n =>
         Some (5 + (GraphView.ofNat (degree (GraphView.id n))
                    / GraphView.ofNat
                        (GraphView.maxWithOne
                           (List.map (fun n => degree (GraphView.id n)) nodes)))
                   * 15))
      nodes.
Proof.
  intros C degree. rewrite map_map. apply map_ext_in. intros n I.
  set (ids := List.map GraphView.id nodes).
  set (m := fold_left D3Sizes.bump (List.map f edges) (D3Sizes.zeros ids)).
  assert (Ii : In (GraphView.id n) ids) by (subst ids; now apply in_map).
  destruct (counted ids (List.map f edges) (GraphView.id n)) as [_ L].
  specialize (L Ii). simpl in L. fold m in L.
  unfold D3Sizes.sizeBy. rewrite L, occ_degree. fold (degree (GraphView.id n)).
  do 5 f_equal. apply maxWithOne_same. intro x. split.
  - intro Ix. apply in_map_iff in Ix as ([k v] & <- & Ikv). simpl.
    apply in_nodup_lookup in Ikv; [|apply counted_nodup].
    destruct (counted ids (List.map f edges) k) as [V _].
    destruct (V v Ikv) as [-> K].
    assert (Ik : In k ids).
    { destruct K as [K|K]; [exact K|].
      apply in_map_iff in K as (e & <- & Ie). now apply C. }
    apply in_map_iff in Ik as (n' & <- & In'). rewrite occ_degree.
    apply in_map_iff. exists n'. split; [reflexivity | exact In'].
  - intro Ix. apply in_map_iff in Ix as (n' & <- & In').
    destruct (counted ids (List.map f edges) (GraphView.id n')) as [_ L'].
    assert (Ii' : In (GraphView.id n') ids) by (subst ids; now apply in_map).
    specialize (L' Ii'). simpl in L'. rewrite occ_degree in L'.
    apply lookup_in in L'.
    change (degree (GraphView.id n'))
      with (snd (GraphView.id n', degree (GraphView.id n'))).
    now apply in_map.
Qed.

(** X22. The d3 canvas sizes nodes as the plain canvas does.  When both
    ends of every edge are nodes and no node id is the name of a member
    of [Object.prototype], the radii that the d3 canvas computes in the
    modes [uniform], [incoming] and [outgoing] are, node by node, the
    radii that [getNodeSize] of the plain canvas computes. *)
Theorem d3_sizes_agree_with_graph_view
        (Number_ : Json -> option Q) (nodeSizingProperty : option str)
        (nodes : list GraphView.Node) (edges : list GraphView.Edge) :
  GraphCanvas.closed nodes edges ->
  forallb ownKey (List.map GraphView.id nodes) = true ->
  let ids := List.map GraphView.id nodes in
  let ends := List.map GraphVisualizer.edgeEnds edges in
  let sizes := fun mode =>
    List.map (GraphView.getNodeSize Number_ mode nodeSizingProperty
                                    nodes edges) nodes in
  D3Sizes.nodeSizes D3Sizes.Uniform ids ends = sizes GraphView.Uniform
  /\ D3Sizes.nodeSizes D3Sizes.Incoming ids ends = sizes GraphView.Incoming
  /\ D3Sizes.nodeSizes D3Sizes.Outgoing ids ends = sizes GraphView.Outgoing.
Proof.
  intros C _. unfold GraphCanvas.closed in C. rewrite Forall_forall in C.
  cbv zeta. unfold D3Sizes.nodeSizes, D3Sizes.counts.
  rewrite countEdge_fold, zeroCounts_zeros. cbn [fst snd].
  rewrite !map_map. cbn [GraphVisualizer.edgeEnds fst snd].
  split; [|split].
  - reflexivity.
  - rewrite <- (map_map GraphView.id
                        (D3Sizes.sizeBy
                           (fold_left D3Sizes.bump
                                      (List.map (fun e => GraphView.to e) edges)
                                      (D3Sizes.zeros
                                         (List.map GraphView.id nodes))))).
    apply (@sizeBy_agrees (fun e => GraphView.to e) nodes edges).
    intros e I. apply (C e I).
  - rewrite <- (map_map GraphView.id
                        (D3Sizes.sizeBy
                           (fold_left D3Sizes.bump
                                      (List.map (fun e => GraphView.from e) edges)
                                      (D3Sizes.zeros
                                         (List.map GraphView.id nodes))))).
    apply (@sizeBy_agrees (fun e => GraphView.from e) nodes edges).
    intros e I. apply (C e I).
Qed.

(** ** The d3 canvas: dragging a node *)

Lemma find_updateFirst {A} (test : A -> bool) (f : A -> A) (l : list A)
      (a : A) :
  find test l = Some a -> test (f a) = true ->
  find test (D3Drag.updateFirst test f l) = Some (f a).
Proof.
  intros F T. induction l as [|b l IH]; simpl in *; [discriminate|].
  destruct (test b) eqn:E.
  - injection F as <-. simpl. rewrite T. reflexivity.
  - simpl. rewrite E. apply IH. exact F.
Qed.

Lemma hasId_true (i : str) (n : D3Graph.Obj) :
  D3Drag.hasId i n = true <-> lookup (lit "id") n = Some (JStr i).
Proof.
  unfold D3Drag.hasId.
  destruct (lookup (lit "id") n) as [[| | |s| |]|]; split;
    try discriminate; intro H.
  - apply str_eqb_eq in H. now subst.
  - injection H as ->. now apply str_eqb_eq.
Qed.

Lemma pin_position (x y : Q) (n : D3Graph.Obj) :
  lookup (lit "x") (D3Drag.pin x y n) = Some (JNum x)
  /\ lookup (lit "y") (D3Drag.pin x y n) = Some (JNum y)
  /\ lookup (lit "fx") (D3Drag.pin x y n) = Some (JNum x)
  /\ lookup (lit "fy") (D3Drag.pin x y n) = Some (JNum y)
  /\ forall key, ~ D3Drag.positionKey key ->
                 lookup key (D3Drag.pin x y n) = lookup key n.
Proof.
  unfold D3Drag.pin.
  assert (D : forall a b : String.string,
             (if str_eq_dec (lit a) (lit b) then true else false) = false ->
             lit a <> lit b).
  { intros a b H E. rewrite E in H.
    destruct (str_eq_dec (lit b) (lit b)); congruence. }
  repeat split.
  - rewrite !lookup_map_set_other by (apply D; reflexivity).
    apply lookup_map_set_same.
  - rewrite !lookup_map_set_other by (apply D; reflexivity).
    apply lookup_map_set_same.
  - rewrite !lookup_map_set_other by (apply D; reflexivity).
    apply lookup_map_set_same.
  - apply lookup_map_set_same.
  - intros key K. unfold D3Drag.positionKey in K.
    rewrite !lookup_map_set_other; [reflexivity | | | |]; intro E; tauto.
Qed.

Lemma committed_pin (i : str) (x y : Q) (objs : list D3Graph.Obj)
      (node : D3Graph.Obj) :
  find (D3Drag.hasId i) objs = Some node ->
  D3Drag.committed i (x, y) objs
                   (D3Drag.updateFirst (D3Drag.hasId i) (D3Drag.pin x y) objs).
Proof.
  induction objs as [|a objs IH]; simpl; [discriminate|].
  destruct (D3Drag.hasId i a) eqn:E.
  - intros _. exists [], a, (D3Drag.pin x y a), objs.
    destruct (pin_position x y a) as (P1 & P2 & P3 & P4 & P5).
    repeat split; auto. now apply hasId_true.
  - intro F. destruct (IH F) as (b & n & n' & r & O & N & Fb & I & P).
    exists (a :: b), n, n', r. rewrite O at 1. rewrite N.
    repeat split; try tauto.
    constructor; [|exact Fb].
    intro L. apply hasId_true in L. congruence.
Qed.

Lemma d3Point_pointerAt (rect : Q * Q) (t : D3Drag.Transform) (m : Q * Q) :
  ~ D3Drag.k t == 0 ->
  D3Drag.pointerAt rect t m (d3Point rect t m).
Proof.
  intro K. unfold D3Drag.pointerAt, d3Point. simpl. split; field; exact K.
Qed.

(** One move while node [i] is held. *)
Lemma d3_move (i : str) (rect : Q * Q) (st w : D3Drag.State)
      (c : D3Drag.Circle) (m : Q * Q) :
  nonempty i = true -> d3Dragging i rect st w ->
  find (fun c => str_eqb (D3Drag.data_id c) i) (D3Drag.circles w) = Some c ->
  let w' := D3Drag.handleMouseMove w (fst m) (snd m) in
  d3Dragging i rect st w'
  /\ exists c',
       find (fun c => str_eqb (D3Drag.data_id c) i) (D3Drag.circles w')
       = Some c'
       /\ D3Drag.centre c' = d3Point rect (D3Drag.zoomTransform st) m.
Proof.
  intros Hi (Dg & Cn & Tr & Sv & Ct & Zt & No & Li) F.
  unfold D3Drag.handleMouseMove, D3Drag.held.
  rewrite Dg, Cn, Hi, Sv, Ct, Tr. destruct rect as [rl rt]. cbv zeta.
  split.
  - repeat split; simpl; auto.
  - eexists. split.
    + cbn [D3Drag.circles]. apply find_updateFirst; [exact F|].
      simpl. apply find_some in F. tauto.
    + reflexivity.
Qed.

(** The moves of a gesture emit nothing and leave the circle at the
    point of the last one. *)
Lemma d3_moves (first : D3Graph.Props) (i : str) (rect : Q * Q)
      (st : D3Drag.State) (moves : list (Q * Q)) :
  nonempty i = true ->
  forall (w : D3Drag.State) (c : D3Drag.Circle),
    d3Dragging i rect st w ->
    find (fun c => str_eqb (D3Drag.data_id c) i) (D3Drag.circles w) = Some c ->
    let r := D3Drag.run first w (D3Drag.moveEvents moves) in
    snd r = []
    /\ d3Dragging i rect st (fst r)
    /\ exists c',
         find (fun c => str_eqb (D3Drag.data_id c) i) (D3Drag.circles (fst r))
         = Some c'
         /\ D3Drag.centre c'
            = match rev moves with
              | [] => D3Drag.centre c
              | m :: _ => d3Point rect (D3Drag.zoomTransform st) m
              end.
Proof.
  intro Hi. induction moves as [|m moves IH]; intros w c D F.
  - simpl. split; [reflexivity|]. split; [exact D|]. now exists c.
  - cbn [D3Drag.moveEvents List.map D3Drag.run D3Drag.step].
    fold (D3Drag.moveEvents moves).
    assert (Li : D3Drag.listening w = true) by (destruct D; tauto).
    rewrite Li.
    destruct (@d3_move i rect st w c m Hi D F) as (D' & c1 & F1 & C1).
    specialize (IH _ c1 D' F1). cbv zeta in IH.
    destruct (D3Drag.run first (D3Drag.handleMouseMove w (fst m) (snd m))
                         (D3Drag.moveEvents moves)) as [w2 o2].
    simpl in IH. destruct IH as (O2 & D2 & c2 & F2 & C2).
    cbn [fst snd app]. split; [exact O2|]. split; [exact D2|].
    exists c2. split; [exact F2|]. rewrite C2. simpl.
    destruct (rev moves) as [|m' ms]; simpl; [exact C1 | reflexivity].
Qed.

Lemma d3_run_app (first : D3Graph.Props) (st : D3Drag.State)
      (a b : list D3Drag.Event) :
  D3Drag.run first st (a ++ b)
  = (fst (D3Drag.run first (fst (D3Drag.run first st a)) b),
     snd (D3Drag.run first st a)
     ++ snd (D3Drag.run first (fst (D3Drag.run first st a)) b)).
Proof.
  revert st. induction a as [|e a IH]; intro st; simpl.
  - destruct (D3Drag.run first st b); reflexivity.
  - destruct (D3Drag.step first st e) as [s1 o1]. rewrite IH.
    destruct (D3Drag.run first s1 a) as [s2 o2]; simpl.
    destruct (D3Drag.run first s2 b) as [s3 o3]; simpl.
    now rewrite app_assoc.
Qed.

(** X26. The drag of the d3 canvas.  With the svg and its container mounted,
    for a node [i] that has a circle in the drawing and an object in the
    collection, whose id is not empty and is [selectable], and a zoom
    scale that is not 0: the moves of the drag emit nothing; the release
    commits the final position (the point of the graph under the pointer
    at the last move, by the transform the gesture began with; the
    centre of the circle when the pointer did not move) into the first
    node of id [i], as [x], [y], [fx] and [fy], changing nothing else of
    the collection; it emits one update when the first render had the
    callback, none otherwise, carrying the collection so changed and
    the edges of the first render; the circle is drawn at the
    committed position and the gesture is over. *)
Theorem d3_drag_commit (first : D3Graph.Props) (st : D3Drag.State)
        (rect : Q * Q) (i : str) (c : D3Drag.Circle) (node : D3Graph.Obj)
        (moves : list (Q * Q)) :
  D3Drag.svg st = Some rect ->
  D3Drag.container st = true ->
  nonempty i = true ->
  D3Drag.selectable i = true ->
  ~ D3Drag.k (D3Drag.zoomTransform st) == 0 ->
  find (fun c => str_eqb (D3Drag.data_id c) i) (D3Drag.circles st) = Some c ->
  find (D3Drag.hasId i) (D3Drag.nodeObjects st) = Some node ->
  let r := D3Drag.run first st (D3Drag.drag i moves) in
  exists pos,
    D3Drag.finalPosition rect (D3Drag.zoomTransform st) (D3Drag.centre c)
                         moves pos
    /\ D3Drag.committed i pos (D3Drag.nodeObjects st)
                        (D3Drag.nodeObjects (fst r))
    /\ snd r = (if D3Graph.onGraphUpdate first
                then [D3Graph.GraphUpdate
                        (List.map JObj (D3Drag.nodeObjects (fst r)))
                        (List.map JObj (D3Graph.edges first))]
                else [])
    /\ (exists c',
          find (fun c => str_eqb (D3Drag.data_id c) i)
               (D3Drag.circles (fst r)) = Some c'
          /\ D3Drag.centre c' = pos)
    /\ D3Drag.isDragging (fst r) = false
    /\ D3Drag.currentNode (fst r) = None
    /\ D3Drag.listening (fst r) = false
    /\ forall moves',
         snd (D3Drag.run first st
                (D3Drag.NodeMouseDown i :: D3Drag.moveEvents moves')) = [].
Proof.
  intros Sv Ct Hi _ K Fc Fn r.
  set (st1 := D3Drag.handleNodeMouseDown st i).
  assert (D1 : d3Dragging i rect st st1).
  { subst st1. unfold D3Drag.handleNodeMouseDown. rewrite Sv.
    repeat split; simpl; auto. }
  assert (F1 : find (fun c => str_eqb (D3Drag.data_id c) i)
                    (D3Drag.circles st1) = Some c) by exact Fc.
  assert (G : forall evs,
             D3Drag.run first st (D3Drag.NodeMouseDown i :: evs)
             = D3Drag.run first st1 evs).
  { intro evs. cbn [D3Drag.run D3Drag.step]. fold st1.
    destruct (D3Drag.run first st1 evs). reflexivity. }
  assert (Before : forall moves',
             snd (D3Drag.run first st
                    (D3Drag.NodeMouseDown i :: D3Drag.moveEvents moves'))
             = []).
  { intro moves'. rewrite G.
    destruct (@d3_moves first i rect st moves' Hi st1 c D1 F1) as (O & _).
    exact O. }
  destruct (@d3_moves first i rect st moves Hi st1 c D1 F1)
    as (O & D & c' & F' & C').
  subst r. unfold D3Drag.drag. rewrite G, d3_run_app, O.
  set (w := fst (D3Drag.run first st1 (D3Drag.moveEvents moves))) in *.
  destruct D as (Dg & Cn & Tr & Sv' & Ct' & Zt & No & Li).
  cbn [D3Drag.run D3Drag.step]. rewrite Li.
  unfold D3Drag.handleMouseUp, D3Drag.held.
  rewrite Dg, Cn, Hi, Sv', F', No, Fn.
  cbn [fst snd app D3Drag.nodeObjects D3Drag.circles D3Drag.isDragging
       D3Drag.currentNode D3Drag.listening].
  exists (D3Drag.centre c').
  split.
  { unfold D3Drag.finalPosition. rewrite C'.
    destruct (rev moves) as [|m ms]; [reflexivity|].
    apply d3Point_pointerAt. exact K. }
  split.
  { apply (@committed_pin i (D3Drag.parseFloatOr0 (D3Drag.cx c'))
                          (D3Drag.parseFloatOr0 (D3Drag.cy c'))
                          (D3Drag.nodeObjects st) node Fn). }
  split.
  { rewrite app_nil_r. reflexivity. }
  split; [exists c'; split; [exact F' | reflexivity]|].
  repeat split; auto.
Qed.

(** ** The PlantUML text *)

Lemma sanitize_identifier (s : str) : PlantUML.identifier (PlantUML.sanitize s).
Proof.
  unfold PlantUML.identifier, PlantUML.sanitize.
  induction s as [|c s IH]; simpl; [reflexivity|].
  rewrite IH, andb_true_r.
  destruct (PlantUML.wordChar c) eqn:W; [exact W | reflexivity].
Qed.

Lemma sanitize_fixed (s : str) :
  PlantUML.identifier s -> PlantUML.sanitize s = s.
Proof.
  unfold PlantUML.identifier, PlantUML.sanitize.
  induction s as [|c s IH]; simpl; [reflexivity|].
  intro H. apply andb_true_iff in H as [W F]. now rewrite W, IH.
Qed.

(** X23. The aliases of the PlantUML text are identifiers.  The alias
    made from an id has as many code units as the id, consists of
    letters, digits and [_] only, and keeps every such code unit of the
    id in its place; an id that is an identifier already is its own
    alias, and making an alias of an alias changes nothing. *)
Theorem plantuml_aliases_are_identifiers (nodeId : str) :
  PlantUML.identifier (PlantUML.sanitize nodeId)
  /\ List.length (PlantUML.sanitize nodeId) = List.length nodeId
  /\ (forall k c, nth_error nodeId k = Some c ->
                  nth_error (PlantUML.sanitize nodeId) k
                  = Some (if PlantUML.wordChar c then c
                          else PlantUML.underscore))
  /\ (PlantUML.identifier nodeId -> PlantUML.sanitize nodeId = nodeId)
  /\ PlantUML.sanitize (PlantUML.sanitize nodeId) = PlantUML.sanitize nodeId.
Proof.
  split; [apply sanitize_identifier|]. split; [apply length_map|].
  split; [|split].
  - intros k c H. unfold PlantUML.sanitize. rewrite nth_error_map, H.
    reflexivity.
  - apply sanitize_fixed.
  - apply sanitize_fixed, sanitize_identifier.
Qed.

Lemma fold_append {A} (f : A -> str) (l : list A) (acc : str) :
  fold_left (fun text a => text ++ f a) l acc = acc ++ concat (List.map f l).
Proof.
  revert acc. induction l as [|a l IH]; intro acc; simpl.
  - now rewrite app_nil_r.
  - rewrite IH. now rewrite <- app_assoc.
Qed.

(** X24. The PlantUML text of a parsed graph.  The text is the header,
    one line for each node, an empty line, one line for each link, and
    [@enduml]; and for a graph that [parseGraphData] returned, every
    link line joins two aliases that node lines of the same text
    declare. *)
Theorem plantuml_of_parsed_graph
        (String_ : Json -> str) (JSON_parse : str -> Json + str)
        (connectionsText propertiesText : str) (g : GraphParser.GraphData) :
  fst (GraphParser.parseGraphData JSON_parse connectionsText propertiesText)
  = inl g ->
  PlantUML.exportToPlantUML String_ g
  = PlantUML.header
    ++ concat (List.map (PlantUML.nodeLine String_) (GraphParser.nodes g))
    ++ [GraphParser.newline_]
    ++ concat (List.map PlantUML.linkLine (GraphParser.links g))
    ++ lit "@enduml"
  /\ forall link,
       In link (GraphParser.links g) ->
       exists source target,
         In source (GraphParser.nodes g) /\ In target (GraphParser.nodes g)
         /\ GraphParser.id source = GraphParser.source link
         /\ GraphParser.id target = GraphParser.target link
         /\ PlantUML.nodeLine String_ source
            = lit "node " ++ [PlantUML.doubleQuote]
              ++ PlantUML.nodeName String_ source ++ [PlantUML.doubleQuote]
              ++ lit " as " ++ PlantUML.sanitize (GraphParser.source link)
              ++ PlantUML.colorPart (PlantUML.nodeColor source)
              ++ [GraphParser.newline_]
         /\ PlantUML.nodeLine String_ target
            = lit "node " ++ [PlantUML.doubleQuote]
              ++ PlantUML.nodeName String_ target ++ [PlantUML.doubleQuote]
              ++ lit " as " ++ PlantUML.sanitize (GraphParser.target link)
              ++ PlantUML.colorPart (PlantUML.nodeColor target)
              ++ [GraphParser.newline_]
         /\ exists rest,
              PlantUML.linkLine link
              = PlantUML.sanitize (GraphParser.source link) ++ lit " --> "
                ++ PlantUML.sanitize (GraphParser.target link) ++ rest.
Proof.
  intro H. split.
  - unfold PlantUML.exportToPlantUML. rewrite !fold_append.
    now rewrite <- !app_assoc.
  - intros link I.
    assert (E : GraphParser.links g
                = GraphParser.edgesOf
                    (GraphParser.connectionsOf connectionsText)).
    { destruct (parseConnections_spec connectionsText) as [L _]. simpl in L.
      unfold GraphParser.parseGraphData in H.
      destruct (nonempty (trim propertiesText)).
      - destruct (GraphParser.parseProperties _ _ _); simpl in H;
          [|discriminate]. inversion H; subst. exact L.
      - simpl in H. inversion H; subst. exact L. }
    assert (Ids : forall k,
               In k (ParsedGraph.endpointIds
                       (GraphParser.connectionsOf connectionsText)) ->
               exists n, In n (GraphParser.nodes g) /\ GraphParser.id n = k).
    { intros k Ik.
      assert (J : In k (List.map GraphParser.id (GraphParser.nodes g))).
      { rewrite (parsed_ids _ _ _ H). unfold ParsedGraph.firstSeen.
        apply (fold_setAdd _ (NoDup_nil str)). right.
        apply in_or_app. now left. }
      apply in_map_iff in J as (n & En & In'). now exists n. }
    assert (Is : In (GraphParser.source link)
                    (ParsedGraph.endpointIds
                       (GraphParser.connectionsOf connectionsText))
                 /\ In (GraphParser.target link)
                       (ParsedGraph.endpointIds
                          (GraphParser.connectionsOf connectionsText))).
    { unfold ParsedGraph.endpointIds. rewrite <- E.
      split; apply in_flat_map; exists link; simpl; auto. }
    destruct Is as [Is It].
    destruct (Ids _ Is) as (s & Ins & Es).
    destruct (Ids _ It) as (t & Int & Et).
    exists s, t. repeat split; auto.
    + unfold PlantUML.nodeLine. now rewrite Es.
    + unfold PlantUML.nodeLine. now rewrite Et.
    + eexists. unfold PlantUML.linkLine. reflexivity.
Qed.

(** ** Hiding and showing groups *)

Lemma existsb_same_members (k : str) (a b : list str) :
  (forall x, In x a <-> In x b) ->
  existsb (str_eqb k) a = existsb (str_eqb k) b.
Proof.
  intro H. apply existsb_same. apply H.
Qed.

Lemma toggle_members (group : str) (hiddenGroups : list str) (x : str) :
  In x (GraphVisualizer.toggleGroupVisibility group hiddenGroups)
  <-> (In x hiddenGroups /\ x <> group)
      \/ (x = group /\ ~ In group hiddenGroups).
Proof.
  unfold GraphVisualizer.toggleGroupVisibility.
  destruct (existsb (str_eqb group) hiddenGroups) eqn:E.
  - apply existsb_str_in in E. rewrite filter_In, negb_true_iff, str_eqb_neq.
    split; [left; tauto|]. intros [H|[-> H]]; tauto.
  - assert (N : ~ In group hiddenGroups).
    { intro I. apply existsb_str_in in I. congruence. }
    rewrite in_app_iff. simpl. split.
    + intros [I|[<-|[]]]; [left|right]; split; auto. congruence.
    + intros [[I _]|[-> _]]; auto.
Qed.

Lemma visibleNodes_same_members (a b : list str)
      (groupColorMap : list (str * str)) (ns : list GraphVisualizer.Node) :
  (forall x, In x a <-> In x b) ->
  GraphVisualizer.visibleNodes a groupColorMap ns
  = GraphVisualizer.visibleNodes b groupColorMap ns.
Proof.
  intro H. unfold GraphVisualizer.visibleNodes. f_equal.
  apply filter_ext. intro n. unfold GraphVisualizer.isHidden.
  now rewrite (@existsb_same_members (GraphVisualizer.groupOf n) a b H).
Qed.

Lemma hide_one (hiddenGroups : list str) (group : str)
      (ns : list GraphVisualizer.Node) :
  filter (fun node =>
            negb (GraphVisualizer.isHidden (hiddenGroups ++ [group]) node)) ns
  = filter (fun node => negb (str_eqb (GraphVisualizer.groupOf node) group))
           (filter (fun node =>
                      negb (GraphVisualizer.isHidden hiddenGroups node)) ns).
Proof.
  induction ns as [|n ns IH]; cbn [filter]; [reflexivity|].
  assert (H : GraphVisualizer.isHidden (hiddenGroups ++ [group]) n
              = GraphVisualizer.isHidden hiddenGroups n
                || str_eqb (GraphVisualizer.groupOf n) group).
  { unfold GraphVisualizer.isHidden. rewrite existsb_app. simpl.
    now rewrite orb_false_r. }
  rewrite H.
  destruct (GraphVisualizer.isHidden hiddenGroups n); simpl; [exact IH|].
  destruct (str_eqb (GraphVisualizer.groupOf n) group); simpl;
    [exact IH | now rewrite IH].
Qed.

(** X25. Hiding a group hides exactly its nodes, and showing it again
    brings them back.  Toggling a group that is shown removes from the
    visible nodes those of the group and no others, leaving the rest in
    their order; toggling any group twice leaves the visible nodes as
    they were. *)
Theorem toggling_a_group (group : str) (hiddenGroups : list str)
        (groupColorMap : list (str * str))
        (ns : list GraphVisualizer.Node) :
  (~ In group hiddenGroups ->
   GraphVisualizer.visibleNodes
     (GraphVisualizer.toggleGroupVisibility group hiddenGroups)
     groupColorMap ns
   = filter (fun node => negb (str_eqb (GraphVisualizer.groupOf node) group))
            (GraphVisualizer.visibleNodes hiddenGroups groupColorMap ns))
  /\ GraphVisualizer.visibleNodes
       (GraphVisualizer.toggleGroupVisibility
          group (GraphVisualizer.toggleGroupVisibility group hiddenGroups))
       groupColorMap ns
     = GraphVisualizer.visibleNodes hiddenGroups groupColorMap ns.
Proof.
  split.
  - intro N. unfold GraphVisualizer.toggleGroupVisibility.
    assert (E : existsb (str_eqb group) hiddenGroups = false).
    { destruct (existsb (str_eqb group) hiddenGroups) eqn:E; [|reflexivity].
      apply existsb_str_in in E. contradiction. }
    rewrite E. unfold GraphVisualizer.visibleNodes.
    rewrite filter_map_swap. f_equal.
    exact (hide_one hiddenGroups group ns).
  - apply visibleNodes_same_members. intro x.
    rewrite !toggle_members.
    destruct (str_eq_dec x group) as [->|Ne]; [|tauto].
    destruct (in_dec str_eq_dec group hiddenGroups); tauto.
Qed.

(** ** The further properties at sample inputs *)

(** X4 for a sequence of controls on the sample view. *)
Lemma zoom_stays_in_range_witness :
  1 # 10 <= GraphView.zoom
              (fst (GraphCanvas.controls sampleCallbacks sampleView
                                         sampleControls))
  /\ GraphView.zoom
       (fst (GraphCanvas.controls sampleCallbacks sampleView sampleControls))
     <= 5.
Proof.
  apply (@zoom_stays_in_range sampleCallbacks sampleControls sampleView).
  split; unfold Qle; simpl; lia.
Defined.

(** X5 for a press at (5, 5), a move to (6, 7) that is rendered, and
    moves to (20, 30) and (21, 31) before the next render: the pan goes
    from (0, 0) to (1 + 14 + 15, 2 + 23 + 24). *)
Lemma pan_gesture_witness :
  let r := GraphView.run sampleProps
             (GraphView.mkSession sampleView sampleView)
             (GraphCanvas.panGesture (5, 5) [(6, 7)] [(20, 30); (21, 31)]) in
  snd r = []
  /\ fst (GraphView.pan (GraphView.current (fst r)))
     == 0 + (6 - 5) + ((20 - 6) + ((21 - 6) + 0))
  /\ snd (GraphView.pan (GraphView.current (fst r)))
     == 0 + (7 - 5) + ((30 - 7) + ((31 - 7) + 0)).
Proof.
  destruct (@pan_gesture sampleProps (0, 0) sampleView (5, 5)
                         [(6, 7)] [(20, 30); (21, 31)] eq_refl eq_refl)
    as (O & _ & _ & _ & _ & _ & PX & PY & _).
  split; [exact O|]. split; [exact PX | exact PY].
Defined.

(** X7 for the sample canvas receiving A with other coordinates and a
    new node D. *)
Lemma sync_keeps_positions_witness :
  List.map GraphView.id
    (GraphView.nodes
       (GraphCanvas.view
          (GraphCanvas.syncEffect halves (Some (800, 500))
                                  [placed "A" 0 0; unplaced "D"]
                                  sampleCanvas)))
  = [lit "A"; lit "D"]
  /\ lookup (lit "A")
            (GraphView.nodePositions
               (GraphCanvas.view
                  (GraphCanvas.syncEffect halves (Some (800, 500))
                                          [placed "A" 0 0; unplaced "D"]
                                          sampleCanvas)))
     = Some (10, 10).
Proof.
  destruct (@sync_keeps_positions halves (Some (800, 500))
                                  [placed "A" 0 0; unplaced "D"]
                                  sampleCanvas eq_refl)
    as (I & _ & _ & _ & S & _).
  split; [exact I|].
  apply (proj1 (S (lit "A") (10, 10) eq_refl)).
Defined.

(** X8 for the sample controls on the sample view with stored
    positions. *)
Lemma positions_stay_coherent_witness :
  GraphCanvas.coherent
    (fst (GraphCanvas.controls sampleCallbacks sampleStoredView
                               sampleControls)).
Proof.
  apply (@positions_stay_coherent sampleCallbacks sampleControls
                                  sampleStoredView).
  unfold GraphCanvas.coherent. simpl.
  repeat constructor.
  - exists (10, 10). repeat split; reflexivity.
  - exists (13, 14). repeat split; reflexivity.
  - exists (100, 40). repeat split; reflexivity.
Defined.

(** X9 for the sample canvas. *)
Lemma sync_of_own_nodes_witness :
  GraphCanvas.syncEffect halves (Some (800, 500)) sampleNodes sampleCanvas
  = sampleCanvas.
Proof.
  apply (@sync_of_own_nodes halves (Some (800, 500)) sampleCanvas eq_refl).
  unfold GraphCanvas.coherent. simpl.
  repeat constructor.
  - exists (10, 10). repeat split; reflexivity.
  - exists (13, 14). repeat split; reflexivity.
  - exists (100, 40). repeat split; reflexivity.
Defined.

(** X10 for a container of 800 by 500, a node with a position and one
    without, and a random source that always gives one half. *)
Lemma mount_places_nodes_witness :
  List.map GraphView.id
    (GraphView.nodes
       (GraphCanvas.view
          (GraphCanvas.mount halves (Some (800, 500))
                             [placed "A" 10 10; unplaced "D"])))
  = [lit "A"; lit "D"]
  /\ GraphCanvas.coherent
       (GraphCanvas.view
          (GraphCanvas.mount halves (Some (800, 500))
                             [placed "A" 10 10; unplaced "D"])).
Proof.
  assert (R : forall i, 0 <= halves i /\ halves i < 1).
  { intro i. split; [unfold Qle | unfold Qlt]; simpl; lia. }
  assert (W : 100 <= 800) by (unfold Qle; simpl; lia).
  assert (H : 100 <= 500) by (unfold Qle; simpl; lia).
  destruct (@mount_places_nodes halves 800 500
                                [placed "A" 10 10; unplaced "D"] R W H)
    as (I & C & _).
  split; [exact I | exact C].
Defined.

(** X11 for node A of the sample nodes. *)
Lemma every_node_has_a_fill_witness :
  exists fill,
    GraphView.fillOf
      (GraphView.colorScale (GraphView.groups sampleNodes) [])
      (placed "A" 10 10)
    = Some fill
    /\ fill <> [].
Proof.
  apply (@every_node_has_a_fill sampleNodes [] (placed "A" 10 10)).
  - simpl. left. reflexivity.
  - reflexivity.
Defined.

(** X12 for the first of the sample edges. *)
Lemma edge_marker_is_defined_witness :
  exists fill,
    GraphCanvas.markerFill (GraphCanvas.markerId None (arrow "A" "C"))
                           sampleEdges
    = Some fill
    /\ (GraphCanvas.isOutgoingFromFixedNode None (arrow "A" "C") = true
        \/ GraphView.orElse (GraphView.edge_color (arrow "A" "C")) [] = []
        \/ GraphCanvas.distinctMarkers sampleEdges ->
        fill = GraphCanvas.getEdgeColor None (arrow "A" "C")).
Proof.
  apply (@edge_marker_is_defined None sampleEdges (arrow "A" "C")).
  simpl. left. reflexivity.
Defined.

(** X13 for node C of the sample graph in mode [incoming]: its radius,
    5 + (2 / 2) * 15, is within the range. *)
Lemma radius_between_4_and_20_witness :
  4 <= 40 # 2 /\ 40 # 2 <= 20.
Proof.
  apply (@radius_between_4_and_20 numberOf GraphView.Incoming None
                                  sampleNodes sampleEdges
                                  (placed "C" 100 40) (40 # 2)).
  - simpl. right. right. left. reflexivity.
  - vm_compute. reflexivity.
Defined.

(** X14 for the nodes A at (10, 10) and B at (13, 14), both of radius
    8. *)
Lemma edge_ends_on_the_circles_witness :
  exists ax ay bx by_,
    GraphView.calculateEdgeEndpoints numberOf GraphView.Uniform None
                                     sampleNodes sampleEdges
                                     (placed "A" 10 10) (placed "B" 13 14)
    = Some (GraphView.mkEndpoints (Some ax) (Some ay) (Some bx) (Some by_))
    /\ GraphView.centreDistance 10 10 13 14 <> 0%R
    /\ ((ax - Q2R 10) * (ax - Q2R 10) + (ay - Q2R 10) * (ay - Q2R 10)
        = Q2R 8 * Q2R 8)%R
    /\ ((bx - Q2R 13) * (bx - Q2R 13) + (by_ - Q2R 14) * (by_ - Q2R 14)
        = Q2R 8 * Q2R 8)%R
    /\ (bx - ax
        = (Q2R 13 - Q2R 10)
          * ((GraphView.centreDistance 10 10 13 14 - Q2R 8 - Q2R 8)
             / GraphView.centreDistance 10 10 13 14))%R
    /\ (by_ - ay
        = (Q2R 14 - Q2R 10)
          * ((GraphView.centreDistance 10 10 13 14 - Q2R 8 - Q2R 8)
             / GraphView.centreDistance 10 10 13 14))%R.
Proof.
  apply (@edge_ends_on_the_circles numberOf GraphView.Uniform None
           sampleNodes sampleEdges (placed "A" 10 10) (placed "B" 13 14)
           10 10 13 14 8 8 eq_refl eq_refl eq_refl eq_refl eq_refl eq_refl).
  intros [H _]. vm_compute in H. discriminate H.
Defined.

(** X20 for two nodes in a container of 800 by 500. *)
Lemma createGraph_pins_every_node_witness :
  Forall D3Sizes.pinned
         (List.map D3Sizes.asObject
                   (D3Graph.nodeObjects
                      (D3Graph.createGraph
                         halves (D3Graph.mkProps sampleD3Nodes [] true)
                         emptyD3State))).
Proof.
  assert (C : D3Graph.container emptyD3State <> None) by discriminate.
  assert (N : D3Graph.nodes (D3Graph.mkProps sampleD3Nodes [] true) <> [])
    by discriminate.
  destruct (@createGraph_pins_every_node
              halves (D3Graph.mkProps sampleD3Nodes [] true) emptyD3State C N)
    as (_ & F & _).
  exact F.
Defined.

(** X22 for the sample graph. *)
Lemma d3_sizes_agree_with_graph_view_witness :
  D3Sizes.nodeSizes D3Sizes.Incoming
                    (List.map GraphView.id sampleNodes)
                    (List.map GraphVisualizer.edgeEnds sampleEdges)
  = List.map (GraphView.getNodeSize numberOf GraphView.Incoming None
                                    sampleNodes sampleEdges) sampleNodes.
Proof.
  assert (C : GraphCanvas.closed sampleNodes sampleEdges).
  { unfold GraphCanvas.closed.
    repeat (apply Forall_cons; [split; vm_compute; auto 6|]).
    apply Forall_nil. }
  destruct (@d3_sizes_agree_with_graph_view numberOf None sampleNodes
                                            sampleEdges C eq_refl)
    as (_ & I & _).
  exact I.
Defined.

(** X21 for the ids A, B and an edge from A to an id that is no node. *)
Lemma d3_node_sizes_in_range_witness :
  Forall (fun size => exists r, size = Some r /\ 5 <= r /\ r <= 20)
         (D3Sizes.nodeSizes D3Sizes.Outgoing [lit "A"; lit "B"]
                            [(lit "A", lit "Z")]).
Proof.
  apply (@d3_node_sizes_in_range D3Sizes.Outgoing [lit "A"; lit "B"]
                                 [(lit "A", lit "Z")]).
  reflexivity.
Defined.

(** X24 for the sample graph. *)
Lemma plantuml_of_parsed_graph_witness :
  PlantUML.exportToPlantUML (fun _ => []) sampleGraph
  = PlantUML.header
    ++ concat (List.map (PlantUML.nodeLine (fun _ => []))
                        (GraphParser.nodes sampleGraph))
    ++ [GraphParser.newline_]
    ++ concat (List.map PlantUML.linkLine (GraphParser.links sampleGraph))
    ++ lit "@enduml".
Proof.
  assert (P : fst (GraphParser.parseGraphData
                     RefJSON.parse (lit "A->B, B->A; A - C") sampleProperties)
              = inl sampleGraph) by (vm_compute; reflexivity).
  exact (proj1 (@plantuml_of_parsed_graph
                  (fun _ => []) RefJSON.parse (lit "A->B, B->A; A - C")
                  sampleProperties sampleGraph P)).
Defined.

(** X26 for the drag of A in the sample drawing through (35, 35) to
    (105, 105): the update carries A at (50, 50), the point shown under the pointer
    at scale 2 and shift (5, 5), and the edge of the first render. *)
Lemma d3_drag_commit_witness :
  let r := D3Drag.run sampleFirstProps sampleDrawing
                      (D3Drag.drag (lit "A") [(35, 35); (105, 105)]) in
  exists pos,
    D3Drag.pointerAt (0, 0) (D3Drag.mkTransform 5 5 2) (105, 105) pos
    /\ D3Drag.committed (lit "A") pos (D3Drag.nodeObjects sampleDrawing)
                        (D3Drag.nodeObjects (fst r))
    /\ snd r = [D3Graph.GraphUpdate
                  (List.map JObj (D3Drag.nodeObjects (fst r)))
                  (List.map JObj (D3Graph.edges sampleFirstProps))].
Proof.
  destruct (@d3_drag_commit sampleFirstProps sampleDrawing (0, 0) (lit "A")
              (D3Drag.mkCircle (lit "A") (Some 10) (Some 10))
              (sampleObject "A" 10 10) [(35, 35); (105, 105)]
              eq_refl eq_refl eq_refl eq_refl
              (fun H : 2 == 0 => ltac:(discriminate H))
              eq_refl eq_refl)
    as (pos & P & C & O & _).
  exists pos. split; [exact P|]. split; [exact C | exact O].
Defined.

Example d3_drag_sample :
  let r := D3Drag.run sampleFirstProps sampleDrawing
                      (D3Drag.drag (lit "A") [(35, 35); (105, 105)]) in
  option_map D3Drag.centre (hd_error (D3Drag.circles (fst r)))
  = Some (100 # 2, 100 # 2)
  /\ hd_error (D3Drag.nodeObjects (fst r))
     = Some [ (lit "id", JStr (lit "A")); (lit "label", JStr (lit "A"));
              (lit "x", JNum (100 # 2)); (lit "y", JNum (100 # 2));
              (lit "fx", JNum (100 # 2)); (lit "fy", JNum (100 # 2)) ].
Proof. split; vm_compute; reflexivity. Qed.
